(* ===== verification/_CoqProject ===== *)
-Q . S2P
Prelude.v
Kernel.v
Frame.v
Pipe.v
CharIface.v
MyChar.v
MultiMem.v
MyWait.v
CharClient.v
UserProgs.v
KeySpin.v
RadixWalk.v
IoPort.v
Counters.v
Deferred.v
ProcBuf.v
ProcText.v
FsTree.v
FsLife.v
ListCache.v
MemExamples.v
Loaders.v
UsbSkel.v
UsbLive.v
UsbProbe.v
Devpts.v
DevptsLife.v
Pci.v
Journal.v
FsRead.v
BioRead.v
FsPage.v
FakePata.v
PataPlatform.v
PataHost.v
Devices.v
PlatBus.v
Modules.v
ModSyms.v
Copies.v
