(* ===== verification/Prelude.v ===== *)
(** * QuickDevSkeleton: verification development

    QuickDevSkeleton is a collection of Linux kernel modules in C: character
    devices, a pipe, interrupt and timer examples, platform, PCI and USB
    drivers, a pty file system and small file systems with a journal.  The
    modules do not call each other; what they share is the kernel.  This
    library models their code as executable functions and step relations and
    proves what the modules promise to user programs and to the kernel.

    ** How code becomes definitions

    A C integer is a [Z] and its conversions are the functions [u8 .. s64]
    below; a pointer into an allocation is a [Z], a buffer a list of bytes,
    and an access outside it is [None] ([rd], [wr]).  There are two styles:

    - Data paths (the read, write, seek and ioctl handlers) are functions on a
      record of the device, or, where calls can interleave, steps of a thread
      between two points at which another thread or an interrupt can run.  A
      system is a record of the shared state and the program points of its
      threads; theorems are invariants over [star step].  A wait is a step
      that is not enabled, a crash a result of its own.
    - Control paths (load, unload, probe, remove, journalling) are programs
      [prog A] over the kernel calls of Kernel.v.  The answers of the calls
      are an oracle, a parameter; [conforming] is the documented contract of
      the calls.  [run] keeps the resources held and stops with [Misuse] when
      something is given back that is not held, with [Fault] at a NULL
      dereference.  [safe] is the weakest precondition for all conforming
      oracles, [Balanced] the promise of a module to the module loader.

    The kernel's own code is never modelled: locks, wait queues and list heads
    appear as the state they guard, kernel functions as calls with a contract
    or as parameters with named hypotheses.

    ** Files

    - Prelude.v: integers, buffers, decimal printing, [star], shared tactics.
    - Kernel.v: the kernel calls, [run], [safe], [Balanced], [peq].
    - Frame.v: a routine that is safe alone is safe beside others
      ([safe_frame]), and routines that interleave call by call ([pool]).
    - Pipe.v (protect/pipe.c): the ring buffer, [my_read], [my_write] and
      [my_ioctl] step by step with the semaphore and both wait queues.  The
      handlers refine a bounded queue; no byte is lost or duplicated; mutual
      exclusion, memory safety, progress, no lost wake-up; the reset loses one.
    - CharIface.v: the class [AppendDev], what the three byte buffers promise.
    - MyChar.v (char/mychar.c), MultiMem.v (char/multi_mem.c), MyWait.v
      (time/my_wait.c): those buffers.  MultiMem refines four bounded files
      and its loading is balanced; MyWait has interleaved readers and writers.
    - CharClient.v (char/user_read.c): what those three store and give back,
      proved once against [AppendDev]; the program that reads multi_mem.
    - UserProgs.v (protect/user_read.c, protect/user_ioctl.c, io/user_read.c):
      the programs of the pipe run on the threads of Pipe.v.
    - KeySpin.v (protect/my_spin.c, interrupt/like_irq.c): the keyboard queues;
      the /proc reader of like_irq.c goes step by step, with interrupts between.
    - RadixWalk.v (memory/list_buffer.c): the walk over a radix tree.
    - IoPort.v (io/my_ioport.c, io/my_ioport2.c): registers behind ports, for
      both sizes of [unsigned long]; which ports a read touches.
    - Counters.v (protect/my_atomic.c): two interrupt handlers that interleave
      between the load and the store of a plain counter; the atomic one is
      exact.
    - Deferred.v (interrupt/my_workqueue.c, my_tasklet.c, time/my_timer.c):
      bottom halves: the last interrupt is served, pending work can run; the
      runs that crash at load and unload; the timer ends after a hundred ticks.
    - ProcBuf.v (debug/my_proc.c): a /proc entry that is written and read,
      through a page that a long text does not fit.
      ProcText.v (time/my_time.c, time/my_delay.c, the /proc file of pipe.c):
      texts that fit their page.
    - FsTree.v (fs/*/inode.c, super.c, file_system.c): [lookup] and [readdir]
      of the twelve teaching file systems as a table, their types and names;
      the super block; module references against [rmmod].
    - FsLife.v (the same files by variant, and super_with_journal.c of
      fs/journal and fs/jbd2): every variant as a [fs_module], sessions of
      mounts, lookups and unmounts on it; what a module promises to a session
      is the class [Tidy].  Eight variants leave nothing behind; the
      journalling ones leave a journal per mount, min_mountable a structure.
    - ListCache.v (memory/list_cache.c): the text about the inodes of a file
      system type, its totals and its size, the reference it leaks.
    - MemExamples.v (memory/my_kmalloc.c, my_page1.c, my_vmalloc.c, my_kmap.c).
    - Loaders.v: load and unload routines of pipe.c, my_mutex.c, my_atomic.c,
      irq_disable.c, my_tasklet.c, my_workqueue.c, my_timer.c, my_slab.c,
      skel_drv.c, key_char_platform.c, my_irq.c; all balanced modules one
      after the other.
    - Modules.v: the load and unload routines of twenty modules at the same
      time (my_spin.c also serves interrupts and reads), by the rules of
      Frame.v: each keeps what [Balanced] promises, whatever the others do.
    - ModSyms.v (module/, 1_Exported_variable .. 3_Parameter,
      debug/my_print.c): what small modules print, and their symbols.
    - UsbSkel.v, UsbProbe.v (usb/usb-skeleton.c): the I/O side as one
      interleaved system, and the probe with its error paths.  UsbLive.v: a
      bound on the steps of its calls, and that they never wait for each other.
    - Devpts.v (fs/inode_orig.c): mount options, pty indexes, nodes, mounts.
      DevptsLife.v: the operations of Devpts.v composed into one system with
      the references of [devpts_get_ref] and any number of callers; the
      invariant counts references, indexes and nodes against their holders.
    - Pci.v (pci/my_pci2.c, pci/my_pci.c, pci/any.c, net/my_8139.c): the
      register window in two versions, the probes, load and unload.
    - Journal.v (fs/journal, fs/jbd2): the walk over the buffers of a page,
      [writepage], [write_begin], [write_end].
    - FsRead.v (fs/min_read/file.c, fs/sb_bread/read.c): read handlers as
      functions of the position.  BioRead.v (fs/block_page_read/read.c): the
      one that sleeps until its own bio completes, as interleaved steps.
    - FsPage.v (address_mapping.c of fs/bread, fs/submit_bh_readpage,
      fs/get_block, fs/page_cache_read): how a page of the cache gets valid;
      the last as interleaved steps on its one [private_bio].
    - FakePata.v (platform/fake_pata.c): the disk played by a kernel thread.
    - PataPlatform.v (platform/pata_platform.c, fake_pata_driver.c,
      ide_platform.c): the probes and their tables of register addresses.
      PataHost.v: pata_platform.c on the device and the disk of fake_pata.c.
    - Devices.v (platform/skel_dev.c, plat_dev.c, key_char_platform.c): the
      skeleton driver on both devices of its name, the keyboard data path.
    - PlatBus.v (platform/skel_drv.c, skel_dev.c, plat_dev.c): the three
      modules loaded and unloaded in any order on one bus.
    - Copies.v: files whose text is that of another file (time/my_wait2.c,
      debug/my_proc2.c, debug/my_list.c, fs/super_orig.c, parts of fs/write_page,
      fs/buffer_read, fs/jbd2, platform/fake_pata_driver.c).

    Each file has its data and operations first, then lemmas, then the
    properties; the property [X] has its concrete instance in [X_witness].

    ** Fuel and bounds

    Loops of the code are recursive on their data where that is the loop's
    bound.  The others have fuel, with a proof that it is enough:
    [Journal.walk_loop] (one turn of the ring), [RadixWalk.walk_indexes] and
    [count_ring] (the number of indexes, of buffers), [IoPort.fill] (the
    number of registers), [MyWait.solo], [MemExamples.fill] (the bytes asked for),
    [Deferred.Timer.ticks] (ticks of the clock; the theorem gives the number
    after which nothing happens), [UserProgs.alone] (the steps of one system
    call, at most seven; that a call never returns is stated for every fuel),
    [UserProgs.pos_loop] (64 rounds), [UserProgs.user_reads] (the bytes in the
    pipe).  [Pci.alloc_loop] has none that is enough:
    that is the theorem about it.  [digits] has 20 digits, enough for 64 bits.

    ** Not modelled

    Text for the log.  The open and release handlers that only set a pointer
    are identities.  memory/test.c and time/test.c have no behaviour to state,
    debug/wrong_stack_sample.c is inline assembly, and the handlers of
    interrupt/my_irq.c are comments that set an exercise.  Four files do not
    compile as they are: debug/my_list.c (modelled as the copy it is, with the
    declaration it lacks), net/my_8139.c (an unclosed call in the middle of its
    probe, which is modelled from there on; the table of registers above it is
    not used by the code), pci/my_pci.c (its probe is a list of comments and
    its seek uses a field that the structure lacks; its read, write, load and
    unload are modelled) and fs/super_orig.c (a missing header).  What is left
    of the other files are the tables of operations, the text they log,
    comments and the declarations of their headers.  In BioRead.v [alloc_page] and
    [bio_alloc] succeed; in DevptsLife.v a mount gets its instance (the other
    case is [Devpts.devpts_mount_null_deref]). *)
From Stdlib Require Import ZArith Lia.
From stdpp Require Export base tactics list.
From stdpp Require Import numbers strings.
Local Open Scope Z_scope.

(** ** Machine integers

    A C integer of [w] bits is a [Z]; the conversions the code performs are
    written out with [wrapu] (unsigned) and [wraps] (signed, two's
    complement). *)
Definition wrapu (w z : Z) : Z := z mod 2 ^ w.
Definition wraps (w z : Z) : Z := (z + 2 ^ (w - 1)) mod 2 ^ w - 2 ^ (w - 1).

Definition u8 (z : Z) : Z := wrapu 8 z.
Definition u32 (z : Z) : Z := wrapu 32 z.
Definition u64 (z : Z) : Z := wrapu 64 z.
Definition s32 (z : Z) : Z := wraps 32 z.
Definition s64 (z : Z) : Z := wraps 64 z.

(** Truth value of a C expression. *)
Definition c_true (z : Z) : bool := negb (z =? 0).

(** ** Error numbers (POSIX values of the Linux ABI; handlers return them negated) *)
Definition EPERM : Z := 1.
Definition EIO : Z := 5.
Definition EAGAIN : Z := 11.
Definition ENOMEM : Z := 12.
Definition EEXIST : Z := 17.
Definition EFAULT : Z := 14.
Definition EBUSY : Z := 16.
Definition ENODEV : Z := 19.
Definition EINVAL : Z := 22.
Definition ENOTTY : Z := 25.
Definition ENOSPC : Z := 28.
Definition EROFS : Z := 30.
Definition EPIPE : Z := 32.
Definition ERESTARTSYS : Z := 512.

(** ** Byte buffers addressed by [Z] offsets *)
Section Buffers.
Context {A : Type}.

Definition zlen (l : list A) : Z := Z.of_nat (length l).

(** [sl l off n]: the [n] cells from offset [off]. *)
Definition sl (l : list A) (off n : Z) : list A :=
  take (Z.to_nat n) (drop (Z.to_nat off) l).

(** A write of [d] at offset [off] that stays inside the buffer. *)
Definition upd (l : list A) (off : Z) (d : list A) : list A :=
  take (Z.to_nat off) l ++ d ++ drop (Z.to_nat off + length d) l.

(** Bounds check of an access of [n] cells at [off]. *)
Definition in_bounds (l : list A) (off n : Z) : bool :=
  (0 <=? off) && (0 <=? n) && (off + n <=? zlen l).

(** Checked accesses: [None] is an access outside the allocation. *)
Definition rd (l : list A) (off n : Z) : option (list A) :=
  if in_bounds l off n then Some (sl l off n) else None.

Definition wr (l : list A) (off : Z) (d : list A) : option (list A) :=
  if in_bounds l off (zlen d) then Some (upd l off d) else None.

End Buffers.

(** What [copy_from_user] leaves in the kernel buffer when [left] of [n]
    bytes could not be read: the bytes copied, then zero padding. *)
Definition from_user (src : list Z) (n left : Z) : list Z :=
  take (Z.to_nat (n - left)) src ++ replicate (Z.to_nat left) 0.

(** [%d] of [sprintf], as ASCII codes; 20 digits are enough for 64 bits. *)
Fixpoint digits (fuel : nat) (n : Z) : list Z :=
  match fuel with
  | O => []
  | S fuel' => if n <? 10 then [48 + n] else digits fuel' (n / 10) ++ [48 + n mod 10]
  end.

Definition dec (z : Z) : list Z :=
  if z <? 0 then 45 :: digits 20 (- z) else digits 20 z.

(** A string constant as ASCII codes. *)
Definition str (s : string) : list Z :=
  map (fun a => Z.of_nat (Ascii.nat_of_ascii a)) (String.list_ascii_of_string s).

(** The sum of a measure over a list. *)
Definition sum_of {A} (f : A -> Z) (l : list A) : Z := foldr (fun x n => f x + n) 0 l.

(** ** Step systems: reachability and invariants *)
Section Steps.
Context {S : Type}.

Inductive star (step : S -> S -> Prop) : S -> S -> Prop :=
| star_here s : star step s s
| star_more s1 s2 s3 : star step s1 s2 -> step s2 s3 -> star step s1 s3.

Definition preserves (step : S -> S -> Prop) (I : S -> Prop) : Prop :=
  forall s s', I s -> step s s' -> I s'.

End Steps.

(** ** Lemmas *)
Lemma star_invariant {S} (step : S -> S -> Prop) (I : S -> Prop) s s' :
  preserves step I -> I s -> star step s s' -> I s'.
Proof. intros Hp Hi. induction 1; eauto. Qed.

Lemma star_trans {S} (step : S -> S -> Prop) s1 s2 s3 :
  star step s1 s2 -> star step s2 s3 -> star step s1 s3.
Proof. intros H12. induction 1; eauto using star. Qed.

Lemma wrapu_small w z : 0 <= z < 2 ^ w -> wrapu w z = z.
Proof. apply Z.mod_small. Qed.

Lemma wrapu_range w z : 0 <= w -> 0 <= wrapu w z < 2 ^ w.
Proof. intros. apply Z.mod_pos_bound. lia. Qed.

Lemma wraps_small w z : 0 < w -> - 2 ^ (w - 1) <= z < 2 ^ (w - 1) -> wraps w z = z.
Proof.
  intros Hw Hz. unfold wraps.
  assert (2 ^ w = 2 * 2 ^ (w - 1)) as E
    by (rewrite <- Z.pow_succ_r by lia; f_equal; lia).
  rewrite E. generalize dependent (2 ^ (w - 1)). intros p Hp _.
  rewrite Z.mod_small; lia.
Qed.

Lemma s64_range z : - 2 ^ 63 <= s64 z < 2 ^ 63.
Proof.
  unfold s64, wraps. pose proof (Z.mod_pos_bound (z + 2 ^ (64 - 1)) (2 ^ 64) ltac:(lia)). lia.
Qed.

Lemma wrapu_add_l w a b : wrapu w (wrapu w a + b) = wrapu w (a + b).
Proof. unfold wrapu. apply Zplus_mod_idemp_l. Qed.

Lemma u64_add_l a b : u64 (u64 a + b) = u64 (a + b).
Proof. apply wrapu_add_l. Qed.

Lemma s32_add_l a b : s32 (s32 a + b) = s32 (a + b).
Proof.
  unfold s32, wraps. f_equal.
  replace ((a + 2 ^ (32 - 1)) mod 2 ^ 32 - 2 ^ (32 - 1) + b + 2 ^ (32 - 1))
    with ((a + 2 ^ (32 - 1)) mod 2 ^ 32 + b) by lia.
  rewrite Zplus_mod_idemp_l. f_equal. lia.
Qed.

Lemma u64_small z : 0 <= z < 2 ^ 64 -> u64 z = z.
Proof. apply wrapu_small. Qed.

Lemma u32_small z : 0 <= z < 2 ^ 32 -> u32 z = z.
Proof. apply wrapu_small. Qed.

Lemma s32_small z : - 2 ^ 31 <= z < 2 ^ 31 -> s32 z = z.
Proof. intros. apply wraps_small; lia. Qed.

Lemma s64_small z : - 2 ^ 63 <= z < 2 ^ 63 -> s64 z = z.
Proof. intros. apply wraps_small; lia. Qed.

(** Sums over a list of threads or clients of which one changes. *)
Section Sums.
Context {A : Type}.
Implicit Types (f g : A -> Z) (l : list A).

Lemma sum_of_app f l l' : sum_of f (l ++ l') = sum_of f l + sum_of f l'.
Proof. unfold sum_of. induction l as [|x l IH]; cbn; lia. Qed.

Lemma sum_of_insert f l i x x' :
  l !! i = Some x -> sum_of f (<[i := x']> l) = sum_of f l - f x + f x'.
Proof.
  revert i. unfold sum_of. induction l as [|y l IH]; intros [|i] H; cbn in *; simplify_eq; [lia|].
  rewrite IH by done. lia.
Qed.

Lemma sum_of_mono f g l : (forall x, f x <= g x) -> sum_of f l <= sum_of g l.
Proof. intros H. unfold sum_of. induction l as [|x l IH]; cbn; [lia|]. pose proof (H x). lia. Qed.

Lemma sum_of_zero l : sum_of (fun _ => 0) l = 0.
Proof. unfold sum_of. induction l; cbn; lia. Qed.

Lemma sum_of_nonneg f l : (forall x, 0 <= f x) -> 0 <= sum_of f l.
Proof. intros H. rewrite <- (sum_of_zero l). by apply sum_of_mono. Qed.

Lemma sum_of_zlen f l : (forall x, f x <= 1) -> sum_of f l <= zlen l.
Proof. intros H. unfold sum_of, zlen. induction l as [|x l IH]; cbn; [lia|]. pose proof (H x). lia. Qed.

Lemma sum_of_bound f l i x :
  (forall y, 0 <= f y) -> l !! i = Some x -> 0 <= f x <= sum_of f l.
Proof.
  intros Hf. revert i. unfold sum_of. induction l as [|y l IH]; intros [|i] H; cbn in *; simplify_eq.
  - pose proof (sum_of_nonneg f l Hf) as Hn. pose proof (Hf x). unfold sum_of in Hn. lia.
  - specialize (IH i H). pose proof (Hf y). lia.
Qed.

(** Two elements that count make the sum at least two. *)
Lemma sum_of_two f l i j x y :
  (forall z, 0 <= f z) -> l !! i = Some x -> l !! j = Some y -> i <> j -> f x + f y <= sum_of f l.
Proof.
  intros Hf. revert i j. unfold sum_of. induction l as [|z l IH]; intros [|i] [|j] Hi Hj Hn; cbn in *; simplify_eq.
  - pose proof (sum_of_bound f l j y Hf Hj) as Hb. unfold sum_of in Hb. lia.
  - pose proof (sum_of_bound f l i x Hf Hi) as Hb. unfold sum_of in Hb. lia.
  - specialize (IH i j Hi Hj ltac:(congruence)). pose proof (Hf z). lia.
Qed.

(** The sum over all elements but one. *)
Lemma sum_of_mono_but f g l i x :
  (forall y, f y <= g y) -> l !! i = Some x -> sum_of f l - f x <= sum_of g l - g x.
Proof.
  intros H. revert i. unfold sum_of. induction l as [|y l IH]; intros [|i] Hi; cbn in *; simplify_eq.
  - pose proof (sum_of_mono f g l H) as Hm. unfold sum_of in Hm. lia.
  - specialize (IH i Hi). pose proof (H y). lia.
Qed.

Lemma sum_of_none f l : (forall y, 0 <= f y) -> sum_of f l = 0 -> Forall (fun y => f y = 0) l.
Proof.
  intros Hf H. apply Forall_lookup_2. intros i x Hx. pose proof (sum_of_bound f l i x Hf Hx). lia.
Qed.

Lemma sum_of_pos f l : 0 < sum_of f l -> exists i x, l !! i = Some x /\ 0 < f x.
Proof.
  unfold sum_of. induction l as [|x l IH]; cbn; [lia|]. intros H.
  destruct (decide (0 < f x)); [by exists 0%nat, x|].
  destruct IH as (i & y & Hi & Hy); [lia|]. by exists (S i), y.
Qed.

End Sums.

Section BufferLemmas.
Context {A : Type}.
Implicit Types l d : list A.

Lemma zlen_nonneg l : 0 <= zlen l.
Proof. unfold zlen. lia. Qed.

Lemma zlen_app l d : zlen (l ++ d) = zlen l + zlen d.
Proof. unfold zlen. rewrite length_app. lia. Qed.

Lemma zlen_cons x l : zlen (x :: l) = 1 + zlen l.
Proof. unfold zlen. cbn [length]. lia. Qed.

Lemma zlen_nil : zlen ([] : list A) = 0.
Proof. reflexivity. Qed.

Lemma in_bounds_spec l off n :
  in_bounds l off n = true <-> 0 <= off /\ 0 <= n /\ off + n <= zlen l.
Proof. unfold in_bounds. rewrite !andb_true_iff, !Z.leb_le. tauto. Qed.

Lemma zlen_sl l off n :
  0 <= off -> 0 <= n -> off + n <= zlen l -> zlen (sl l off n) = n.
Proof. unfold zlen, sl. intros. rewrite length_take, length_drop. lia. Qed.

Lemma sl_zero l off : sl l off 0 = [].
Proof. reflexivity. Qed.

Lemma sl_app l off n m :
  0 <= off -> 0 <= n -> 0 <= m -> sl l off (n + m) = sl l off n ++ sl l (off + n) m.
Proof.
  intros. unfold sl. rewrite !Z2Nat.inj_add by lia.
  rewrite <- drop_drop, take_take_drop. done.
Qed.

Lemma sl_full l n : n = zlen l -> sl l 0 n = l.
Proof. intros ->. unfold sl, zlen. rewrite Nat2Z.id. apply firstn_all. Qed.

Lemma zlen_upd l off d :
  0 <= off -> off + zlen d <= zlen l -> zlen (upd l off d) = zlen l.
Proof.
  unfold zlen, upd. intros.
  rewrite !length_app, length_take, length_drop. lia.
Qed.

Lemma sl_upd_same l off d :
  0 <= off -> off + zlen d <= zlen l -> sl (upd l off d) off (zlen d) = d.
Proof.
  unfold zlen, sl, upd. intros.
  rewrite drop_app_ge by (rewrite length_take; lia).
  rewrite length_take.
  replace (_ - _)%nat with 0%nat by lia. rewrite drop_0, Nat2Z.id.
  rewrite take_app_le by lia. apply firstn_all.
Qed.

Lemma sl_upd_below l off d a n :
  0 <= a -> 0 <= n -> a + n <= off -> off + zlen d <= zlen l ->
  sl (upd l off d) a n = sl l a n.
Proof.
  unfold zlen, sl, upd. intros.
  rewrite !take_drop_commute, take_app_le by (rewrite ?length_take; lia).
  rewrite take_take. do 2 f_equal. lia.
Qed.

Lemma sl_upd_above l off d a n :
  0 <= off -> 0 <= n -> off + zlen d <= a -> off + zlen d <= zlen l ->
  sl (upd l off d) a n = sl l a n.
Proof.
  unfold zlen, sl, upd. intros.
  rewrite drop_app_ge by (rewrite length_take; lia).
  rewrite drop_app_ge by (rewrite length_take; lia).
  rewrite drop_drop, length_take. do 2 f_equal. lia.
Qed.

Lemma sl_sl l m a n : 0 <= a -> 0 <= n -> a + n <= m -> sl (sl l 0 m) a n = sl l a n.
Proof.
  intros. unfold sl. rewrite drop_0, skipn_firstn_comm, take_take. f_equal. lia.
Qed.

Lemma sl_upd_append l off d :
  0 <= off -> off + zlen d <= zlen l ->
  sl (upd l off d) 0 (off + zlen d) = sl l 0 off ++ d.
Proof.
  intros. pose proof (zlen_nonneg d). rewrite sl_app by lia.
  rewrite sl_upd_below, Z.add_0_l, sl_upd_same by lia. done.
Qed.

Lemma rd_ok l off n :
  0 <= off -> 0 <= n -> off + n <= zlen l -> rd l off n = Some (sl l off n).
Proof. intros. unfold rd. by rewrite (proj2 (in_bounds_spec _ _ _)). Qed.

Lemma wr_ok l off d :
  0 <= off -> off + zlen d <= zlen l -> wr l off d = Some (upd l off d).
Proof.
  intros. unfold wr. rewrite (proj2 (in_bounds_spec _ _ _)); [done|].
  pose proof (zlen_nonneg d). lia.
Qed.

End BufferLemmas.

Lemma zlen_from_user src n left :
  0 <= left <= n -> n <= zlen src -> zlen (from_user src n left) = n.
Proof.
  unfold zlen, from_user. intros.
  rewrite length_app, length_take, length_replicate. lia.
Qed.

Lemma from_user_full src n : 0 <= n -> from_user src n 0 = sl src 0 n.
Proof.
  intros. unfold from_user, sl. rewrite app_nil_r, drop_0, Z.sub_0_r. done.
Qed.

Lemma digits_len fuel k n :
  0 <= n < 10 ^ Z.of_nat (S k) -> zlen (digits fuel n) <= Z.of_nat (S k).
Proof.
  revert k n. induction fuel as [|fuel IH]; intros k n Hn; cbn [digits]; [unfold zlen; cbn; lia|].
  destruct (Z.ltb_spec n 10); [unfold zlen; cbn; lia|]. rewrite zlen_app.
  assert (zlen [48 + n mod 10] = 1) as -> by done. destruct k as [|k]; [cbn in Hn; lia|].
  assert (zlen (digits fuel (n / 10)) <= Z.of_nat (S k)); [|lia]. apply IH.
  rewrite Nat2Z.inj_succ, Z.pow_succ_r in Hn by lia.
  split; [apply Z.div_pos; lia|apply Z.div_lt_upper_bound; lia].
Qed.

Lemma dec_len n k : 0 <= n < 10 ^ Z.of_nat (S k) -> zlen (dec n) <= Z.of_nat (S k).
Proof.
  intros Hn. unfold dec. destruct (Z.ltb_spec n 0); [lia|]. by apply digits_len.
Qed.

(** ** Automation *)
Create HintDb qds.
Create Rewrite HintDb qds.
#[export] Hint Resolve zlen_nonneg : qds.
#[export] Hint Rewrite @zlen_app @zlen_nil @sl_zero : qds.

(** Turn the boolean tests of the code into arithmetic facts. *)
Ltac zbool :=
  repeat match goal with
  | H : (_ =? _) = true |- _ => apply Z.eqb_eq in H
  | H : (_ =? _) = false |- _ => apply Z.eqb_neq in H
  | H : (_ <=? _) = true |- _ => apply Z.leb_le in H
  | H : (_ <=? _) = false |- _ => apply Z.leb_gt in H
  | H : (_ <? _) = true |- _ => apply Z.ltb_lt in H
  | H : (_ <? _) = false |- _ => apply Z.ltb_ge in H
  | H : andb _ _ = true |- _ => apply andb_true_iff in H as [? ?]
  | H : orb _ _ = false |- _ => apply orb_false_iff in H as [? ?]
  | H : negb _ = true |- _ => apply negb_true_iff in H
  | H : negb _ = false |- _ => apply negb_false_iff in H
  | H : c_true _ = true |- _ => unfold c_true in H
  | H : c_true _ = false |- _ => unfold c_true in H
  end.

(** Case analysis on the tests of the goal, arithmetic facts in context. *)
Ltac zcase :=
  repeat match goal with
  | |- context [if ?b then _ else _] =>
      lazymatch b with
      | context [if _ then _ else _] => fail
      | _ => destruct b eqn:?
      end
  end; zbool.
