(* ===== verification/Kernel.v ===== *)
(** * The kernel interface

    The drivers call functions of the Linux kernel, whose code is not part of
    the repository.  A driver routine is a program [prog A] over those calls;
    the answers of the calls are a parameter, an [oracle], of the function
    [run] that executes a routine.  What the drivers rely on is the
    documented contract of each call: [answers] (which results a call may
    give), [acquires] and [releases] (which resource a call hands out or takes
    back).  [run] keeps the list of resources held and stops with [Misuse]
    when a routine gives back a resource that is not held, and with [Fault]
    when the routine itself dereferences a NULL pointer.

    [safe] is the weakest precondition of a routine for every oracle that obeys
    the contract ([conforming]); [safe_run] is its soundness.  The class
    [Balanced] is what a module promises to the module loader: a failing
    [init] leaves the held resources as they were, and [init] followed by
    [exit] does too. *)
From stdpp Require Import strings.
From S2P Require Import Prelude.
Local Open Scope Z_scope.

(** ** Device numbers

    [MKDEV], [MAJOR] and [MINOR] of the kernel build and take apart a device
    number; the drivers use nothing but [MAJOR (MKDEV ma mi) = ma]. *)
Definition dev_t : Type := Z * Z.
Definition MKDEV (ma mi : Z) : dev_t := (ma, mi).
Definition MAJOR (d : dev_t) : Z := fst d.
Definition MINOR (d : dev_t) : Z := snd d.

(** ** Resources a module can hold *)
Inductive res :=
| RMem (p : Z)                      (* heap block at address p *)
| RChrdev (d : dev_t) (n : Z)       (* n device numbers from d *)
| RCdev (p : Z)                     (* initialised cdev inside the object p *)
| RProc (name : string)             (* /proc entry *)
| RIrq (irq id : Z)                 (* interrupt handler registered under id *)
| RIoRegion (start len : Z)         (* port region *)
| RMemRegion (start len : Z)        (* iomem region *)
| RIoMap (a : Z)                    (* mapping of device registers at a *)
| RPciEnabled (d : Z)               (* enabled PCI device *)
| RPciRegions (d : Z)               (* all BARs of a PCI device *)
| RClass (c : Z)                    (* device class *)
| RDevice (d : dev_t)               (* device node of a class *)
| RNetdev (p : Z)                   (* allocated net_device *)
| RDriver (name : string)           (* registered driver *)
| RSlab (c : Z)                     (* kmem cache *)
| RHandle (h : Z)                   (* running journal handle *)
| RPageLock (p : Z)                 (* locked page-cache page *)
| RPageRef (p : Z)                  (* reference to a page-cache page *)
| RJournal (j : Z)                  (* journal object *)
| RBuffer (b : Z)                   (* reference to a buffer head *)
| RUrb (u : Z)                      (* reference to a USB request block *)
| RCoherent (b : Z)                 (* DMA buffer of a USB device *)
| RUsbDev (d : Z)                   (* reference to a USB device *)
| RUsbMinor (i : Z)                 (* minor number of a USB interface *)
| RInode (i : Z)                    (* reference to an inode *)
| RDentry (d : Z)                   (* root dentry of a super block *)
| RPages (p order : Z)              (* 2^order pages *)
| RKmap (p : Z)                     (* kernel mapping of a page *)
| RVmem (p : Z)                     (* vmalloc area *)
| RFs (name : string)               (* registered file system *)
| RModule (p : Z)                   (* reference to the module of a file system type *)
| RPdev (name : string) (id : Z).   (* registered platform device *)

Definition dev_eqb (a b : dev_t) : bool := (fst a =? fst b) && (snd a =? snd b).

Definition res_eqb (a b : res) : bool :=
  match a, b with
  | RMem p, RMem q => p =? q
  | RChrdev d n, RChrdev e m => dev_eqb d e && (n =? m)
  | RCdev p, RCdev q => p =? q
  | RProc s, RProc t => String.eqb s t
  | RIrq i d, RIrq j e => (i =? j) && (d =? e)
  | RIoRegion s n, RIoRegion t m => (s =? t) && (n =? m)
  | RMemRegion s n, RMemRegion t m => (s =? t) && (n =? m)
  | RIoMap p, RIoMap q => p =? q
  | RPciEnabled p, RPciEnabled q => p =? q
  | RPciRegions p, RPciRegions q => p =? q
  | RClass p, RClass q => p =? q
  | RDevice d, RDevice e => dev_eqb d e
  | RNetdev p, RNetdev q => p =? q
  | RDriver s, RDriver t => String.eqb s t
  | RSlab p, RSlab q => p =? q
  | RHandle p, RHandle q => p =? q
  | RPageLock p, RPageLock q => p =? q
  | RPageRef p, RPageRef q => p =? q
  | RJournal p, RJournal q => p =? q
  | RBuffer p, RBuffer q => p =? q
  | RUrb p, RUrb q => p =? q
  | RCoherent p, RCoherent q => p =? q
  | RUsbDev p, RUsbDev q => p =? q
  | RUsbMinor p, RUsbMinor q => p =? q
  | RInode p, RInode q => p =? q
  | RDentry p, RDentry q => p =? q
  | RPages p o, RPages q n => (p =? q) && (o =? n)
  | RKmap p, RKmap q => p =? q
  | RVmem p, RVmem q => p =? q
  | RFs s, RFs t => String.eqb s t
  | RModule p, RModule q => p =? q
  | RPdev s i, RPdev t j => String.eqb s t && (i =? j)
  | _, _ => false
  end.

(** ** Kernel calls

    One constructor per kernel function the drivers call.  The answer of a
    call is a [Z]: the returned pointer or integer ([alloc_chrdev_region]
    answers with the allocated major, or a negative error). *)
Inductive kcall :=
| kzalloc (what : string) (n : Z)     (* n objects, or bytes, of the named kind *)
| kfree (p : Z)
| register_chrdev_region (d : dev_t) (n : Z)
| alloc_chrdev_region (baseminor n : Z)
| unregister_chrdev_region (d : dev_t) (n : Z)
| cdev_init (p : Z)
| cdev_add (p : Z) (d : dev_t) (n : Z)
| cdev_del (p : Z)
| create_proc_read_entry (name : string)
| remove_proc_entry (name : string)
| request_irq (irq id : Z)
| free_irq (irq id : Z)
| request_region (start len : Z)
| release_region (start len : Z)
| request_mem_region (start len : Z)
| release_mem_region (start len : Z)
| ioremap (start len : Z)
| ioport_map (start len : Z)
| iounmap (a : Z)
| pci_enable_device (d : Z)
| pci_disable_device (d : Z)
| pci_request_regions (d : Z)
| pci_release_regions (d : Z)
| pci_set_master (d : Z)
| pci_iomap (d bar : Z)
| pci_iounmap (d a : Z)
| class_create (name : string)
| class_destroy (c : Z)
| device_create (c : Z) (d : dev_t)
| device_destroy (c : Z) (d : dev_t)
| alloc_etherdev (size : Z)
| register_netdev (p : Z)
| free_netdev (p : Z)
| driver_register (name : string)
| driver_unregister (name : string)
| platform_device_register (name : string) (id : Z)
| platform_device_unregister (name : string) (id : Z)
| kmem_cache_create (name : string)   (* with SLAB_PANIC *)
| kmem_cache_alloc (c : Z)
| kmem_cache_free (c p : Z)
| kmem_cache_destroy (c : Z)
| journal_start (j nblocks : Z)
| journal_stop (h : Z)
| journal_force_commit (j : Z)
| journal_init_dev (bdev start len blocksize : Z)
| journal_load (j : Z)
| journal_destroy (j : Z)
| journal_current_handle               (* the handle of the running task *)
| journal_get_write_access (h b : Z)
| journal_dirty_metadata (h b : Z)
| block_write_begin (p : Z)            (* __block_write_begin of a whole page *)
| block_write_full_page (p : Z)        (* also unlocks the page *)
| lock_page (p : Z)
| unlock_page (p : Z)
| page_cache_release (p : Z)
| generic_write_end (p : Z)            (* also unlocks and releases the page *)
| grab_cache_page_write_begin (index : Z)
| sb_bread (bdev block size : Z)
| brelse (b : Z)
| usb_get_dev (d : Z)
| usb_put_dev (d : Z)
| usb_alloc_urb
| usb_free_urb (u : Z)
| usb_register_dev (i : Z)
| usb_deregister_dev (i : Z)
| iget_locked (sb ino : Z)             (* a new or a cached inode *)
| new_inode (sb : Z)
| d_splice_alias (i : Z)               (* the dentry takes the reference over *)
| d_make_root (i : Z)                  (* takes the reference, also when it fails *)
| kill_super (root : Z)                (* drops the root dentry, if there is one *)
| register_filesystem (name : string)
| unregister_filesystem (name : string)
| get_fs_type (name : string)          (* takes a reference to its module *)
| alloc_pages (order : Z)
| free_pages (p order : Z)
| kmap (p : Z)
| kunmap (p : Z)
| vmalloc (n : Z)
| vfree (p : Z)
| alloc_page_buffers (p size : Z)
| devm_ioremap (start len : Z)         (* given back by the driver core *)
| devm_ioport_map (start len : Z)
| ata_host_alloc (n : Z)
| ata_host_activate (host irq flags : Z)
| ide_host_add (irq_flags host_flags : Z)
| kquery (what : string) (arg : Z).   (* a call that only answers *)

(** IS_ERR of the kernel: the top 4095 values of a pointer, as a signed
    number the interval [-4095, -1]. *)
Definition IS_ERR (p : Z) : bool := (-4095 <=? p) && (p <=? -1).

Definition acquires (c : kcall) (r : Z) : list res :=
  match c with
  | kzalloc _ _ | kmem_cache_alloc _ => if r =? 0 then [] else [RMem r]
  | register_chrdev_region d n => if r =? 0 then [RChrdev d n] else []
  | alloc_chrdev_region m n => if r <? 0 then [] else [RChrdev (MKDEV r m) n]
  | cdev_init p => [RCdev p]
  | create_proc_read_entry s => if r =? 0 then [] else [RProc s]
  | request_irq i d => if r =? 0 then [RIrq i d] else []
  | request_region s n => if r =? 0 then [] else [RIoRegion s n]
  | request_mem_region s n => if r =? 0 then [] else [RMemRegion s n]
  | ioremap _ _ | ioport_map _ _ | pci_iomap _ _ => if r =? 0 then [] else [RIoMap r]
  | pci_enable_device d => if r =? 0 then [RPciEnabled d] else []
  | pci_request_regions d => if r =? 0 then [RPciRegions d] else []
  | class_create _ => if IS_ERR r then [] else [RClass r]
  | device_create _ d => if IS_ERR r then [] else [RDevice d]
  | alloc_etherdev _ => if r =? 0 then [] else [RNetdev r]
  | driver_register s => if r =? 0 then [RDriver s] else []
  | platform_device_register s i => if r =? 0 then [RPdev s i] else []
  | kmem_cache_create _ => if r =? 0 then [] else [RSlab r]
  | journal_start _ _ => if IS_ERR r then [] else [RHandle r]
  | journal_init_dev _ _ _ _ => if r =? 0 then [] else [RJournal r]
  | journal_load j => [RJournal j]
  | lock_page p => [RPageLock p]
  | grab_cache_page_write_begin _ => if r =? 0 then [] else [RPageLock r; RPageRef r]
  | sb_bread _ _ _ => if r =? 0 then [] else [RBuffer r]
  | usb_get_dev d => [RUsbDev d]
  | usb_alloc_urb => if r =? 0 then [] else [RUrb r]
  | usb_register_dev i => if r =? 0 then [RUsbMinor i] else []
  | iget_locked _ _ | new_inode _ => if r =? 0 then [] else [RInode r]
  | d_make_root _ => if r =? 0 then [] else [RDentry r]
  | register_filesystem s => if r =? 0 then [RFs s] else []
  | get_fs_type _ => if r =? 0 then [] else [RModule r]
  | alloc_pages o => if r =? 0 then [] else [RPages r o]
  | kmap p => [RKmap p]
  | vmalloc _ => if r =? 0 then [] else [RVmem r]
  | alloc_page_buffers _ _ => if r =? 0 then [] else [RBuffer r]
  | _ => []
  end.

Definition releases (c : kcall) : list res :=
  match c with
  | kfree p => if p =? 0 then [] else [RMem p]
  | kmem_cache_free _ p => [RMem p]
  | unregister_chrdev_region d n => [RChrdev d n]
  | cdev_del p => [RCdev p]
  | free_irq i d => [RIrq i d]
  | release_region s n => [RIoRegion s n]
  | release_mem_region s n => [RMemRegion s n]
  | iounmap a => [RIoMap a]
  | pci_iounmap _ a => [RIoMap a]
  | pci_disable_device d => [RPciEnabled d]
  | class_destroy c => [RClass c]
  | device_destroy _ d => [RDevice d]
  | free_netdev p => [RNetdev p]
  | driver_unregister s => [RDriver s]
  | platform_device_unregister s i => [RPdev s i]
  | kmem_cache_destroy c => [RSlab c]
  | journal_stop h => [RHandle h]
  | journal_load j | journal_destroy j => [RJournal j]
  | unlock_page p | block_write_full_page p => [RPageLock p]
  | page_cache_release p => [RPageRef p]
  | generic_write_end p => [RPageLock p; RPageRef p]
  | brelse b => [RBuffer b]
  | usb_put_dev d => [RUsbDev d]
  | usb_free_urb u => if u =? 0 then [] else [RUrb u]
  | usb_deregister_dev i => [RUsbMinor i]
  | d_splice_alias i => if i =? 0 then [] else [RInode i]
  | d_make_root i => if i =? 0 then [] else [RInode i]
  | kill_super root => if root =? 0 then [] else [RDentry root]
  | free_pages p o => [RPages p o]
  | kunmap p => [RKmap p]
  | vfree p => if p =? 0 then [] else [RVmem p]
  | _ => []
  end.

(** [pci_release_regions], [remove_proc_entry] and [unregister_filesystem] are
    documented to accept a device, or a name, that holds nothing. *)
Definition drops (c : kcall) : list res :=
  match c with
  | pci_release_regions d => [RPciRegions d]
  | remove_proc_entry s => [RProc s]
  | unregister_filesystem s => [RFs s]
  | _ => []
  end.

(** Give back one occurrence of a resource; [None] when it is not held. *)
Fixpoint give_back (x : res) (held : list res) : option (list res) :=
  match held with
  | [] => None
  | y :: ys => if res_eqb x y then Some ys
               else match give_back x ys with Some zs => Some (y :: zs) | None => None end
  end.

Fixpoint give_back_all (xs held : list res) : option (list res) :=
  match xs with
  | [] => Some held
  | x :: xs' => match give_back x held with Some h => give_back_all xs' h | None => None end
  end.

Fixpoint drop_all (xs held : list res) : list res :=
  match xs with
  | [] => held
  | x :: xs' => drop_all xs' (match give_back x held with Some h => h | None => held end)
  end.

Definition settle (c : kcall) (r : Z) (held : list res) : option (list res) :=
  match give_back_all (releases c) held with
  | Some h => Some (acquires c r ++ drop_all (drops c) h)
  | None => None
  end.

(** [current->journal_info]: a task runs at most one handle. *)
Fixpoint current_handle (held : list res) : Z :=
  match held with
  | [] => 0
  | RHandle h :: _ => h
  | _ :: rest => current_handle rest
  end.

(** The documented answers of each call, in a state holding [held]. *)
Definition errno_or (ok : Z -> Prop) (r : Z) : Prop := -4095 <= r < 0 \/ ok r.

Definition answers (held : list res) (c : kcall) (r : Z) : Prop :=
  match c with
  | kzalloc _ _ | kmem_cache_alloc _ => r = 0 \/ (0 < r /\ RMem r ∉ held)
  | register_chrdev_region _ _ | request_irq _ _ | pci_enable_device _
  | pci_request_regions _ | driver_register _ | register_netdev _
  | journal_load _ | journal_force_commit _ | journal_stop _ | cdev_add _ _ _
  | usb_register_dev _ | journal_get_write_access _ _ | journal_dirty_metadata _ _
  | block_write_begin _ | block_write_full_page _ | ata_host_activate _ _ _ | ide_host_add _ _
  | register_filesystem _ =>
      errno_or (fun r => r = 0) r
  | alloc_chrdev_region _ _ => errno_or (fun r => 0 < r < 4096) r
  | platform_device_register s i => errno_or (fun r => r = 0 /\ RPdev s i ∉ held) r
  | create_proc_read_entry _ | request_region _ _ | request_mem_region _ _
  | journal_init_dev _ _ _ _ | sb_bread _ _ _ | grab_cache_page_write_begin _
  | iget_locked _ _ | new_inode _ | d_make_root _ | get_fs_type _ | alloc_pages _ | vmalloc _
  | alloc_page_buffers _ _ | devm_ioremap _ _ | devm_ioport_map _ _ | ata_host_alloc _ => 0 <= r
  | journal_current_handle => r = current_handle held
  | kmem_cache_create _ => 0 < r
  | ioremap _ _ | ioport_map _ _ | pci_iomap _ _ => r = 0 \/ (0 < r /\ RIoMap r ∉ held)
  | alloc_etherdev _ => r = 0 \/ (0 < r /\ RNetdev r ∉ held)
  | usb_alloc_urb => r = 0 \/ (0 < r /\ RUrb r ∉ held)
  | class_create _ | device_create _ _ | journal_start _ _ => errno_or (fun r => 0 < r) r
  | _ => True
  end.

(** ** Driver routines *)
Inductive prog (A : Type) : Type :=
| Ret (a : A)
| Call (c : kcall) (k : Z -> prog A)
| Oops (why : string).
Arguments Ret {A} a.
Arguments Call {A} c k.
Arguments Oops {A} why.

Fixpoint bind {A B : Type} (p : prog A) (f : A -> prog B) : prog B :=
  match p with
  | Ret a => f a
  | Call c k => Call c (fun r => bind (k r) f)
  | Oops w => Oops w
  end.

Declare Scope kernel_scope.
Delimit Scope kernel_scope with K.
Notation "'call!' x <- c ;; k" := (Call c (fun x => k))
  (at level 10, x name, c at level 99, k at level 200) : kernel_scope.
Notation "'do!' c ;; k" := (Call c (fun _ => k))
  (at level 10, c at level 99, k at level 200) : kernel_scope.
Notation "'let!' x <- p ;; k" := (bind p (fun x => k))
  (at level 10, x pattern, p at level 99, k at level 200) : kernel_scope.
#[global] Open Scope kernel_scope.

Definition trace : Type := list (kcall * Z).
Definition oracle : Type := trace -> list res -> kcall -> Z.

Inductive verdict (A : Type) : Type :=
| Fin (a : A) (t : trace) (held : list res)
| Misuse (c : kcall) (t : trace) (held : list res)
| Fault (why : string) (t : trace) (held : list res).
Arguments Fin {A} a t held.
Arguments Misuse {A} c t held.
Arguments Fault {A} why t held.

Fixpoint run {A} (o : oracle) (t : trace) (held : list res) (p : prog A) : verdict A :=
  match p with
  | Ret a => Fin a t held
  | Oops w => Fault w t held
  | Call c k =>
      let r := o t held c in
      match settle c r held with
      | Some held' => run o (t ++ [(c, r)]) held' (k r)
      | None => Misuse c t held
      end
  end.

Definition obeys (ok : list res -> kcall -> Z -> Prop) (o : oracle) : Prop :=
  forall t held c, ok held c (o t held c).

Definition conforming (o : oracle) : Prop := obeys answers o.

(** ** Weakest preconditions

    [safe ok p t held Q]: whatever answers allowed by [ok] the calls give, [p]
    runs to its end without a fault or a misuse, in a state that satisfies
    [Q]. *)
Fixpoint safe {A} (ok : list res -> kcall -> Z -> Prop) (p : prog A) (t : trace)
    (held : list res) (Q : A -> trace -> list res -> Prop) : Prop :=
  match p with
  | Ret a => Q a t held
  | Oops _ => False
  | Call c k =>
      forall r, ok held c r ->
        match settle c r held with
        | Some held' => safe ok (k r) (t ++ [(c, r)]) held' Q
        | None => False
        end
  end.

(** Nobody else holds a /proc entry, the regions of a PCI device or a file
    system: these are the resources that can be dropped without being held. *)
Definition clean (base : list res) : Prop :=
  Forall (fun x => match x with RProc _ | RPciRegions _ | RFs _ => False | _ => True end) base.

(** What a module promises to the module loader. *)
Class Balanced {St : Type} (init : prog (Z * St)) (exit : St -> prog unit) : Prop :=
  balanced : forall t base, clean base ->
    safe answers init t base (fun '(ret, st) t' held =>
      (ret <> 0 -> held = base) /\
      (ret = 0 -> safe answers (exit st) t' held (fun _ _ held' => held' = base))).

(** The module loader: [insmod] then [rmmod], [n] times. *)
Fixpoint load_cycles {St : Type} (n : nat) (init : prog (Z * St))
    (exit : St -> prog unit) : prog unit :=
  match n with
  | O => Ret tt
  | S n' =>
      let! x <- init ;;
      let! _ <- (if fst x =? 0 then exit (snd x) else Ret tt) ;;
      load_cycles n' init exit
  end.

(** An oracle for concrete runs: every call succeeds, and an object gets an
    address above those of all objects held. *)
Definition addr_of (x : res) : Z :=
  match x with
  | RMem p | RIoMap p | RNetdev p | RUrb p => p
  | _ => 0
  end.

Definition top (held : list res) : Z := foldr (fun x m => Z.max (addr_of x) m) 0 held.

Definition good_oracle : oracle := fun _ held c =>
  match c with
  | kzalloc _ _ | kmem_cache_alloc _ | create_proc_read_entry _ | request_region _ _
  | request_mem_region _ _ | kmem_cache_create _ | journal_init_dev _ _ _ _
  | sb_bread _ _ _ | grab_cache_page_write_begin _ | ioremap _ _ | ioport_map _ _
  | pci_iomap _ _ | alloc_etherdev _ | class_create _ | device_create _ _
  | journal_start _ _ | usb_alloc_urb | iget_locked _ _ | new_inode _ | d_make_root _
  | get_fs_type _ | alloc_pages _ | vmalloc _ | kmap _ | alloc_page_buffers _ _ | devm_ioremap _ _
  | devm_ioport_map _ _ | ata_host_alloc _ => 4096 + top held
  | alloc_chrdev_region _ _ => 250
  | platform_device_register s i => if existsb (res_eqb (RPdev s i)) held then - EEXIST else 0
  | journal_current_handle => current_handle held
  | _ => 0
  end.

(** The same, except that the [n]-th call fails with [e]. *)
Definition failing_oracle (n : nat) (e : Z) : oracle := fun t h c =>
  if Nat.eqb (length t) n then e else good_oracle t h c.

(** ** Soundness and composition *)
Lemma safe_mono {A} ok (p : prog A) t h (Q Q' : A -> trace -> list res -> Prop) :
  safe ok p t h Q -> (forall a t' h', Q a t' h' -> Q' a t' h') -> safe ok p t h Q'.
Proof.
  revert t h. induction p as [a|c k IH|w]; intros t h Hw HQ; cbn in *; auto.
  intros r Hr. specialize (Hw r Hr). destruct (settle c r h); eauto.
Qed.

Lemma safe_ret {A} ok (a : A) t h (Q : A -> trace -> list res -> Prop) :
  Q a t h -> safe ok (Ret a) t h Q.
Proof. done. Qed.

Lemma safe_call {A} ok c (k : Z -> prog A) t h (Q : A -> trace -> list res -> Prop) :
  (forall r, ok h c r ->
     match settle c r h with
     | Some h' => safe ok (k r) (t ++ [(c, r)]) h' Q
     | None => False
     end) ->
  safe ok (Call c k) t h Q.
Proof. done. Qed.

Lemma safe_bind {A B} ok (p : prog A) (f : A -> prog B) t h Q :
  safe ok p t h (fun a t' h' => safe ok (f a) t' h' Q) -> safe ok (bind p f) t h Q.
Proof.
  revert t h. induction p as [a|c k IH|w]; intros t h Hw; cbn in *; auto.
  intros r Hr. specialize (Hw r Hr). destruct (settle c r h); eauto.
Qed.

Lemma safe_run {A} ok (o : oracle) (p : prog A) t h Q :
  obeys ok o -> safe ok p t h Q ->
  exists a t' h', run o t h p = Fin a t' h' /\ Q a t' h'.
Proof.
  intros Ho. revert t h. induction p as [a|c k IH|w]; intros t h Hw; cbn in *.
  - eauto.
  - specialize (Hw _ (Ho t h c)). destruct (settle c _ h); [eauto|done].
  - done.
Qed.

Lemma load_cycles_safe {St} (n : nat) (init : prog (Z * St)) exit `{!Balanced init exit} t base :
  clean base -> safe answers (load_cycles n init exit) t base (fun _ _ h => h = base).
Proof.
  intros Hc. revert t. induction n as [|n IH]; intros t; cbn; [done|].
  apply safe_bind. eapply safe_mono; [by apply balanced|].
  intros [ret st] t' h [Hf Hs]; cbn. apply safe_bind.
  destruct (Z.eqb_spec ret 0) as [E|E].
  - eapply safe_mono; [apply Hs, E|]. cbn. intros _ t'' h'' ->. apply IH.
  - cbn. rewrite Hf by done. apply IH.
Qed.

Lemma top_bound x held : x ∈ held -> addr_of x <= top held.
Proof. unfold top. induction 1; cbn [foldr]; lia. Qed.

Lemma top_nonneg held : 0 <= top held.
Proof. unfold top. induction held; cbn [foldr]; lia. Qed.

Lemma dev_eqb_refl d : dev_eqb d d = true.
Proof. unfold dev_eqb. by rewrite !Z.eqb_refl. Qed.

Lemma res_eqb_refl x : res_eqb x x = true.
Proof.
  destruct x; cbn; rewrite ?Z.eqb_refl, ?dev_eqb_refl, ?String.eqb_refl; done.
Qed.

Lemma not_registered x held : existsb (res_eqb x) held = false -> x ∉ held.
Proof.
  intros E Hin. enough (existsb (res_eqb x) held = true) by congruence.
  apply existsb_exists. exists x. split; [by apply list_elem_of_In|apply res_eqb_refl].
Qed.

Lemma good_oracle_conforming : conforming good_oracle.
Proof.
  intros t held c. pose proof (top_nonneg held).
  assert (forall x, addr_of x = 4096 + top held -> x ∉ held) as Hfresh.
  { intros x Hx Hin. apply top_bound in Hin. lia. }
  destruct c; cbn; unfold errno_or;
    try (destruct (existsb _ held) eqn:E; [left; unfold EEXIST; lia|right; by auto using not_registered]);
    try (right; split); try lia; auto.
Qed.

Lemma give_back_head x h : give_back x (x :: h) = Some h.
Proof. cbn. by rewrite res_eqb_refl. Qed.

Lemma dev_eqb_eq d e : dev_eqb d e = true -> d = e.
Proof.
  destruct d, e. unfold dev_eqb. cbn. rewrite andb_true_iff, !Z.eqb_eq. by intros [-> ->].
Qed.

Lemma res_eqb_eq x y : res_eqb x y = true -> x = y.
Proof.
  destruct x, y; cbn; try done;
    rewrite ?andb_true_iff, ?Z.eqb_eq, ?String.eqb_eq;
    try (intros [H ?]; try apply dev_eqb_eq in H); try (intros H; try apply dev_eqb_eq in H);
    by subst.
Qed.

Lemma give_back_none x held : x ∉ held -> give_back x held = None.
Proof.
  induction held as [|y held IH]; [done|]. intros Hx. apply not_elem_of_cons in Hx as [Hy Hx].
  cbn. destruct (res_eqb x y) eqn:E; [by apply res_eqb_eq in E|]. by rewrite IH.
Qed.

Lemma clean_proc s base : clean base -> give_back (RProc s) base = None.
Proof. induction 1 as [|x l Hx _ IH]; [done|]. cbn. rewrite IH. by destruct x. Qed.

Lemma clean_regions d base : clean base -> give_back (RPciRegions d) base = None.
Proof. induction 1 as [|x l Hx _ IH]; [done|]. cbn. rewrite IH. by destruct x. Qed.

Lemma clean_fs s base : clean base -> give_back (RFs s) base = None.
Proof. induction 1 as [|x l Hx _ IH]; [done|]. cbn. rewrite IH. by destruct x. Qed.

Lemma give_back_perm x A B base :
  A ≡ₚ x :: B -> exists A', give_back x (A ++ base) = Some (A' ++ base) /\ A' ≡ₚ B.
Proof.
  revert B. induction A as [|y A IH]; intros B HA.
  { by apply Permutation_nil in HA. }
  cbn. destruct (res_eqb x y) eqn:E.
  - exists A. split; [done|]. rewrite (res_eqb_eq _ _ E) in HA.
    by apply (Permutation_cons_inv (a := y)).
  - assert (x ∈ y :: A) as Hin by (rewrite HA; left).
    apply elem_of_cons in Hin as [->|Hin]; [by rewrite res_eqb_refl in E|].
    apply elem_of_Permutation in Hin as [A1 HA1].
    destruct (IH A1 HA1) as (A' & Hg & HA'). rewrite Hg.
    exists (y :: A'). split; [done|]. rewrite HA'.
    apply (Permutation_cons_inv (a := x)). rewrite <- HA, HA1. constructor.
Qed.

Lemma safe_query {A} ok w x (k : Z -> prog A) t h Q :
  (forall r t', safe ok (k r) t' h Q) -> safe ok (Call (kquery w x) k) t h Q.
Proof. intros Hk. apply safe_call. intros r _. apply Hk. Qed.

Lemma give_back_permutation x h B :
  h ≡ₚ x :: B -> exists h', give_back x h = Some h' /\ h' ≡ₚ B.
Proof.
  intros Hh. destruct (give_back_perm x h B [] Hh) as (h' & Hg & Hp). rewrite !app_nil_r in Hg. by exists h'.
Qed.

Lemma give_back_all_perm xs A B base :
  A ≡ₚ xs ++ B -> exists A', give_back_all xs (A ++ base) = Some (A' ++ base) /\ A' ≡ₚ B.
Proof.
  revert A. induction xs as [|x xs IH]; intros A HA; cbn; [by exists A|].
  destruct (give_back_perm _ _ _ base HA) as (A1 & -> & HA1). by apply IH.
Qed.

(** A routine only adds to the trace. *)
Lemma safe_grows {A} ok (p : prog A) t h (Q : A -> trace -> list res -> Prop) :
  safe ok p t h (fun a t' h' => (exists u, t' = t ++ u) -> Q a t' h') -> safe ok p t h Q.
Proof.
  assert (forall t0 t, (exists u, t = t0 ++ u) ->
    safe ok p t h (fun a t' h' => (exists u, t' = t0 ++ u) -> Q a t' h') -> safe ok p t h Q) as Hgen.
  { clear t. intros t0. revert h. induction p as [a|c k IH|w]; intros h t Ht Hs; cbn in *; [by apply Hs| |done].
    intros r Hr. specialize (Hs r Hr). destruct (settle c r h); [|done]. apply IH; [|done].
    destruct Ht as [u ->]. exists (u ++ [(c, r)]). by rewrite app_assoc. }
  apply Hgen. exists []. by rewrite app_nil_r.
Qed.

Lemma safe_release {A} ok c x (k : Z -> prog A) t X Y base Q :
  releases c = [x] -> drops c = [] -> (forall r, acquires c r = []) -> X ≡ₚ x :: Y ->
  (forall r t' X', X' ≡ₚ Y -> safe ok (k r) t' (X' ++ base) Q) ->
  safe ok (Call c k) t (X ++ base) Q.
Proof.
  intros Hr Hd Ha HX Hk. apply safe_call. intros r _. unfold settle. rewrite Hr, Hd, Ha.
  cbn [give_back_all]. destruct (give_back_perm _ _ _ base HX) as (X' & -> & HX').
  apply (Hk r (t ++ [(c, r)]) X' HX').
Qed.

(** The same for a state known up to the order of what it holds. *)
Lemma safe_put {A} ok c x (k : Z -> prog A) t h B Q :
  releases c = [x] -> drops c = [] -> (forall r, acquires c r = []) -> h ≡ₚ x :: B ->
  (forall r t' h', h' ≡ₚ B -> safe ok (k r) t' h' Q) ->
  safe ok (Call c k) t h Q.
Proof.
  intros Hr Hd Ha Hh Hk. apply safe_call. intros r _. unfold settle. rewrite Hr, Hd, Ha.
  cbn [give_back_all]. destruct (give_back_permutation _ _ _ Hh) as (h' & -> & Hh'). by apply Hk.
Qed.

Lemma safe_kfree {A} ok (p : Z) (k : Z -> prog A) t X Y base Q :
  p <> 0 -> X ≡ₚ RMem p :: Y ->
  (forall r t' X', X' ≡ₚ Y -> safe ok (k r) t' (X' ++ base) Q) ->
  safe ok (Call (kfree p) k) t (X ++ base) Q.
Proof.
  intros Hp. eapply safe_release; [|done|done].
  cbn [releases]. by rewrite (proj2 (Z.eqb_neq p 0) Hp).
Qed.

(** ** Routines that behave alike

    Continuations are functions, so routines are compared up to the answers
    of their calls. *)
Inductive peq {A : Type} : prog A -> prog A -> Prop :=
| peq_ret a : peq (Ret a) (Ret a)
| peq_oops w : peq (Oops w) (Oops w)
| peq_call c k k' : (forall r, peq (k r) (k' r)) -> peq (Call c k) (Call c k').

#[global] Instance peq_equivalence A : Equivalence (@peq A).
Proof.
  split.
  - intros p. induction p; by constructor.
  - intros p q H. induction H; by constructor.
  - intros p q u H. revert u. induction H; intros u Hu; inversion Hu; simplify_eq; try constructor; auto.
Qed.

#[global] Instance bind_proper A B : Proper (peq ==> pointwise_relation A peq ==> peq) (@bind A B).
Proof. intros p q H f g Hf. induction H; cbn; [apply Hf|constructor|by constructor]. Qed.

#[global] Instance run_proper A (o : oracle) : Proper (eq ==> eq ==> peq ==> eq) (@run A o).
Proof.
  intros t ? <- h ? <- p q H. revert t h. induction H as [| |c k k' _ IH]; intros t h; cbn; try done.
  destruct (settle c _ h); [apply IH|done].
Qed.

Lemma safe_peq {A} ok (p q : prog A) t h Q : peq p q -> safe ok q t h Q -> safe ok p t h Q.
Proof.
  intros H. revert t h. induction H as [| |c k k' _ IH]; intros t h Hs; cbn in *; try done.
  intros r Hr. specialize (Hs r Hr). destruct (settle c r h); [by apply IH|done].
Qed.

Lemma run_bind_fault {A B} o (p : prog A) (f : A -> prog B) t h w t' h' :
  run o t h p = Fault w t' h' -> run o t h (bind p f) = Fault w t' h'.
Proof.
  revert t h. induction p as [a|c k IH|w0]; intros t h H; cbn in *; [done| |by injection H as -> -> ->].
  destruct (settle c _ h); [by apply IH|done].
Qed.

Lemma bind_assoc {A B C} (p : prog A) (f : A -> prog B) (g : B -> prog C) :
  peq (bind (bind p f) g) (bind p (fun a => bind (f a) g)).
Proof. induction p as [a|c k IH|w]; cbn; [reflexivity|by constructor|constructor]. Qed.

#[export] Hint Rewrite @res_eqb_refl @dev_eqb_refl Z.eqb_refl String.eqb_refl : qds.

(** Symbolic execution of a routine: its calls one at a time, the contract of
    each unfolded and the tests on its answer decided.  Only the kernel's own
    definitions are unfolded, so the routine called next stays folded. *)
Ltac kcbn :=
  cbn [bind releases acquires drops give_back_all give_back drop_all
       app res_eqb fst snd andb negb].

Ltac kred :=
  unfold settle, c_true; kcbn;
  repeat (progress (repeat match goal with
    | H : ?b = true |- context [if ?b then _ else _] => rewrite H
    | H : ?b = false |- context [if ?b then _ else _] => rewrite H
    end;
    repeat match goal with
    | H : clean ?b |- context [give_back (RProc ?s) ?b] => rewrite (clean_proc s b H)
    | H : clean ?b |- context [give_back (RPciRegions ?d) ?b] => rewrite (clean_regions d b H)
    | H : clean ?b |- context [give_back (RFs ?s) ?b] => rewrite (clean_fs s b H)
    end;
    rewrite ?Z.eqb_refl, ?dev_eqb_refl, ?String.eqb_refl); kcbn).

Ltac kstep :=
  match goal with
  | |- safe _ (Call _ _) _ _ _ =>
      let r := fresh "r" in let Hr := fresh "Hr" in
      apply safe_call; intros r Hr; cbn [answers errno_or] in Hr; kred
  | |- safe _ (Ret _) _ _ _ => apply safe_ret; cbv beta iota
  | |- safe _ (bind _ _) _ _ _ => progress kred
  | |- context [if ?b then _ else _] =>
      lazymatch b with
      | context [if _ then _ else _] => fail
      | negb ?c => destruct c eqn:?; cbn [negb]; kred
      | _ => destruct b eqn:?; kred
      end; try (exfalso; zbool; lia)
  end.

Ltac krun := repeat kstep.

(** [Balanced] of a load and an unload routine. *)
Ltac kbalanced init exit :=
  let t := fresh "t" in let base := fresh "base" in let Hc := fresh "Hclean" in
  intros t base Hc; unfold init; krun;
  (split; [intros; (done || lia)
          | intros; (exfalso; unfold ENOMEM, EBUSY, ENODEV, EINVAL, EIO, IS_ERR in *; zbool; (lia || done))
            || (unfold exit; cbn -[safe answers settle bind]; krun; done)]).
