(* ===== verification/Frame.v ===== *)
(** * Routines that run beside others: framing and interleaving

    [safe] speaks of a routine that has the kernel to itself.  Here is what
    makes it hold beside others: a routine that is safe with the resources [X]
    is safe when [B] is held as well ([safe_frame]), provided nobody else uses
    the names it passes to the calls that act on whatever has that name
    ([confined]).  From this follows the rule for routines that interleave
    call by call ([pool_inv_step]): each owns its part of what is held. *)
From stdpp Require Import sets strings.
From S2P Require Import Prelude Kernel.
Local Open Scope Z_scope.

(** The resources a call reaches by name: it can drop them without owning
    them. *)
Definition named (c : kcall) : list res :=
  match c with
  | create_proc_read_entry s | remove_proc_entry s => [RProc s]
  | pci_request_regions d | pci_release_regions d => [RPciRegions d]
  | register_filesystem s | unregister_filesystem s => [RFs s]
  | _ => []
  end.

Definition by_name (x : res) : bool :=
  match x with RProc _ | RPciRegions _ | RFs _ => true | _ => false end.

(** The calls whose answer is about the caller's own task. *)
Definition of_task (c : kcall) : bool := match c with journal_current_handle => true | _ => false end.

(** [p] reaches no names but [names]. *)
Fixpoint confined (names : list res) {A} (p : prog A) : Prop :=
  match p with
  | Call c k => of_task c = false /\ named c ⊆ names /\ forall r, confined names (k r)
  | _ => True
  end.

Lemma confined_bind names {A B} (p : prog A) (f : A -> prog B) :
  confined names p -> (forall a, confined names (f a)) -> confined names (bind p f).
Proof. intros Hp Hf. induction p as [a|c k IH|w]; cbn in *; [done| |done]. destruct Hp as (Ht & Hn & Hk). eauto. Qed.

Lemma confined_mono names names' {A} (p : prog A) : names ⊆ names' -> confined names p -> confined names' p.
Proof.
  intros Hs. induction p as [a|c k IH|w]; cbn; [done| |done]. intros (Ht & Hn & Hk). split; [done|].
  split; [by etransitivity|]. intros r. by apply IH.
Qed.

Lemma confined_cycles names {St} n (init : prog (Z * St)) exit :
  confined names init -> (forall st, confined names (exit st)) -> confined names (load_cycles n init exit).
Proof.
  intros Hi He. induction n as [|n IH]; cbn [load_cycles]; [done|]. apply confined_bind; [done|].
  intros [ret st]. apply confined_bind; [|done]. by destruct (_ =? 0); cbn.
Qed.

(** ** One call *)
Lemma answers_sub X h c r : of_task c = false -> X ⊆ h -> answers h c r -> answers X c r.
Proof. intros Ht Hs. destruct c; cbn; unfold errno_or; try done; set_solver. Qed.

Lemma drops_named c x : x ∈ drops c -> x ∈ named c.
Proof. destruct c; cbn; intros Hx; solve [exact Hx | by apply elem_of_nil in Hx]. Qed.

Lemma acquires_named c r x : x ∈ acquires c r -> by_name x = true -> x ∈ named c.
Proof.
  destruct c; cbn [acquires named]; repeat case_match; intros Hx Hb;
    repeat (apply elem_of_cons in Hx as [->|Hx]); try (by apply elem_of_nil in Hx); cbn in Hb; try done; by left.
Qed.

Lemma give_back_split x X X' : give_back x X = Some X' -> X ≡ₚ x :: X'.
Proof.
  revert X'. induction X as [|y X IH]; intros X' H; cbn in H; [done|].
  destruct (res_eqb x y) eqn:E; [apply res_eqb_eq in E as ->; by simplify_eq|].
  destruct (give_back x X) as [Z'|]; [|done]. injection H as <-. rewrite (IH Z' eq_refl). constructor.
Qed.

Lemma give_back_missing x X : give_back x X = None -> x ∉ X.
Proof.
  induction X as [|y X IH]; intros H; [apply not_elem_of_nil|]. cbn in H.
  destruct (res_eqb x y) eqn:E; [done|]. destruct (give_back x X) eqn:E'; [done|].
  apply not_elem_of_cons. split; [intros ->; by rewrite res_eqb_refl in E|by apply IH].
Qed.

Lemma give_back_frame x X X' h B :
  give_back x X = Some X' -> h ≡ₚ X ++ B -> exists h', give_back x h = Some h' /\ h' ≡ₚ X' ++ B.
Proof.
  intros H%give_back_split Hh. apply give_back_permutation. by rewrite Hh, H.
Qed.

Lemma give_back_all_frame xs X X' h B :
  give_back_all xs X = Some X' -> h ≡ₚ X ++ B -> exists h', give_back_all xs h = Some h' /\ h' ≡ₚ X' ++ B.
Proof.
  revert X h. induction xs as [|x xs IH]; intros X h H Hh; cbn in *; [injection H as ->; by exists h|].
  destruct (give_back x X) as [X1|] eqn:E; [|done].
  destruct (give_back_frame _ _ _ _ _ E Hh) as (h1 & -> & Hh1). by apply (IH X1).
Qed.

Lemma drop_all_frame xs X h B :
  (forall x, x ∈ xs -> x ∉ B) -> h ≡ₚ X ++ B -> drop_all xs h ≡ₚ drop_all xs X ++ B.
Proof.
  revert X h. induction xs as [|x xs IH]; intros X h Hn Hh; cbn; [done|].
  apply IH; [set_solver|]. destruct (give_back x X) as [X1|] eqn:E.
  - by destruct (give_back_frame _ _ _ _ _ E Hh) as (h1 & -> & Hh1).
  - rewrite give_back_none; [done|]. rewrite Hh. apply not_elem_of_app.
    split; [by apply give_back_missing|]. apply Hn. set_solver.
Qed.

Lemma settle_frame c r X X' h B :
  settle c r X = Some X' -> h ≡ₚ X ++ B -> (forall x, x ∈ named c -> x ∉ B) ->
  exists h', settle c r h = Some h' /\ h' ≡ₚ X' ++ B.
Proof.
  unfold settle. destruct (give_back_all (releases c) X) as [X1|] eqn:E; [|done].
  intros [= <-] Hh Hn. destruct (give_back_all_frame _ _ _ _ _ E Hh) as (h1 & -> & Hh1).
  eexists. split; [reflexivity|]. rewrite (drop_all_frame (drops c) X1 h1 B); [|by auto using drops_named|done].
  by rewrite app_assoc.
Qed.

(** What a call leaves was there before or is what it hands out. *)
Lemma give_back_sub x X X' y : give_back x X = Some X' -> y ∈ X' -> y ∈ X.
Proof. intros H%give_back_split Hy. rewrite H. by right. Qed.

Lemma settle_named c r X X' x : settle c r X = Some X' -> x ∈ X' -> x ∈ X \/ x ∈ acquires c r.
Proof.
  unfold settle. destruct (give_back_all (releases c) X) as [X1|] eqn:E; [|done].
  intros [= <-] [Hx|Hx]%elem_of_app; [by right|left].
  assert (x ∈ X1) as Hx1.
  { revert X1 E Hx. generalize (drops c). intros ds X1 _. revert X1.
    induction ds as [|d ds IH]; intros X1 Hx; [done|]. cbn in Hx. apply IH in Hx.
    destruct (give_back d X1) as [X2|] eqn:E2; [by eapply give_back_sub|done]. }
  clear Hx. revert X E. induction (releases c) as [|y ys IH]; intros X E; cbn in E; [by injection E as ->|].
  destruct (give_back y X) as [X2|] eqn:E2; [|done]. eapply give_back_sub; [exact E2|]. by apply IH.
Qed.

(** The trace is what a postcondition can speak of, nothing else. *)
Lemma safe_trace {A} ok (p : prog A) t t' h (Q : A -> list res -> Prop) :
  safe ok p t h (fun a _ h' => Q a h') -> safe ok p t' h (fun a _ h' => Q a h').
Proof.
  revert t t' h. induction p as [a|c k IH|w]; intros t t' h Hs; cbn in *; [done| |done].
  intros r Hr. specialize (Hs r Hr). destruct (settle c r h); [by eapply IH|done].
Qed.

(** ** The frame rule *)
Theorem safe_frame names {A} (p : prog A) t X B h Q :
  confined names p -> (forall x, x ∈ names -> x ∉ B) -> h ≡ₚ X ++ B -> safe answers p t X Q ->
  safe answers p t h (fun a t' h' => exists X', h' ≡ₚ X' ++ B /\ Q a t' X').
Proof.
  intros Hc Hn. revert t X h. induction p as [a|c k IH|w]; intros t X h Hh Hs; cbn in *; [by exists X| |done].
  destruct Hc as (Ht & Hnm & Hk). intros r Hr. assert (answers X c r) as Hr'.
  { apply (answers_sub X h); [done| |done]. intros x Hx. rewrite Hh. set_solver. }
  specialize (Hs r Hr'). destruct (settle c r X) as [X'|] eqn:E; [|done].
  destruct (settle_frame c r X X' h B E Hh) as (h' & -> & Hh'); [set_solver|]. by eapply IH.
Qed.

(** ** Routines that interleave *)
Record pool := Pool { held : list res; progs : list (prog unit) }.

(** One of the routines makes its next call. *)
Inductive pool_step : pool -> pool -> Prop :=
| pool_call s i c k r h' :
    progs s !! i = Some (Call c k) -> answers (held s) c r -> settle c r (held s) = Some h' ->
    pool_step s (Pool h' (<[i := k r]> (progs s))).

(** A routine that has not crashed and whose next call misuses nothing. *)
Definition can_go (h : list res) (p : prog unit) : Prop :=
  match p with
  | Ret _ => True
  | Oops _ => False
  | Call c _ => (exists r, answers h c r) /\ forall r, answers h c r -> is_Some (settle c r h)
  end.

Definition finished (p : prog unit) : Prop := p = Ret tt.

(** Routine [p] with its part [X]: it will give everything back. *)
Record owned (names : list res) (p : prog unit) (X : list res) : Prop := {
  ow_confined : confined names p;
  ow_safe t : safe answers p t X (fun _ _ h => h = []);
  ow_names x : x ∈ X -> by_name x = true -> x ∈ names
}.

(** The routines own what is held, and the rest [base]. *)
Definition pool_inv (names : list (list res)) (base : list res) (s : pool) : Prop :=
  exists Xs, held s ≡ₚ concat Xs ++ base /\ length Xs = length (progs s) /\
    forall i p, progs s !! i = Some p -> exists ns X,
      names !! i = Some ns /\ Xs !! i = Some X /\ owned ns p X.

(** Nobody uses the names of another, nor those of the rest. *)
Record apart (names : list (list res)) (base : list res) : Prop := {
  ap_disjoint i j ni nj x : names !! i = Some ni -> names !! j = Some nj -> i <> j -> x ∈ ni -> x ∉ nj;
  ap_base i ni x : names !! i = Some ni -> x ∈ ni -> x ∉ base;
  ap_by_name i ni x : names !! i = Some ni -> x ∈ ni -> by_name x = true
}.

Lemma concat_split {A} (Xs : list (list A)) i X :
  Xs !! i = Some X -> exists B, concat Xs ≡ₚ X ++ B /\
    (forall X', concat (<[i := X']> Xs) ≡ₚ X' ++ B) /\
    (forall x, x ∈ B -> exists j Xj, j <> i /\ Xs !! j = Some Xj /\ x ∈ Xj).
Proof.
  revert i. induction Xs as [|Y Xs IH]; intros [|i] H; cbn in *; simplify_eq.
  - exists (concat Xs). split; [done|]. split; [done|]. intros x Hx.
    apply list_elem_of_In, in_concat in Hx as (Xj & Hj & Hx).
    apply list_elem_of_In, list_elem_of_lookup in Hj as [j Hj]. exists (S j), Xj.
    split; [done|]. split; [done|by apply list_elem_of_In].
  - destruct (IH i H) as (B & H1 & H2 & H3). exists (Y ++ B).
    split; [rewrite H1; solve_Permutation|]. split; [intros X'; rewrite H2; solve_Permutation|].
    intros x [Hx|Hx]%elem_of_app; [by exists 0%nat, Y|]. destruct (H3 x Hx) as (j & Xj & Hj & Hl & Hx').
    exists (S j), Xj. split; [lia|]. by split.
Qed.

Section Pool.
Context (names : list (list res)) (base : list res) (Hapart : apart names base).

(** What is there besides the part of one routine has none of its names. *)
Lemma pool_part s i p :
  pool_inv names base s -> progs s !! i = Some p -> exists ns X B,
    names !! i = Some ns /\ owned ns p X /\ held s ≡ₚ X ++ B /\ (forall x, x ∈ ns -> x ∉ B) /\
    (forall h' p' X', h' ≡ₚ X' ++ B -> owned ns p' X' -> pool_inv names base (Pool h' (<[i := p']> (progs s)))).
Proof.
  intros (Xs & Hh & Hlen & Hall) Hp. destruct (Hall i p Hp) as (ns & X & Hns & HX & Ho).
  destruct (concat_split Xs i X HX) as (B & HB & Hins & Hfrom).
  exists ns, X, (B ++ base). split; [done|]. split; [done|]. split; [by rewrite Hh, HB, app_assoc|]. split.
  - intros x Hx [HxB|Hxb]%elem_of_app; [|exact (ap_base _ _ Hapart i ns x Hns Hx Hxb)].
    destruct (Hfrom x HxB) as (j & Xj & Hj & HXj & Hxj).
    destruct (lookup_lt_is_Some_2 (progs s) j) as [q Hq]; [rewrite <- Hlen; by eapply lookup_lt_Some|].
    destruct (Hall j q Hq) as (nj & X2 & Hnj & HX2 & Hoj). rewrite HX2 in HXj. injection HXj as ->.
    apply (ap_disjoint _ _ Hapart i j ns nj x); try done.
    apply (ow_names _ _ _ Hoj); [done|]. exact (ap_by_name _ _ Hapart i ns x Hns Hx).
  - intros h' p' X' Hh' Ho'. exists (<[i := X']> Xs). cbn [held progs].
    split; [by rewrite Hh', Hins, app_assoc|]. split; [by rewrite !length_insert|].
    intros j q Hq. destruct (decide (i = j)) as [<-|Hij].
    + rewrite list_lookup_insert_eq in Hq by (by eapply lookup_lt_Some). injection Hq as <-. exists ns, X'.
      split; [done|]. split; [|done]. apply list_lookup_insert_eq. by eapply lookup_lt_Some.
    + cbn in Hq. rewrite list_lookup_insert_ne in Hq by done. rewrite list_lookup_insert_ne by done. by apply Hall.
Qed.

Lemma pool_inv_step s s' : pool_inv names base s -> pool_step s s' -> pool_inv names base s'.
Proof.
  intros Hinv Hstep. inversion Hstep as [s0 i c k r h' Hp Hr Hs]; subst.
  destruct (pool_part s i _ Hinv Hp) as (ns & X & B & Hns & [(Ht & Hnm & Hk) Hsafe Hx] & Hh & HB & Hins).
  assert (answers X c r) as Hr'.
  { apply (answers_sub X (held s)); [done| |done]. intros x Hin. rewrite Hh. set_solver. }
  assert (exists X', settle c r X = Some X') as [X' HX'].
  { specialize (Hsafe [] r Hr'). destruct (settle c r X); [by eexists|done]. }
  destruct (settle_frame c r X X' (held s) B HX' Hh) as (h1 & E & Hh1); [set_solver|].
  rewrite Hs in E. injection E as <-. apply (Hins h' (k r) X' Hh1). split; [apply Hk| |].
  - intros t. pose proof (Hsafe t r Hr') as H. cbn in H. rewrite HX' in H. eapply safe_trace. exact H.
  - intros x Hin Hb. eapply settle_named in Hin as [Hin|Hin]; [by apply Hx|apply Hnm; by eapply acquires_named|exact HX'].
Qed.

Lemma pool_inv_can_go s i p : pool_inv names base s -> progs s !! i = Some p -> can_go (held s) p.
Proof.
  intros Hinv Hp. destruct (pool_part s i _ Hinv Hp) as (ns & X & B & Hns & [Hc Hsafe Hx] & Hh & HB & _).
  destruct p as [a|c k|w]; cbn in *; [done| |by apply (Hsafe [])]. destruct Hc as (Ht & Hnm & Hk).
  split; [exists (good_oracle [] (held s) c); apply good_oracle_conforming|]. intros r Hr.
  assert (answers X c r) as Hr'.
  { apply (answers_sub X (held s)); [done| |done]. intros x Hin. rewrite Hh. set_solver. }
  specialize (Hsafe [] r Hr'). destruct (settle c r X) as [X'|] eqn:HX'; [|done].
  destruct (settle_frame c r X X' (held s) B HX' Hh) as (h1 & E & Hh1); [set_solver|]. by eexists.
Qed.

(** What is held when all routines but [i] have ended is its part and [base];
    when all have ended, [base]. *)
Lemma pool_inv_finished s :
  pool_inv names base s -> Forall finished (progs s) -> held s ≡ₚ base.
Proof.
  intros (Xs & Hh & Hlen & Hall) Hf. rewrite Hh. assert (concat Xs = []) as ->; [|done].
  clear Hh. assert (Forall (fun X => X = []) Xs) as H.
  { apply Forall_lookup_2. intros i X HX.
    destruct (lookup_lt_is_Some_2 (progs s) i) as [p Hp]; [rewrite <- Hlen; eapply lookup_lt_Some; exact HX|].
    destruct (Hall i p Hp) as (ns & X' & _ & HX' & Ho). rewrite HX in HX'. injection HX' as ->.
    pose proof (Forall_lookup_1 _ _ _ _ Hf Hp) as ->. apply (ow_safe _ _ _ Ho []). }
  clear Hlen Hall. induction H as [|X Xs -> _ IH]; [done|exact IH].
Qed.

Lemma pool_inv_start ps :
  Forall2 (fun ns p => owned ns p []) names ps -> pool_inv names base (Pool base ps).
Proof.
  intros H. exists (replicate (length ps) []). split; [|split; [by rewrite length_replicate|]].
  - cbn. assert (concat (replicate (length ps) ([] : list res)) = []) as ->; [|done].
    clear H. by induction ps.
  - intros i p Hp. destruct (Forall2_lookup_r _ _ _ _ _ H Hp) as (ns & Hns & Ho). exists ns, [].
    split; [done|]. split; [|done]. apply lookup_replicate. split; [done|by eapply lookup_lt_Some].
Qed.

End Pool.

#[global] Instance res_eq_dec : EqDecision res.
Proof. intros x y. destruct (res_eqb x y) eqn:E; [left; by apply res_eqb_eq|right; intros ->; by rewrite res_eqb_refl in E]. Defined.

(** Names that are all different are apart. *)
Lemma apart_nodup names base :
  NoDup (concat names) -> Forall (fun x => by_name x = true) (concat names) -> clean base -> apart names base.
Proof.
  intros Hnd Hbn Hc.
  assert (forall (ns : list (list res)) i ni (x : res), ns !! i = Some ni -> x ∈ ni -> x ∈ concat ns) as Hin.
  { induction ns as [|m ns IH]; intros [|i] ni x H Hx; cbn in *; simplify_eq; apply elem_of_app; eauto. }
  assert (forall i ni (x : res), names !! i = Some ni -> x ∈ ni -> by_name x = true) as Hb.
  { intros i ni x Hi Hx. rewrite Forall_forall in Hbn. apply Hbn. by eapply Hin. }
  split; [|intros i ni x Hi Hx Hxb|exact Hb].
  - clear Hbn Hb. induction names as [|m names IH]; intros i j ni nj x Hi Hj Hij Hx Hx'; [done|].
    cbn in Hnd. apply NoDup_app in Hnd as (_ & Hd & Hnd).
    destruct i as [|i], j as [|j]; cbn in Hi, Hj; simplify_eq.
    + apply (Hd x Hx). by eapply Hin.
    + apply (Hd x Hx'). by eapply Hin.
    + by eapply (IH Hnd i j ni nj x); [| |lia|..].
  - unfold clean in Hc. rewrite Forall_forall in Hc. specialize (Hc x Hxb). specialize (Hb i ni x Hi Hx). by destruct x.
Qed.

(** ** Every interleaving ends *)
Inductive next {A} : prog A -> prog A -> Prop :=
| next_call c k r : next (k r) (Call c k).

Inductive next_in : list (prog unit) -> list (prog unit) -> Prop :=
| next_at i p p' ps : ps !! i = Some p -> next p' p -> next_in (<[i := p']> ps) ps.

Lemma next_acc {A} (p : prog A) : Acc next p.
Proof. induction p as [a|c k IH|w]; constructor; intros q Hq; inversion Hq; subst; apply IH. Qed.

Lemma next_in_acc ps : Acc next_in ps.
Proof.
  induction ps as [|p ps IH]; [constructor; intros q Hq; inversion Hq; by subst|].
  pose proof (next_acc p) as Hp. revert ps IH. induction Hp as [p _ IHp]. intros ps Hps.
  induction Hps as [ps Hps IHps]. constructor. intros q Hq. inversion Hq as [i p0 p' ps0 Hi Hn]; subst.
  destruct i as [|i]; cbn in *.
  - injection Hi as ->. apply IHp; [done|]. by constructor.
  - apply IHps. by econstructor.
Qed.

Lemma pool_ends s : Acc (fun s' s => pool_step s s') s.
Proof.
  remember (progs s) as ps eqn:E. revert s E. induction (next_in_acc ps) as [ps _ IH]. intros s ->.
  constructor. intros s' H. inversion H; subst. by eapply IH; [econstructor|].
Qed.

(** A schedule run with an oracle: at each step the routine that goes. *)
Fixpoint pool_exec (o : oracle) (schedule : list nat) (s : pool) : option pool :=
  match schedule with
  | [] => Some s
  | i :: rest =>
      match progs s !! i with
      | Some (Call c k) =>
          let r := o [] (held s) c in
          match settle c r (held s) with
          | Some h' => pool_exec o rest (Pool h' (<[i := k r]> (progs s)))
          | None => None
          end
      | _ => None
      end
  end.

Lemma pool_exec_star o schedule s s' :
  conforming o -> pool_exec o schedule s = Some s' -> star pool_step s s'.
Proof.
  intros Ho. revert s. induction schedule as [|i rest IH]; intros s H; cbn in H; [injection H as ->; constructor|].
  destruct (progs s !! i) as [[a|c k|w]|] eqn:Hp; try done.
  destruct (settle c (o [] (held s) c) (held s)) as [h'|] eqn:Hs; [|done].
  eapply star_trans; [eapply star_more; [apply star_here|econstructor; [exact Hp|apply Ho|exact Hs]]|by apply IH].
Qed.
