(* ===== verification/Pipe.v ===== *)
(** * protect/pipe.c: the pipe device

    State, operations and locking of the character device that implements a
    pipe in a ring buffer of [BUF_LEN] bytes.  The first part models the
    device structure and the code between [down] and [up] of each handler;
    the second models the handlers as threads that share the device, the
    semaphore [mysem] and the two wait queues, with a step relation that
    interleaves them.  The module's load and unload code is in
    [Loaders], its /proc text in [ProcText]. *)
From S2P Require Import Prelude.
Local Open Scope Z_scope.

(** ** The device *)
Definition BUF_LEN : Z := 100.

(** [mem] is the block of [BUF_LEN] bytes at address [start]. *)
Record mydev := Mydev {
  start : Z; end_ : Z;
  wp : Z; rp : Z;
  nreaders : Z; nwriters : Z;
  mem : list Z
}.

Definition set_wp (d : mydev) (v : Z) : mydev :=
  Mydev (start d) (end_ d) v (rp d) (nreaders d) (nwriters d) (mem d).
Definition set_rp (d : mydev) (v : Z) : mydev :=
  Mydev (start d) (end_ d) (wp d) v (nreaders d) (nwriters d) (mem d).
Definition set_mem (d : mydev) (m : list Z) : mydev :=
  Mydev (start d) (end_ d) (wp d) (rp d) (nreaders d) (nwriters d) m.
Definition set_counts (d : mydev) (r w : Z) : mydev :=
  Mydev (start d) (end_ d) (wp d) (rp d) r w (mem d).

(** The state [my_init] leaves: the pointers of a fresh zeroed block at [p]. *)
Definition init_dev (p : Z) : mydev :=
  Mydev p (p + BUF_LEN) p p 0 0 (replicate (Z.to_nat BUF_LEN) 0).

(** [my_open] and [my_release], for a file opened with the given modes. *)
Definition my_open (d : mydev) (fmode_read fmode_write : bool) : mydev * Z :=
  let d1 := if fmode_read then set_counts d (s32 (nreaders d + 1)) (nwriters d) else d in
  let d2 := if fmode_write then set_counts d1 (nreaders d1) (s32 (nwriters d1 + 1)) else d1 in
  (d2, 0).

Definition my_release (d : mydev) (fmode_read fmode_write : bool) : mydev * Z :=
  let d1 := if fmode_read then set_counts d (s32 (nreaders d - 1)) (nwriters d) else d in
  let d2 := if fmode_write then set_counts d1 (nreaders d1) (s32 (nwriters d1 - 1)) else d1 in
  (d2, 0).

Definition spacefree (d : mydev) : Z :=
  if rp d =? wp d then u64 (end_ d - start d - 1)
  else if rp d <? wp d then u64 (BUF_LEN + rp d - wp d - 1)
  else u64 (rp d - wp d - 1).

(** The number of bytes [my_read] moves. *)
Definition read_count (d : mydev) (count : Z) : Z :=
  let count := if rp d <? wp d then Z.min count (u64 (wp d - rp d)) else count in
  if wp d <? rp d then Z.min count (u64 (end_ d - rp d)) else count.

(** The number of bytes [my_write] moves. *)
Definition write_count (d : mydev) (count : Z) : Z :=
  let count := Z.min count (spacefree d) in
  let count := if wp d <? rp d then Z.min count (u64 (rp d - wp d - 1)) else count in
  if rp d <=? wp d then Z.min count (u64 (end_ d - wp d)) else count.

(** The bytes [copy_to_user] takes from [rp]; [None]: outside the buffer. *)
Definition read_bytes (d : mydev) (n : Z) : option (list Z) :=
  rd (mem d) (rp d - start d) n.

(** [copy_from_user] to [wp], [left] bytes of which could not be read. *)
Definition write_bytes (d : mydev) (ubuf : list Z) (n left : Z) : option mydev :=
  match wr (mem d) (wp d - start d) (from_user ubuf n left) with
  | Some m => Some (set_mem d m)
  | None => None
  end.

Definition rp_wrap (d : mydev) : mydev :=
  if rp d =? end_ d then set_rp d (start d) else d.
Definition wp_wrap (d : mydev) : mydev :=
  if wp d =? end_ d then set_wp d (start d) else d.

(** PIPE_RESET of [my_ioctl]: [rp = wp = start]. *)
Definition reset (d : mydev) : mydev := set_rp (set_wp d (start d)) (start d).

(** ** Threads

    The program points of the handlers.  [RDown] stands for both calls of
    [down_interruptible] in [my_read] (the same code follows them), [RTest]
    for the test of the [while] under the semaphore, [RWait] for the
    evaluation of the condition of [wait_event_interruptible], [RSleep] for a
    thread on the queue [readq], [RBody] for the code up to the advance of
    [rp], [RWrap] for the wrap of [rp] and [up], [RWake] for [wake_up]; the
    writer's points are the same with [writeq].  [IEntry] is [my_ioctl]
    before its guards. *)
Inductive pc :=
| RDown (count : Z) | RTest (count : Z) | RWait (count : Z) | RSleep (count : Z)
| RBody (count : Z) | RWrap (n : Z) | RWake (n : Z)
| WDown (ubuf : list Z) | WTest (ubuf : list Z) | WWait (ubuf : list Z)
| WSleep (ubuf : list Z) | WBody (ubuf : list Z) | WWrap (n : Z) | WWake (n : Z)
| IEntry (cmd : Z) | IDown | IBody
| Done (ret : Z).

(** What the shared device did, oldest first: bytes a write stored, bytes a
    read delivered, bytes a reset threw away. *)
Inductive event :=
| EvWrite (d : list Z) | EvRead (d : list Z) | EvReset (d : list Z).

Record shared := Shared { dev : mydev; mysem : Z; log : list event }.

Inductive wakeup := NoWake | WakeReaders | WakeWriters.

(** Result of one step of a thread: it goes on, it has to wait, or it
    accesses memory outside the buffer. *)
Inductive outcome :=
| Next (s : shared) (p : pc) (w : wakeup)
| Blocked
| Crash.

Definition down (s : shared) : shared := Shared (dev s) (mysem s - 1) (log s).
Definition up (s : shared) : shared := Shared (dev s) (mysem s + 1) (log s).
Definition with_dev (s : shared) (d : mydev) (ev : list event) : shared :=
  Shared d (mysem s) (log s ++ ev).

(** The bytes in the pipe, oldest first. *)
Definition contents (d : mydev) : list Z :=
  if rp d <=? wp d then sl (mem d) (rp d - start d) (wp d - rp d)
  else sl (mem d) (rp d - start d) (end_ d - rp d) ++ sl (mem d) 0 (wp d - start d).

Section Threads.
(** [_IOC_TYPE] and [_IO(PIPE, 1)] of the kernel's ioctl encoding. *)
Context (IOC_TYPE : Z -> Z) (PIPE_RESET : Z).
Definition PIPE : Z := 122. (* 'z' *)

(** One step of the thread at [p].  [e] is the environment's answer at that
    point: non-zero is a signal at [down_interruptible] and in the wait
    queues, and the number of bytes not copied at the user copies. *)
Definition thread_step (e : Z) (s : shared) (p : pc) : outcome :=
  let d := dev s in
  match p with
  (* my_read *)
  | RDown count =>
      if c_true e then Next s (Done (- ERESTARTSYS)) NoWake
      else if 0 <? mysem s then Next (down s) (RTest count) NoWake else Blocked
  | RTest count =>
      if wp d =? rp d then Next (up s) (RWait count) NoWake
      else Next s (RBody count) NoWake
  | RWait count =>
      if wp d =? rp d then Next s (RSleep count) NoWake
      else Next s (RDown count) NoWake
  | RSleep count => if c_true e then Next s (Done (- ERESTARTSYS)) NoWake else Blocked
  | RBody count =>
      let n := read_count d count in
      match read_bytes d n with
      | None => Crash
      | Some bytes =>
          if c_true e then Next (up s) (Done (- EFAULT)) NoWake
          else Next (with_dev s (set_rp d (rp d + n)) [EvRead bytes]) (RWrap n) NoWake
      end
  | RWrap n => Next (up (with_dev s (rp_wrap d) [])) (RWake n) NoWake
  | RWake n => Next s (Done n) WakeWriters
  (* my_write *)
  | WDown ubuf =>
      if c_true e then Next s (Done (- ERESTARTSYS)) NoWake
      else if 0 <? mysem s then Next (down s) (WTest ubuf) NoWake else Blocked
  | WTest ubuf =>
      if spacefree d =? 0 then Next (up s) (WWait ubuf) NoWake
      else Next s (WBody ubuf) NoWake
  | WWait ubuf =>
      if spacefree d =? 0 then Next s (WSleep ubuf) NoWake
      else Next s (WDown ubuf) NoWake
  | WSleep ubuf => if c_true e then Next s (Done (- ERESTARTSYS)) NoWake else Blocked
  | WBody ubuf =>
      let n := write_count d (zlen ubuf) in
      if (0 <=? e) && (e <=? n) then
        match write_bytes d ubuf n e with
        | None => Crash
        | Some d' =>
            if c_true e then Next (up (with_dev s d' [])) (Done (- EFAULT)) NoWake
            else Next (with_dev s (set_wp d' (wp d' + n)) [EvWrite (sl ubuf 0 n)]) (WWrap n) NoWake
        end
      else Blocked
  | WWrap n => Next (up (with_dev s (wp_wrap d) [])) (WWake n) NoWake
  | WWake n => Next s (Done n) WakeReaders
  (* my_ioctl *)
  | IEntry cmd =>
      if negb (IOC_TYPE cmd =? PIPE) then Next s (Done (- ENOTTY)) NoWake
      else if cmd =? PIPE_RESET then Next s IDown NoWake
      else Next s (Done (- EINVAL)) NoWake
  | IDown =>
      if c_true e then Next s (Done (- ERESTARTSYS)) NoWake
      else if 0 <? mysem s then Next (down s) IBody NoWake else Blocked
  | IBody => Next (up (with_dev s (reset d) [EvReset (contents d)])) (Done 0) NoWake
  | Done _ => Blocked
  end.

(** [wake_up] makes every thread of the queue evaluate its condition again. *)
Definition woken (w : wakeup) (p : pc) : pc :=
  match w, p with
  | WakeReaders, RSleep count => RWait count
  | WakeWriters, WSleep ubuf => WWait ubuf
  | _, _ => p
  end.

Record sys := Sys { sh : shared; threads : list pc }.

(** The handlers' entry points; [resets] allows the ioctl. *)
Definition entry (resets : bool) (p : pc) : bool :=
  match p with
  | RDown count => 0 <=? count
  | WDown _ => true
  | IEntry _ => resets
  | _ => false
  end.

Inductive step (resets : bool) : sys -> sys -> Prop :=
| step_spawn s p :
    entry resets p = true -> step resets s (Sys (sh s) (threads s ++ [p]))
| step_thread s i p e sh' p' w :
    threads s !! i = Some p ->
    thread_step e (sh s) p = Next sh' p' w ->
    step resets s (Sys sh' (woken w <$> <[i := p']> (threads s))).

Definition init_sys (start : Z) : sys := Sys (Shared (init_dev start) 1 []) [].

(** The same, as a function of a schedule: a thread to spawn, or the index
    of the thread to step and the environment's answer. *)
Inductive action := Spawn (p : pc) | Go (i : nat) (e : Z).

Definition perform (resets : bool) (s : sys) (a : action) : option sys :=
  match a with
  | Spawn p => if entry resets p then Some (Sys (sh s) (threads s ++ [p])) else None
  | Go i e =>
      match threads s !! i with
      | Some p =>
          match thread_step e (sh s) p with
          | Next sh' p' w => Some (Sys sh' (woken w <$> <[i := p']> (threads s)))
          | _ => None
          end
      | None => None
      end
  end.

Fixpoint perform_all (resets : bool) (s : sys) (acts : list action) : option sys :=
  match acts with
  | [] => Some s
  | a :: rest => match perform resets s a with
                 | Some s' => perform_all resets s' rest
                 | None => None
                 end
  end.

End Threads.

(** What the log says was stored, and what was taken out. *)
Definition stored (l : list event) : list Z :=
  flat_map (fun ev => match ev with EvWrite d => d | _ => [] end) l.
Definition taken (l : list event) : list Z :=
  flat_map (fun ev => match ev with EvWrite _ => [] | EvRead d | EvReset d => d end) l.
Definition delivered (l : list event) : list Z :=
  flat_map (fun ev => match ev with EvRead d => d | _ => [] end) l.

#[global] Arguments stored : simpl never.
#[global] Arguments taken : simpl never.

(** ** The abstract pipe: a bounded queue *)
Definition capacity : Z := BUF_LEN - 1.

(** One operation of the abstract queue: nothing, an enqueue that fits, a
    dequeue of a prefix, a clear. *)
Inductive qstep : list Z -> list event -> list Z -> Prop :=
| q_stutter q : qstep q [] q
| q_write q d : zlen (q ++ d) <= capacity -> qstep q [EvWrite d] (q ++ d)
| q_read q d : qstep (d ++ q) [EvRead d] q
| q_reset q : qstep q [EvReset q] [].

(** ** Invariants *)

(** The ring, possibly with a pointer that has reached [end_] and is about to
    be wrapped. *)
Record ring (d : mydev) : Prop := {
  ring_end : end_ d = start d + BUF_LEN;
  ring_start : 0 < start d /\ end_ d < 2 ^ 63;
  ring_mem : zlen (mem d) = BUF_LEN;
  ring_wp : start d <= wp d <= end_ d;
  ring_rp : start d <= rp d <= end_ d;
  ring_room : ~ (wp d = end_ d /\ rp d = start d)
}.

Definition quiet (d : mydev) : Prop := rp d < end_ d /\ wp d < end_ d.

Definition holding (p : pc) : bool :=
  match p with
  | RTest _ | RBody _ | RWrap _ | WTest _ | WBody _ | WWrap _ | IBody => true
  | _ => false
  end.

Definition held_by (p : pc) : Z := if holding p then 1 else 0.
Fixpoint holders (ts : list pc) : Z :=
  match ts with [] => 0 | p :: ts' => held_by p + holders ts' end.

Definition pc_ok (d : mydev) (p : pc) : Prop :=
  match p with
  | RDown count | RWait count | RSleep count => 0 <= count
  | RTest count => 0 <= count /\ quiet d
  | RBody count => 0 <= count /\ quiet d /\ wp d <> rp d
  | WTest _ | IBody => quiet d
  | WBody _ => quiet d /\ spacefree d <> 0
  | RWrap _ => wp d < end_ d
  | WWrap _ => rp d < end_ d
  | _ => True
  end.

Record inv (s : sys) : Prop := {
  inv_ring : ring (dev (sh s));
  inv_sem : 0 <= mysem (sh s);
  inv_one : mysem (sh s) + holders (threads s) = 1;
  inv_idle : mysem (sh s) = 1 -> quiet (dev (sh s));
  inv_pcs : Forall (pc_ok (dev (sh s))) (threads s);
  inv_stream : stored (log (sh s)) = taken (log (sh s)) ++ contents (dev (sh s))
}.

(** A thread that is on its way to waking the queue [writeq], or [readq]. *)
Definition wakes_writers (p : pc) : bool :=
  match p with RWrap _ | RWake _ => true | _ => false end.
Definition wakes_readers (p : pc) : bool :=
  match p with WWrap _ | WWake _ => true | _ => false end.
Definition in_reset (p : pc) : bool :=
  match p with IEntry _ | IDown | IBody => true | _ => false end.

Definition pending (f : pc -> bool) (ts : list pc) : Prop :=
  exists k q, ts !! k = Some q /\ f q = true.

(** Every thread that sleeps ([asleep]) has a reason to ([why]) or will be
    woken by a thread that is on its way ([waker]). *)
Definition awake (asleep : pc -> bool) (why : mydev -> Prop) (waker : pc -> bool)
    (s : sys) : Prop :=
  forall j q, threads s !! j = Some q -> asleep q = true ->
    why (dev (sh s)) \/ pending waker (threads s).

Definition reader_asleep (p : pc) : bool := match p with RSleep _ => true | _ => false end.
Definition writer_asleep (p : pc) : bool := match p with WSleep _ => true | _ => false end.

(** No reader sleeps on a non-empty pipe, and no writer on a pipe with room,
    unless a wake-up is on its way. *)
Definition readers_awake : sys -> Prop :=
  awake reader_asleep (fun d => contents d = []) wakes_readers.
Definition writers_awake : sys -> Prop :=
  awake writer_asleep (fun d => spacefree d = 0) wakes_writers.

(** ** The ring buffer *)
Lemma contents_wp_wrap d : ring d -> contents (wp_wrap d) = contents d.
Proof.
  intros [He Hs Hm Hw Hr Hn]. unfold wp_wrap. zcase; [|done].
  unfold contents. cbn. zcase; try lia.
  rewrite Z.sub_diag, sl_zero, app_nil_r. f_equal. lia.
Qed.

Lemma contents_rp_wrap d : ring d -> wp d < end_ d -> contents (rp_wrap d) = contents d.
Proof.
  intros [He Hs Hm Hw Hr Hn] Hq. unfold rp_wrap. zcase; [|done].
  unfold contents. cbn. zcase; try lia.
  replace (end_ d - rp d) with 0 by lia. rewrite Z.sub_diag, sl_zero. done.
Qed.

Lemma zlen_contents d : ring d ->
  zlen (contents d) =
    if rp d <=? wp d then wp d - rp d else (end_ d - rp d) + (wp d - start d).
Proof.
  intros [He Hs Hm Hw Hr Hn]. unfold contents. zcase.
  - rewrite zlen_sl; lia.
  - rewrite zlen_app, !zlen_sl; lia.
Qed.

Lemma spacefree_eq d : ring d -> spacefree d = capacity - zlen (contents d).
Proof.
  intros Hd. rewrite zlen_contents by done. destruct Hd as [He Hs Hm Hw Hr Hn].
  unfold spacefree, capacity, BUF_LEN in *.
  zcase; rewrite u64_small; lia.
Qed.

Lemma contents_bound d : ring d -> 0 <= zlen (contents d) <= capacity.
Proof.
  intros Hd. split; [apply zlen_nonneg|]. rewrite zlen_contents by done.
  destruct Hd as [He Hs Hm Hw Hr Hn]. unfold capacity. zcase; lia.
Qed.

Lemma contents_nil d : ring d -> wp d = rp d -> contents d = [].
Proof.
  intros Hd E. unfold contents. rewrite E, Z.leb_refl, Z.sub_diag. done.
Qed.

Lemma ring_rp_wrap d : ring d -> wp d < end_ d -> ring (rp_wrap d) /\ quiet (rp_wrap d).
Proof.
  intros [He Hs Hm Hw Hr Hn] Hq. unfold rp_wrap, quiet. zcase; cbn.
  - split; [split; cbn; lia|]. unfold BUF_LEN in *; lia.
  - split; [by split|lia].
Qed.

Lemma ring_wp_wrap d : ring d -> rp d < end_ d -> ring (wp_wrap d) /\ quiet (wp_wrap d).
Proof.
  intros [He Hs Hm Hw Hr Hn] Hq. unfold wp_wrap, quiet. zcase; cbn.
  - split; [split; cbn; lia|]. unfold BUF_LEN in *; lia.
  - split; [by split|lia].
Qed.

Lemma ring_reset d : ring d -> ring (reset d) /\ quiet (reset d) /\ contents (reset d) = [].
Proof.
  intros [He Hs Hm Hw Hr Hn]. split; [|split].
  - split; cbn; unfold BUF_LEN in *; lia.
  - split; cbn; unfold BUF_LEN in *; lia.
  - unfold contents; cbn. by rewrite Z.leb_refl, Z.sub_diag.
Qed.

Lemma ring_init p : 0 < p -> p + BUF_LEN < 2 ^ 63 ->
  ring (init_dev p) /\ quiet (init_dev p) /\ contents (init_dev p) = [].
Proof.
  intros Hp Hb. unfold init_dev, contents, quiet; cbn.
  rewrite Z.leb_refl, Z.sub_diag, sl_zero.
  split; [|split; [unfold BUF_LEN; lia|done]].
  split; cbn; try (unfold BUF_LEN in *; lia). done.
Qed.

(** The part of [my_read] under the semaphore takes a prefix of the queue. *)
Lemma read_count_spec d count : ring d -> quiet d -> 0 <= count ->
  let n := read_count d count in
  0 <= n <= count /\ n <= zlen (contents d) + count /\
  (wp d <> rp d -> n <= zlen (contents d) /\ rp d + n <= end_ d /\ (rp d < wp d -> rp d + n <= wp d)
     /\ (0 < count -> 0 < n)).
Proof.
  intros Hd [Hq1 Hq2] Hc. rewrite zlen_contents by done.
  destruct Hd as [He Hs Hm Hw Hr Hn]. unfold read_count, BUF_LEN in *.
  zcase; rewrite ?u64_small by lia; lia.
Qed.

Lemma read_refines d n :
  ring d -> 0 <= n -> wp d <> rp d -> rp d + n <= end_ d -> (rp d < wp d -> rp d + n <= wp d) ->
  read_bytes d n = Some (sl (mem d) (rp d - start d) n) /\
  contents d = sl (mem d) (rp d - start d) n ++ contents (set_rp d (rp d + n)) /\
  ring (set_rp d (rp d + n)).
Proof.
  intros [He Hs Hm Hw Hr Hn] H0 Hne H1 H2. split; [|split].
  - apply rd_ok; lia.
  - unfold contents; cbn. zcase; try lia.
    + replace (rp d + n - start d) with (rp d - start d + n) by lia.
      rewrite <- sl_app by lia. f_equal; lia.
    + replace (rp d + n - start d) with (rp d - start d + n) by lia.
      rewrite app_assoc, <- sl_app by lia. do 2 f_equal. lia.
  - split; cbn; lia.
Qed.

(** The part of [my_write] under the semaphore appends to the queue. *)
Lemma write_count_spec d count : ring d -> quiet d -> 0 <= count ->
  let n := write_count d count in
  0 <= n <= count /\ n <= spacefree d /\ wp d + n <= end_ d /\
  (wp d < rp d -> wp d + n < rp d) /\ (0 < count -> spacefree d <> 0 -> 0 < n).
Proof.
  intros Hd [Hq1 Hq2] Hc. pose proof (contents_bound d Hd) as Hb.
  pose proof (spacefree_eq d Hd) as Hf.
  rewrite zlen_contents in Hb, Hf by done. revert Hb Hf.
  destruct Hd as [He Hs Hm Hw Hr Hn]. unfold write_count, capacity, BUF_LEN in *.
  zcase; intros; rewrite ?u64_small by lia; lia.
Qed.

Lemma write_refines d data :
  ring d -> zlen data <= spacefree d -> wp d + zlen data <= end_ d ->
  (wp d < rp d -> wp d + zlen data < rp d) ->
  exists m, wr (mem d) (wp d - start d) data = Some m /\
    ring (set_mem d m) /\ contents (set_mem d m) = contents d /\
    ring (set_wp (set_mem d m) (wp d + zlen data)) /\
    contents (set_wp (set_mem d m) (wp d + zlen data)) = contents d ++ data.
Proof.
  intros Hd Hf Hb Hlt. rewrite spacefree_eq in Hf by done.
  rewrite zlen_contents in Hf by done. pose proof (zlen_nonneg data) as Hz.
  destruct Hd as [He Hs Hm Hw Hr Hn]. unfold capacity in Hf.
  assert (wp d - start d + zlen data <= zlen (mem d)) as Hin by lia.
  exists (upd (mem d) (wp d - start d) data).
  assert (forall a n, 0 <= a -> 0 <= n -> a + n <= wp d - start d ->
    sl (upd (mem d) (wp d - start d) data) a n = sl (mem d) a n) as Hbelow
    by (intros; apply sl_upd_below; lia).
  assert (forall a n, wp d - start d + zlen data <= a -> 0 <= n ->
    sl (upd (mem d) (wp d - start d) data) a n = sl (mem d) a n) as Habove
    by (intros; apply sl_upd_above; lia).
  pose proof (sl_upd_same (mem d) (wp d - start d) data ltac:(lia) ltac:(lia)) as Hsame.
  pose proof (zlen_upd (mem d) (wp d - start d) data ltac:(lia) ltac:(lia)) as Hlen.
  split; [apply wr_ok; lia|]. unfold contents; cbn.
  split; [split; cbn; lia|]. split; [|split; [split; cbn; zcase; try lia|]].
  - zcase.
    + apply Hbelow; lia.
    + rewrite Habove, Hbelow by lia. done.
  - revert Hf; zcase; lia.
  - revert Hf. zcase; try lia; intros Hf.
    + replace (wp d + zlen data - rp d) with ((wp d - rp d) + zlen data) by lia.
      rewrite sl_app by lia. rewrite Hbelow by lia. f_equal.
      replace (rp d - start d + (wp d - rp d)) with (wp d - start d) by lia. done.
    + replace (wp d + zlen data - start d) with ((wp d - start d) + zlen data) by lia.
      rewrite sl_app by lia. rewrite Habove, Hbelow, Z.add_0_l, Hsame by lia.
      by rewrite app_assoc.
Qed.

(** ** Counting the threads that hold the semaphore *)
Lemma held_by_range p : 0 <= held_by p <= 1.
Proof. unfold held_by. destruct (holding p); lia. Qed.

Lemma holders_nonneg ts : 0 <= holders ts.
Proof. induction ts as [|p ts IH]; cbn; [lia|]. pose proof (held_by_range p). lia. Qed.

Lemma holders_app ts us : holders (ts ++ us) = holders ts + holders us.
Proof. induction ts as [|p ts IH]; cbn; lia. Qed.

Lemma holders_insert ts i p p' :
  ts !! i = Some p -> holders (<[i := p']> ts) = holders ts - held_by p + held_by p'.
Proof.
  revert i. induction ts as [|q ts IH]; intros [|i] H; cbn in *; simplify_eq; [lia|].
  rewrite IH by done. lia.
Qed.

Lemma holders_lookup ts i p : ts !! i = Some p -> held_by p <= holders ts.
Proof.
  revert i. induction ts as [|q ts IH]; intros [|i] H; cbn in *; simplify_eq.
  - pose proof (holders_nonneg ts). lia.
  - specialize (IH _ H). pose proof (held_by_range q). lia.
Qed.

Lemma holding_woken w p : holding (woken w p) = holding p.
Proof. by destruct w, p. Qed.

Lemma holders_woken w ts : holders (woken w <$> ts) = holders ts.
Proof.
  induction ts as [|p ts IH]; cbn; [done|].
  rewrite IH. unfold held_by. by rewrite holding_woken.
Qed.

Lemma only_holder ts i j p q :
  holders ts <= 1 -> ts !! i = Some p -> holding p = true ->
  ts !! j = Some q -> i <> j -> holding q = false.
Proof.
  intros H1 Hi Hp Hj Hij. destruct (holding q) eqn:Hq; [|done].
  pose proof (holders_insert ts i p (Done 0) Hi) as H.
  assert (<[i := Done 0]> ts !! j = Some q) as Hj' by (rewrite list_lookup_insert_ne; done).
  pose proof (holders_lookup _ _ _ Hj') as H2.
  unfold held_by in *. rewrite Hp, Hq in *. cbn in *. lia.
Qed.

(** A thread that does not hold the semaphore asserts nothing of the device. *)
Lemma pc_ok_free d d' p : holding p = false -> pc_ok d p -> pc_ok d' p.
Proof. by destruct p. Qed.

Lemma pipe_pc_ok_woken d w p : pc_ok d p -> pc_ok d (woken w p).
Proof. by destruct w, p. Qed.

(** ** The invariant is preserved *)
Lemma stored_app l l' : stored (l ++ l') = stored l ++ stored l'.
Proof. apply flat_map_app. Qed.
Lemma taken_app l l' : taken (l ++ l') = taken l ++ taken l'.
Proof. apply flat_map_app. Qed.

Lemma stored_write d : stored [EvWrite d] = d.
Proof. apply app_nil_r. Qed.
Lemma stored_read d : stored [EvRead d] = [].
Proof. done. Qed.
Lemma stored_reset d : stored [EvReset d] = [].
Proof. done. Qed.
Lemma taken_write d : taken [EvWrite d] = [].
Proof. done. Qed.
Lemma taken_read d : taken [EvRead d] = d.
Proof. apply app_nil_r. Qed.
Lemma taken_reset d : taken [EvReset d] = d.
Proof. apply app_nil_r. Qed.

Create Rewrite HintDb pipe.
#[export] Hint Rewrite stored_app taken_app stored_write stored_read stored_reset
  taken_write taken_read taken_reset @app_nil_r : pipe.

(** A step of the thread [i] that holds the semaphore may change the device;
    the assertions of the other threads do not depend on it. *)
Lemma inv_build s i p sh' p' w :
  inv s -> threads s !! i = Some p ->
  ring (dev sh') -> 0 <= mysem sh' ->
  mysem sh' + held_by p' = mysem (sh s) + held_by p ->
  (mysem sh' = 1 -> quiet (dev sh')) -> pc_ok (dev sh') p' ->
  dev sh' = dev (sh s) \/ holding p = true ->
  stored (log sh') = taken (log sh') ++ contents (dev sh') ->
  inv (Sys sh' (woken w <$> <[i := p']> (threads s))).
Proof.
  intros [Ir Is I1 Ii Ip _] Hi Hr Hs H1 Hq Hp Hd Hst.
  split; cbn; try done.
  - rewrite holders_woken, (holders_insert _ _ p) by done. lia.
  - apply Forall_fmap, Forall_lookup. intros j q Hj. cbn. apply pipe_pc_ok_woken.
    destruct (decide (i = j)) as [->|Hij].
    + rewrite list_lookup_insert_eq in Hj by eauto using lookup_lt_Some. by simplify_eq.
    + rewrite list_lookup_insert_ne in Hj by done.
      pose proof (proj1 (Forall_lookup _ _) Ip j q Hj) as Hq'.
      destruct Hd as [->|Hh]; [done|].
      eapply pc_ok_free, Hq'. eapply only_holder; [|apply Hi| |apply Hj|]; try done. lia.
Qed.

Section Preservation.
Context (IOC_TYPE : Z -> Z) (PIPE_RESET : Z).
Abbreviation thread_step := (thread_step IOC_TYPE PIPE_RESET).
Abbreviation step := (step IOC_TYPE PIPE_RESET).

(** The body of [my_read], from a state where it runs. *)
Lemma read_body_ok d count : ring d -> quiet d -> wp d <> rp d -> 0 <= count ->
  let n := read_count d count in
  exists bytes, read_bytes d n = Some bytes /\ zlen bytes = n /\
    contents d = bytes ++ contents (set_rp d (rp d + n)) /\ ring (set_rp d (rp d + n)).
Proof.
  intros Hd Hq Hne Hc n.
  destruct (read_count_spec d count Hd Hq Hc) as ([H0 _] & _ & Hn).
  destruct (Hn Hne) as (_ & H1 & H2 & _). fold n in H0, H1, H2.
  destruct (read_refines d n Hd H0 Hne H1 H2) as (E & C & R).
  eexists. split; [done|]. split; [|done]. 
  apply zlen_sl; destruct Hd; lia.
Qed.

(** The body of [my_write], from a state where it runs. *)
Lemma write_body_ok d ubuf left : ring d -> quiet d ->
  let n := write_count d (zlen ubuf) in
  0 <= left <= n ->
  exists d', write_bytes d ubuf n left = Some d' /\
    ring d' /\ contents d' = contents d /\ rp d' = rp d /\ wp d' = wp d /\ end_ d' = end_ d /\
    (left = 0 -> ring (set_wp d' (wp d' + n)) /\
                 contents (set_wp d' (wp d' + n)) = contents d ++ sl ubuf 0 n).
Proof.
  intros Hd Hq n Hl.
  destruct (write_count_spec d (zlen ubuf) Hd Hq (zlen_nonneg _)) as (H0 & H1 & H2 & H3 & _).
  fold n in H0, H1, H2, H3.
  assert (zlen (from_user ubuf n left) = n) as Hz by (apply zlen_from_user; lia).
  destruct (write_refines d (from_user ubuf n left)) as (m & E & R & C & R' & C');
    rewrite ?Hz; try done.
  rewrite Hz in R', C'. unfold write_bytes. rewrite E. eexists. split; [done|].
  split_and!; try done. intros ->. split; [done|].
  cbn. rewrite C', from_user_full by lia. done.
Qed.

(** The facts about the body, wrap or reset that the goal is about. *)
Ltac pipe_facts :=
  try match goal with
  | E : read_bytes ?d (read_count ?d ?c) = Some _ |- _ =>
      destruct (read_body_ok d c) as (? & E' & ? & ? & ?); [done..|];
      rewrite E in E'; injection E' as <-
  | E : write_bytes ?d ?u (write_count ?d _) ?e = Some _ |- _ =>
      destruct (write_body_ok d u e) as (? & E' & ? & ? & ? & ? & ? & Hfull); [done..|];
      rewrite E in E'; injection E' as <-; try (destruct Hfull; [done|])
  | |- context [rp_wrap ?d] =>
      destruct (ring_rp_wrap d); [done..|];
      assert (contents (rp_wrap d) = contents d) by (by apply contents_rp_wrap)
  | |- context [wp_wrap ?d] =>
      destruct (ring_wp_wrap d); [done..|];
      assert (contents (wp_wrap d) = contents d) by (by apply contents_wp_wrap)
  | |- context [reset ?d] => destruct (ring_reset d) as (? & ? & E); [done|]; rewrite ?E
  end.

Lemma thread_step_inv s i p e sh' p' w :
  inv s -> threads s !! i = Some p -> thread_step e (sh s) p = Next sh' p' w ->
  inv (Sys sh' (woken w <$> <[i := p']> (threads s))).
Proof.
  intros I Hi Hs. pose proof I as [Ir Is I1 Ii Ip Ist].
  pose proof (proj1 (Forall_lookup _ _) Ip i p Hi) as Hp.
  pose proof (holders_lookup _ _ _ Hi) as Hh.
  pose proof (holders_nonneg (threads s)) as Hh0.
  destruct p; cbn in Hp, Hh, Hs; repeat case_match; simplify_eq;
    try destruct_and!; apply (inv_build _ _ _ _ _ _ I Hi);
    unfold held_by in *; cbn in *; zbool; try done; try lia; try (by left); try (by right).
  all: pipe_facts; autorewrite with pipe; rewrite <- ?app_assoc; unfold quiet in *;
    try done; try lia; try (intros; split; lia); try (split; [lia|]; apply Ii; lia);
    try (apply Ii; lia); 
    try (rewrite Ist, <- ?app_assoc; congruence); try congruence.
Qed.

Lemma pipe_step_inv resets : preserves (step resets) inv.
Proof.
  intros s s' I Hs. destruct Hs as [s p Hp|s i p e sh' p' w Hi Hstep].
  - destruct I as [Ir Is I1 Ii Ip Ist]. split; cbn; try done.
    + rewrite holders_app. cbn. unfold held_by.
      destruct p; cbn in *; simplify_eq; lia.
    + apply Forall_app; split; [done|]. apply Forall_singleton.
      destruct p; cbn in *; zbool; simplify_eq; done || lia.
  - eapply thread_step_inv; eauto.
Qed.

Lemma pipe_init_inv p : 0 < p -> p + BUF_LEN < 2 ^ 63 -> inv (init_sys p).
Proof.
  intros H1 H2. destruct (ring_init p H1 H2) as (? & ? & E).
  split; cbn; try done; try lia.
Qed.

(** What a step does to the queue, seen from the outside. *)
Lemma pipe_step_effect s i p e sh' p' w :
  inv s -> threads s !! i = Some p -> thread_step e (sh s) p = Next sh' p' w ->
  contents (dev sh') = contents (dev (sh s)) \/
  (exists n, p' = WWrap n) \/
  (exists n bytes, p' = RWrap n /\ contents (dev (sh s)) = bytes ++ contents (dev sh')) \/
  (p = IBody /\ contents (dev sh') = []).
Proof.
  intros I Hi Hs. pose proof I as [Ir Is I1 Ii Ip Ist].
  pose proof (proj1 (Forall_lookup _ _) Ip i p Hi) as Hp.
  destruct p; cbn in Hp, Hs; repeat case_match; simplify_eq; try destruct_and!;
    cbn; zbool; pipe_facts; eauto 8.
Qed.

(** Waking threads go on to wake, and only [wake_up] wakes. *)
Lemma step_wakes s p e sh' p' w :
  thread_step e s p = Next sh' p' w ->
  (wakes_readers p = true -> wakes_readers p' = true \/ w = WakeReaders) /\
  (wakes_writers p = true -> wakes_writers p' = true \/ w = WakeWriters) /\
  (forall count, p' = RSleep count -> wp (dev s) = rp (dev s) /\ dev sh' = dev s) /\
  (forall ubuf, p' = WSleep ubuf -> spacefree (dev s) = 0 /\ dev sh' = dev s) /\
  (in_reset p = false -> in_reset p' = false).
Proof.
  intros Hs. destruct p; cbn in Hs; repeat case_match; simplify_eq; zbool;
    split_and!; cbn; naive_solver.
Qed.

Lemma lookup_woken w (ts : list pc) j q :
  (woken w <$> ts) !! j = Some q -> exists q0, ts !! j = Some q0 /\ q = woken w q0.
Proof. rewrite list_lookup_fmap. intros (q0 & -> & ?)%fmap_Some. eauto. Qed.

(** A pending wake-up survives the step of any thread but the waker. *)
Lemma pending_step f w (ts : list pc) i p p' :
  (forall w q, f (woken w q) = f q) ->
  ts !! i = Some p -> (f p = true -> f p' = true) -> pending f ts ->
  pending f (woken w <$> <[i := p']> ts).
Proof.
  intros Hf Hi Hp (k & q & Hk & Hq).
  assert (exists q', <[i := p']> ts !! k = Some q' /\ f q' = true) as (q' & Hk' & Hq').
  { destruct (decide (i = k)) as [->|Hik].
    - exists p'. rewrite list_lookup_insert_eq by eauto using lookup_lt_Some.
      naive_solver.
    - exists q. by rewrite list_lookup_insert_ne. }
  exists k, (woken w q'). split; [by rewrite list_lookup_fmap, Hk'|by rewrite Hf].
Qed.

Lemma pending_now f w (ts : list pc) i p p' :
  (forall w q, f (woken w q) = f q) ->
  ts !! i = Some p -> f p' = true -> pending f (woken w <$> <[i := p']> ts).
Proof.
  intros Hf Hi Hp. exists i, (woken w p'). split; [|by rewrite Hf].
  by rewrite list_lookup_fmap, list_lookup_insert_eq by eauto using lookup_lt_Some.
Qed.

Lemma wakes_readers_woken w q : wakes_readers (woken w q) = wakes_readers q.
Proof. by destruct w, q. Qed.
Lemma wakes_writers_woken w q : wakes_writers (woken w q) = wakes_writers q.
Proof. by destruct w, q. Qed.

Lemma pending_app f ts us : pending f ts -> pending f (ts ++ us).
Proof. intros (k & q & Hk & Hq). exists k, q. split; [by apply lookup_app_l_Some|done]. Qed.

Lemma lookup_stepped w (ts : list pc) i p' j q :
  (woken w <$> <[i := p']> ts) !! j = Some q -> (i < length ts)%nat ->
  (j = i /\ q = woken w p') \/ (exists q0, ts !! j = Some q0 /\ q = woken w q0).
Proof.
  intros (q0 & Hj & ->)%lookup_woken Hi. destruct (decide (i = j)) as [->|Hij].
  - rewrite list_lookup_insert_eq in Hj by done. simplify_eq. by left.
  - rewrite list_lookup_insert_ne in Hj by done. right. eauto.
Qed.

Lemma awake_step asleep (why : mydev -> Prop) waker kind s i p sh' p' w :
  awake asleep why waker s -> threads s !! i = Some p ->
  (asleep p' = true -> why (dev sh')) ->
  (why (dev (sh s)) -> why (dev sh') \/ waker p' = true) ->
  (waker p = true -> waker p' = true \/ w = kind) ->
  (forall q, asleep (woken w q) = true -> asleep q = true /\ w <> kind) ->
  (forall w q, waker (woken w q) = waker q) ->
  awake asleep why waker (Sys sh' (woken w <$> <[i := p']> (threads s))).
Proof.
  intros A Hi Hin Hwhy Hwk Hslp Hf j q Hj Hq; cbn in *.
  apply lookup_stepped in Hj; [|eauto using lookup_lt_Some].
  destruct Hj as [[-> ->]|(q0 & Hj & ->)]; apply Hslp in Hq as [Hq Hw]; [auto|].
  destruct (waker p') eqn:Hp'; [right; by apply (pending_now _ _ _ _ p)|].
  destruct (A j q0 Hj Hq) as [Hr|Hpend].
  - destruct (Hwhy Hr); [by left|done].
  - right. apply (pending_step _ _ _ _ p); try done. intros Hp.
    destruct (Hwk Hp); congruence.
Qed.

Lemma awake_spawn asleep why waker s p :
  asleep p = false -> awake asleep why waker s ->
  awake asleep why waker (Sys (sh s) (threads s ++ [p])).
Proof.
  intros Hp A j q Hj Hq; cbn in *. apply lookup_app_Some in Hj as [Hj|[_ Hj]].
  - destruct (A j q Hj Hq); [by left|right; by apply pending_app].
  - apply list_lookup_singleton_Some in Hj as [_ ->]. congruence.
Qed.

Lemma readers_awake_step resets s s' :
  inv s -> readers_awake s -> step resets s s' -> readers_awake s'.
Proof.
  intros I A Hs. destruct Hs as [s p Hp|s i p e sh' p' w Hi Hstep].
  - apply awake_spawn; [by destruct p|done].
  - destruct (step_wakes _ _ _ _ _ _ Hstep) as (Hwk & _ & Hsl & _ & _).
    apply (awake_step _ _ _ WakeReaders _ _ p); try done.
    + destruct p'; try done. intros _. destruct (Hsl _ eq_refl) as [Hw ->].
      by apply contents_nil; [apply I|].
    + intros E. destruct (pipe_step_effect _ _ _ _ _ _ _ I Hi Hstep) as [E'|[(n & ->)|[E'|[_ E']]]].
      * left. congruence.
      * by right.
      * destruct E' as (n & b & _ & Eb). left. rewrite E in Eb.
        symmetry in Eb. by apply app_eq_nil in Eb as [_ ->].
      * by left.
    + by destruct w, q.
    + apply wakes_readers_woken.
Qed.

Lemma writers_awake_step s s' :
  inv s -> Forall (fun p => in_reset p = false) (threads s) ->
  writers_awake s -> step false s s' -> writers_awake s'.
Proof.
  intros I Hio A Hs. pose proof (pipe_step_inv false s s' I Hs) as I'.
  destruct Hs as [s p Hp|s i p e sh' p' w Hi Hstep].
  - apply awake_spawn; [by destruct p|done].
  - destruct (step_wakes _ _ _ _ _ _ Hstep) as (_ & Hwk & _ & Hsl & _).
    apply (awake_step _ _ _ WakeWriters _ _ p); try done.
    + destruct p'; try done. intros _. by destruct (Hsl _ eq_refl) as [Hw ->].
    + rewrite (spacefree_eq (dev (sh s))), (spacefree_eq (dev sh')) by (apply I || apply I').
      intros E. destruct (pipe_step_effect _ _ _ _ _ _ _ I Hi Hstep)
        as [->|[(n & ->)|[(n & b & -> & _)|[-> _]]]].
      * by left.
      * left. pose proof (contents_bound (dev sh') (inv_ring _ I')) as Hb.
        destruct p; cbn in Hstep; repeat case_match; simplify_eq.
        pose proof (proj1 (Forall_lookup _ _) (inv_pcs _ I) i _ Hi) as [_ Hp]; cbn in Hp.
        rewrite spacefree_eq in Hp by apply I. lia.
      * by right.
      * by pose proof (proj1 (Forall_lookup _ _) Hio i _ Hi).
    + by destruct w, q.
    + apply wakes_writers_woken.
Qed.

Lemma no_reset_step s s' :
  Forall (fun p => in_reset p = false) (threads s) -> step false s s' ->
  Forall (fun p => in_reset p = false) (threads s').
Proof.
  intros H Hs. destruct Hs as [s p Hp|s i p e sh' p' w Hi Hstep]; cbn.
  - apply Forall_app; split; [done|]. apply Forall_singleton. by destruct p.
  - destruct (step_wakes _ _ _ _ _ _ Hstep) as (_ & _ & _ & _ & Hr).
    apply Forall_fmap, Forall_insert.
    + eapply Forall_impl; [exact H|]. cbn. by intros [] ?; destruct w.
    + cbn. rewrite Forall_lookup in H. specialize (Hr (H _ _ Hi)). by destruct w, p'.
Qed.

Lemma pipe_reachable_inv resets p s :
  0 < p -> p + BUF_LEN < 2 ^ 63 -> star (step resets) (init_sys p) s -> inv s.
Proof.
  intros H1 H2. apply star_invariant; [apply pipe_step_inv|by apply pipe_init_inv].
Qed.

(** Without the ioctl: no thread of it, and nothing thrown away. *)
Definition resetless (s : sys) : Prop :=
  Forall (fun p => in_reset p = false) (threads s) /\
  taken (log (sh s)) = delivered (log (sh s)).

Lemma delivered_app l l' : delivered (l ++ l') = delivered l ++ delivered l'.
Proof. apply flat_map_app. Qed.

Lemma resetless_step s s' : resetless s -> step false s s' -> resetless s'.
Proof.
  intros [Hf Ht] Hs. split; [by eapply no_reset_step|].
  destruct Hs as [s p Hp|s i p e sh' p' w Hi Hstep]; cbn; [done|].
  pose proof (proj1 (Forall_lookup _ _) Hf i _ Hi) as Hnr; cbn in Hnr.
  destruct p; cbn in Hstep, Hnr; repeat case_match; simplify_eq; cbn;
    rewrite ?taken_app, ?delivered_app, ?app_nil_r, ?Ht, ?app_nil_r; done.
Qed.

Lemma reachable_resetless p s :
  0 < p -> p + BUF_LEN < 2 ^ 63 -> star (step false) (init_sys p) s ->
  inv s /\ resetless s /\ readers_awake s /\ writers_awake s.
Proof.
  intros H1 H2.
  apply (star_invariant _ (fun s => inv s /\ resetless s /\ readers_awake s /\ writers_awake s)).
  - intros s1 s2 (I & R & A & W) Hs. split_and!.
    + by eapply pipe_step_inv.
    + by eapply resetless_step.
    + by eapply readers_awake_step.
    + eapply writers_awake_step; try done. apply R.
  - split_and!; [by apply pipe_init_inv|by split; [constructor|]|intros ??; done..].
Qed.

Lemma perform_step resets s a s' : perform IOC_TYPE PIPE_RESET resets s a = Some s' -> step resets s s'.
Proof.
  destruct a as [p|i e]; cbn.
  - destruct (entry resets p) eqn:E; intros; simplify_eq. by constructor.
  - destruct (threads s !! i) as [p|] eqn:Hi; [|done].
    destruct (thread_step e (sh s) p) eqn:Hs; intros; simplify_eq.
    by eapply step_thread.
Qed.

Lemma pipe_perform_star resets s acts s' :
  perform_all IOC_TYPE PIPE_RESET resets s acts = Some s' -> star (step resets) s s'.
Proof.
  revert s. induction acts as [|a acts IH]; intros s; cbn; intros H; [simplify_eq; constructor|].
  destruct (perform _ _ _ s a) as [s1|] eqn:E; [|done].
  apply (star_trans _ _ s1); [|by apply IH].
  apply (star_more _ _ s); [constructor|by eapply perform_step].
Qed.

(** ** Properties *)

(** C1: The whole handlers, interleaved in any way, implement the abstract
    bounded queue: each step of each thread is a stutter, an enqueue that
    fits the capacity, a dequeue of a prefix or a clear of the queue, and
    only appends the corresponding event to the log. *)
Theorem pipe_refines_queue resets p s s' :
  0 < p -> p + BUF_LEN < 2 ^ 63 ->
  star (step resets) (init_sys p) s -> step resets s s' ->
  exists ev, log (sh s') = log (sh s) ++ ev /\
    qstep (contents (dev (sh s))) ev (contents (dev (sh s'))).
Proof.
  intros H1 H2 Hr Hs. pose proof (pipe_reachable_inv _ _ _ H1 H2 Hr) as I.
  pose proof (pipe_step_inv _ _ _ I Hs) as I'.
  destruct Hs as [s q Hq|s i q e sh' p' w Hi Hstep].
  { exists []. rewrite app_nil_r. split; [done|constructor]. }
  pose proof I as [Ir Is I1 Ii Ip Ist].
  pose proof (proj1 (Forall_lookup _ _) Ip i q Hi) as Hp.
  pose proof (contents_bound _ (inv_ring _ I')) as Hb. cbn in Hb.
  destruct q; cbn in Hp, Hstep; repeat case_match; simplify_eq; try destruct_and!;
    cbn in *; zbool; pipe_facts;
    try (exists []; rewrite ?app_nil_r; split; [done|]; 
         match goal with E : contents _ = contents _ |- _ => rewrite E | _ => idtac end;
         constructor); eexists; (split; [done|]).
  - match goal with E : contents _ = _ ++ contents _ |- _ => rewrite E end. constructor.
  - match goal with E : contents _ = contents _ ++ _ |- _ => rewrite E in * end.
    constructor. lia.
  - match goal with E : contents (reset _) = _ |- _ => rewrite ?E end. constructor.
Qed.

(** C2: In every interleaving of readers, writers and resets the bytes stored
    so far are the bytes taken out so far followed by the bytes still in the
    ring, which are never more than [BUF_LEN - 1]; without resets, the bytes
    taken out are exactly those delivered to readers, so the pipe is a FIFO
    that neither loses, duplicates nor reorders data. *)
Theorem pipe_stream resets p s :
  0 < p -> p + BUF_LEN < 2 ^ 63 -> star (step resets) (init_sys p) s ->
  stored (log (sh s)) = taken (log (sh s)) ++ contents (dev (sh s)) /\
  zlen (contents (dev (sh s))) <= capacity /\
  (resets = false -> stored (log (sh s)) = delivered (log (sh s)) ++ contents (dev (sh s))).
Proof.
  intros H1 H2 Hr. pose proof (pipe_reachable_inv _ _ _ H1 H2 Hr) as I.
  split_and!; [apply I|apply contents_bound, I|].
  intros ->. destruct (reachable_resetless _ _ H1 H2 Hr) as (_ & [_ <-] & _). apply I.
Qed.

(** C3: [mysem] gives mutual exclusion: at most one thread is between [down]
    and [up]; and no thread ever reads or writes outside the block of
    [BUF_LEN] bytes, whatever the environment answers. *)
Theorem pipe_mutex_and_memory_safe resets p s :
  0 < p -> p + BUF_LEN < 2 ^ 63 -> star (step resets) (init_sys p) s ->
  (forall i j q r, threads s !! i = Some q -> holding q = true ->
     threads s !! j = Some r -> holding r = true -> i = j) /\
  (forall i q e, threads s !! i = Some q -> thread_step e (sh s) q <> Crash).
Proof.
  intros H1 H2 Hr. pose proof (pipe_reachable_inv _ _ _ H1 H2 Hr) as I.
  pose proof I as [Ir Is I1 Ii Ip Ist]. split.
  - intros i j q r Hi Hq Hj Hrr. destruct (decide (i = j)) as [|Hij]; [done|].
    rewrite (only_holder (threads s) i j q r) in Hrr; try done. lia.
  - intros i q e Hi Hc. pose proof (proj1 (Forall_lookup _ _) Ip i q Hi) as Hp.
    destruct q; cbn in Hp, Hc; repeat case_match; try done; destruct_and!; zbool.
    + destruct (read_body_ok (dev (sh s)) count) as (? & E & _); try done. congruence.
    + destruct (write_body_ok (dev (sh s)) ubuf e) as (? & E & _); try done. congruence.
Qed.

(** The end of a transfer: a step of thread [i] that wakes the queue [w]. *)
Lemma transfer_ends resets s i p q w e :
  threads s !! i = Some p -> thread_step e (sh s) p = Next (sh s) q w -> (forall w', woken w' q = q) ->
  exists s', perform IOC_TYPE PIPE_RESET resets s (Go i e) = Some s' /\ threads s' !! i = Some q /\
    forall j r, j <> i -> threads s !! j = Some r -> threads s' !! j = Some (woken w r).
Proof.
  intros Hi Hs Hq. cbn [perform]. rewrite Hi, Hs. eexists. split; [reflexivity|]. cbn [threads]. split.
  - rewrite list_lookup_fmap, list_lookup_insert_eq by (by eapply lookup_lt_Some). cbn. by rewrite Hq.
  - intros j r Hj Hr. by rewrite list_lookup_fmap, list_lookup_insert_ne, Hr by done.
Qed.

(** C15: Progress of a transfer: when the body of [my_read] runs with a
    positive count and the copy succeeds, it delivers between 1 and [count]
    bytes, a prefix of the queue, and advances past exactly those; the body of
    [my_write] with a non-empty user buffer stores between 1 byte and all of
    it, a prefix of it.  A failed copy returns [-EFAULT] and leaves the queue
    as it was.  After the transfer the handler, whatever the state it is
    continued in, goes through its wrap and its [wake_up] without waiting,
    and then returns the number of bytes: a read has sent every writer asleep
    on [writeq] back to its condition, a write every reader on [readq]. *)
Theorem pipe_transfer_progress resets p s i q e sh' q' w :
  0 < p -> p + BUF_LEN < 2 ^ 63 -> star (step resets) (init_sys p) s ->
  threads s !! i = Some q -> thread_step e (sh s) q = Next sh' q' w ->
  (forall count, q = RBody count -> e = 0 -> 0 < count ->
     exists bytes, q' = RWrap (zlen bytes) /\ 1 <= zlen bytes <= count /\
       contents (dev (sh s)) = bytes ++ contents (dev sh') /\
       log sh' = log (sh s) ++ [EvRead bytes]) /\
  (forall ubuf, q = WBody ubuf -> e = 0 -> ubuf <> [] ->
     exists n, q' = WWrap n /\ 1 <= n <= zlen ubuf /\
       contents (dev sh') = contents (dev (sh s)) ++ sl ubuf 0 n) /\
  (q' = Done (- EFAULT) -> contents (dev sh') = contents (dev (sh s)) /\ log sh' = log (sh s)) /\
  (forall n e1 s1, threads s1 !! i = Some (RWrap n) ->
     exists s2, perform IOC_TYPE PIPE_RESET resets s1 (Go i e1) = Some s2 /\ threads s2 !! i = Some (RWake n)) /\
  (forall n e1 s1, threads s1 !! i = Some (RWake n) ->
     exists s2, perform IOC_TYPE PIPE_RESET resets s1 (Go i e1) = Some s2 /\ threads s2 !! i = Some (Done n) /\
       forall j ubuf, threads s1 !! j = Some (WSleep ubuf) -> threads s2 !! j = Some (WWait ubuf)) /\
  (forall n e1 s1, threads s1 !! i = Some (WWrap n) ->
     exists s2, perform IOC_TYPE PIPE_RESET resets s1 (Go i e1) = Some s2 /\ threads s2 !! i = Some (WWake n)) /\
  (forall n e1 s1, threads s1 !! i = Some (WWake n) ->
     exists s2, perform IOC_TYPE PIPE_RESET resets s1 (Go i e1) = Some s2 /\ threads s2 !! i = Some (Done n) /\
       forall j count, threads s1 !! j = Some (RSleep count) -> threads s2 !! j = Some (RWait count)).
Proof.
  intros H1 H2 Hr Hi Hs. pose proof (pipe_reachable_inv _ _ _ H1 H2 Hr) as I.
  pose proof I as [Ir Is I1 Ii Ip Ist].
  pose proof (proj1 (Forall_lookup _ _) Ip i q Hi) as Hp. split; [|split; [|split; [|split; [|split; [|split]]]]].
  - intros count -> -> Hc. cbn in Hp, Hs. destruct Hp as (Hc0 & Hq & Hne).
    destruct (read_body_ok (dev (sh s)) count) as (bytes & E & Hz & Hcn & _); try done.
    rewrite E in Hs. cbn in Hs. simplify_eq. exists bytes. rewrite Hz. cbn.
    destruct (read_count_spec (dev (sh s)) count) as (? & _ & Hn); try done.
    destruct (Hn Hne) as (_ & _ & _ & ?). split_and!; done || lia.
  - intros ubuf -> -> Hne. cbn in Hp, Hs. destruct Hp as [Hq Hf].
    destruct (write_count_spec (dev (sh s)) (zlen ubuf)) as (? & _ & _ & _ & Hpos);
      try done; [apply zlen_nonneg|].
    assert (0 < zlen ubuf) by (destruct ubuf; [done|unfold zlen; cbn; lia]).
    rewrite (proj2 (Z.leb_le 0 _)) in Hs by lia. cbn in Hs.
    destruct (write_body_ok (dev (sh s)) ubuf 0) as (d' & E & _ & _ & _ & _ & _ & Hfull);
      try done; [lia|].
    rewrite E in Hs. cbn in Hs. simplify_eq. destruct Hfull as [_ C]; [done|].
    eexists. split; [done|]. cbn. split; [|done]. specialize (Hpos ltac:(lia) Hf). lia.
  - intros ->. destruct q; cbn in Hp, Hs; repeat case_match; simplify_eq; try done.
    destruct_and!. zbool. cbn. pipe_facts. by rewrite app_nil_r.
  - intros n e1 s1 H. cbn [perform]. rewrite H. cbn [thread_step]. eexists. split; [reflexivity|]. cbn [threads].
    by rewrite list_lookup_fmap, list_lookup_insert_eq by (by eapply lookup_lt_Some).
  - intros n e1 s1 H. destruct (transfer_ends resets s1 i (RWake n) (Done n) WakeWriters e1 H eq_refl) as (s2 & E & Hi2 & Ho); [by intros []|].
    exists s2. split; [done|]. split; [done|]. intros j ubuf Hj. apply (Ho j (WSleep ubuf)); [intros ->; congruence|done].
  - intros n e1 s1 H. cbn [perform]. rewrite H. cbn [thread_step]. eexists. split; [reflexivity|]. cbn [threads].
    by rewrite list_lookup_fmap, list_lookup_insert_eq by (by eapply lookup_lt_Some).
  - intros n e1 s1 H. destruct (transfer_ends resets s1 i (WWake n) (Done n) WakeReaders e1 H eq_refl) as (s2 & E & Hi2 & Ho); [by intros []|].
    exists s2. split; [done|]. split; [done|]. intros j count Hj. apply (Ho j (RSleep count)); [intros ->; congruence|done].
Qed.

(** C14: No lost wake-up between readers and writers: without the ioctl, a
    reader asleep on [readq] means an empty pipe, and a writer asleep on
    [writeq] a full one, unless a thread is on its way to [wake_up] that
    queue. *)
Theorem pipe_no_lost_wakeup p s :
  0 < p -> p + BUF_LEN < 2 ^ 63 -> star (step false) (init_sys p) s ->
  (forall j count, threads s !! j = Some (RSleep count) ->
     contents (dev (sh s)) = [] \/ pending wakes_readers (threads s)) /\
  (forall j ubuf, threads s !! j = Some (WSleep ubuf) ->
     zlen (contents (dev (sh s))) = capacity \/ pending wakes_writers (threads s)).
Proof.
  intros H1 H2 Hr. destruct (reachable_resetless _ _ H1 H2 Hr) as (I & _ & A & W).
  split; intros j x Hj.
  - by apply (A j _ Hj).
  - destruct (W j _ Hj eq_refl) as [E|?]; [left|by right].
    rewrite spacefree_eq in E by apply I. lia.
Qed.

(** PIPE_RESET empties the pipe without [wake_up(&dev->writeq)]: a state is
    reachable in which the pipe is empty, the semaphore is free, and a writer
    sleeps for ever because no thread is left that would wake it (every
    remaining thread is blocked until a signal arrives). *)
Theorem pipe_reset_loses_wakeup :
  IOC_TYPE PIPE_RESET = PIPE ->
  exists s, star (step true) (init_sys 4096) s /\
    contents (dev (sh s)) = [] /\ spacefree (dev (sh s)) = capacity /\
    mysem (sh s) = 1 /\ threads s !! 1%nat = Some (WSleep [7]) /\
    Forall (fun q => thread_step 0 (sh s) q = Blocked) (threads s).
Proof.
  intros Hp.
  pose (fill := [Spawn (WDown (replicate 99 1)); Go 0 0; Go 0 0; Go 0 0; Go 0 0; Go 0 0]).
  pose (sleep := [Spawn (WDown [7]); Go 1 0; Go 1 0; Go 1 0]).
  destruct (perform_all IOC_TYPE PIPE_RESET true (init_sys 4096)
    (fill ++ sleep ++ [Spawn (IEntry PIPE_RESET)])) as [s1|] eqn:E1; [|by vm_compute in E1].
  pose proof (pipe_perform_star _ _ _ _ E1) as S1. vm_compute in E1. simplify_eq.
  eexists. split.
  - eapply (star_trans _ _ _ _ S1). eapply star_trans.
    + eapply star_more; [apply star_here|].
      eapply (step_thread _ _ _ _ 2 _ 0); [done|]. cbn. by rewrite Hp, !Z.eqb_refl.
    + eapply (pipe_perform_star _ _ [Go 2 0; Go 2 0]). by vm_compute.
  - cbn. split_and!; try done. by repeat constructor.
Qed.

End Preservation.

(** ** Witnesses

    The ioctl encoding of the kernel: the type is the second byte. *)
Definition ioc_type (cmd : Z) : Z := (cmd / 256) mod 256.
Definition pipe_reset : Z := 122 * 256 + 1.

(** A writer stores five bytes, a reader takes three. *)
Definition demo : list action :=
  [Spawn (WDown [1; 2; 3; 4; 5]); Spawn (RDown 3); Go 0 0; Go 0 0; Go 0 0; Go 0 0; Go 0 0;
   Go 1 0; Go 1 0].

Definition demo_sys : sys :=
  default (init_sys 4096) (perform_all ioc_type pipe_reset true (init_sys 4096) demo).

Definition demo_next : sys :=
  default (init_sys 4096) (perform ioc_type pipe_reset true demo_sys (Go 1 0)).

(** The same without the ioctl, up to a sleeping reader. *)
Definition demo_sleep : sys :=
  default (init_sys 4096)
    (perform_all ioc_type pipe_reset false (init_sys 4096)
       [Spawn (RDown 3); Go 0 0; Go 0 0; Go 0 0]).

Lemma pipe_demo_reach resets :
  star (step ioc_type pipe_reset resets) (init_sys 4096)
    (default (init_sys 4096) (perform_all ioc_type pipe_reset resets (init_sys 4096) demo)).
Proof. apply (pipe_perform_star _ _ _ _ demo). by vm_compute; destruct resets. Qed.

Lemma demo_sleep_reach : star (step ioc_type pipe_reset false) (init_sys 4096) demo_sleep.
Proof. eapply (pipe_perform_star _ _ _ _ [Spawn (RDown 3); Go 0 0; Go 0 0; Go 0 0]). by vm_compute. Qed.

Lemma pipe_refines_queue_witness :
  exists ev, log (sh demo_next) = log (sh demo_sys) ++ ev /\
    qstep (contents (dev (sh demo_sys))) ev (contents (dev (sh demo_next))).
Proof.
  apply (pipe_refines_queue ioc_type pipe_reset true 4096).
  - lia.
  - reflexivity.
  - apply pipe_demo_reach.
  - apply (perform_step _ _ _ _ (Go 1 0)). vm_compute. reflexivity.
Defined.

Lemma pipe_stream_witness :
  stored (log (sh demo_next)) = [1; 2; 3; 4; 5] /\
  stored (log (sh demo_next)) = taken (log (sh demo_next)) ++ contents (dev (sh demo_next)).
Proof.
  split; [vm_compute; reflexivity|].
  refine (proj1 (pipe_stream ioc_type pipe_reset true 4096 demo_next _ _ _)).
  - lia.
  - reflexivity.
  - eapply star_more; [apply pipe_demo_reach|].
    apply (perform_step _ _ _ _ (Go 1 0)). vm_compute. reflexivity.
Defined.

Lemma pipe_mutex_and_memory_safe_witness :
  threads demo_sys !! 1%nat = Some (RBody 3) /\
  thread_step ioc_type pipe_reset 0 (sh demo_sys) (RBody 3) <> Crash.
Proof.
  split; [vm_compute; reflexivity|].
  apply (proj2 (pipe_mutex_and_memory_safe ioc_type pipe_reset true 4096 demo_sys
    ltac:(lia) ltac:(reflexivity) (pipe_demo_reach true)) 1%nat).
  vm_compute. reflexivity.
Defined.

Lemma pipe_transfer_progress_witness :
  exists bytes, RWrap 3 = RWrap (zlen bytes) /\ 1 <= zlen bytes <= 3 /\
    contents (dev (sh demo_sys)) = bytes ++ contents (dev (sh demo_next)) /\
    log (sh demo_next) = log (sh demo_sys) ++ [EvRead bytes].
Proof.
  apply (proj1 (pipe_transfer_progress ioc_type pipe_reset true 4096 demo_sys 1%nat (RBody 3) 0
    (sh demo_next) (RWrap 3) NoWake ltac:(lia) ltac:(reflexivity) (pipe_demo_reach true)
    ltac:(vm_compute; reflexivity) ltac:(vm_compute; reflexivity)) 3); [reflexivity..|lia].
Defined.

Lemma pipe_no_lost_wakeup_witness :
  threads demo_sleep !! 0%nat = Some (RSleep 3) /\
  (contents (dev (sh demo_sleep)) = [] \/ pending wakes_readers (threads demo_sleep)).
Proof.
  split; [vm_compute; reflexivity|].
  apply (proj1 (pipe_no_lost_wakeup ioc_type pipe_reset 4096 demo_sleep
    ltac:(lia) ltac:(reflexivity) demo_sleep_reach) 0%nat 3).
  vm_compute. reflexivity.
Defined.

Lemma pipe_reset_loses_wakeup_witness :
  exists s, star (step ioc_type pipe_reset true) (init_sys 4096) s /\
    contents (dev (sh s)) = [] /\ spacefree (dev (sh s)) = capacity /\
    mysem (sh s) = 1 /\ threads s !! 1%nat = Some (WSleep [7]) /\
    Forall (fun q => thread_step ioc_type pipe_reset 0 (sh s) q = Blocked) (threads s).
Proof. apply pipe_reset_loses_wakeup. vm_compute. reflexivity. Defined.
