(* ===== verification/CharIface.v ===== *)
(** * The interface of an append-buffer character device

    Three drivers (char/mychar.c, char/multi_mem.c, time/my_wait.c) keep a
    memory block [start .. end) and a write pointer [wp]; a write appends at
    [wp], a read copies from the file position.  [CharDev] are the two
    operations, [AppendDev] what the drivers promise to the programs that use
    the device; the drivers' files give the instances, and [CharClient] has
    what they promise to the program char/user_read.c. *)
From S2P Require Import Prelude Kernel.
Local Open Scope Z_scope.

(** [cd_read d count left pos] answers with the return value, the new file
    position and the bytes that reached the user; [left] is the number of
    bytes the user copy could not move.  [cd_write d ubuf left] answers with
    the return value and the new device.  [None]: the handler touches memory
    outside its block. *)
Class CharDev (D : Type) := {
  cd_read : D -> Z -> Z -> Z -> option (Z * Z * list Z);
  cd_write : D -> list Z -> Z -> option (Z * D)
}.

Class AppendDev (D : Type) `{!CharDev D} := {
  cd_wf : D -> Prop;
  cd_data : D -> list Z;
  cd_cap : D -> Z;
  cd_fits d : cd_wf d -> zlen (cd_data d) <= cd_cap d < 2 ^ 31;
  cd_read_law d count pos :
    cd_wf d -> 0 <= pos < zlen (cd_data d) -> 0 < count < 2 ^ 63 ->
    let n := Z.min count (zlen (cd_data d) - pos) in
    cd_read d count 0 pos = Some (n, pos + n, sl (cd_data d) pos n);
  cd_write_law d ubuf :
    cd_wf d ->
    let n := Z.min (zlen ubuf) (cd_cap d - zlen (cd_data d)) in
    exists d', cd_write d ubuf 0 = Some (n, d') /\ cd_wf d' /\
      cd_cap d' = cd_cap d /\ cd_data d' = cd_data d ++ sl ubuf 0 n;
  cd_write_fault d ubuf left :
    cd_wf d -> let n := Z.min (zlen ubuf) (cd_cap d - zlen (cd_data d)) in
    0 < left <= n ->
    exists d', cd_write d ubuf left = Some (- EFAULT, d') /\ cd_wf d' /\
      cd_cap d' = cd_cap d /\ cd_data d' = cd_data d
}.

(** ** Loading a character driver

    The code every driver uses to get its device numbers: a static region when
    the module parameter [major] is set, else an allocated one, whose major is
    stored in [major].  When the allocation fails the driver assigns the major
    of an uninitialised [dev_t]; every caller fails in that case and [major]
    is not read again, so the model leaves it alone. *)
Definition get_region (major n : Z) : prog (Z * Z) :=
  if c_true major then
    call! r <- register_chrdev_region (MKDEV major 0) n ;; Ret (r, major)
  else
    call! r <- alloc_chrdev_region 0 n ;;
    Ret (if r <? 0 then (r, major) else (0, r)).

(** The pointers a driver keeps for its lifetime: its [dev], [dev->start] and
    the major number. *)
Record handles := Handles { h_dev : Z; h_start : Z; h_major : Z }.

(** ** Lemmas the instances share *)

(** The block of a device: [mem] is the memory at [start .. end_). *)
Definition block_ok (start end_ wp cap : Z) (mem : list Z) : Prop :=
  0 < start /\ end_ = start + cap /\ end_ < 2 ^ 63 /\ 0 < cap < 2 ^ 31 /\
  zlen mem = cap /\ start <= wp <= end_.

Lemma block_data_len start end_ wp cap mem :
  block_ok start end_ wp cap mem -> zlen (sl mem 0 (wp - start)) = wp - start.
Proof. intros (? & ? & ? & ? & ? & ?). apply zlen_sl; lia. Qed.

Lemma block_read start end_ wp cap mem pos n :
  block_ok start end_ wp cap mem -> 0 <= pos -> 0 <= n -> pos + n <= wp - start ->
  rd mem pos n = Some (sl (sl mem 0 (wp - start)) pos n).
Proof.
  intros (? & ? & ? & ? & ? & ?) ???. rewrite rd_ok by lia. by rewrite sl_sl.
Qed.

(** A write of [n] bytes at [wp], [left] of which did not arrive. *)
Lemma block_write start end_ wp cap mem ubuf n left :
  block_ok start end_ wp cap mem -> 0 <= left <= n -> n <= zlen ubuf -> n <= end_ - wp ->
  exists mem', wr mem (wp - start) (from_user ubuf n left) = Some mem' /\
    block_ok start end_ wp cap mem' /\ sl mem' 0 (wp - start) = sl mem 0 (wp - start) /\
    (left = 0 -> sl mem' 0 (wp + n - start) = sl mem 0 (wp - start) ++ sl ubuf 0 n).
Proof.
  intros (? & ? & ? & ? & ? & ?) ???.
  assert (zlen (from_user ubuf n left) = n) as Hl by (apply zlen_from_user; lia).
  exists (upd mem (wp - start) (from_user ubuf n left)).
  split; [apply wr_ok; lia|]. split; [|split].
  - repeat split; try lia. rewrite zlen_upd by lia. done.
  - apply sl_upd_below; lia.
  - intros ->. rewrite <- (from_user_full ubuf n) by lia. rewrite <- sl_upd_append by lia.
    f_equal. lia.
Qed.

Lemma block_advance start end_ wp cap mem n :
  block_ok start end_ wp cap mem -> 0 <= n <= end_ - wp ->
  block_ok start end_ (wp + n) cap mem.
Proof. unfold block_ok. intros (? & ? & ? & ? & ? & ?) ?. repeat split; lia. Qed.

(** The block [my_init] sets up. *)
Lemma block_fresh p cap :
  0 < p -> 0 < cap < 2 ^ 31 -> p + cap < 2 ^ 63 ->
  block_ok p (p + cap) p cap (replicate (Z.to_nat cap) 0).
Proof.
  unfold block_ok, zlen. intros. rewrite length_replicate. repeat split; lia.
Qed.
