(* ===== verification/MyChar.v ===== *)
(** * char/mychar.c: the simple memory device

    A block of [BUF_LEN] bytes; a write appends at [wp], a read copies from
    the file position without checking it against [wp].  [AppendDev] holds for
    positions inside the data; a position beyond [wp] makes the unsigned length
    wrap around ([mychar_read_past_wp]). *)
From stdpp Require Import strings.
From S2P Require Import Prelude Kernel CharIface.
Local Open Scope Z_scope.

Definition BUF_LEN : Z := 100.
Definition MY_MAJOR : Z := 50.

Record mydev := Mydev { start : Z; end_ : Z; wp : Z; mem : list Z }.

(** The device after [my_init], with the block at [p]. *)
Definition init_dev (p : Z) : mydev :=
  Mydev p (p + BUF_LEN) p (replicate (Z.to_nat BUF_LEN) 0).

(** [filp->private_data] is the device the inode's cdev lives in. *)
Definition my_open (dev_priv : mydev) : mydev * Z := (dev_priv, 0).
Definition my_release (priv : mydev) : mydev * Z := (priv, 0).

Definition my_read (priv : mydev) (count left pos : Z) : option (Z * Z * list Z) :=
  let count := Z.min count (u64 (wp priv - start priv - pos)) in
  if 0 =? count then Some (s64 count, pos, [])
  else match rd (mem priv) pos count with
       | None => None
       | Some bytes =>
           if c_true left then Some (- EFAULT, pos, take (Z.to_nat (count - left)) bytes)
           else Some (s64 count, s64 (pos + count), bytes)
       end.

Definition my_write (priv : mydev) (ubuf : list Z) (left : Z) : option (Z * mydev) :=
  let count := Z.min (zlen ubuf) (u64 (end_ priv - wp priv)) in
  if 0 =? count then Some (s64 count, priv)
  else match wr (mem priv) (wp priv - start priv) (from_user ubuf count left) with
       | None => None
       | Some m =>
           let priv := Mydev (start priv) (end_ priv) (wp priv) m in
           if c_true left then Some (- EFAULT, priv)
           else Some (s64 count, Mydev (start priv) (end_ priv) (wp priv + count) m)
       end.

Definition my_init (major : Z) : prog (Z * handles) :=
  call! dev <- kzalloc "struct mydev" 1 ;;
  if dev =? 0 then Ret (- ENOMEM, Handles 0 0 major) else
  call! start <- kzalloc "buffer" BUF_LEN ;;
  if start =? 0 then do! kfree dev ;; Ret (- ENOMEM, Handles dev 0 major) else
  let! (ret, major) <- get_region major 20 ;;
  if c_true ret then
    do! kfree start ;;
    do! kfree dev ;;
    Ret (-1, Handles dev start major)
  else
    do! cdev_init dev ;;
    do! cdev_add dev (MKDEV major 0) 1 ;;
    Ret (0, Handles dev start major).

Definition my_exit (h : handles) : prog unit :=
  do! cdev_del (h_dev h) ;;
  do! unregister_chrdev_region (MKDEV (h_major h) 0) 20 ;;
  do! kfree (h_start h) ;;
  do! kfree (h_dev h) ;;
  Ret tt.

(** ** The interface *)
Definition data (d : mydev) : list Z := sl (mem d) 0 (wp d - start d).
Definition wf (d : mydev) : Prop := block_ok (start d) (end_ d) (wp d) BUF_LEN (mem d).

Lemma mychar_data_len d : wf d -> zlen (data d) = wp d - start d.
Proof. apply block_data_len. Qed.

Lemma mychar_wf_room d : wf d -> 0 <= wp d - start d <= BUF_LEN /\ end_ d - wp d = BUF_LEN - (wp d - start d).
Proof. intros (? & ? & ? & ? & ? & ?). lia. Qed.

Lemma my_read_in_range d count pos :
  wf d -> 0 <= pos <= zlen (data d) -> 0 < count < 2 ^ 63 ->
  let n := Z.min count (zlen (data d) - pos) in
  my_read d count 0 pos = Some (n, pos + n, sl (data d) pos n).
Proof.
  intros Hw Hp Hc n. pose proof (mychar_wf_room d Hw) as [Hb _]. unfold BUF_LEN in Hb.
  subst n. rewrite (mychar_data_len d Hw) in *. unfold my_read.
  rewrite (u64_small (wp d - start d - pos)) by lia. set (n := Z.min count _) in *.
  destruct (Z.eqb_spec 0 n) as [E|E].
  - rewrite <- E, sl_zero, s64_small, Z.add_0_r by lia. done.
  - rewrite (block_read _ _ _ _ _ pos n Hw) by lia. cbn. rewrite !s64_small by lia. done.
Qed.

Lemma my_write_cases d ubuf left :
  wf d -> let n := Z.min (zlen ubuf) (BUF_LEN - zlen (data d)) in
  0 <= left <= n ->
  exists d', my_write d ubuf left = Some (if c_true left then - EFAULT else n, d') /\ wf d' /\
    data d' = data d ++ (if c_true left then [] else sl ubuf 0 n).
Proof.
  intros Hw n Hl. pose proof (mychar_wf_room d Hw) as [Hb He]. unfold BUF_LEN in Hb, He.
  pose proof (zlen_nonneg ubuf). unfold my_write. rewrite u64_small by lia.
  subst n. rewrite (mychar_data_len d Hw) in *. unfold BUF_LEN in *. rewrite He.
  set (n := Z.min _ _) in *.
  destruct (Z.eqb_spec 0 n) as [E|E].
  - exists d. assert (left = 0) as -> by lia. rewrite <- E, sl_zero, app_nil_r. done.
  - destruct (block_write _ _ _ _ _ ubuf n left Hw) as (m & -> & Hm & Hs & Ha); try lia.
    unfold c_true. destruct (Z.eqb_spec left 0) as [->|E0]; cbn.
    + rewrite s64_small by lia. eexists. split; [done|]. split.
      * apply block_advance; [exact Hm|cbn; lia].
      * apply Ha. done.
    + eexists. split; [done|]. rewrite app_nil_r. done.
Qed.

#[global] Instance char_dev : CharDev mydev := {
  cd_read := my_read; cd_write := my_write
}.

#[global] Program Instance append_dev : AppendDev mydev := {
  cd_wf := wf; cd_data := data; cd_cap := fun _ => BUF_LEN
}.
Next Obligation. intros d Hw. rewrite (mychar_data_len d Hw). pose proof (mychar_wf_room d Hw). unfold BUF_LEN in *. lia. Qed.
Next Obligation. intros. apply my_read_in_range; [done|lia|done]. Qed.
Next Obligation.
  intros d ubuf Hw. destruct (my_write_cases d ubuf 0 Hw) as (d' & H1 & H2 & H3).
  { pose proof (mychar_wf_room d Hw). pose proof (zlen_nonneg ubuf). rewrite (mychar_data_len d Hw). lia. }
  cbn in H1, H3. eauto.
Qed.
Next Obligation.
  intros d ubuf left Hw n Hl. destruct (my_write_cases d ubuf left Hw) as (d' & H1 & H2 & H3); [subst n; cbn in Hl |- *; lia|].
  replace (c_true left) with true in * by (symmetry; apply negb_true_iff, Z.eqb_neq; lia).
  rewrite app_nil_r in H3. eauto.
Qed.

Lemma init_dev_wf p : 0 < p -> p + BUF_LEN < 2 ^ 63 -> wf (init_dev p).
Proof. intros. unfold wf. cbn -[BUF_LEN]. apply block_fresh; unfold BUF_LEN in *; lia. Qed.

#[global] Instance my_balanced major : Balanced (my_init major) my_exit.
Proof. unfold Balanced. unfold my_init, get_region. kbalanced my_init my_exit. Qed.

(** A read at a position beyond [wp] is not refused: the length
    [wp - start - pos] wraps to a huge unsigned number, so the whole requested
    [count] is copied, from bytes no write has stored while they are inside
    the block and from outside the block (the model's [None]) past its end. *)
Theorem mychar_read_past_wp d count pos :
  wf d -> zlen (data d) < pos -> 0 < count -> pos + count < 2 ^ 62 ->
  my_read d count 0 pos =
    if pos + count <=? BUF_LEN then Some (count, pos + count, sl (mem d) pos count) else None.
Proof.
  intros Hw Hp Hc Hpc. pose proof (mychar_wf_room d Hw) as [Hb _]. rewrite (mychar_data_len d Hw) in Hp.
  unfold my_read.
  assert (u64 (wp d - start d - pos) = wp d - start d - pos + 2 ^ 64) as ->.
  { unfold u64, wrapu. rewrite <- (Z_mod_plus_full _ 1 (2 ^ 64)), Z.mod_small; lia. }
  rewrite Z.min_l by lia. rewrite (proj2 (Z.eqb_neq 0 count)) by lia.
  destruct Hw as (_ & _ & _ & _ & Hm & _). unfold rd, in_bounds. rewrite Hm.
  rewrite (proj2 (Z.leb_le 0 pos)), (proj2 (Z.leb_le 0 count)) by lia. cbn [andb].
  destruct (_ <=? _); [|done]. cbn. rewrite !s64_small by lia. done.
Qed.

Lemma mychar_read_past_wp_witness :
  my_read (init_dev 4096) 8 0 10 = Some (8, 18, replicate 8 0) /\
  my_read (init_dev 4096) 8 0 99 = None.
Proof.
  assert (wf (init_dev 4096)) as Hw by (apply init_dev_wf; done).
  split; [apply (mychar_read_past_wp _ 8 10 Hw)|apply (mychar_read_past_wp _ 8 99 Hw)]; done.
Defined.
