(* ===== verification/MultiMem.v ===== *)
(** * char/multi_mem.c: four memory devices behind one driver

    The devices are the array [multi_devs]; a file is bound to one of them by
    its minor number and keeps a position that [my_llseek] moves.  The module
    code allocates the devices one by one ([setup_mydev]) and takes them down
    with [release_mydev]. *)
From stdpp Require Import strings.
From S2P Require Import Prelude Kernel CharIface.
Local Open Scope Z_scope.

Definition BUF_LEN : Z := 1024.
Definition MY_MAJOR : Z := 60.
Definition DEV_NUM : Z := 4.

Record mydev := Mydev { start : Z; end_ : Z; wp : Z; buf_size : Z; mem : list Z }.

(** The size [setup_mydev] gives a buffer, from the module parameter. *)
Definition buf_size_of (buf_len : Z) : Z :=
  if 4096 <=? buf_len then 4096 else if buf_len =? 0 then BUF_LEN else buf_len.

(** A device as [setup_mydev] leaves it, with its buffer at [p]. *)
Definition init_dev (p buf_len : Z) : mydev :=
  let size := buf_size_of buf_len in
  Mydev p (p + size) p size (replicate (Z.to_nat size) 0).

(** ** File operations *)
Definition my_open (multi_devs : list mydev) (minor : Z) : option mydev :=
  if 0 <=? minor then multi_devs !! Z.to_nat minor else None.
Definition my_release : Z := 0.

Definition my_read (dev : mydev) (count left f_pos : Z) : option (Z * Z * list Z) :=
  if wp dev - start dev <=? f_pos then Some (0, f_pos, [])
  else
    let count := Z.min count (u64 (wp dev - start dev - f_pos)) in
    if count <=? 0 then Some (0, f_pos, [])
    else match rd (mem dev) f_pos count with
         | None => None
         | Some bytes =>
             if c_true left then Some (- EFAULT, f_pos, take (Z.to_nat (count - left)) bytes)
             else Some (s64 count, s64 (f_pos + count), bytes)
         end.

Definition my_write (dev : mydev) (ubuf : list Z) (left : Z) : option (Z * mydev) :=
  let count := Z.min (zlen ubuf) (u64 (end_ dev - wp dev)) in
  if 0 =? count then Some (0, dev)
  else match wr (mem dev) (wp dev - start dev) (from_user ubuf count left) with
       | None => None
       | Some m =>
           if c_true left then
             Some (- EFAULT, Mydev (start dev) (end_ dev) (wp dev) (buf_size dev) m)
           else
             Some (s64 count, Mydev (start dev) (end_ dev) (wp dev + count) (buf_size dev) m)
       end.

(** The new position and the return value. *)
Definition my_llseek (dev : mydev) (f_pos offset origin : Z) : Z * Z :=
  let offset :=
    match origin with
    | 1 => s64 (offset + f_pos)
    | 2 => s64 (offset + buf_size dev)
    | _ => offset
    end in
  if (offset <? 0) || (buf_size dev <? offset) then (f_pos, - EINVAL)
  else (offset, offset).

(** ** Open files on the four devices *)
Record file := File { minor : Z; f_pos : Z }.
Record system := System { multi_devs : list mydev; files : list file }.

Inductive op :=
| Open (minor : Z)
| Read (fd : nat) (count lft : Z)
| Write (fd : nat) (ubuf : list Z) (lft : Z)
| Llseek (fd : nat) (offset origin : Z).

(** The arguments the VFS passes: an open file, a minor the driver
    registered, a count below [MAX_RW_COUNT], a user copy that misses at most
    what was asked. *)
Definition op_ok (s : system) (o : op) : Prop :=
  match o with
  | Open m => 0 <= m < DEV_NUM
  | Read fd count lft => (fd < length (files s))%nat /\ 0 <= count < 2 ^ 31 /\ 0 <= lft
  | Write fd ubuf lft =>
      (fd < length (files s))%nat /\ 0 <= lft /\
      forall f d, files s !! fd = Some f -> my_open (multi_devs s) (minor f) = Some d ->
        lft <= Z.min (zlen ubuf) (end_ d - wp d)
  | Llseek fd offset _ => (fd < length (files s))%nat /\ Z.abs offset < 2 ^ 62
  end.

(** A system call on the driver: the new system, the return value and the
    bytes for the user. *)
Definition exec (s : system) (o : op) : option (system * Z * list Z) :=
  match o with
  | Open m =>
      match my_open (multi_devs s) m with
      | Some _ => Some (System (multi_devs s) (files s ++ [File m 0]), 0, [])
      | None => None
      end
  | Read fd count lft =>
      f ← files s !! fd; d ← my_open (multi_devs s) (minor f);
      '(ret, pos, bytes) ← my_read d count lft (f_pos f);
      Some (System (multi_devs s) (<[fd := File (minor f) pos]> (files s)), ret, bytes)
  | Write fd ubuf lft =>
      f ← files s !! fd; d ← my_open (multi_devs s) (minor f);
      '(ret, d') ← my_write d ubuf lft;
      Some (System (<[Z.to_nat (minor f) := d']> (multi_devs s)) (files s), ret, [])
  | Llseek fd offset origin =>
      f ← files s !! fd; d ← my_open (multi_devs s) (minor f);
      let '(pos, ret) := my_llseek d (f_pos f) offset origin in
      Some (System (multi_devs s) (<[fd := File (minor f) pos]> (files s)), ret, [])
  end.

(** ** Module load and unload *)

(** An element of the array: the structure's address ([0]: NULL), its
    [start] and its size. *)
Record slot := Slot { sp : Z; sstart : Z; ssize : Z }.

Fixpoint release_mydev (devs : list slot) : prog unit :=
  match devs with
  | [] => Ret tt
  | s :: rest =>
      if sp s =? 0 then Oops "devs[i]->start of NULL devs[i]"
      else
        do! kfree (sstart s) ;;
        do! kfree (sp s) ;;
        release_mydev rest
  end.

(** The loop of [setup_mydev] with [devs] done and [lens] the sizes to go. *)
Fixpoint setup_from (devs : list slot) (lens : list Z) : prog (Z * list slot) :=
  match lens with
  | [] => Ret (0, devs)
  | len :: lens' =>
      call! p <- kzalloc "struct mydev" 1 ;;
      if p =? 0 then
        let! _ <- release_mydev (devs ++ [Slot 0 0 0]) ;;
        Ret (- ENOMEM, devs ++ [Slot 0 0 0])
      else
        let size := buf_size_of len in
        call! b <- kzalloc "buffer" size ;;
        if b =? 0 then
          let! _ <- release_mydev (devs ++ [Slot p 0 size]) ;;
          Ret (- ENOMEM, devs ++ [Slot p 0 size])
        else setup_from (devs ++ [Slot p b size]) lens'
  end.

Definition setup_mydev (buf_lens : list Z) : prog (Z * list slot) := setup_from [] buf_lens.

(** The cdev is the static object [multi_cdev], here at address 1. *)
Definition multi_cdev : Z := 1.

Definition my_init (buf_lens : list Z) (major : Z) : prog (Z * (list slot * Z)) :=
  let! (ret, devs) <- setup_mydev buf_lens ;;
  if c_true ret then Ret (ret, (devs, major))
  else
    let! (ret, major) <- get_region major DEV_NUM ;;
    if c_true ret then
      let! _ <- release_mydev devs ;;
      Ret (-1, (devs, major))
    else
      do! cdev_init multi_cdev ;;
      do! cdev_add multi_cdev (MKDEV major 0) DEV_NUM ;;
      Ret (0, (devs, major)).

Definition my_exit (st : list slot * Z) : prog unit :=
  do! cdev_del multi_cdev ;;
  do! unregister_chrdev_region (MKDEV (snd st) 0) DEV_NUM ;;
  release_mydev (fst st).

(** ** The interface and the abstract files *)
Definition data (d : mydev) : list Z := sl (mem d) 0 (wp d - start d).
Definition wf (d : mydev) : Prop :=
  block_ok (start d) (end_ d) (wp d) (buf_size d) (mem d) /\ buf_size d <= 4096.

(** A device seen from outside: what was written to it, and its size. *)
Record adev := Adev { adata : list Z; acap : Z }.
Definition abs_dev (d : mydev) : adev := Adev (data d) (buf_size d).

Record asystem := Asystem { adevs : list adev; afiles : list file }.
Definition abs (s : system) : asystem := Asystem (abs_dev <$> multi_devs s) (files s).

Definition abs_read (a : adev) (count lft pos : Z) : Z * Z * list Z :=
  let n := Z.min count (Z.max 0 (zlen (adata a) - pos)) in
  if n =? 0 then (0, pos, [])
  else if lft =? 0 then (n, pos + n, sl (adata a) pos n)
  else (- EFAULT, pos, take (Z.to_nat (n - lft)) (sl (adata a) pos n)).

Definition abs_write (a : adev) (ubuf : list Z) (lft : Z) : Z * adev :=
  let n := Z.min (zlen ubuf) (acap a - zlen (adata a)) in
  if lft =? 0 then (n, Adev (adata a ++ sl ubuf 0 n) (acap a)) else (- EFAULT, a).

Definition abs_llseek (a : adev) (pos offset origin : Z) : Z * Z :=
  let target := (if origin =? 1 then pos else if origin =? 2 then acap a else 0) + offset in
  if (0 <=? target) && (target <=? acap a) then (target, target) else (pos, - EINVAL).

Definition abs_exec (s : asystem) (o : op) : option (asystem * Z * list Z) :=
  match o with
  | Open m => Some (Asystem (adevs s) (afiles s ++ [File m 0]), 0, [])
  | Read fd count lft =>
      f ← afiles s !! fd; a ← adevs s !! Z.to_nat (minor f);
      let '(ret, pos, bytes) := abs_read a count lft (f_pos f) in
      Some (Asystem (adevs s) (<[fd := File (minor f) pos]> (afiles s)), ret, bytes)
  | Write fd ubuf lft =>
      f ← afiles s !! fd; a ← adevs s !! Z.to_nat (minor f);
      let '(ret, a') := abs_write a ubuf lft in
      Some (Asystem (<[Z.to_nat (minor f) := a']> (adevs s)) (afiles s), ret, [])
  | Llseek fd offset origin =>
      f ← afiles s !! fd; a ← adevs s !! Z.to_nat (minor f);
      let '(pos, ret) := abs_llseek a (f_pos f) offset origin in
      Some (Asystem (adevs s) (<[fd := File (minor f) pos]> (afiles s)), ret, [])
  end.

Definition file_ok (devs : list mydev) (f : file) : Prop :=
  0 <= minor f < DEV_NUM /\
  forall d, my_open devs (minor f) = Some d -> 0 <= f_pos f <= buf_size d.

Record inv (s : system) : Prop := {
  inv_devs : Forall wf (multi_devs s);
  inv_num : zlen (multi_devs s) = DEV_NUM;
  inv_files : Forall (file_ok (multi_devs s)) (files s)
}.

(** The system after [my_init] with the buffers at the addresses [ps], and
    what a sequence of calls can make of it. *)
Definition init_sys (ps lens : list Z) : system :=
  System (zip_with init_dev ps lens) [].

Definition sys_step (s s' : system) : Prop :=
  exists o ret bytes, op_ok s o /\ exec s o = Some (s', ret, bytes).

(** ** Lemmas *)
Lemma multi_data_len d : wf d -> zlen (data d) = wp d - start d.
Proof. intros [H _]. eapply block_data_len, H. Qed.

Lemma multi_wf_room d :
  wf d -> 0 <= wp d - start d <= buf_size d /\ 0 < buf_size d <= 4096 /\
          end_ d - wp d = buf_size d - (wp d - start d).
Proof. intros [(? & ? & ? & ? & ? & ?) ?]. lia. Qed.

Lemma my_read_spec d count lft pos :
  wf d -> 0 <= pos < 2 ^ 31 -> 0 <= count < 2 ^ 63 ->
  my_read d count lft pos = Some (abs_read (abs_dev d) count lft pos).
Proof.
  intros Hw Hp Hc. pose proof (multi_wf_room d Hw) as (Hb & Hs & _).
  unfold my_read, abs_read. cbn [adata abs_dev]. rewrite (multi_data_len d Hw).
  destruct (Z.leb_spec (wp d - start d) pos) as [L|L].
  { rewrite Z.max_l, Z.min_r by lia. done. }
  rewrite u64_small, Z.max_r by lia. set (n := Z.min count _).
  destruct (Z.leb_spec n 0) as [L0|L0]; destruct (Z.eqb_spec n 0) as [E|E]; try lia; [done|].
  rewrite (block_read _ _ _ _ _ pos n (proj1 Hw)) by lia. fold (data d).
  unfold c_true. destruct (lft =? 0); cbn; [|done]. rewrite !s64_small by lia. done.
Qed.

Lemma my_write_spec d ubuf lft :
  wf d -> 0 <= lft <= Z.min (zlen ubuf) (end_ d - wp d) ->
  exists d', my_write d ubuf lft = Some (fst (abs_write (abs_dev d) ubuf lft), d') /\ wf d' /\
    abs_dev d' = snd (abs_write (abs_dev d) ubuf lft).
Proof.
  intros Hw Hl. pose proof (multi_wf_room d Hw) as (Hb & Hs & He). pose proof (zlen_nonneg ubuf).
  unfold my_write, abs_write. cbn [adata acap abs_dev]. rewrite (multi_data_len d Hw).
  rewrite u64_small by lia. rewrite He in *. set (n := Z.min _ _) in *.
  assert (n <= zlen ubuf /\ n <= buf_size d - (wp d - start d)) as [? ?] by lia. clearbody n.
  destruct Hw as [Hw H4].
  destruct (Z.eqb_spec 0 n) as [E|E].
  - assert (lft = 0) as -> by lia. exists d. rewrite <- E. cbn -[sl].
    rewrite sl_zero, app_nil_r. done.
  - destruct (block_write _ _ _ _ _ ubuf n lft Hw) as (m & -> & Hm & Hsm & Ha); try lia.
    unfold c_true. destruct (Z.eqb_spec lft 0) as [->|E0]; cbn [negb fst snd].
    + rewrite s64_small by lia. eexists. split; [done|]. split.
      * split; [|done]. cbn. apply block_advance; [done|lia].
      * unfold abs_dev, data. cbn [mem wp start buf_size]. f_equal. by apply Ha.
    + eexists. split; [done|]. split; [done|].
      unfold abs_dev, data. cbn [mem wp start buf_size]. by rewrite Hsm.
Qed.

Lemma my_llseek_spec d pos offset origin :
  wf d -> 0 <= pos <= buf_size d -> Z.abs offset < 2 ^ 62 ->
  my_llseek d pos offset origin = abs_llseek (abs_dev d) pos offset origin.
Proof.
  intros Hw Hp Ho. pose proof (multi_wf_room d Hw) as (_ & Hs & _).
  unfold my_llseek, abs_llseek. cbn [acap abs_dev].
  set (o1 := match origin with 1 => _ | _ => _ end).
  assert (o1 = (if origin =? 1 then pos else if origin =? 2 then buf_size d else 0) + offset) as ->.
  { subst o1. destruct origin as [|[[]|[]|]|]; cbn -[s64 Z.add]; rewrite ?s64_small by lia; lia. }
  set (x := (if origin =? 1 then _ else _) + offset).
  destruct (Z.ltb_spec x 0), (Z.ltb_spec (buf_size d) x), (Z.leb_spec 0 x),
    (Z.leb_spec x (buf_size d)); done || lia.
Qed.

Lemma abs_llseek_range a pos offset origin :
  0 <= pos <= acap a -> 0 <= fst (abs_llseek a pos offset origin) <= acap a.
Proof. intros. unfold abs_llseek. zcase; cbn; lia. Qed.

Lemma abs_read_range a count lft pos cap :
  zlen (adata a) <= cap -> 0 <= pos <= cap -> 0 <= count ->
  0 <= snd (fst (abs_read a count lft pos)) <= cap.
Proof. intros. unfold abs_read. zcase; cbn; lia. Qed.

Lemma open_some s m :
  inv s -> 0 <= m < DEV_NUM ->
  exists d, my_open (multi_devs s) m = Some d /\ multi_devs s !! Z.to_nat m = Some d /\ wf d.
Proof.
  intros [Hd Hn _] Hm. unfold my_open. rewrite (proj2 (Z.leb_le 0 m)) by lia.
  destruct (lookup_lt_is_Some_2 (multi_devs s) (Z.to_nat m)) as [d E].
  { unfold zlen in Hn. lia. }
  exists d. split; [done|]. split; [done|]. by eapply Forall_lookup_1 in Hd.
Qed.

Lemma file_some s fd :
  inv s -> (fd < length (files s))%nat ->
  exists f d, files s !! fd = Some f /\ my_open (multi_devs s) (minor f) = Some d /\
    multi_devs s !! Z.to_nat (minor f) = Some d /\ wf d /\ 0 <= minor f < DEV_NUM /\
    0 <= f_pos f <= buf_size d.
Proof.
  intros Hi Hfd. destruct (lookup_lt_is_Some_2 _ _ Hfd) as [f Ef].
  pose proof (Forall_lookup_1 _ _ _ _ (inv_files s Hi) Ef) as [Hm Hp].
  destruct (open_some s _ Hi Hm) as (d & Eo & El & Hw). eauto 10.
Qed.

Lemma inv_move s fd f pos :
  inv s -> files s !! fd = Some f ->
  (forall d, my_open (multi_devs s) (minor f) = Some d -> 0 <= pos <= buf_size d) ->
  inv (System (multi_devs s) (<[fd := File (minor f) pos]> (files s))).
Proof.
  intros [Hd Hn Hf] Ef Hp. split; cbn; [done|done|].
  pose proof (Forall_lookup_1 _ _ _ _ Hf Ef) as [Hm _].
  apply Forall_insert; [done|]. split; done.
Qed.

Lemma my_open_insert devs m d' x :
  my_open (<[x := d']> devs) m = (if Nat.eqb (Z.to_nat m) x then
     (if 0 <=? m then (if decide (x < length devs)%nat then Some d' else None) else None)
     else my_open devs m).
Proof.
  unfold my_open. destruct (Nat.eqb_spec (Z.to_nat m) x) as [<-|E]; destruct (0 <=? m); try done.
  - destruct (decide _); [by rewrite list_lookup_insert_eq|].
    rewrite lookup_ge_None_2; [done|]. rewrite length_insert. lia.
  - by rewrite list_lookup_insert_ne.
Qed.

Lemma inv_store s x d d' :
  inv s -> multi_devs s !! x = Some d -> wf d' -> buf_size d' = buf_size d ->
  inv (System (<[x := d']> (multi_devs s)) (files s)).
Proof.
  intros [Hd Hn Hf] Ex Hw Hs. split; cbn.
  - by apply Forall_insert.
  - unfold zlen in *. by rewrite length_insert.
  - eapply Forall_impl; [exact Hf|]. intros f [Hm Hp]. split; [done|].
    intros e He. rewrite my_open_insert in He. destruct (Nat.eqb_spec (Z.to_nat (minor f)) x) as [<-|E].
    + destruct (0 <=? minor f) eqn:L; [|done]. destruct (decide _); [|done]. simplify_eq.
      rewrite Hs. apply Hp. unfold my_open. by rewrite L.
    + by apply Hp.
Qed.

Lemma abs_write_cap a ubuf lft : acap (snd (abs_write a ubuf lft)) = acap a.
Proof. unfold abs_write. by destruct (lft =? 0). Qed.

Lemma exec_refines s o :
  inv s -> op_ok s o ->
  exists s' ret bytes, exec s o = Some (s', ret, bytes) /\ inv s' /\
    abs_exec (abs s) o = Some (abs s', ret, bytes).
Proof.
  intros Hi Ho. destruct o as [m|fd count lft|fd ubuf lft|fd offset origin]; cbn in Ho.
  { destruct (open_some s m Hi Ho) as (d & Eo & _ & Hw). cbn. rewrite Eo.
    do 3 eexists. split; [done|]. split; [|done].
    destruct Hi as [Hd Hn Hf]. split; cbn; [done|done|].
    apply Forall_app. split; [done|]. constructor; [|done]. split; [done|]. cbn.
    intros e He. rewrite Eo in He. simplify_eq.
    pose proof (multi_wf_room _ Hw). lia. }
  all: destruct Ho as (Hfd & Ho); destruct (file_some s fd Hi Hfd) as (f & d & Ef & Eo & El & Hw & Hm & Hp);
    pose proof (multi_wf_room d Hw) as (Hb & Hs & _); cbn -[my_read my_write my_llseek abs_read abs_write abs_llseek];
    rewrite Ef; cbn -[my_read my_write my_llseek abs_read abs_write abs_llseek];
    rewrite Eo, list_lookup_fmap, El; cbn -[my_read my_write my_llseek abs_read abs_write abs_llseek].
  - rewrite my_read_spec by (done || lia).
    pose proof (abs_read_range (abs_dev d) count lft (f_pos f) (buf_size d)) as Hr.
    destruct (abs_read _ _ _ _) as [[ret pos] bytes]. cbn in *.
    do 3 eexists. split; [done|]. split; [|done]. apply inv_move; [done|done|].
    intros e He. rewrite Eo in He. simplify_eq. apply Hr; [|lia|lia].
    rewrite (multi_data_len _ Hw). lia.
  - destruct (my_write_spec d ubuf lft Hw) as (d' & Hwr & Hw' & Ha).
    { destruct Ho as [? Ho]. specialize (Ho f d Ef Eo). lia. }
    rewrite Hwr. pose proof (abs_write_cap (abs_dev d) ubuf lft) as Hc.
    destruct (abs_write _ _ _) as [ret a']. cbn in *. subst a'.
    do 3 eexists. split; [done|]. split; [by eapply inv_store|].
    unfold abs. cbn. by rewrite list_fmap_insert.
  - rewrite my_llseek_spec by (done || lia).
    pose proof (abs_llseek_range (abs_dev d) (f_pos f) offset origin Hp) as Hr.
    destruct (abs_llseek _ _ _ _) as [pos ret]. cbn in *.
    do 3 eexists. split; [done|]. split; [|done]. apply inv_move; [done|done|].
    intros e He. rewrite Eo in He. by simplify_eq.
Qed.

Lemma buf_size_of_range len : 0 <= len -> 0 < buf_size_of len <= 4096.
Proof. intros. unfold buf_size_of, BUF_LEN. zcase; lia. Qed.

Lemma init_sys_inv ps lens :
  length ps = 4%nat -> length lens = 4%nat ->
  Forall (fun p => 0 < p < 2 ^ 62) ps -> Forall (fun n => 0 <= n < 2 ^ 32) lens ->
  inv (init_sys ps lens).
Proof.
  intros Hps Hls Hp Hl. split; cbn; [|unfold zlen; rewrite length_zip_with, Hps, Hls; done|done].
  clear Hps Hls. revert lens Hl. induction Hp as [|p ps Hp _ IH]; intros [|n ls] Hl; try constructor.
  - inversion_clear Hl. pose proof (buf_size_of_range n ltac:(lia)).
    split; [|cbn; lia]. cbn -[buf_size_of]. apply block_fresh; lia.
  - apply IH. by inversion Hl.
Qed.

Lemma sys_step_inv : preserves sys_step inv.
Proof.
  intros s s' Hi (o & ret & bytes & Ho & E).
  destruct (exec_refines s o Hi Ho) as (s1 & r1 & b1 & E1 & Hi1 & _). by simplify_eq.
Qed.

(** C7: Whatever calls were made on the freshly loaded driver, on any of its
    four devices and through any number of open files, the next read, write or
    seek stays inside its buffer, and returns and does exactly what the
    abstract files do: a write appends what fits, a read delivers the written
    bytes at the position and stops at their end, a seek moves only within
    the buffer and otherwise fails with [-EINVAL]. *)
Theorem multi_refines_files ps lens s o :
  length ps = 4%nat -> length lens = 4%nat ->
  Forall (fun p => 0 < p < 2 ^ 62) ps -> Forall (fun n => 0 <= n < 2 ^ 32) lens ->
  star sys_step (init_sys ps lens) s -> op_ok s o ->
  exists s' ret bytes, exec s o = Some (s', ret, bytes) /\
    abs_exec (abs s) o = Some (abs s', ret, bytes).
Proof.
  intros Hps Hls Hp Hl Hstar Ho.
  assert (inv s) as Hi by (eapply star_invariant; eauto using sys_step_inv, init_sys_inv).
  destruct (exec_refines s o Hi Ho) as (s' & ret & bytes & E & _ & Ea). eauto.
Qed.

Lemma multi_refines_files_witness :
  exists s', exec (init_sys [4096; 8192; 16384; 32768] [0; 9000; 10; 1]) (Open 2) = Some (s', 0, []).
Proof.
  destruct (multi_refines_files [4096; 8192; 16384; 32768] [0; 9000; 10; 1]
    (init_sys [4096; 8192; 16384; 32768] [0; 9000; 10; 1]) (Open 2)) as (s' & ret & bytes & E & Ea).
  1, 2: reflexivity.
  1, 2: repeat constructor; lia.
  - constructor.
  - cbn. unfold DEV_NUM. lia.
  - exists s'. assert (ret = 0 /\ bytes = []) as [-> ->] by (cbn in Ea; split; congruence).
    exact E.
Defined.

(** ** Module load *)

(** The resources the slots hold. *)
Definition slot_res (devs : list slot) : list res :=
  flat_map (fun s => releases (kfree (sstart s)) ++ [RMem (sp s)]) devs.

Definition slot_ok (s : slot) : Prop := 0 < sp s /\ 0 <= sstart s.

(** The contract of the calls, with structures that can always be allocated. *)
Definition small_answers (held : list res) (c : kcall) (r : Z) : Prop :=
  answers held c r /\ (c = kzalloc "struct mydev" 1 -> r <> 0).

Lemma release_safe ok devs t X base (Q : unit -> trace -> list res -> Prop) :
  Forall slot_ok devs -> X ≡ₚ slot_res devs -> (forall t', Q tt t' base) ->
  safe ok (release_mydev devs) t (X ++ base) Q.
Proof.
  intros Hd. revert t X. induction Hd as [|s devs (Hp & Hs) _ IH]; intros t X HX HQ.
  { apply Permutation_nil_r in HX. subst X. apply HQ. }
  cbn [release_mydev]. rewrite (proj2 (Z.eqb_neq (sp s) 0)) by lia.
  cbn in HX. destruct (Z.eqb_spec (sstart s) 0) as [E|E]; cbn in HX.
  - rewrite E. apply safe_call. intros r _. cbn.
    eapply safe_kfree; [lia|exact HX|]. intros _ t2 X2 HX2. by apply IH.
  - eapply safe_kfree; [lia|exact HX|]. intros _ t1 X1 HX1.
    eapply safe_kfree; [lia|exact HX1|]. intros _ t2 X2 HX2. by apply IH.
Qed.

Lemma slot_res_snoc devs s :
  slot_res (devs ++ [s]) ≡ₚ releases (kfree (sstart s)) ++ RMem (sp s) :: slot_res devs.
Proof.
  unfold slot_res. rewrite flat_map_app. cbn [flat_map]. rewrite app_nil_r, Permutation_app_comm.
  by rewrite <- app_assoc.
Qed.

Lemma setup_safe lens devs t X base (Q : Z * list slot -> trace -> list res -> Prop) :
  Forall slot_ok devs -> X ≡ₚ slot_res devs ->
  (forall t' devs', Q (- ENOMEM, devs') t' base) ->
  (forall t' X' devs', Forall slot_ok devs' -> X' ≡ₚ slot_res devs' ->
     map ssize devs' = map ssize devs ++ map buf_size_of lens -> Q (0, devs') t' (X' ++ base)) ->
  safe small_answers (setup_from devs lens) t (X ++ base) Q.
Proof.
  revert devs t X. induction lens as [|len lens IH]; intros devs t X Hd HX Hfail Hok.
  { apply safe_ret, Hok; [done|done|]. by rewrite app_nil_r. }
  cbn [setup_from]. apply safe_call. intros p [Hp Hp0]. cbn in Hp. specialize (Hp0 eq_refl).
  pose proof (proj2 (Z.eqb_neq p 0) Hp0) as Ep. kred.
  apply safe_call. intros b [Hb _]. cbn in Hb. kred.
  destruct (Z.eqb_spec b 0) as [E|E].
  - apply safe_bind, (release_safe _ _ _ (RMem p :: X)); [|by rewrite slot_res_snoc, HX|intros; apply Hfail].
    apply Forall_app; split; [done|]. repeat constructor; cbn; lia.
  - apply (IH _ _ (RMem b :: RMem p :: X)); [|rewrite slot_res_snoc, HX; cbn; by rewrite (proj2 (Z.eqb_neq b 0) E)|done|].
    + apply Forall_app; split; [done|]. repeat constructor; cbn; lia.
    + intros t' X' devs' H1 H2 H3. apply Hok; [done|done|].
      rewrite H3, map_app, <- app_assoc. done.
Qed.

(** When the four device structures can be allocated, loading the driver
    never misuses a resource: if a buffer or the device numbers cannot be had
    it fails and everything taken so far is back, and if it succeeds the
    buffers have the sizes the parameters ask for (clamped to 1..4096) and
    unloading gives everything back. *)
Theorem multi_load_balanced buf_lens major t base :
  safe small_answers (my_init buf_lens major) t base (fun '(ret, st) t' held =>
    (ret <> 0 -> held = base) /\
    (ret = 0 -> map ssize (fst st) = map buf_size_of buf_lens /\
       safe small_answers (my_exit st) t' held (fun _ _ held' => held' = base))).
Proof.
  unfold my_init. apply safe_bind. change base with ([] ++ base) at 1.
  apply setup_safe; [done|done|intros; cbn; split; [done|discriminate]|].
  intros t1 X devs Hd HX Hsz. cbn [c_true Z.eqb negb].
  assert (forall ok mj t' h, h = X ++ base ->
    safe ok (let! _ <- release_mydev devs ;; Ret (-1, (devs, mj))) t' h
      (fun '(ret, st) t' held => (ret <> 0 -> held = base) /\
       (ret = 0 -> map ssize (fst st) = map buf_size_of buf_lens /\
         safe small_answers (my_exit st) t' held (fun _ _ held' => held' = base)))) as Hrel.
  { intros ok mj t' h ->. apply safe_bind, release_safe; [done|done|]. cbn. split; [done|lia]. }
  assert (forall mj t' d h, d = MKDEV mj 0 -> h = RCdev multi_cdev :: RChrdev d DEV_NUM :: X ++ base ->
    map ssize devs = map buf_size_of buf_lens /\
    safe small_answers (my_exit (devs, mj)) t' h (fun _ _ held' => held' = base)) as Hexit.
  { intros mj t' d h -> ->. split; [done|]. unfold my_exit.
    apply safe_call. intros r _. kred. apply safe_call. intros r' _. kred.
    by apply release_safe. }
  unfold get_region. destruct (c_true major) eqn:Em; cbn [bind].
  - apply safe_call. intros r [Hr _]. kred. destruct (r =? 0) eqn:E; cbn [negb].
    + kred. apply safe_call. intros r1 _. kred. apply safe_call. intros r2 _. kred.
      apply safe_ret. split; [done|]. intros _. by eapply Hexit.
    + by apply Hrel.
  - apply safe_call. intros r [Hr _]. kred. destruct (r <? 0) eqn:E; cbn [bind].
    + rewrite (proj2 (Z.eqb_neq r 0)) by (zbool; lia). cbn [negb]. by apply Hrel.
    + kred. cbn [Z.eqb negb]. apply safe_call. intros r1 _. kred. apply safe_call. intros r2 _. kred.
      apply safe_ret. split; [done|]. intros _. by eapply Hexit.
Qed.

(** When one of the four structures cannot be allocated, [release_mydev]
    is called with the NULL entry included and dereferences it. *)
Theorem multi_setup_null_deref :
  Forall (fun i => exists t held,
      run (failing_oracle (2 * i) 0) [] [] (my_init [0; 0; 0; 0] MY_MAJOR) =
      Fault "devs[i]->start of NULL devs[i]" t held) [0; 1; 2; 3]%nat.
Proof. repeat constructor; vm_compute; eauto. Qed.
