(* ===== verification/MyWait.v ===== *)
(** * time/my_wait.c: a memory device whose readers wait for data

    The block of mychar.c with a wait queue: a reader at the end of the data
    sleeps on [readq] until a writer has advanced [wp].  The driver has no
    lock, so the handlers are modelled as threads that interleave at the
    points where another one can run: the wait, the user copy, the update of
    [wp] and the [wake_up].  time/my_wait2.c is the same text. *)
From stdpp Require Import strings.
From S2P Require Import Prelude Kernel CharIface.
Local Open Scope Z_scope.

Definition BUF_LEN : Z := 100.

Record mydev := Mydev { start : Z; end_ : Z; wp : Z; mem : list Z }.

Definition init_dev (p : Z) : mydev :=
  Mydev p (p + BUF_LEN) p (replicate (Z.to_nat BUF_LEN) 0).

Definition my_open (dev_priv : mydev) : mydev * Z := (dev_priv, 0).
Definition my_release (priv : mydev) : mydev * Z := (priv, 0).

(** Program points: [RStart] the entry of [my_read], [RWait] the evaluation of
    the condition of [wait_event_interruptible], [RSleep] a reader on [readq],
    [RCopy] the code from the computation of [count]; [WStart] the entry of
    [my_write] up to the user copy, [WAdd] before [wp += count], [WWake]
    before [wake_up].  [Done] has the return value, the file position and the
    bytes the user got. *)
Inductive pc :=
| RStart (count pos : Z) | RWait (count pos : Z) | RSleep (count pos : Z) | RCopy (count pos : Z)
| WStart (ubuf : list Z) | WAdd (ubuf : list Z) (n : Z) | WWake (n : Z)
| Done (ret pos : Z) (bytes : list Z).

Inductive outcome :=
| Next (d : mydev) (p : pc) (wake : bool)
| Blocked
| Crash.

(** [e]: a signal (for a sleeper), or the number of bytes not copied. *)
Definition my_read_step (e : Z) (priv : mydev) (p : pc) : outcome :=
  match p with
  | RStart count pos =>
      if count =? 0 then Next priv (Done (s64 count) pos []) false
      else if pos + start priv =? end_ priv then Next priv (Done 0 pos []) false
      else if 0 =? wp priv - start priv - pos then Next priv (RWait count pos) false
      else Next priv (RCopy count pos) false
  | RWait count pos =>
      if wp priv - start priv - pos =? 0 then Next priv (RSleep count pos) false
      else Next priv (RCopy count pos) false
  | RSleep count pos =>
      if c_true e then Next priv (Done (- ERESTARTSYS) pos []) false else Blocked
  | RCopy count pos =>
      let count := Z.min count (u64 (wp priv - start priv - pos)) in
      if 0 =? count then Next priv (Done (s64 count) pos []) false
      else match rd (mem priv) pos count with
           | None => Crash
           | Some bytes =>
               if c_true e then Next priv (Done (- EFAULT) pos (take (Z.to_nat (count - e)) bytes)) false
               else Next priv (Done (s64 count) (s64 (pos + count)) bytes) false
           end
  | _ => Blocked
  end.

Definition my_write_step (e : Z) (priv : mydev) (p : pc) : outcome :=
  match p with
  | WStart ubuf =>
      let count := Z.min (zlen ubuf) (u64 (end_ priv - wp priv)) in
      if 0 =? count then Next priv (Done (s64 count) 0 []) false
      else if (0 <=? e) && (e <=? count) then
        match wr (mem priv) (wp priv - start priv) (from_user ubuf count e) with
        | None => Crash
        | Some m =>
            let priv := Mydev (start priv) (end_ priv) (wp priv) m in
            if c_true e then Next priv (Done (- EFAULT) 0 []) false
            else Next priv (WAdd ubuf count) false
        end
      else Blocked
  | WAdd _ n => Next (Mydev (start priv) (end_ priv) (wp priv + n) (mem priv)) (WWake n) false
  | WWake n => Next priv (Done (s64 n) 0 []) true
  | _ => Blocked
  end.

Definition thread_step (e : Z) (priv : mydev) (p : pc) : outcome :=
  match p with
  | RStart _ _ | RWait _ _ | RSleep _ _ | RCopy _ _ => my_read_step e priv p
  | WStart _ | WAdd _ _ | WWake _ => my_write_step e priv p
  | Done _ _ _ => Blocked
  end.

Definition woken (wake : bool) (p : pc) : pc :=
  match wake, p with true, RSleep count pos => RWait count pos | _, _ => p end.

Record sys := Sys { dev : mydev; threads : list pc }.

(** A writer between its entry and its update of [wp]. *)
Definition writing (p : pc) : bool := match p with WStart _ | WAdd _ _ => true | _ => false end.

Fixpoint writers (ts : list pc) : nat :=
  match ts with [] => 0 | p :: ts' => (if writing p then 1 else 0) + writers ts' end%nat.

(** A call of a handler.  [serial] keeps writers apart: a second one starts
    only when the first has updated [wp].  A reader starts at a position the
    earlier reads of its file can have left. *)
Definition entry (serial : bool) (s : sys) (p : pc) : bool :=
  match p with
  | RStart count pos =>
      (0 <=? count) && (count <? 2 ^ 63) && (0 <=? pos) && (pos <=? wp (dev s) - start (dev s))
  | WStart _ => negb serial || Nat.eqb (writers (threads s)) 0
  | _ => false
  end.

Inductive action := Spawn (p : pc) | Go (i : nat) (e : Z).

(** One step of the system; [inr] is an access outside the block. *)
Definition perform (serial : bool) (s : sys) (a : action) : option (sys + unit) :=
  match a with
  | Spawn p => if entry serial s p then Some (inl (Sys (dev s) (threads s ++ [p]))) else None
  | Go i e =>
      match threads s !! i with
      | Some p =>
          match thread_step e (dev s) p with
          | Next d p' w => Some (inl (Sys d (woken w <$> <[i := p']> (threads s))))
          | Blocked => None
          | Crash => Some (inr tt)
          end
      | None => None
      end
  end.

Definition step (serial : bool) (s s' : sys) : Prop :=
  exists a, perform serial s a = Some (inl s').

Fixpoint perform_all (serial : bool) (s : sys) (acts : list action) : option (sys + unit) :=
  match acts with
  | [] => Some (inl s)
  | a :: rest =>
      match perform serial s a with
      | Some (inl s') => perform_all serial s' rest
      | r => r
      end
  end.

Definition init_sys (p : Z) : sys := Sys (init_dev p) [].

(** A handler that runs alone, from its entry to its return. *)
Fixpoint solo (fuel : nat) (e : Z) (d : mydev) (p : pc) : option (Z * Z * list Z * mydev) :=
  match fuel with
  | O => None
  | S fuel' =>
      match p with
      | Done ret pos bytes => Some (ret, pos, bytes, d)
      | _ => match thread_step e d p with
             | Next d' p' _ => solo fuel' e d' p'
             | _ => None
             end
      end
  end.

Definition my_read (d : mydev) (count e pos : Z) : option (Z * Z * list Z) :=
  '(ret, pos', bytes, _) ← solo 5 e d (RStart count pos); Some (ret, pos', bytes).
Definition my_write (d : mydev) (ubuf : list Z) (e : Z) : option (Z * mydev) :=
  '(ret, _, _, d') ← solo 5 e d (WStart ubuf); Some (ret, d').

(** ** Module load and unload *)
Definition my_init (major : Z) : prog (Z * handles) :=
  call! dev <- kzalloc "struct mydev" 1 ;;
  if dev =? 0 then Ret (- ENOMEM, Handles 0 0 major) else
  call! start <- kzalloc "buffer" BUF_LEN ;;
  if start =? 0 then do! kfree dev ;; Ret (- ENOMEM, Handles dev 0 major) else
  let! (ret, major) <- get_region major 20 ;;
  if c_true ret then
    do! kfree start ;;
    do! kfree dev ;;
    Ret (-1, Handles dev start major)
  else
    do! cdev_init dev ;;
    do! cdev_add dev (MKDEV major 0) 1 ;;
    Ret (0, Handles dev start major).

Definition my_exit (h : handles) : prog unit :=
  do! cdev_del (h_dev h) ;;
  do! unregister_chrdev_region (MKDEV (h_major h) 0) 20 ;;
  do! kfree (h_start h) ;;
  do! kfree (h_dev h) ;;
  Ret tt.

(** ** The sequential interface *)
Definition data (d : mydev) : list Z := sl (mem d) 0 (wp d - start d).
Definition wf (d : mydev) : Prop := block_ok (start d) (end_ d) (wp d) BUF_LEN (mem d).

Lemma wait_data_len d : wf d -> zlen (data d) = wp d - start d.
Proof. apply block_data_len. Qed.

Lemma wait_wf_room d :
  wf d -> 0 <= wp d - start d <= BUF_LEN /\ end_ d - wp d = BUF_LEN - (wp d - start d).
Proof. intros (? & ? & ? & ? & ? & ?). lia. Qed.

Lemma copy_step d count pos :
  wf d -> 0 <= pos <= wp d - start d -> 0 <= count < 2 ^ 63 ->
  let n := Z.min count (wp d - start d - pos) in
  thread_step 0 d (RCopy count pos) = Next d (Done n (pos + n) (sl (data d) pos n)) false.
Proof.
  intros Hw Hp Hc n. pose proof (wait_wf_room d Hw) as [Hb _]. unfold BUF_LEN in Hb.
  subst n. cbn [thread_step my_read_step]. rewrite u64_small by lia. set (n := Z.min _ _).
  destruct (Z.eqb_spec 0 n) as [E|E].
  - rewrite <- E, sl_zero, Z.add_0_r. done.
  - rewrite (block_read _ _ _ _ _ pos n Hw) by lia. rewrite !s64_small by lia. done.
Qed.

Lemma write_step d ubuf e :
  wf d -> let n := Z.min (zlen ubuf) (BUF_LEN - (wp d - start d)) in
  0 < n -> 0 <= e <= n ->
  exists d', thread_step e d (WStart ubuf) =
      Next d' (if c_true e then Done (- EFAULT) 0 [] else WAdd ubuf n) false /\
    wf d' /\ start d' = start d /\ wp d' = wp d /\ data d' = data d /\
    (e = 0 -> sl (mem d') 0 (wp d + n - start d) = data d ++ sl ubuf 0 n).
Proof.
  intros Hw n Hn He. pose proof (wait_wf_room d Hw) as [Hb Hr]. pose proof (zlen_nonneg ubuf).
  cbn [thread_step my_write_step]. rewrite u64_small by (unfold BUF_LEN in *; lia). rewrite Hr. fold n.
  rewrite (proj2 (Z.eqb_neq 0 n)), (proj2 (Z.leb_le 0 e)), (proj2 (Z.leb_le e n)) by lia. cbn [andb].
  destruct (block_write _ _ _ _ _ ubuf n e Hw) as (m & -> & Hm & Hs & Ha); try lia.
  exists (Mydev (start d) (end_ d) (wp d) m). destruct (c_true e); done.
Qed.

#[global] Instance char_dev : CharDev mydev := {
  cd_read := my_read; cd_write := my_write
}.

#[global] Program Instance append_dev : AppendDev mydev := {
  cd_wf := wf; cd_data := data; cd_cap := fun _ => BUF_LEN
}.
Next Obligation.
  intros d Hw. rewrite (wait_data_len d Hw). pose proof (wait_wf_room d Hw). unfold BUF_LEN in *. lia.
Qed.
Next Obligation.
  intros d count pos Hw Hp Hc n. subst n. rewrite (wait_data_len d Hw) in *.
  pose proof (copy_step d count pos Hw ltac:(lia) ltac:(lia)) as Hcp.
  destruct (Hw) as (? & ? & ? & ? & ? & ?).
  cbn [cd_read char_dev]. unfold my_read. cbn [solo]. cbn [thread_step my_read_step].
  rewrite (proj2 (Z.eqb_neq count 0)), (proj2 (Z.eqb_neq (pos + start d) (end_ d))),
    (proj2 (Z.eqb_neq 0 (wp d - start d - pos))) by lia.
  rewrite Hcp. done.
Qed.
Next Obligation.
  intros d ubuf Hw n. pose proof (wait_wf_room d Hw) as [Hb Hr]. pose proof (zlen_nonneg ubuf).
  subst n. rewrite (wait_data_len d Hw). cbn [cd_write char_dev]. unfold my_write. cbn [solo].
  set (n := Z.min _ _). destruct (Z.eqb_spec n 0) as [E|E].
  - exists d. rewrite E, sl_zero, app_nil_r. cbn [thread_step my_write_step].
    rewrite u64_small by (unfold BUF_LEN in *; lia). rewrite Hr. fold n. rewrite E. done.
  - destruct (write_step d ubuf 0 Hw) as (d' & -> & Hw' & Hst & Hwp & Hd & Ha); try lia. fold n in Ha |- *.
    cbn. rewrite s64_small by (unfold BUF_LEN in *; lia). eexists. split; [done|]. split; [|split; [done|]].
    + pose proof (wait_wf_room d' Hw'). apply block_advance; [exact Hw'|cbn; lia].
    + unfold data at 1. cbn. rewrite Hst, Hwp. by apply Ha.
Qed.
Next Obligation.
  intros d ubuf left Hw n Hl. subst n. rewrite (wait_data_len d Hw) in Hl.
  destruct (write_step d ubuf left Hw) as (d' & Hs & Hw' & Hst & Hwp & Hd & Ha); try lia.
  cbn [cd_write char_dev]. unfold my_write. cbn [solo]. rewrite Hs.
  replace (c_true left) with true in * by (symmetry; apply negb_true_iff, Z.eqb_neq; lia). eauto.
Qed.

#[global] Instance my_balanced major : Balanced (my_init major) my_exit.
Proof. unfold Balanced. unfold my_init, get_region. kbalanced my_init my_exit. Qed.

(** ** Invariants of the interleaved system *)
Definition pc_ok (d : mydev) (p : pc) : Prop :=
  match p with
  | RStart count pos | RWait count pos | RSleep count pos | RCopy count pos =>
      0 <= count < 2 ^ 63 /\ 0 <= pos <= wp d - start d
  | WAdd ubuf n => 0 < n <= end_ d - wp d /\ n <= zlen ubuf /\ sl (mem d) (wp d - start d) n = sl ubuf 0 n
  | _ => True
  end.

Record inv (s : sys) : Prop := {
  inv_wf : wf (dev s);
  inv_one : (writers (threads s) <= 1)%nat;
  inv_pcs : Forall (pc_ok (dev s)) (threads s)
}.

(** Every sleeping reader is at the end of the data, or a writer is about to
    call [wake_up]. *)
Definition awake (s : sys) : Prop :=
  forall j count pos, threads s !! j = Some (RSleep count pos) ->
    wp (dev s) - start (dev s) - pos = 0 \/ exists n, WWake n ∈ threads s.

Lemma writers_app ts us : writers (ts ++ us) = (writers ts + writers us)%nat.
Proof. induction ts as [|p ts IH]; cbn; lia. Qed.

Lemma writers_insert ts i p p' :
  ts !! i = Some p ->
  (writers (<[i := p']> ts) + (if writing p then 1 else 0) =
   writers ts + (if writing p' then 1 else 0))%nat.
Proof.
  revert i. induction ts as [|q ts IH]; intros [|i] H; cbn in *; simplify_eq; [lia|].
  rewrite <- !Nat.add_assoc. f_equal. by apply IH.
Qed.

Lemma writers_woken w ts : writers (woken w <$> ts) = writers ts.
Proof. induction ts as [|p ts IH]; [done|]. cbn. rewrite IH. by destruct w, p. Qed.

Lemma other_not_adding ts i j ubuf n q :
  (writers ts <= 1)%nat -> ts !! i = Some q -> writing q = true -> ts !! j = Some (WAdd ubuf n) -> i = j.
Proof.
  intros H1 Hi Hq Hj. destruct (decide (i = j)) as [|E]; [done|].
  pose proof (writers_insert ts i q (Done 0 0 []) Hi) as H2. rewrite Hq in H2.
  assert (<[i := Done 0 0 []]> ts !! j = Some (WAdd ubuf n)) as Hj' by by rewrite list_lookup_insert_ne.
  pose proof (writers_insert _ j _ (Done 0 0 []) Hj') as H3. cbn in *. lia.
Qed.

Lemma wait_pc_ok_woken d w p : pc_ok d p -> pc_ok d (woken w p).
Proof. by destruct w, p. Qed.

Lemma room_u64 d : wf d -> u64 (end_ d - wp d) = end_ d - wp d.
Proof. intros Hw. pose proof (wait_wf_room d Hw). apply u64_small. unfold BUF_LEN in *. lia. Qed.

Lemma wf_copy d ubuf e m :
  wf d -> let n := Z.min (zlen ubuf) (end_ d - wp d) in 0 <= e <= n ->
  wr (mem d) (wp d - start d) (from_user ubuf n e) = Some m ->
  wf (Mydev (start d) (end_ d) (wp d) m) /\ sl m 0 (wp d - start d) = data d /\
  (e = 0 -> sl m (wp d - start d) n = sl ubuf 0 n).
Proof.
  intros Hw n He Hm. pose proof (zlen_nonneg ubuf). pose proof (wait_wf_room d Hw) as [Hb Hr].
  destruct (block_write _ _ _ _ _ ubuf n e Hw) as (m' & Em & Hm' & Hd & Ha); try lia. simplify_eq.
  split; [done|]. split; [done|]. intros ->. specialize (Ha eq_refl).
  replace (wp d + n - start d) with (wp d - start d + n) in Ha by lia. rewrite sl_app, Z.add_0_l, Hd in Ha by lia.
  by apply app_inv_head in Ha.
Qed.

(** The bytes a step makes part of the data. *)
Definition appended (p : pc) : list Z := match p with WAdd ubuf n => sl ubuf 0 n | _ => [] end.

(** What a step of a thread does to the device. *)
Lemma wait_step_effect e d p d' p' w :
  wf d -> pc_ok d p -> thread_step e d p = Next d' p' w ->
  wf d' /\ start d' = start d /\ end_ d' = end_ d /\ pc_ok d' p' /\
  (writing p' = true -> writing p = true) /\ (writing p = false -> d' = d) /\ wp d <= wp d' /\
  data d' = data d ++ appended p.
Proof.
  intros Hw Hp Hs. pose proof (room_u64 d Hw) as Hu. pose proof (wait_wf_room d Hw) as [Hb Hr].
  destruct p as [count pos|count pos|count pos|count pos|ubuf|ubuf n|n|ret pos bytes];
    cbn [thread_step my_read_step my_write_step pc_ok] in *; try done; cbn [appended]; rewrite ?app_nil_r.
  1-4: by repeat case_match; simplify_eq; cbn [pc_ok writing]; split_and?; zbool; try done; lia.
  - rewrite Hu in Hs. pose proof (zlen_nonneg ubuf).
    repeat case_match; simplify_eq; zbool; (split_and!; try done; try lia); cbn [start end_ wp pc_ok].
    all: match goal with H : wr _ _ _ = Some _ |- _ => destruct (wf_copy d ubuf e _ Hw ltac:(lia) H) as (Hwf & Hd & Ha) end; try done.
    split; [lia|]. split; [lia|]. apply Ha. lia.
  - simplify_eq. destruct Hp as (Hn & Hl & Hm). cbn [start end_ wp pc_ok writing]. split_and!; try done; try lia.
    + apply block_advance; [exact Hw|cbn; lia].
    + unfold data. cbn [mem wp start]. replace (wp d + n - start d) with (wp d - start d + n) by lia.
      by rewrite sl_app, Z.add_0_l, Hm by lia.
  - simplify_eq. by split_and!.
Qed.

Lemma step_no_crash e d p : wf d -> pc_ok d p -> thread_step e d p <> Crash.
Proof.
  intros Hw Hp. pose proof (wait_wf_room d Hw) as [Hb Hr]. pose proof (room_u64 d Hw) as Hu.
  destruct p as [count pos|count pos|count pos|count pos|ubuf|ubuf n|n|ret pos bytes];
    cbn [thread_step my_read_step my_write_step pc_ok] in *; rewrite ?Hu; repeat case_match; try done; zbool.
  - destruct Hp. rewrite u64_small in * by (unfold BUF_LEN in *; lia).
    match goal with H : rd _ _ _ = None |- _ =>
      rewrite (block_read _ _ _ _ _ pos _ Hw) in H by lia; done end.
  - pose proof (zlen_nonneg ubuf).
    destruct (block_write _ _ _ _ _ ubuf (Z.min (zlen ubuf) (end_ d - wp d)) e Hw) as (m & ? & _);
      [lia..|]. congruence.
Qed.

(** A wider write pointer keeps what the threads rely on. *)
Lemma pc_ok_grow d d' p :
  start d' = start d -> wp d <= wp d' -> (forall ubuf n, p <> WAdd ubuf n) -> pc_ok d p -> pc_ok d' p.
Proof. intros Hs Hwp Hn Hp. destruct p as [| | | | |ubuf n| |]; cbn in *; try lia; try done. by destruct (Hn ubuf n). Qed.

Lemma wait_step_inv : preserves (step true) inv.
Proof.
  intros s s' [Hw H1 Hp] [[p|i e] Ha]; cbn in Ha.
  - destruct (entry true s p) eqn:E; simplify_eq. split; cbn; [done|..].
    + rewrite writers_app. destruct p; cbn in *; try lia. destruct (Nat.eqb_spec (writers (threads s)) 0); [lia|done].
    + apply Forall_app; split; [done|]. constructor; [|done]. destruct p; cbn in *; zbool; lia || done.
  - destruct (threads s !! i) as [p|] eqn:Hi; [|done].
    destruct (thread_step e (dev s) p) as [d' p' w| |] eqn:Ht; simplify_eq.
    pose proof (Forall_lookup_1 _ _ _ _ Hp Hi) as Hpi.
    destruct (wait_step_effect _ _ _ _ _ _ Hw Hpi Ht) as (Hw' & Hst & Hen & Hp' & Hwr & Hsame & Hwp & _).
    split; cbn; [done|..].
    + rewrite writers_woken. pose proof (writers_insert _ _ _ p' Hi).
      destruct (writing p'), (writing p); (lia || by discriminate Hwr).
    + apply Forall_fmap. apply Forall_lookup. intros j q Hj. apply wait_pc_ok_woken.
      apply list_lookup_insert_Some in Hj as [(-> & <- & _)|(Hne & Hj)]; [done|].
      pose proof (Forall_lookup_1 _ _ _ _ Hp Hj) as Hq. destruct (writing p) eqn:Hwp'; [|by rewrite Hsame].
      apply (pc_ok_grow (dev s)); [done|done| |exact Hq]. intros ubuf n ->. apply Hne.
      by eapply (other_not_adding (threads s)).
Qed.

Lemma step_awake serial : preserves (step serial) (fun s => awake s).
Proof.
  intros s s' A [[p|i e] Ha]; cbn in Ha.
  - destruct (entry serial s p) eqn:E; simplify_eq. intros j count pos Hj. cbn in *.
    apply lookup_app_Some in Hj as [Hj|[_ Hj]].
    + destruct (A _ _ _ Hj) as [|[n Hn]]; [by left|]. right. exists n. apply elem_of_app. by left.
    + apply list_lookup_singleton_Some in Hj as [_ ->]. done.
  - destruct (threads s !! i) as [p|] eqn:Hi; [|done].
    destruct (thread_step e (dev s) p) as [d' p' w| |] eqn:Ht; simplify_eq.
    intros j count pos Hj. cbn in *. rewrite list_lookup_fmap in Hj.
    apply fmap_Some in Hj as (q & Hj & Hq).
    assert (w = false /\ q = RSleep count pos) as [-> ->] by (destruct w, q; done).
    apply list_lookup_insert_Some in Hj as [(-> & -> & _)|(Hne & Hj)].
    + destruct p; cbn in Ht; repeat case_match; simplify_eq; zbool. by left.
    + assert (p' ∈ woken false <$> <[i:=p']> (threads s)) as Hin.
      { apply list_elem_of_lookup. exists i. rewrite list_lookup_fmap, list_lookup_insert_eq; [|by eapply lookup_lt_Some].
        by destruct p'. }
      destruct (A _ _ _ Hj) as [Hz|[n Hn]].
      * destruct p; cbn in Ht; repeat case_match; simplify_eq; auto. right. eauto.
      * right. apply list_elem_of_lookup in Hn as [k Hk].
        destruct (decide (k = i)) as [->|Hki]; [simplify_eq; cbn in Ht; by simplify_eq|].
        exists n. apply list_elem_of_lookup. exists k.
        by rewrite list_lookup_fmap, list_lookup_insert_ne, Hk.
Qed.

Lemma wait_init_inv p : 0 < p -> p + BUF_LEN < 2 ^ 63 -> inv (init_sys p) /\ awake (init_sys p).
Proof.
  intros. split; [|done]. split; cbn; [|lia|done].
  unfold wf. cbn -[BUF_LEN]. apply block_fresh; unfold BUF_LEN in *; lia.
Qed.

Lemma reachable p s :
  0 < p -> p + BUF_LEN < 2 ^ 63 -> star (step true) (init_sys p) s -> inv s /\ awake s.
Proof.
  intros Hp Hb Hs. destruct (wait_init_inv p Hp Hb).
  split; eapply star_invariant; eauto using wait_step_inv, step_awake.
Qed.

Lemma wait_perform_star serial s acts s' :
  perform_all serial s acts = Some (inl s') -> star (step serial) s s'.
Proof.
  revert s. induction acts as [|a acts IH]; intros s H; cbn in H; simplify_eq; [constructor|].
  destruct (perform serial s a) as [[s1|]|] eqn:E; try done.
  eapply star_trans; [|by apply IH]. eapply star_more; [constructor|]. by exists a.
Qed.

(** C22: As long as writers do not overlap and readers start at positions up
    to the end of the data (those that reads of the file lead to; not those of
    a seek or [pread] behind it, see [wait_read_past_data]): no interleaving of
    readers and writers makes a handler touch memory outside the block.  The
    data only grows, at its end: the step that advances [wp] appends the
    first [n] bytes the writer was given, [n] being the most that fit, and no
    other step changes it.  A reader that gets to its copy delivers exactly
    the data at its position. *)
Theorem wait_serial_writers_safe p s :
  0 < p -> p + BUF_LEN < 2 ^ 63 -> star (step true) (init_sys p) s ->
  (forall a, perform true s a <> Some (inr tt)) /\
  (forall a s', perform true s a = Some (inl s') ->
     data (dev s') = data (dev s) ++ match a with
       | Go i _ => match threads s !! i with Some p => appended p | None => [] end
       | Spawn _ => []
       end) /\
  (forall i ubuf, threads s !! i = Some (WStart ubuf) ->
     let n := Z.min (zlen ubuf) (BUF_LEN - zlen (data (dev s))) in
     0 < n -> exists s', perform true s (Go i 0) = Some (inl s') /\ threads s' !! i = Some (WAdd ubuf n)) /\
  (forall i count pos, threads s !! i = Some (RCopy count pos) ->
     let n := Z.min count (zlen (data (dev s)) - pos) in
     perform true s (Go i 0) =
       Some (inl (Sys (dev s) (<[i := Done n (pos + n) (sl (data (dev s)) pos n)]> (threads s))))).
Proof.
  intros Hp Hb Hs. destruct (reachable p s Hp Hb Hs) as [[Hw H1 Hpc] _]. split; [|split; [|split]].
  - intros [q|i e]; cbn; [by case_match|]. destruct (threads s !! i) as [q|] eqn:Hi; [|done].
    pose proof (step_no_crash e (dev s) q Hw (Forall_lookup_1 _ _ _ _ Hpc Hi)). by case_match.
  - intros [q|i e] s' Ha; cbn in Ha; [case_match; simplify_eq; by rewrite app_nil_r|].
    destruct (threads s !! i) as [q|] eqn:Hi; [|done].
    destruct (thread_step e (dev s) q) as [d' p' w| |] eqn:Ht; simplify_eq. cbn [dev].
    by destruct (wait_step_effect _ _ _ _ _ _ Hw (Forall_lookup_1 _ _ _ _ Hpc Hi) Ht) as (_ & _ & _ & _ & _ & _ & _ & ?).
  - intros i ubuf Hi n Hn. cbn [perform]. rewrite Hi. subst n. rewrite (wait_data_len _ Hw) in *.
    destruct (write_step (dev s) ubuf 0 Hw) as (d' & -> & _); [lia|lia|]. eexists. split; [reflexivity|]. cbn [threads].
    rewrite list_lookup_fmap, list_lookup_insert_eq by (by eapply lookup_lt_Some). done.
  - intros i count pos Hi n. pose proof (Forall_lookup_1 _ _ _ _ Hpc Hi) as [Hc Hpos].
    cbn [perform]. rewrite Hi, (copy_step _ _ _ Hw Hpos Hc). do 3 f_equal.
    rewrite <- (wait_data_len _ Hw). fold n. etransitivity; [|apply list_fmap_id]. done.
Qed.

(** A reader behind the end of the data, where a seek or [pread] can put it,
    gets a huge unsigned count and copies past the end of the block. *)
Theorem wait_read_past_data d count pos :
  wf d -> wp d - start d < pos < BUF_LEN -> BUF_LEN - pos < count < 2 ^ 63 ->
  thread_step 0 d (RStart count pos) = Next d (RCopy count pos) false /\ thread_step 0 d (RCopy count pos) = Crash.
Proof.
  intros Hw Hp Hc. pose proof (wait_wf_room d Hw) as [Hb Hr]. destruct Hw as (_ & _ & _ & _ & Hl & _).
  unfold BUF_LEN in *. cbn [thread_step my_read_step].
  rewrite (proj2 (Z.eqb_neq count 0)), (proj2 (Z.eqb_neq (pos + start d) (end_ d))),
    (proj2 (Z.eqb_neq 0 (wp d - start d - pos))) by lia. split; [done|].
  assert (u64 (wp d - start d - pos) = 2 ^ 64 + (wp d - start d - pos)) as ->.
  { unfold u64, wrapu. symmetry. apply (Z.mod_unique_pos _ _ (-1)); lia. }
  rewrite Z.min_l, (proj2 (Z.eqb_neq 0 count)) by lia. unfold rd, in_bounds.
  by rewrite (proj2 (Z.leb_gt (pos + count) _)), !andb_false_r by lia.
Qed.

Lemma wait_read_past_data_witness : thread_step 0 (init_dev 4096) (RCopy 60 50) = Crash.
Proof.
  apply (wait_read_past_data (init_dev 4096) 60 50); [|cbn; unfold BUF_LEN; lia|unfold BUF_LEN; lia].
  unfold wf. cbn -[BUF_LEN]. apply block_fresh; unfold BUF_LEN; lia.
Defined.

(** C23: A reader is never left asleep when there is data past its position: as
    long as it is on the queue, a writer that has advanced [wp] is about to
    call [wake_up].  This holds also when writers overlap. *)
Theorem wait_no_lost_wakeup serial p s j count pos :
  star (step serial) (init_sys p) s -> threads s !! j = Some (RSleep count pos) ->
  wp (dev s) - start (dev s) - pos = 0 \/ exists n, WWake n ∈ threads s.
Proof.
  intros Hs. revert j count pos. change (awake s).
  eapply (star_invariant (step serial)); [apply step_awake| |exact Hs]. done.
Qed.

(** Two writers of 60 bytes that both compute their count and copy before
    either advances [wp]; then a third write. *)
Definition overlap : list action :=
  [Spawn (WStart (replicate 60 65)); Spawn (WStart (replicate 60 66));
   Go 0 0; Go 1 0; Go 0 0; Go 1 0].

(** Without a lock two overlapping writers drive [wp] past [end] (each
    checks the room before the other advances), the data of the first is
    overwritten, and the next write finds a huge unsigned room and copies
    outside the block. *)
Theorem wait_racing_writers_overflow :
  exists s, perform_all false (init_sys 4096) overlap = Some (inl s) /\
    end_ (dev s) < wp (dev s) /\ sl (mem (dev s)) 0 60 = replicate 60 66 /\
    perform_all false s [Spawn (WStart [67]); Go 2 0] = Some (inr tt).
Proof. eexists. split; [vm_compute; reflexivity|]. vm_compute. done. Qed.

Lemma wait_serial_writers_safe_witness :
  exists s, perform_all true (init_sys 4096)
      [Spawn (RStart 5 0); Go 0 0; Go 0 0; Spawn (WStart [1; 2; 3]); Go 1 0; Go 1 0; Go 1 0; Go 0 0] = Some (inl s) /\
    threads s !! 0%nat = Some (RCopy 5 0) /\ perform true s (Go 0 0) <> Some (inr tt).
Proof.
  eexists. split; [vm_compute; reflexivity|]. split; [reflexivity|].
  eapply (wait_serial_writers_safe 4096); [lia|reflexivity|].
  eapply wait_perform_star. instantiate
    (1 := [Spawn (RStart 5 0); Go 0 0; Go 0 0; Spawn (WStart [1; 2; 3]); Go 1 0; Go 1 0; Go 1 0; Go 0 0]).
  vm_compute. reflexivity.
Defined.

Lemma wait_no_lost_wakeup_witness :
  exists s, perform_all true (init_sys 4096)
      [Spawn (RStart 5 0); Go 0 0; Go 0 0; Spawn (WStart [1; 2; 3]); Go 1 0; Go 1 0] = Some (inl s) /\
    (wp (dev s) - start (dev s) - 0 = 0 \/ exists n, WWake n ∈ threads s).
Proof.
  eexists. split; [vm_compute; reflexivity|].
  eapply (wait_no_lost_wakeup true 4096 _ 0 5 0); [|reflexivity].
  eapply wait_perform_star. instantiate
    (1 := [Spawn (RStart 5 0); Go 0 0; Go 0 0; Spawn (WStart [1; 2; 3]); Go 1 0; Go 1 0]).
  vm_compute. reflexivity.
Defined.
