(* ===== verification/CharClient.v ===== *)
(** * The append-buffer devices as their users see them

    What a sequence of writes leaves in a device and what reads then return,
    proved once against the interface [AppendDev] and stated of the handlers
    of the three drivers; and char/user_read.c, the program of the repository
    that reads and seeks on a multi_mem device. *)
From S2P Require Import Prelude Kernel CharIface.
From S2P Require MyChar MultiMem MyWait.
Local Open Scope Z_scope.

(** Calls of a write handler, one after the other: each has the user's bytes
    and the number of them the copy could not read; the answer has the values
    returned. *)
Fixpoint do_writes {D} (write : D -> list Z -> Z -> option (Z * D)) (d : D) (ws : list (list Z * Z)) : option (list Z * D) :=
  match ws with
  | [] => Some ([], d)
  | (ubuf, lft) :: rest =>
      '(ret, d') ← write d ubuf lft;
      '(rets, d'') ← do_writes write d' rest;
      Some (ret :: rets, d'')
  end.

(** ** What the calls should do to a buffer of [cap] bytes that holds [log] *)
Definition fits (cap : Z) (log ubuf : list Z) : Z := Z.min (zlen ubuf) (cap - zlen log).

Definition log_write (cap : Z) (log : list Z) (w : list Z * Z) : list Z :=
  if snd w =? 0 then log ++ sl (fst w) 0 (fits cap log (fst w)) else log.

Fixpoint stored (cap : Z) (log : list Z) (ws : list (list Z * Z)) : list Z :=
  match ws with [] => log | w :: rest => stored cap (log_write cap log w) rest end.

Fixpoint returned (cap : Z) (log : list Z) (ws : list (list Z * Z)) : list Z :=
  match ws with
  | [] => []
  | w :: rest => (if snd w =? 0 then fits cap log (fst w) else - EFAULT) :: returned cap (log_write cap log w) rest
  end.

(** The copies can only fail for bytes they were asked for. *)
Fixpoint possible (cap : Z) (log : list Z) (ws : list (list Z * Z)) : Prop :=
  match ws with
  | [] => True
  | w :: rest => (snd w = 0 \/ 0 < snd w <= fits cap log (fst w)) /\ possible cap (log_write cap log w) rest
  end.

Section Client.
Context {D : Type} `{AD : AppendDev D}.

Lemma do_writes_ok (d : D) ws :
  cd_wf d -> possible (cd_cap d) (cd_data d) ws ->
  exists d', do_writes cd_write d ws = Some (returned (cd_cap d) (cd_data d) ws, d') /\ cd_wf d' /\
    cd_cap d' = cd_cap d /\ cd_data d' = stored (cd_cap d) (cd_data d) ws.
Proof.
  revert d. induction ws as [|[ubuf lft] ws IH]; intros d Hw Hp; [by exists d|].
  cbn [possible fst snd] in Hp. destruct Hp as [Hl Hp]. cbn [do_writes returned stored fst snd]. unfold log_write in *.
  cbn [fst snd] in *. assert (exists d1, cd_write d ubuf lft = Some (if lft =? 0 then fits (cd_cap d) (cd_data d) ubuf else - EFAULT, d1) /\
    cd_wf d1 /\ cd_cap d1 = cd_cap d /\
    cd_data d1 = if lft =? 0 then cd_data d ++ sl ubuf 0 (fits (cd_cap d) (cd_data d) ubuf) else cd_data d) as (d1 & Hw1 & Hwf & Hcap & Hd).
  { destruct Hl as [->|Hl].
    - destruct (cd_write_law d ubuf Hw) as (d1 & H1 & H2 & H3 & H4). by exists d1.
    - rewrite (proj2 (Z.eqb_neq lft 0)) by lia. destruct (cd_write_fault d ubuf lft Hw Hl) as (d1 & H1 & H2 & H3 & H4). by exists d1. }
  rewrite Hw1. cbn [mbind option_bind]. destruct (IH d1 Hwf) as (d2 & H1 & H2 & H3 & H4); [by rewrite Hcap, Hd|].
  rewrite H1. cbn [mbind option_bind]. exists d2. rewrite Hcap, Hd in *. by split_and!.
Qed.

(** A new device after the writes, and a read of it. *)
Lemma stored_and_read (d : D) cap ws :
  cd_wf d -> cd_data d = [] -> cd_cap d = cap -> possible cap [] ws ->
  exists d', do_writes cd_write d ws = Some (returned cap [] ws, d') /\
    forall count pos, 0 < count < 2 ^ 63 -> 0 <= pos < zlen (stored cap [] ws) ->
    let n := Z.min count (zlen (stored cap [] ws) - pos) in
    cd_read d' count 0 pos = Some (n, pos + n, sl (stored cap [] ws) pos n).
Proof.
  intros Hw Hd <- Hp. rewrite <- Hd in Hp |- *. destruct (do_writes_ok d ws Hw Hp) as (d' & H1 & H2 & _ & H4).
  exists d'. split; [exact H1|]. intros count pos Hc Hpos n. subst n. rewrite <- H4 in *. by apply cd_read_law.
Qed.
End Client.

(** With copies that succeed the buffer holds what fits of all writes. *)
Lemma stored_all cap log ws :
  zlen log <= cap -> Forall (fun w => snd w = 0) ws ->
  stored cap log ws = take (Z.to_nat cap) (log ++ flat_map fst ws).
Proof.
  intros Hl Hws. revert log Hl. induction Hws as [|[ubuf lft] ws Hw _ IH]; intros log Hl; cbn [stored flat_map fst].
  - rewrite app_nil_r. rewrite firstn_all2; [done|unfold zlen in Hl; lia].
  - cbn in Hw. subst lft. unfold log_write. cbn [fst snd Z.eqb]. set (n := fits cap log ubuf).
    assert (0 <= n <= zlen ubuf /\ n <= cap - zlen log) as Hn by (unfold n, fits; pose proof (zlen_nonneg ubuf); lia).
    assert (zlen (sl ubuf 0 n) = n) as Hz by (apply zlen_sl; lia).
    rewrite IH by (rewrite zlen_app; lia). rewrite <- app_assoc.
    destruct (Z.eq_dec n (zlen ubuf)) as [->|E]; [by rewrite sl_full|].
    assert (n = cap - zlen log) as En by (unfold n, fits in *; lia). unfold zlen in *.
    rewrite !(take_app_ge log) by lia. f_equal. rewrite !take_app_le by lia. unfold sl. rewrite drop_0, take_take. f_equal. lia.
Qed.

(** MultiMem keeps the promise for the buffers [setup_mydev] makes. *)
#[global] Instance multi_char_dev : CharDev MultiMem.mydev := {
  cd_read := MultiMem.my_read; cd_write := MultiMem.my_write
}.

Lemma multi_write_law d ubuf lft :
  MultiMem.wf d ->
  let n := Z.min (zlen ubuf) (MultiMem.buf_size d - zlen (MultiMem.data d)) in
  0 <= lft <= n ->
  exists d', MultiMem.my_write d ubuf lft = Some (if lft =? 0 then n else - EFAULT, d') /\
    MultiMem.wf d' /\ MultiMem.buf_size d' = MultiMem.buf_size d /\
    MultiMem.data d' = MultiMem.data d ++ (if lft =? 0 then sl ubuf 0 n else []).
Proof.
  intros Hw n Hl. pose proof (MultiMem.multi_wf_room d Hw) as (Hb & Hs & He).
  destruct (MultiMem.my_write_spec d ubuf lft Hw) as (d' & H1 & H2 & H3).
  { subst n. rewrite (MultiMem.multi_data_len d Hw) in Hl. lia. }
  exists d'. unfold MultiMem.abs_write in *. cbn in H1, H3.
  destruct (lft =? 0); cbn in *; injection H3 as H3 H4; rewrite ?app_nil_r; done.
Qed.

#[global] Program Instance multi_append_dev : AppendDev MultiMem.mydev := {
  cd_wf := MultiMem.wf; cd_data := MultiMem.data; cd_cap := MultiMem.buf_size
}.
Next Obligation.
  intros d Hw. rewrite (MultiMem.multi_data_len d Hw). pose proof (MultiMem.multi_wf_room d Hw). lia.
Qed.
Next Obligation.
  intros d count pos Hw Hp Hc n. cbn -[MultiMem.my_read].
  pose proof (MultiMem.multi_data_len d Hw). pose proof (MultiMem.multi_wf_room d Hw).
  rewrite MultiMem.my_read_spec by (done || lia). unfold MultiMem.abs_read. cbn.
  rewrite Z.max_r by lia. fold n. destruct (Z.eqb_spec n 0); [lia|done].
Qed.
Next Obligation.
  intros d ubuf Hw n. pose proof (MultiMem.multi_wf_room d Hw). pose proof (zlen_nonneg ubuf).
  apply (multi_write_law d ubuf 0 Hw). rewrite (MultiMem.multi_data_len d Hw). lia.
Qed.
Next Obligation.
  intros d ubuf left Hw n Hl. destruct (multi_write_law d ubuf left Hw) as (d' & H1 & H2 & H3 & H4); [lia|].
  rewrite (proj2 (Z.eqb_neq left 0)), ?app_nil_r in * by lia. eauto.
Qed.

(** C20: The three buffer drivers, freshly loaded (multi_mem.c with any size
    parameter), store what is written to them and give it back.  Whatever
    sequence of writes is made, one after the other, with copies from the user
    that succeed or fail, every write returns what it should (the number of
    bytes that fit, or [-EFAULT] and then it stores nothing); afterwards a
    read anywhere before the end of what was stored returns exactly the stored
    bytes at its position, as many as asked for and there.  With copies that
    succeed, what is stored is what fits of all that was written. *)
Theorem char_drivers_store p len ws :
  0 < p -> 0 <= len < 2 ^ 32 -> p + 4096 < 2 ^ 63 ->
  let size := MultiMem.buf_size_of len in
  (possible 100 [] ws -> exists d, do_writes MyChar.my_write (MyChar.init_dev p) ws = Some (returned 100 [] ws, d) /\
     forall count pos, 0 < count < 2 ^ 63 -> 0 <= pos < zlen (stored 100 [] ws) ->
     let n := Z.min count (zlen (stored 100 [] ws) - pos) in
     MyChar.my_read d count 0 pos = Some (n, pos + n, sl (stored 100 [] ws) pos n)) /\
  (possible 100 [] ws -> exists d, do_writes MyWait.my_write (MyWait.init_dev p) ws = Some (returned 100 [] ws, d) /\
     forall count pos, 0 < count < 2 ^ 63 -> 0 <= pos < zlen (stored 100 [] ws) ->
     let n := Z.min count (zlen (stored 100 [] ws) - pos) in
     MyWait.my_read d count 0 pos = Some (n, pos + n, sl (stored 100 [] ws) pos n)) /\
  (possible size [] ws -> exists d, do_writes MultiMem.my_write (MultiMem.init_dev p len) ws = Some (returned size [] ws, d) /\
     forall count pos, 0 < count < 2 ^ 63 -> 0 <= pos < zlen (stored size [] ws) ->
     let n := Z.min count (zlen (stored size [] ws) - pos) in
     MultiMem.my_read d count 0 pos = Some (n, pos + n, sl (stored size [] ws) pos n)) /\
  (forall cap, 0 <= cap -> Forall (fun w => snd w = 0) ws -> stored cap [] ws = take (Z.to_nat cap) (flat_map fst ws)).
Proof.
  intros Hp Hlen Hb size. pose proof (MultiMem.buf_size_of_range len ltac:(lia)) as Hsize. fold size in Hsize.
  assert (p + 100 < 2 ^ 63) as Hb100 by lia.
  assert (MyChar.data (MyChar.init_dev p) = []) as D1 by (unfold MyChar.data; cbn [MyChar.init_dev MyChar.wp MyChar.start]; by rewrite Z.sub_diag).
  assert (MyWait.data (MyWait.init_dev p) = []) as D2 by (unfold MyWait.data; cbn [MyWait.init_dev MyWait.wp MyWait.start]; by rewrite Z.sub_diag).
  assert (MultiMem.data (MultiMem.init_dev p len) = []) as D3
    by (unfold MultiMem.data; cbn [MultiMem.init_dev MultiMem.wp MultiMem.start]; by rewrite Z.sub_diag).
  assert (MyWait.wf (MyWait.init_dev p)) as W2 by (unfold MyWait.wf; cbn -[MyWait.BUF_LEN]; apply block_fresh; unfold MyWait.BUF_LEN; lia).
  assert (MultiMem.wf (MultiMem.init_dev p len)) as W3
    by (split; [apply (block_fresh p size); lia|unfold MultiMem.init_dev; cbn [MultiMem.buf_size]; fold size; lia]).
  split; [|split; [|split]].
  - exact (stored_and_read (MyChar.init_dev p) 100 ws (MyChar.init_dev_wf p Hp Hb100) D1 eq_refl).
  - exact (stored_and_read (MyWait.init_dev p) 100 ws W2 D2 eq_refl).
  - exact (stored_and_read (MultiMem.init_dev p len) size ws W3 D3 eq_refl).
  - intros cap Hcap Hws. by rewrite stored_all by done.
Qed.

(** A 7-byte message in three writes of which one fails at first, on each. *)
Lemma char_drivers_store_witness :
  let ws := [([1; 2; 3], 0); ([4; 5], 1); ([4; 5; 6; 7], 0)] in
  (exists d, do_writes MyChar.my_write (MyChar.init_dev 4096) ws = Some ([3; -14; 4], d) /\
     MyChar.my_read d 20 0 2 = Some (5, 7, [3; 4; 5; 6; 7])) /\
  (exists d, do_writes MyWait.my_write (MyWait.init_dev 4096) ws = Some ([3; -14; 4], d) /\
     MyWait.my_read d 20 0 2 = Some (5, 7, [3; 4; 5; 6; 7])) /\
  (exists d, do_writes MultiMem.my_write (MultiMem.init_dev 4096 5) ws = Some ([3; -14; 2], d) /\
     MultiMem.my_read d 20 0 2 = Some (3, 5, [3; 4; 5])).
Proof.
  intros ws. destruct (char_drivers_store 4096 5 ws ltac:(lia) ltac:(lia) ltac:(lia)) as (H1 & H2 & H3 & _).
  destruct H1 as (d1 & W1 & R1); [vm_compute; intuition discriminate|].
  destruct H2 as (d2 & W2 & R2); [vm_compute; intuition discriminate|].
  destruct H3 as (d3 & W3 & R3); [vm_compute; intuition discriminate|].
  split; [|split].
  - exists d1. split; [exact W1|apply (R1 20 2); vm_compute; by split].
  - exists d2. split; [exact W2|apply (R2 20 2); vm_compute; by split].
  - exists d3. split; [exact W3|apply (R3 20 2); vm_compute; by split].
Defined.

(** ** char/user_read.c

    [main]: read 5 bytes, seek 5 forward, read 20; the buffer is zeroed
    before each read, so what is printed is what was read.  The answer is the
    two printed reads (return value and bytes) and whether the seek worked;
    [None]: the open failed or a read touched memory outside the buffer. *)
Definition user_main (s : MultiMem.system) (minor : Z) : option (Z * list Z * bool * (Z * list Z)) :=
  let fd := length (MultiMem.files s) in
  '(s, _, _) ← MultiMem.exec s (MultiMem.Open minor);
  '(s, r1, b1) ← MultiMem.exec s (MultiMem.Read fd 5 0);
  '(s, r2, _) ← MultiMem.exec s (MultiMem.Llseek fd 5 1);
  '(s, r3, b3) ← MultiMem.exec s (MultiMem.Read fd 20 0);
  Some (r1, b1, negb (r2 <? 0), (r3, b3)).

Ltac mcbn := cbn -[MultiMem.my_read MultiMem.my_open MultiMem.my_llseek sl].

(** User_read.c on a device that holds at least 30 bytes prints the first
    five and the twenty that follow a gap of five. *)
Theorem user_read_prints s minor d :
  MultiMem.inv s -> 0 <= minor < MultiMem.DEV_NUM ->
  MultiMem.my_open (MultiMem.multi_devs s) minor = Some d -> 30 <= zlen (MultiMem.data d) ->
  user_main s minor = Some (5, sl (MultiMem.data d) 0 5, true, (20, sl (MultiMem.data d) 10 20)).
Proof.
  intros Hi Hm Ho Hlen.
  destruct (MultiMem.open_some s minor Hi Hm) as (d' & Ho' & Hl & Hw).
  rewrite Ho in Ho'. injection Ho' as <-.
  pose proof (MultiMem.multi_data_len d Hw) as Hdl. pose proof (MultiMem.multi_wf_room d Hw).
  set (fd := length (MultiMem.files s)).
  assert (forall pos, (MultiMem.files s ++ [MultiMem.File minor pos]) !! fd = Some (MultiMem.File minor pos)) as Hf.
  { intros pos. by apply list_lookup_middle. }
  assert (forall a b, <[fd := a]> (MultiMem.files s ++ [b]) = MultiMem.files s ++ [a]) as Hins.
  { intros. unfold fd. rewrite <- (Nat.add_0_r (length _)), insert_app_r. done. }
  unfold user_main. fold fd. mcbn.
  rewrite Ho. mcbn.
  rewrite Hf. mcbn. rewrite Ho.
  mcbn.
  rewrite MultiMem.my_read_spec by (done || lia). unfold MultiMem.abs_read at 1. cbn [MultiMem.adata MultiMem.abs_dev].
  rewrite Z.min_l by lia. mcbn. rewrite Hins, Hf.
  mcbn. rewrite Ho.
  mcbn.
  rewrite MultiMem.my_llseek_spec by (done || lia). unfold MultiMem.abs_llseek. cbn [MultiMem.acap MultiMem.abs_dev Z.eqb Pos.eqb Z.add Pos.add].
  change (0 + 5 + 5) with 10. cbn [Z.leb Z.compare andb].
  rewrite (proj2 (Z.leb_le 10 (MultiMem.buf_size d))) by lia.
  mcbn. rewrite Hins, Hf.
  mcbn. rewrite Ho.
  mcbn.
  rewrite MultiMem.my_read_spec by (done || lia). unfold MultiMem.abs_read. cbn [MultiMem.adata MultiMem.abs_dev].
  rewrite Z.min_l by lia. done.
Qed.

(** Four devices of 32 bytes, each filled with the letter A. *)
Definition demo_dev (p : Z) : MultiMem.mydev := MultiMem.Mydev p (p + 32) (p + 32) 32 (replicate 32 65).
Definition demo_sys : MultiMem.system :=
  MultiMem.System [demo_dev 4096; demo_dev 8192; demo_dev 16384; demo_dev 32768] [].

Lemma user_read_prints_witness :
  user_main demo_sys 2 = Some (5, replicate 5 65, true, (20, replicate 20 65)).
Proof.
  apply (user_read_prints demo_sys 2 (demo_dev 16384)); try done.
  split; [|done|done]. repeat constructor; vm_compute; done.
Defined.
