(* ===== verification/UserProgs.v ===== *)
(** * The user programs of the drivers

    protect/user_read.c and protect/user_ioctl.c run on the pipe of
    [Pipe]: a system call is the thread of its handler, here run alone to its
    result.  io/user_read.c is the list of its system calls: it passes the
    descriptor and the buffer in the wrong places. *)
From S2P Require Import Prelude Pipe.
Local Open Scope Z_scope.

Section PipeUsers.
Context (IOC_TYPE : Z -> Z) (PIPE_RESET : Z).

(** A call that no other thread interferes with and no signal interrupts;
    [None]: it does not come back. *)
Fixpoint alone (fuel : nat) (s : shared) (p : pc) : option (shared * Z) :=
  match fuel with
  | O => None
  | S fuel' =>
      match p with
      | Done r => Some (s, r)
      | _ =>
          match thread_step IOC_TYPE PIPE_RESET 0 s p with
          | Next s' p' _ => alone fuel' s' p'
          | _ => None
          end
      end
  end.

(** Five steps from a call to its result, seven when it has to look twice. *)
Definition call_fuel : nat := 8.

(** [open] and the [close] of the exit, with the modes of the descriptor. *)
Definition opened (s : shared) (r w : bool) : shared := with_dev s (fst (my_open (dev s) r w)) [].
Definition closed (s : shared) (r w : bool) : shared := with_dev s (fst (my_release (dev s) r w)) [].

(** [main] of protect/user_read.c: the number it prints and what [buf] got. *)
Definition user_read (s : shared) : option (shared * (Z * list Z)) :=
  let s0 := opened s true false in
  '(s1, ret) ← alone call_fuel s0 (RDown 20);
  Some (closed s1 true false, (ret, delivered (drop (length (log s0)) (log s1)))).

(** [main] of protect/user_ioctl.c: its exit status. *)
Definition user_ioctl (s : shared) : option (shared * Z) :=
  let s0 := opened s true true in
  '(s1, ret) ← alone call_fuel s0 (IEntry PIPE_RESET);
  Some (closed s1 true true, if c_true ret then 1 else 0).

(** The program run again as long as there is something in the pipe. *)
Fixpoint user_reads (fuel : nat) (s : shared) : option (shared * list (Z * list Z)) :=
  match fuel with
  | O => None
  | S fuel' =>
      if wp (dev s) =? rp (dev s) then Some (s, [])
      else
        '(s1, out) ← user_read s;
        '(s2, outs) ← user_reads fuel' s1;
        Some (s2, out :: outs)
  end.

(** The device between calls. *)
Record idle (s : shared) : Prop := {
  idle_ring : ring (dev s);
  idle_quiet : quiet (dev s);
  idle_sem : mysem s = 1
}.

(** [open] and [close] touch only the counts of users. *)
Lemma ring_counts d r w : ring d -> ring (set_counts d r w).
Proof. intros []. split; assumption. Qed.

Lemma idle_opened s r w : idle s -> idle (opened s r w) /\ contents (dev (opened s r w)) = contents (dev s) /\
  wp (dev (opened s r w)) = wp (dev s) /\ rp (dev (opened s r w)) = rp (dev s).
Proof.
  intros [Hr Hq Hm]. unfold opened, my_open.
  destruct r, w; (split; [split; [repeat apply ring_counts; exact Hr|exact Hq|exact Hm]|split; [reflexivity|split; reflexivity]]).
Qed.

Lemma idle_closed s r w : ring (dev s) -> quiet (dev s) -> mysem s = 1 ->
  idle (closed s r w) /\ contents (dev (closed s r w)) = contents (dev s).
Proof.
  intros Hr Hq Hm. unfold closed, my_release.
  destruct r, w; (split; [split; [repeat apply ring_counts; exact Hr|exact Hq|exact Hm]|reflexivity]).
Qed.

Lemma alone_step fuel s p s' p' w :
  thread_step IOC_TYPE PIPE_RESET 0 s p = Next s' p' w -> alone (S fuel) s p = alone fuel s' p'.
Proof. intros H. cbn [alone]. rewrite H. by destruct p. Qed.

(** A call that never comes back, however long one waits. *)
Definition stuck (s : shared) (p : pc) : Prop := forall fuel, alone fuel s p = None.

Lemma stuck_blocked s p : (forall r, p <> Done r) -> thread_step IOC_TYPE PIPE_RESET 0 s p = Blocked -> stuck s p.
Proof. intros Hp H [|fuel]; [done|]. cbn [alone]. rewrite H. destruct p; try done. by destruct (Hp ret). Qed.

Lemma stuck_step s p s' p' w : thread_step IOC_TYPE PIPE_RESET 0 s p = Next s' p' w -> stuck s' p' -> stuck s p.
Proof. intros H Hs [|fuel]; [done|]. rewrite (alone_step _ _ _ _ _ _ H). apply Hs. Qed.

(** A read of an idle pipe that is empty. *)
Lemma empty_read_stuck s count : idle s -> wp (dev s) = rp (dev s) -> stuck s (RDown count).
Proof.
  intros [_ _ Hm] E. destruct s as [d m l]. cbn [dev mysem] in E, Hm. subst m.
  eapply stuck_step; [reflexivity|].
  eapply stuck_step; [cbn [thread_step down dev]; rewrite E, Z.eqb_refl; reflexivity|].
  eapply stuck_step; [cbn [thread_step down up dev]; rewrite E, Z.eqb_refl; reflexivity|].
  apply stuck_blocked; [done|reflexivity].
Qed.

(** A read of an idle pipe that is not empty. *)
Lemma alone_read s count :
  idle s -> wp (dev s) <> rp (dev s) -> 0 < count ->
  exists d bytes, alone call_fuel s (RDown count) = Some (Shared d 1 (log s ++ [EvRead bytes]), zlen bytes) /\
    contents (dev s) = bytes ++ contents d /\ 0 < zlen bytes <= count /\ ring d /\ quiet d.
Proof.
  intros [Hr Hq Hm] Hne Hc. destruct s as [d m l]. cbn [dev mysem] in *. subst m. cbn [log].
  destruct (read_body_ok d count Hr Hq Hne ltac:(lia)) as (bytes & Hb & Hz & Hcon & Hr').
  destruct (read_count_spec d count Hr Hq ltac:(lia)) as ([H0 H1] & _ & H2). destruct (H2 Hne) as (_ & _ & _ & Hpos).
  set (d1 := set_rp d (rp d + read_count d count)) in *.
  assert (wp d1 < end_ d1) as Hw1 by (cbn; apply Hq).
  destruct (ring_rp_wrap d1 Hr' Hw1) as [Hrw Hqw].
  exists (rp_wrap d1), bytes. split.
  - unfold call_fuel. erewrite alone_step by reflexivity.
    erewrite alone_step by (cbn [thread_step down dev]; rewrite (proj2 (Z.eqb_neq _ _) Hne); reflexivity).
    erewrite alone_step by (cbn [thread_step down dev]; rewrite Hb; reflexivity).
    erewrite alone_step by reflexivity. erewrite alone_step by reflexivity. cbn [alone].
    rewrite Hz. unfold up, with_dev, down. cbn [dev mysem log]. by rewrite !app_nil_r.
  - rewrite contents_rp_wrap by done. split; [done|]. split; [lia|done].
Qed.

Lemma empty_no_bytes s : idle s -> contents (dev s) = [] -> wp (dev s) = rp (dev s).
Proof.
  intros [Hr Hq _] Hc. pose proof (zlen_contents _ Hr) as Hz. rewrite Hc in Hz. change (zlen (@nil Z)) with 0 in Hz.
  destruct Hr, Hq. destruct (Z.leb_spec (rp (dev s)) (wp (dev s))); lia.
Qed.

(** C21: When no one else uses the pipe, protect/user_read.c prints between 1
    and 20 for a pipe that is not empty, and running it until the pipe is
    empty delivers exactly the bytes of the pipe in order, in at most as many
    runs as there are bytes; protect/user_ioctl.c exits with 0 and leaves the
    pipe empty, whatever was in it; and on an empty pipe the read of user_read
    never comes back, however the pipe got empty. *)
Theorem pipe_programs s fuel :
  idle s -> IOC_TYPE PIPE_RESET = PIPE -> (length (contents (dev s)) < fuel)%nat ->
  (exists s' outs, user_reads fuel s = Some (s', outs) /\ flat_map snd outs = contents (dev s) /\
     Forall (fun o => fst o = zlen (snd o) /\ 1 <= fst o <= 20) outs /\
     zlen outs <= zlen (contents (dev s)) /\ idle s' /\ contents (dev s') = []) /\
  (exists s', user_ioctl s = Some (s', 0) /\ idle s' /\ contents (dev s') = [] /\
     stuck (opened s' true false) (RDown 20)) /\
  (forall s', idle s' -> contents (dev s') = [] -> stuck (opened s' true false) (RDown 20)).
Proof.
  intros Hi Hty Hf. split; [|split].
  - clear Hty. revert s Hi Hf. induction fuel as [|fuel IH]; intros s Hi Hf; [lia|]. cbn [user_reads].
    destruct (Z.eqb_spec (wp (dev s)) (rp (dev s))) as [E|E].
    { exists s, []. assert (contents (dev s) = []) as -> by (apply contents_nil; [apply Hi|done]). done. }
    destruct (idle_opened s true false Hi) as (Hi0 & Hc0 & Hw0 & Hr0).
    destruct (alone_read (opened s true false) 20 Hi0 ltac:(congruence) ltac:(lia)) as (d & bytes & Hrun & Hcon & Hz & Hr & Hq).
    destruct (idle_closed (Shared d 1 (log (opened s true false) ++ [EvRead bytes])) true false Hr Hq eq_refl) as [Hi1 Hc1].
    rewrite Hc0 in Hcon. assert (user_read s = Some (closed (Shared d 1 (log (opened s true false) ++ [EvRead bytes])) true false, (zlen bytes, bytes))) as ->.
    { unfold user_read. rewrite Hrun. cbn [mbind option_bind log]. rewrite drop_app_length. unfold delivered. cbn [flat_map]. rewrite app_nil_r. reflexivity. }
    cbn [mbind option_bind]. cbn [dev] in Hc1. rewrite Hcon, length_app in Hf. unfold zlen in Hz.
    destruct (IH _ Hi1) as (s' & outs & -> & Hout & Hall & Hlen & Hi' & Hc'); [rewrite Hc1; lia|].
    cbn [mbind option_bind]. exists s', ((zlen bytes, bytes) :: outs). split; [done|]. cbn [flat_map snd].
    rewrite Hout, Hc1. split; [done|]. split; [constructor; [cbn; unfold zlen; lia|done]|].
    split; [rewrite Hcon, zlen_app, zlen_cons; rewrite Hc1 in Hlen; unfold zlen in *; lia|done].
  - destruct (idle_opened s true true Hi) as ([Hr0 Hq0 Hm0] & Hc0 & _). destruct (ring_reset _ Hr0) as (Hr & Hq & Hc).
    set (s1 := Shared (reset (dev (opened s true true))) 1 (log (opened s true true) ++ [EvReset (contents (dev (opened s true true)))])).
    assert (alone call_fuel (opened s true true) (IEntry PIPE_RESET) = Some (s1, 0)) as Hrun.
    { subst s1. destruct (opened s true true) as [d m l]. cbn [dev mysem] in *. subst m.
      unfold call_fuel. erewrite alone_step by (cbn [thread_step]; rewrite Hty, !Z.eqb_refl; reflexivity).
      erewrite alone_step by reflexivity. erewrite alone_step by reflexivity. reflexivity. }
    destruct (idle_closed s1 true true Hr Hq eq_refl) as [Hi1 Hc1]. exists (closed s1 true true).
    unfold user_ioctl. rewrite Hrun. split; [done|]. split; [done|]. split; [by rewrite Hc1|].
    destruct (idle_opened _ true false Hi1) as (_ & _ & Hw2 & Hr2).
    apply empty_read_stuck; [by apply idle_opened|by rewrite Hw2, Hr2].
  - intros s' Hs' Hc. destruct (idle_opened s' true false Hs') as (Ho & _ & Hw & Hr).
    apply empty_read_stuck; [done|]. rewrite Hw, Hr. by apply empty_no_bytes.
Qed.

End PipeUsers.

Lemma pipe_programs_witness :
  let s := Shared (set_wp (set_mem (init_dev 4096) (upd (mem (init_dev 4096)) 0 (seqZ 1 30))) (4096 + 30)) 1 [] in
  (exists s' outs, user_reads ioc_type pipe_reset 40 s = Some (s', outs) /\ flat_map snd outs = seqZ 1 30) /\
  (exists s', user_ioctl ioc_type pipe_reset s = Some (s', 0) /\ contents (dev s') = []).
Proof.
  intros s. assert (contents (dev s) = seqZ 1 30) as Hc by (vm_compute; reflexivity).
  assert (idle s) as Hi.
  { split; [|split; vm_compute; reflexivity|reflexivity].
    split; [vm_compute; reflexivity|split; vm_compute; reflexivity|vm_compute; reflexivity
           |split; vm_compute; discriminate|split; vm_compute; discriminate|intros [H _]; vm_compute in H; discriminate]. }
  destruct (pipe_programs ioc_type pipe_reset s 40 Hi) as [(s' & outs & H1 & H2 & _) [(s2 & H3 & _ & H4 & _) _]];
    [reflexivity|rewrite Hc; vm_compute; lia|].
  split; [exists s', outs; split; [exact H1|rewrite H2; exact Hc]|exists s2; split; [exact H3|exact H4]].
Defined.

(** ** pci/user_read.c: the exit status, for the answer of [open] *)
Definition pci_user_read (fd : Z) : Z := if fd <? 0 then 1 else 0.

(** ** io/user_read.c *)

(** [read(fd, buf, count)] with its arguments as C converts them: a
    pointer passed for the [int] keeps its low 32 bits, an [int] passed for
    the pointer is sign extended. *)
Record read_call := ReadCall { rc_fd : Z; rc_buf : Z; rc_count : Z }.

(** The offsets of the loop [for (pos = 0; pos < 256; pos += 4)]; [None]: the
    fuel is used up. *)
Fixpoint pos_loop (fuel : nat) (pos : Z) : option (list Z) :=
  match fuel with
  | O => None
  | S fuel' => if pos <? 256 then rest ← pos_loop fuel' (pos + 4); Some (pos :: rest) else Some []
  end.

(** [main]: the answer of [open], the address of the local [value]; the exit
    status, the system calls and the labels of the lines printed. *)
Definition io_user_read (fd value_addr : Z) : option (Z * list read_call * list Z) :=
  if fd =? -1 then Some (1, [], [])
  else
    labels ← pos_loop 65 0;
    Some (0, map (fun _ => ReadCall (s32 value_addr) (u64 fd) 4) labels, labels).

(** The program prints 64 lines, for the offsets of all 32-bit registers, but
    none of its reads is one of the device it opened (unless the stack address
    happens to end in the descriptor), and each would store to the address
    that the descriptor's number is. *)
Theorem io_user_read_swapped fd value_addr :
  0 <= fd < 2 ^ 31 -> s32 value_addr <> fd ->
  exists calls labels, io_user_read fd value_addr = Some (0, calls, labels) /\
    labels = map (fun k => 4 * k) (seqZ 0 64) /\ length calls = 64%nat /\
    Forall (fun c => rc_fd c <> fd /\ rc_buf c = fd) calls.
Proof.
  intros Hfd Hne. unfold io_user_read. destruct (Z.eqb_spec fd (-1)); [lia|].
  assert (pos_loop 65 0 = Some (map (fun k => 4 * k) (seqZ 0 64))) as -> by (vm_compute; reflexivity).
  cbn [mbind option_bind]. do 2 eexists. split; [reflexivity|]. split; [reflexivity|].
  split; [by rewrite length_map|]. apply Forall_map, Forall_true. intros _. cbn. by rewrite u64_small by lia.
Qed.

Lemma io_user_read_swapped_witness :
  exists calls labels, io_user_read 3 140737488350000 = Some (0, calls, labels) /\
    Forall (fun c => rc_fd c <> 3 /\ rc_buf c = 3) calls.
Proof.
  destruct (io_user_read_swapped 3 140737488350000) as (calls & labels & H & _ & _ & Hf); [lia|vm_compute; discriminate|].
  by exists calls, labels.
Defined.
