(* ===== verification/KeySpin.v ===== *)
(** * protect/my_spin.c and interrupt/like_irq.c: keyboard interrupt handlers

    my_spin.c queues scancodes in a linked list of allocated nodes, filled by
    the interrupt handler [key_func] and emptied by [my_read]; both update the
    list under the spinlock, [my_read] with interrupts off, so each critical
    section is one step of the model (what [my_read] does after it concerns
    its local buffer only).  like_irq.c keeps the scancodes in an array of
    [KEY_BUF] bytes that [my_proc] prints and clears without a lock: each
    turn of its loop and the clearing are steps of their own, and interrupts
    come in between, each of them (on one processor) as one step. *)
From stdpp Require Import strings.
From S2P Require Import Prelude Kernel.
Local Open Scope Z_scope.

(** ** protect/my_spin.c *)
Definition MY_MAJOR : Z := 70.
Definition IRQ_NONE : Z := 0.
Definition IRQ_HANDLED : Z := 1.

(** [struct mydev] at address [self]; a node of [key_list] is its address and
    its [value]. *)
Record mydev := Mydev { self : Z; key_list : list (Z * Z); key_count : Z }.

(** What happened to scancodes: received, delivered to a reader, lost to a
    failed user copy. *)
Inductive event := EvKey (v : Z) | EvRead (vs : list Z) | EvLost (vs : list Z).

(** The loop of [my_read]: the first [n] nodes leave the list and are freed. *)
Fixpoint take_keys (n : nat) (l : list (Z * Z)) : prog (list Z * list (Z * Z)) :=
  match n with
  | O => Ret ([], l)
  | S n' =>
      match l with
      | [] => Oops "list_entry of an empty list"
      | (pos, value) :: l' =>
          do! kfree pos ;;
          let! (vs, rest) <- take_keys n' l' ;;
          Ret (value :: vs, rest)
      end
  end.

Definition my_read (d : mydev) (count : Z) : prog (Z * mydev * list event) :=
  let count := Z.min count (key_count d) in
  if 0 =? count then Ret (s64 count, d, [])
  else
    call! kbuf <- kzalloc "kbuf" count ;;
    if kbuf =? 0 then Ret (- ENOMEM, d, [])
    else
      let! (vs, rest) <- take_keys (Z.to_nat count) (key_list d) ;;
      let d' := Mydev (self d) rest (u64 (key_count d - count)) in
      call! left <- kquery "copy_to_user" count ;;
      if c_true left then do! kfree kbuf ;; Ret (- EFAULT, d', [EvLost vs])
      else do! kfree kbuf ;; Ret (s64 count, d', [EvRead vs]).

Definition key_func (d : mydev) : prog (Z * mydev * list event) :=
  call! tmp <- kzalloc "struct key_dev" 1 ;;
  if tmp =? 0 then Ret (IRQ_NONE, d, [])
  else
    call! value <- kquery "inb" 96 ;;
    Ret (IRQ_HANDLED, Mydev (self d) (key_list d ++ [(tmp, u8 value)]) (u64 (key_count d + 1)),
         [EvKey (u8 value)]).

Definition my_init : prog (Z * mydev) :=
  call! dev <- kzalloc "struct mydev" 1 ;;
  if dev =? 0 then Ret (- ENOMEM, Mydev 0 [] 0)
  else
    call! ret <- request_irq 1 dev ;;
    if c_true ret then do! kfree dev ;; Ret (-1, Mydev dev [] 0)
    else
      do! cdev_init dev ;;
      do! cdev_add dev (MKDEV MY_MAJOR 0) 1 ;;
      Ret (0, Mydev dev [] 0).

Fixpoint free_keys (l : list (Z * Z)) : prog unit :=
  match l with
  | [] => Ret tt
  | (pos, _) :: l' => do! kfree pos ;; free_keys l'
  end.

Definition my_exit (d : mydev) : prog unit :=
  do! free_irq 1 (self d) ;;
  do! cdev_del (self d) ;;
  let! _ <- (if c_true (key_count d) then free_keys (key_list d) else Ret tt) ;;
  do! kfree (self d) ;;
  Ret tt.

(** The life of the loaded module: interrupts and reads in any order. *)
Inductive op := Key | Read (count : Z).

Fixpoint session (ops : list op) (d : mydev) (log : list event) : prog (mydev * list event) :=
  match ops with
  | [] => Ret (d, log)
  | Key :: rest => let! (_, d', evs) <- key_func d ;; session rest d' (log ++ evs)
  | Read count :: rest => let! (_, d', evs) <- my_read d count ;; session rest d' (log ++ evs)
  end.

Definition received (log : list event) : list Z :=
  flat_map (fun ev => match ev with EvKey v => [v] | _ => [] end) log.
Definition consumed (log : list event) : list Z :=
  flat_map (fun ev => match ev with EvKey _ => [] | EvRead vs | EvLost vs => vs end) log.

(** ** interrupt/like_irq.c *)
Definition KEY_BUF : Z := 120.

(** [pos] is the number of bytes in use. *)
Record keybuf := Keybuf { key_buf : list Z; pos : Z }.

(** The handler: [None] would be a store outside the array. *)
Definition key_service (k : keybuf) (value : Z) : option (Z * keybuf) :=
  if pos k <? KEY_BUF then
    match wr (key_buf k) (pos k) [u8 value] with
    | Some b => Some (IRQ_HANDLED, Keybuf b (u32 (pos k + 1)))
    | None => None
    end
  else Some (IRQ_NONE, k).

(** One turn of the loop of [my_proc]: the byte, and a line break after each
    sixth. *)
Definition key_entry (i b : Z) : list Z :=
  dec b ++ [9] ++ (if (i mod 6 =? 0) && negb (i =? 0) then [10; 32] else []).

(** Where a call of [my_proc] is: nowhere, at the test of the loop with [i]
    and the text printed so far, or before [pos = 0]. *)
Inductive kpc := PIdle | PLoop (i : Z) (page : list Z) | PClear (i : Z) (page : list Z).

(** [sprintf(page + ret, ...)]: the text and its NUL stay in the page. *)
Definition print_more (page text : list Z) : option (list Z) :=
  if zlen page + zlen text + 1 <=? 4096 then Some (page ++ text) else None.

(** One step of [my_proc]; the last component is the text it returns with.
    [None]: an access outside the array or the page. *)
Definition my_proc_step (k : keybuf) (pc : kpc) : option (keybuf * kpc * option (list Z)) :=
  match pc with
  | PIdle => Some (k, PLoop 1 [], None)
  | PLoop i page =>
      if i <=? pos k then
        bs ← rd (key_buf k) (i - 1) 1;
        page' ← match bs with [b] => print_more page (key_entry i b) | _ => None end;
        Some (k, PLoop (s32 (i + 1)) page', None)
      else page' ← print_more page [10]; Some (k, PClear i page', None)
  | PClear _ page => Some (Keybuf (key_buf k) 0, PIdle, Some page)
  end.

Definition like_irq_init : prog (Z * unit) :=
  call! ret <- request_irq 1 1 ;;
  if c_true ret then Ret (- EIO, tt)
  else do! create_proc_read_entry "proc_key" ;; Ret (0, tt).

Definition like_irq_exit (_ : unit) : prog unit :=
  do! remove_proc_entry "proc_key" ;;
  do! free_irq 1 1 ;;
  Ret tt.

(** Interrupts and the steps of readers that come one after the other; the
    answer has the texts of the readers that have returned. *)
Inductive kop := Irq (value : Z) | Proc.

Fixpoint keys_run (ops : list kop) (k : keybuf) (pc : kpc) (texts : list (list Z)) : option (keybuf * kpc * list (list Z)) :=
  match ops with
  | [] => Some (k, pc, texts)
  | Irq v :: rest => '(_, k') ← key_service k v; keys_run rest k' pc texts
  | Proc :: rest =>
      '(k', pc', out) ← my_proc_step k pc;
      keys_run rest k' pc' (texts ++ match out with Some t => [t] | None => [] end)
  end.

(** ** Lemmas *)
Definition nodes (l : list (Z * Z)) : list res := map (fun x => RMem (fst x)) l.

(** Keys are only lost by a copy to the user that failed. *)
Definition lost_by_copy (log : list event) (t : trace) : Prop :=
  forall vs, EvLost vs ∈ log -> exists r, r <> 0 /\ (kquery "copy_to_user" (zlen vs), r) ∈ t.

Record inv (d : mydev) (log : list event) (t : trace) : Prop := {
  inv_addr : Forall (fun x => 0 < fst x) (key_list d);
  inv_count : key_count d = zlen (key_list d);
  inv_stream : received log = consumed log ++ map snd (key_list d);
  inv_lost : lost_by_copy log t
}.

Lemma lost_grows log t u : lost_by_copy log t -> lost_by_copy log (t ++ u).
Proof. intros H vs Hv. destruct (H vs Hv) as (r & Hr & Hin). exists r. split; [done|]. apply elem_of_app. by left. Qed.

Lemma inv_grows d log t t' : (exists u, t' = t ++ u) -> inv d log t -> inv d log t'.
Proof. intros [u ->] [Ha Hc Hs Hl]. split; [done..|]. by apply lost_grows. Qed.

Lemma spin_received_app l l' : received (l ++ l') = received l ++ received l'.
Proof. apply flat_map_app. Qed.
Lemma spin_consumed_app l l' : consumed (l ++ l') = consumed l ++ consumed l'.
Proof. apply flat_map_app. Qed.
#[local] Hint Rewrite spin_received_app spin_consumed_app : qds.

Lemma take_keys_safe n l t X Y base (Q : list Z * list (Z * Z) -> trace -> list res -> Prop) :
  Forall (fun x => 0 < fst x) l -> (n <= length l)%nat -> X ≡ₚ nodes l ++ Y ->
  (forall t' X', X' ≡ₚ nodes (drop n l) ++ Y -> Q (map snd (take n l), drop n l) t' (X' ++ base)) ->
  safe answers (take_keys n l) t (X ++ base) Q.
Proof.
  revert l t X Q. induction n as [|n IH]; intros l t X Q Hl Hn HX HQ.
  { by apply safe_ret, HQ. }
  destruct l as [|[p v] l]; [cbn in Hn; lia|]. cbn [take_keys]. inversion_clear Hl as [|? ? Hp Hl'].
  cbn in HX, Hn, Hp. eapply safe_kfree; [lia|exact HX|]. intros _ t1 X1 HX1.
  apply safe_bind. eapply IH; [done|lia|exact HX1|]. intros t2 X2 HX2. by apply HQ.
Qed.

Lemma free_keys_safe l t X Y base (Q : unit -> trace -> list res -> Prop) :
  Forall (fun x => 0 < fst x) l -> X ≡ₚ nodes l ++ Y ->
  (forall t' X', X' ≡ₚ Y -> Q tt t' (X' ++ base)) ->
  safe answers (free_keys l) t (X ++ base) Q.
Proof.
  intros Hl. revert t X. induction Hl as [|[p v] l Hp _ IH]; intros t X HX HQ.
  { by apply safe_ret, HQ. }
  cbn [free_keys]. cbn in HX, Hp. eapply safe_kfree; [lia|exact HX|]. intros _ t1 X1 HX1. by apply IH.
Qed.

(** A key arrives. *)
Lemma inv_key d log t tmp v :
  inv d log t -> zlen (key_list d) < 2 ^ 63 -> 0 < tmp ->
  inv (Mydev (self d) (key_list d ++ [(tmp, u8 v)]) (u64 (key_count d + 1))) (log ++ [EvKey (u8 v)]) t.
Proof.
  intros [Ha Hc Hs Hl] Hlen Htmp. pose proof (zlen_nonneg (key_list d)). split; cbn.
  - apply Forall_app; split; [done|]. by repeat constructor.
  - rewrite Hc, zlen_app, u64_small; [done|]. change (zlen [_]) with 1. lia.
  - autorewrite with qds. rewrite Hs, map_app. cbn. by rewrite app_nil_r, app_assoc.
  - intros vs [Hv|Hv]%elem_of_app; [by apply Hl|]. by apply list_elem_of_singleton in Hv.
Qed.

(** The first [n] keys leave: to the reader, or lost with a failed copy. *)
Lemma inv_take d log t n lft :
  inv d log t -> 0 <= n <= zlen (key_list d) -> zlen (key_list d) < 2 ^ 63 ->
  (lft <> 0 -> (kquery "copy_to_user" n, lft) ∈ t) ->
  let vs := map snd (take (Z.to_nat n) (key_list d)) in
  inv (Mydev (self d) (drop (Z.to_nat n) (key_list d)) (u64 (zlen (key_list d) - n)))
    (log ++ [if c_true lft then EvLost vs else EvRead vs]) t.
Proof.
  intros [Ha Hc Hs Hl] Hn Hlen Ht vs. unfold zlen in *. split; cbn.
  - by apply Forall_drop.
  - rewrite u64_small by lia. unfold zlen. rewrite length_drop. lia.
  - autorewrite with qds. rewrite Hs.
    replace (received [_]) with (@nil Z) by (by destruct (c_true lft)).
    replace (consumed [_]) with vs by (destruct (c_true lft); cbn; by rewrite app_nil_r).
    rewrite app_nil_r, <- app_assoc. subst vs. rewrite <- map_app, take_drop. done.
  - intros vs' [Hv|Hv]%elem_of_app; [by apply Hl|]. apply list_elem_of_singleton in Hv. unfold c_true in Hv.
    destruct (Z.eqb_spec lft 0) as [E|E]; cbn in Hv; [done|]. injection Hv as ->. exists lft. split; [done|].
    subst vs. unfold zlen. rewrite length_map, length_take. replace (Z.of_nat _) with n by lia. by apply Ht.
Qed.

Lemma key_func_safe d log t X base (Q : Z * mydev * list event -> trace -> list res -> Prop) :
  inv d log t -> zlen (key_list d) < 2 ^ 63 -> X ≡ₚ nodes (key_list d) ->
  (forall ret d' evs t' X', inv d' (log ++ evs) t' -> self d' = self d -> zlen (key_list d') <= zlen (key_list d) + 1 ->
     X' ≡ₚ nodes (key_list d') -> Q (ret, d', evs) t' (X' ++ base)) ->
  safe answers (key_func d) t (X ++ base) Q.
Proof.
  intros Hi Hlen HX HQ. apply safe_grows. unfold key_func. apply safe_call. intros tmp Htmp. cbn in Htmp. kred.
  destruct (Z.eqb_spec tmp 0) as [E|E].
  - apply safe_ret. intros Ht. apply HQ; [|done|lia|done]. rewrite app_nil_r. by eapply inv_grows.
  - apply safe_call. intros v _. kred. apply safe_ret. intros Ht. apply (HQ _ _ _ _ (RMem tmp :: X)); cbn [key_list self].
    + apply inv_key; [by eapply inv_grows|done|lia].
    + done.
    + by rewrite zlen_app.
    + unfold nodes in *. rewrite map_app, HX. cbn. apply Permutation_cons_append.
Qed.

Lemma my_read_safe d log count t X base (Q : Z * mydev * list event -> trace -> list res -> Prop) :
  inv d log t -> 0 <= count -> zlen (key_list d) < 2 ^ 63 -> X ≡ₚ nodes (key_list d) ->
  (forall ret d' evs t' X', inv d' (log ++ evs) t' -> self d' = self d -> zlen (key_list d') <= zlen (key_list d) ->
     X' ≡ₚ nodes (key_list d') -> Q (ret, d', evs) t' (X' ++ base)) ->
  safe answers (my_read d count) t (X ++ base) Q.
Proof.
  intros Hi Hcount Hlen HX HQ. pose proof (zlen_nonneg (key_list d)). apply safe_grows. unfold my_read.
  rewrite (inv_count _ _ _ Hi). set (n := Z.min count _). destruct (Z.eqb_spec 0 n) as [E|E].
  { apply safe_ret. intros Ht. apply HQ; [|done|lia|done]. rewrite app_nil_r. by eapply inv_grows. }
  apply safe_call. intros kbuf Hk. cbn in Hk. kred. destruct (Z.eqb_spec kbuf 0) as [Ek|Ek].
  { apply safe_ret. intros Ht. apply HQ; [|done|lia|done]. rewrite app_nil_r. by eapply inv_grows. }
  apply safe_bind. unfold zlen in n.
  eapply (take_keys_safe _ _ _ (RMem kbuf :: X) [RMem kbuf]); [apply Hi|lia| |].
  { rewrite HX. apply Permutation_cons_append. }
  intros t1 X1 HX1. cbv beta iota. apply safe_call. intros lft _. kred.
  pose proof (fun t' H => inv_take d log t' n lft H ltac:(unfold zlen; lia) Hlen) as Hinv. cbv zeta in Hinv.
  fold (c_true lft) in Hinv |- *. unfold c_true in Hinv |- *.
  destruct (negb (lft =? 0)) eqn:El; apply safe_grows;
    (eapply safe_kfree; [done|rewrite HX1; symmetry; apply Permutation_cons_append|]);
    intros _ t2 X2 HX2; apply safe_ret; intros Ht2 Ht; apply HQ; cbn [self key_list];
    try done; try (unfold zlen; rewrite length_drop; lia);
    (apply Hinv; [by eapply inv_grows|]; intros Hne; destruct Ht2 as [u ->]; apply elem_of_app; left; apply elem_of_app; right; by left).
Qed.

Lemma session_safe ops d log t X base (Q : mydev * list event -> trace -> list res -> Prop) :
  inv d log t -> zlen (key_list d) + zlen ops < 2 ^ 63 ->
  Forall (fun o => match o with Read count => 0 <= count | Key => True end) ops ->
  X ≡ₚ nodes (key_list d) ->
  (forall t' X' d' log', inv d' log' t' -> self d' = self d -> X' ≡ₚ nodes (key_list d') ->
     Q (d', log') t' (X' ++ base)) ->
  safe answers (session ops d log) t (X ++ base) Q.
Proof.
  intros Hi Hlen Hops. revert d log t X Hi Hlen.
  induction Hops as [|o ops Ho _ IH]; intros d log t X Hi Hlen HX HQ.
  { by apply safe_ret, HQ. }
  rewrite zlen_cons in Hlen. pose proof (zlen_nonneg ops).
  destruct o as [|count]; cbn [session]; apply safe_bind.
  - apply (key_func_safe d log); [done|lia|done|]. intros ret d' evs t' X' Hi' Hself Hl' HX'. cbv beta iota.
    apply IH; [done|lia|done|]. intros. apply HQ; [done|congruence|done].
  - apply (my_read_safe d log); [done|done|lia|done|]. intros ret d' evs t' X' Hi' Hself Hl' HX'. cbv beta iota.
    apply IH; [done|lia|done|]. intros. apply HQ; [done|congruence|done].
Qed.

Lemma exit_safe d log t X base (Q : unit -> trace -> list res -> Prop) :
  inv d log t -> 0 < self d ->
  X ≡ₚ nodes (key_list d) ++ [RCdev (self d); RIrq 1 (self d); RMem (self d)] ->
  (forall t', Q tt t' base) ->
  safe answers (my_exit d) t (X ++ base) Q.
Proof.
  intros [Ha Hc _ _] Hself HX HQ. unfold my_exit.
  eapply (safe_release _ _ (RIrq 1 (self d))); [done..| |].
  { rewrite HX. symmetry. rewrite (Permutation_swap (RIrq _ _) (RCdev _)). apply Permutation_middle. }
  intros _ t1 X1 HX1. eapply (safe_release _ _ (RCdev (self d))); [done..| |].
  { rewrite HX1. symmetry. apply Permutation_middle. }
  intros _ t2 X2 HX2. apply safe_bind.
  assert (forall X3 t3, X3 ≡ₚ [RMem (self d)] ->
    safe answers (do! kfree (self d) ;; Ret tt) t3 (X3 ++ base) Q) as Hend.
  { intros X3 t3 HX3. eapply safe_kfree; [lia|exact HX3|]. intros _ t4 X4 HX4.
    apply Permutation_nil_r in HX4 as ->. apply HQ. }
  unfold c_true. destruct (Z.eqb_spec (key_count d) 0) as [E|E]; cbn [negb].
  - destruct (key_list d); [|unfold zlen in Hc; cbn in Hc; lia]. apply safe_ret. by apply Hend.
  - eapply free_keys_safe; [done|exact HX2|]. intros t3 X3 HX3. by apply Hend.
Qed.

Lemma spin_session_safe ops t base :
  zlen ops < 2 ^ 62 ->
  Forall (fun o => match o with Read count => 0 <= count | Key => True end) ops ->
  clean base ->
  safe answers
    (let! (ret, d) <- my_init ;;
     if c_true ret then Ret None
     else let! (d, log) <- session ops d [] ;; let! _ <- my_exit d ;; Ret (Some (d, log)))
    t base
    (fun out t' held => held = base /\
       match out with
       | None => True
       | Some (d, log) => key_count d = zlen (key_list d) /\
           received log = consumed log ++ map snd (key_list d) /\ lost_by_copy log t'
       end).
Proof.
  intros Hlen Hops Hclean. apply safe_bind. unfold my_init. krun; try done.
  apply safe_bind.
  apply (session_safe ops _ _ _ [] (RCdev r :: RIrq 1 r :: RMem r :: base)); try done.
  { split; try done. intros vs Hv. by apply elem_of_nil in Hv. }
  { cbn [key_list]. rewrite zlen_nil. pose proof (zlen_nonneg ops). lia. }
  intros t1 X d log Hi Hself HX. cbn in Hself. apply safe_grows, safe_bind.
  change (X ++ _) with (X ++ [RCdev r; RIrq 1 r; RMem r] ++ base). rewrite app_assoc.
  eapply exit_safe; [exact Hi|zbool; lia|by rewrite HX, Hself|].
  intros t2. apply safe_ret. intros Ht2. split; [done|]. destruct (inv_grows d log t1 t2 Ht2 Hi). done.
Qed.

(** C19: Whatever interrupts and reads follow the load of the keyboard driver
    and whatever the kernel answers: no handler misuses memory (no empty list
    is dereferenced, every node is freed once) and the unload gives everything
    back; [key_count] is the length of the list; the scancodes received leave
    the list once each and in the order they came ([received] is what was
    [consumed] followed by what is queued), to a reader or, with all keys of
    the read, lost when its copy to the user fails, and only then. *)
Theorem spin_queue_correct ops t base :
  zlen ops < 2 ^ 62 ->
  Forall (fun o => match o with Read count => 0 <= count | Key => True end) ops ->
  clean base ->
  safe answers
    (let! (ret, d) <- my_init ;;
     if c_true ret then Ret None
     else let! (d, log) <- session ops d [] ;; let! _ <- my_exit d ;; Ret (Some (d, log)))
    t base
    (fun out t' held => held = base /\
       match out with
       | None => True
       | Some (d, log) => key_count d = zlen (key_list d) /\
           received log = consumed log ++ map snd (key_list d) /\ lost_by_copy log t'
       end).
Proof. apply spin_session_safe. Qed.

Lemma spin_queue_correct_witness :
  exists d log held,
    run good_oracle [] [] (let! (ret, d) <- my_init ;;
     if c_true ret then Ret None
     else let! (d, log) <- session [Key; Key; Read 1] d [] ;; let! _ <- my_exit d ;; Ret (Some (d, log)))
    = Fin (Some (d, log)) held [] /\ received log = consumed log ++ map snd (key_list d) /\ lost_by_copy log held.
Proof.
  destruct (safe_run answers good_oracle _ [] [] _ good_oracle_conforming
    (spin_queue_correct [Key; Key; Read 1] [] [] eq_refl ltac:(repeat constructor; lia) ltac:(constructor)))
    as (out & t' & h' & Hrun & Hh & Hout).
  destruct out as [[d log]|]; [|vm_compute in Hrun; discriminate].
  exists d, log, t'. rewrite Hrun, Hh. split; [reflexivity|apply Hout].
Defined.

(** *** The key buffer of like_irq.c *)

(** The abstract buffer: keys that wait; those a reader has printed and those
    it has not; or, after the end of its loop, those it has printed and those
    that came too late. *)
Inductive kspec := Waiting (keys : list Z) | Reading (shown rest : list Z) | Ending (shown late : list Z).

Definition spec_keys (a : kspec) : list Z :=
  match a with Waiting ks => ks | Reading shown rest => shown ++ rest | Ending shown late => shown ++ late end.

Definition spec_add (v : Z) (a : kspec) : kspec :=
  match a with
  | Waiting ks => Waiting (ks ++ [v])
  | Reading shown rest => Reading shown (rest ++ [v])
  | Ending shown late => Ending shown (late ++ [v])
  end.

(** A key that finds [KEY_BUF] keys is dropped; a reader prints key by key
    until it has all, and takes away what it printed and what came late. *)
Fixpoint keys_spec (ops : list kop) (a : kspec) : kspec * list (list Z * list Z) :=
  match ops with
  | [] => (a, [])
  | Irq v :: rest => keys_spec rest (if zlen (spec_keys a) <? KEY_BUF then spec_add (u8 v) a else a)
  | Proc :: rest =>
      match a with
      | Waiting ks => keys_spec rest (Reading [] ks)
      | Reading shown (b :: bs) => keys_spec rest (Reading (shown ++ [b]) bs)
      | Reading shown [] => keys_spec rest (Ending shown [])
      | Ending shown late => let '(a', outs) := keys_spec rest (Waiting []) in (a', (shown, late) :: outs)
      end
  end.

(** The keys that were not dropped. *)
Fixpoint accepted (ops : list kop) (a : kspec) : list Z :=
  match ops with
  | [] => []
  | Irq v :: rest =>
      if zlen (spec_keys a) <? KEY_BUF then u8 v :: accepted rest (spec_add (u8 v) a) else accepted rest a
  | Proc :: rest => accepted rest (fst (keys_spec [Proc] a))
  end.

(** The text of a reader that printed [bytes]. *)
Fixpoint print_keys (i : Z) (bytes : list Z) : list Z :=
  match bytes with [] => [] | b :: rest => key_entry i b ++ print_keys (i + 1) rest end.
Definition key_text (shown : list Z) : list Z := print_keys 1 shown ++ [10].

Record keybuf_ok (k : keybuf) : Prop := {
  kb_len : zlen (key_buf k) = KEY_BUF;
  kb_pos : 0 <= pos k <= KEY_BUF;
  kb_bytes : Forall (fun b => 0 <= b < 256) (key_buf k)
}.

Definition in_use (k : keybuf) : list Z := sl (key_buf k) 0 (pos k).

(** The buffer and its reader against the abstract buffer. *)
Definition keys_refine (k : keybuf) (pc : kpc) (a : kspec) : Prop :=
  keybuf_ok k /\ in_use k = spec_keys a /\
  match pc, a with
  | PIdle, Waiting _ => True
  | PLoop i page, Reading shown _ => i = 1 + zlen shown /\ page = print_keys 1 shown
  | PClear _ page, Ending shown _ => page = key_text shown
  | _, _ => False
  end.

Lemma key_entry_len i b :
  1 <= i -> 0 <= b < 256 -> zlen (key_entry i b) <= 4 + 2 * (i / 6 - (i - 1) / 6).
Proof.
  intros Hi Hb. unfold key_entry. pose proof (dec_len b 2 ltac:(cbn; lia)) as Hd. rewrite !zlen_app. change (zlen [9]) with 1.
  destruct (Z.eqb_spec (i mod 6) 0) as [E|E]; cbn [andb].
  - rewrite (proj2 (Z.eqb_neq i 0)) by lia. cbn [negb]. change (zlen [10; 32]) with 2.
    assert ((i - 1) / 6 = i / 6 - 1); [|lia].
    rewrite (Z.div_mod i 6) at 1 by lia. rewrite E.
    replace (6 * (i / 6) + 0 - 1) with (5 + (i / 6 - 1) * 6) by lia.
    rewrite Z.div_add by lia. done.
  - rewrite zlen_nil. pose proof (Z.div_le_mono (i - 1) i 6). lia.
Qed.

Lemma print_keys_len i bytes :
  1 <= i -> Forall (fun b => 0 <= b < 256) bytes ->
  zlen (print_keys i bytes) <= 4 * zlen bytes + 2 * ((i + zlen bytes - 1) / 6 - (i - 1) / 6).
Proof.
  intros Hi Hb. revert i Hi. induction Hb as [|b bytes Hb _ IH]; intros i Hi; cbn [print_keys].
  { rewrite zlen_nil, Z.add_0_r. lia. }
  rewrite zlen_cons, zlen_app. specialize (IH (i + 1) ltac:(lia)). pose proof (key_entry_len i b Hi Hb).
  replace (i + 1 + zlen bytes - 1) with (i + (1 + zlen bytes) - 1) in IH by lia.
  replace (i + 1 - 1) with i in IH by lia. lia.
Qed.

Lemma print_keys_snoc i bytes b : print_keys i (bytes ++ [b]) = print_keys i bytes ++ key_entry (i + zlen bytes) b.
Proof.
  revert i. induction bytes as [|c bytes IH]; intros i; cbn [app print_keys].
  - by rewrite app_nil_r, zlen_nil, Z.add_0_r.
  - rewrite IH, zlen_cons, app_assoc. do 2 f_equal. lia.
Qed.

Lemma in_use_ok k : keybuf_ok k -> zlen (in_use k) = pos k /\ Forall (fun b => 0 <= b < 256) (in_use k).
Proof.
  intros [Hl Hp Hb]. split; [apply zlen_sl; lia|]. unfold in_use, sl. by apply Forall_take, Forall_drop.
Qed.

(** What 120 keys need of a page. *)
Lemma shown_len shown rest :
  Forall (fun b => 0 <= b < 256) (shown ++ rest) -> zlen (shown ++ rest) <= KEY_BUF -> zlen (print_keys 1 shown) <= 520.
Proof.
  intros Hb Hl. apply Forall_app in Hb as [Hb _]. rewrite zlen_app in Hl. pose proof (zlen_nonneg rest). unfold KEY_BUF in Hl.
  pose proof (print_keys_len 1 shown ltac:(lia) Hb) as Hp.
  assert ((1 + zlen shown - 1) / 6 <= 20) by (apply Z.div_le_upper_bound; lia).
  change ((1 - 1) / 6) with 0 in Hp. lia.
Qed.

Lemma key_service_ok k v :
  keybuf_ok k ->
  exists ret k', key_service k v = Some (ret, k') /\ keybuf_ok k' /\
    in_use k' = (if pos k <? KEY_BUF then in_use k ++ [u8 v] else in_use k) /\
    ret = (if pos k <? KEY_BUF then IRQ_HANDLED else IRQ_NONE).
Proof.
  intros Hk. destruct (Hk) as [Hl Hp Hb]. unfold key_service. destruct (Z.ltb_spec (pos k) KEY_BUF) as [L|L].
  - assert (zlen [u8 v] = 1) as H1 by done. unfold KEY_BUF in *.
    rewrite wr_ok by lia. do 2 eexists. split; [done|].
    rewrite u32_small by lia. split; [|split; [|done]].
    + split; cbn [key_buf pos]; unfold KEY_BUF.
      * rewrite zlen_upd by lia. done.
      * lia.
      * unfold upd. apply Forall_app; split; [by apply Forall_take|].
        apply Forall_app; split; [|by apply Forall_drop]. repeat constructor; apply wrapu_range; lia.
    + unfold in_use. cbn [key_buf pos]. rewrite <- H1, sl_upd_append by lia. done.
  - exists IRQ_NONE, k. done.
Qed.

(** An interrupt, at any point of a reader. *)
Lemma refine_irq k pc a v :
  keys_refine k pc a -> exists ret k', key_service k v = Some (ret, k') /\
    keys_refine k' pc (if zlen (spec_keys a) <? KEY_BUF then spec_add (u8 v) a else a).
Proof.
  intros (Hk & Hu & Hpc). destruct (key_service_ok k v Hk) as (ret & k' & Hs & Hk' & Hu' & _).
  exists ret, k'. split; [exact Hs|]. rewrite <- Hu. rewrite (proj1 (in_use_ok k Hk)).
  destruct (pos k <? KEY_BUF); (split; [done|]); [|by rewrite Hu'].
  split; [|by destruct pc, a]. rewrite Hu', Hu. destruct a; cbn [spec_keys spec_add]; by rewrite ?app_assoc.
Qed.

(** The byte the loop prints next. *)
Lemma loop_byte k shown b rest :
  keybuf_ok k -> in_use k = shown ++ b :: rest -> rd (key_buf k) (zlen shown) 1 = Some [b] /\ zlen shown < pos k.
Proof.
  intros Hk Hu. destruct (in_use_ok k Hk) as [Hl _]. destruct Hk as [Hlen Hp _].
  pose proof (zlen_nonneg shown). pose proof (zlen_nonneg rest). rewrite Hu, zlen_app, zlen_cons in Hl.
  split; [|lia]. rewrite rd_ok by lia. f_equal. rewrite <- (sl_sl (key_buf k) (pos k)) by lia. fold (in_use k). rewrite Hu.
  unfold sl, zlen. rewrite Nat2Z.id, drop_app_length. by cbn.
Qed.

(** A step of the reader. *)
Lemma refine_proc k pc a :
  keys_refine k pc a -> exists k' pc' out, my_proc_step k pc = Some (k', pc', out) /\
    keys_refine k' pc' (fst (keys_spec [Proc] a)) /\
    match out with Some t => [t] | None => [] end = map (fun '(shown, _) => key_text shown) (snd (keys_spec [Proc] a)) /\
    (forall t, out = Some t -> zlen t <= 521).
Proof.
  intros (Hk & Hu & Hpc). destruct (in_use_ok k Hk) as [Hl Hb]. destruct (kb_pos k Hk) as [Hp0 Hp].
  rewrite Hu in Hl, Hb. destruct pc as [|i page|i page], a as [ks|shown rest|shown late]; try done; cbn [my_proc_step keys_spec fst snd map].
  - do 3 eexists. split; [reflexivity|]. split; [by split|]. by split.
  - destruct Hpc as [-> ->]. pose proof (shown_len shown rest Hb ltac:(cbn [spec_keys] in Hl; lia)) as Hs.
    cbn [spec_keys] in *. destruct rest as [|b rest].
    + rewrite app_nil_r in Hl. rewrite (proj2 (Z.leb_gt _ _)) by lia. unfold print_more. change (zlen [10]) with 1.
      rewrite (proj2 (Z.leb_le _ _)) by lia. do 3 eexists. split; [reflexivity|]. split; [by split|]. by split.
    + destruct (loop_byte k shown b rest Hk Hu) as [Hr Hlt]. rewrite (proj2 (Z.leb_le _ _)) by lia.
      replace (1 + zlen shown - 1) with (zlen shown) by lia. rewrite Hr. cbn [mbind option_bind].
      pose proof (zlen_nonneg shown). apply Forall_app in Hb as [_ Hb]. inversion_clear Hb as [|? ? Hb0 _].
      pose proof (key_entry_len (1 + zlen shown) b ltac:(lia) Hb0) as He. unfold KEY_BUF in *.
      assert (zlen (key_entry (1 + zlen shown) b) <= 50) as He'.
      { replace (1 + zlen shown - 1) with (zlen shown) in He by lia.
        assert ((1 + zlen shown) / 6 <= 20) by (apply Z.div_le_upper_bound; lia).
        assert (0 <= zlen shown / 6) by (apply Z.div_pos; lia). lia. }
      unfold print_more. rewrite (proj2 (Z.leb_le _ _)) by lia. cbn [mbind option_bind].
      rewrite s32_small by lia. do 3 eexists. split; [reflexivity|]. split; [|by split]. split; [done|].
      cbn [keys_spec fst spec_keys]. split; [by rewrite Hu, <- app_assoc|]. split; [rewrite zlen_app; change (zlen [b]) with 1; lia|].
      by rewrite print_keys_snoc.
  - subst page. cbn [spec_keys] in *. do 3 eexists. split; [reflexivity|]. split; [|split; [done|]].
    + split; [|by split]. destruct Hk as [Hlen _ Hbytes]. split; cbn; [done|unfold KEY_BUF; lia|done].
    + intros t [= <-]. unfold key_text. rewrite zlen_app. change (zlen [10]) with 1.
      pose proof (shown_len shown late Hb ltac:(lia)). lia.
Qed.

Lemma keys_spec_proc rest a :
  keys_spec (Proc :: rest) a =
  (fst (keys_spec rest (fst (keys_spec [Proc] a))), snd (keys_spec [Proc] a) ++ snd (keys_spec rest (fst (keys_spec [Proc] a)))).
Proof. destruct a as [ks|shown [|b bs]|shown late]; cbn; by destruct (keys_spec rest _). Qed.

(** No key disappears but with the reader it came too late for. *)
Lemma keys_conserved ops a :
  spec_keys a ++ accepted ops a =
  flat_map (fun '(shown, late) => shown ++ late) (snd (keys_spec ops a)) ++ spec_keys (fst (keys_spec ops a)).
Proof.
  revert a. induction ops as [|[v|] ops IH]; intros a.
  - apply app_nil_r.
  - cbn [accepted keys_spec]. destruct (zlen (spec_keys a) <? KEY_BUF); [|apply IH]. rewrite <- IH.
    destruct a; cbn [spec_keys spec_add]; by rewrite <- ?app_assoc.
  - rewrite keys_spec_proc. cbn [accepted fst snd]. rewrite flat_map_app, <- app_assoc, <- IH, app_assoc. f_equal.
    destruct a as [ks|shown [|b bs]|shown late]; cbn; by rewrite ?app_nil_r, <- ?app_assoc.
Qed.

(** C38: like_irq.c, with interrupts between any two steps of the readers of
    /proc, who come one after the other: it never leaves its array or the
    page, and does what the abstract buffer does.  A key is dropped only when
    [KEY_BUF] of them wait.  A reader prints the keys of its text once and in
    order, also those that come while its loop runs, in at most 521 bytes; a
    key that comes between the end of its loop and [pos = 0] is lost.  The
    keys that were not dropped are, in order, those printed or lost by the
    readers, and those still in the array. *)
Theorem like_irq_refines ops k :
  keybuf_ok k -> pos k = 0 ->
  let '(a, outs) := keys_spec ops (Waiting []) in
  exists k' pc' texts, keys_run ops k PIdle [] = Some (k', pc', texts) /\
    keys_refine k' pc' a /\
    texts = map (fun '(shown, _) => key_text shown) outs /\ Forall (fun t => zlen t <= 521) texts /\
    accepted ops (Waiting []) = flat_map (fun '(shown, late) => shown ++ late) outs ++ in_use k'.
Proof.
  intros Hk Hp. destruct (keys_spec ops (Waiting [])) as [a outs] eqn:Espec.
  assert (keys_refine k PIdle (Waiting [])) as HR by (split; [done|]; split; [unfold in_use; by rewrite Hp|done]).
  assert (forall ops k pc a0 texts, keys_refine k pc a0 -> Forall (fun t => zlen t <= 521) texts ->
    exists k' pc' texts', keys_run ops k pc texts = Some (k', pc', texts') /\ keys_refine k' pc' (fst (keys_spec ops a0)) /\
      texts' = texts ++ map (fun '(shown, _) => key_text shown) (snd (keys_spec ops a0)) /\ Forall (fun t => zlen t <= 521) texts') as Hgen.
  { clear. induction ops as [|[v|] ops IH]; intros k pc a0 texts HR Ht.
    - exists k, pc, texts. cbn. by rewrite app_nil_r.
    - destruct (refine_irq k pc a0 v HR) as (ret & k1 & Hs & HR1). cbn [keys_run keys_spec]. rewrite Hs. cbn [mbind option_bind].
      by apply IH.
    - destruct (refine_proc k pc a0 HR) as (k1 & pc1 & out & Hs & HR1 & Hout & Hlen). rewrite keys_spec_proc. cbn [keys_run fst snd].
      rewrite Hs. cbn [mbind option_bind]. rewrite Hout, map_app, app_assoc. apply IH; [done|]. rewrite <- Hout.
      apply Forall_app; split; [done|]. destruct out as [t|]; [|done]. by repeat constructor; apply Hlen. }
  destruct (Hgen ops k PIdle (Waiting []) [] HR ltac:(constructor)) as (k' & pc' & texts & Hr & HR' & Ht & Hlen).
  pose proof (keys_conserved ops (Waiting [])) as Hc. rewrite Espec in *. cbn [fst snd spec_keys app] in *.
  exists k', pc', texts. split; [done|]. split; [done|]. split; [done|]. split; [done|]. rewrite Hc. f_equal. symmetry. apply HR'.
Qed.

Lemma like_irq_refines_witness :
  exists k' pc', keys_run [Irq 30; Irq 158; Proc; Proc; Irq 48; Proc; Proc; Proc; Irq 7; Proc; Irq 8] (Keybuf (replicate 120 0) 0) PIdle [] =
      Some (k', pc', [str "30" ++ [9] ++ str "158" ++ [9] ++ str "48" ++ [9; 10]]) /\
    in_use k' = [8].
Proof.
  pose proof (like_irq_refines [Irq 30; Irq 158; Proc; Proc; Irq 48; Proc; Proc; Proc; Irq 7; Proc; Irq 8] (Keybuf (replicate 120 0) 0)) as H.
  destruct H as (k' & pc' & texts & Hr & HR & -> & _).
  { split; [done|cbn; unfold KEY_BUF; lia|apply Forall_replicate; lia]. }
  { done. }
  exists k', pc'. split; [exact Hr|]. apply HR.
Defined.

#[global] Instance like_irq_balanced : Balanced like_irq_init like_irq_exit.
Proof. kbalanced like_irq_init like_irq_exit. Qed.
