(* ===== verification/RadixWalk.v ===== *)
(** * memory/list_buffer.c: the pages and buffers of an inode

    The module prints, through /proc, the page cache of the inodes of a file
    system: it descends the radix tree of the cache for every index up to the
    largest one the tree can hold and counts the pages and buffer heads it
    meets.  Here are the tree, the descent, the walk over the indexes and the
    printing routines around it; [pages_of] is the contents of a tree, by
    recursion on it. *)
From stdpp Require Import strings.
From S2P Require Import Prelude Kernel.
Local Open Scope Z_scope.

Definition RADIX_TREE_MAP_SHIFT : Z := 6.      (* CONFIG_BASE_SMALL is 0 *)
Definition RADIX_TREE_MAP_SIZE : Z := Z.shiftl 1 RADIX_TREE_MAP_SHIFT.
Definition RADIX_TREE_MAP_MASK : Z := RADIX_TREE_MAP_SIZE - 1.
Definition RADIX_TREE_INDEX_BITS : Z := 64.
Definition BITS_PER_LONG : Z := 64.

(** A node of the tree, or at the bottom a page with the ring of its buffer
    heads (empty: no buffers). *)
Inductive rnode :=
| Page (ring : list Z)
| Node (height : Z) (slots : list (option rnode)).

(** [root->rnode]: empty, a page itself, or a pointer with the indirect bit. *)
Inductive rroot := Empty | Direct (n : rnode) | Indirect (n : rnode).

(** The ring loop of [radix_node_has_buffer], at the buffer [i]. *)
Fixpoint count_ring (fuel i : nat) (ring : list Z) (buffer_count : Z) : option Z :=
  match fuel with
  | O => None
  | S fuel' =>
      let next := if Nat.eqb (S i) (length ring) then O else S i in
      if Nat.eqb next 0 then Some (buffer_count + 1) else count_ring fuel' next ring (buffer_count + 1)
  end.

Definition radix_node_has_buffer (n : rnode) : option Z :=
  match n with
  | Page [] => Some 0
  | Page ring => count_ring (length ring) 0 ring 0
  | Node _ _ => None
  end.

(** [__maxindex] *)
Definition maxindex (height : Z) : Z :=
  let width := u32 (height * RADIX_TREE_MAP_SHIFT) in
  let shift := s32 (RADIX_TREE_INDEX_BITS - width) in
  if shift <? 0 then u64 (Z.lnot 0)
  else if BITS_PER_LONG <=? shift then 0
  else Z.shiftr (u64 (Z.lnot 0)) shift.

(** The descent of one index: [None] when a page is taken for a node or a slot
    outside the array is read, [Some None] when there is no page. *)
Fixpoint descend (height : nat) (shift index : Z) (n : rnode) : option (option rnode) :=
  match height, n with
  | S h, Node _ slots =>
      match slots !! Z.to_nat (Z.land (Z.shiftr index shift) RADIX_TREE_MAP_MASK) with
      | None => None
      | Some None => Some None
      | Some (Some c) =>
          if Nat.eqb h 0 then Some (Some c) else descend h (shift - RADIX_TREE_MAP_SHIFT) index c
      end
  | _, _ => None
  end.

Definition page_line (index : Z) : list Z :=
  str "    Page Index [" ++ dec index ++ str "] has buffer" ++ [10].

(** What the walk has printed and counted. *)
Record tally := Tally { text : list Z; page_count : Z; buffer_head_count : Z }.

Definition count_page (t : tally) (index temp : Z) : tally :=
  let t' := if c_true temp
            then Tally (text t ++ page_line index) (page_count t) (s32 (buffer_head_count t + temp))
            else t in
  Tally (text t') (s32 (page_count t' + 1)) (buffer_head_count t').

(** The loop over the indexes; [None] also when the fuel is used up. *)
Fixpoint walk_indexes (fuel : nat) (height : nat) (top : rnode) (index max_index : Z) (t : tally) : option tally :=
  if index <=? max_index then
    match fuel with
    | O => None
    | S fuel' =>
        match descend height ((Z.of_nat height - 1) * RADIX_TREE_MAP_SHIFT) index top with
        | None => None
        | Some None => walk_indexes fuel' height top (u64 (index + 1)) max_index t
        | Some (Some n) =>
            match radix_node_has_buffer n with
            | None => None
            | Some temp => walk_indexes fuel' height top (u64 (index + 1)) max_index (count_page t index temp)
            end
        end
    end
  else Some t.

(** [radix_tree_walk_through]: the value it returns and the text it leaves in
    the page.  [%p] of the root is [ptr]. *)
Definition radix_tree_walk_through (ptr : list Z) (root : rroot) : option (Z * list Z) :=
  match root with
  | Empty => Some (0, [])
  | Direct n => match radix_node_has_buffer n with Some c => Some (c, []) | None => None end
  | Indirect (Page _) => None
  | Indirect (Node height slots) =>
      let max_index := u32 (maxindex height) in
      match walk_indexes (Z.to_nat (max_index + 1)) (Z.to_nat height) (Node height slots) 0 max_index (Tally [] 0 0) with
      | None => None
      | Some t =>
          let out := text t ++ str "Tree[" ++ ptr ++ str "]has " ++ dec (page_count t) ++ str " pages , and " ++
                     dec (buffer_head_count t) ++ str " buffer head" ++ [10] in
          Some (zlen out, out)
      end
  end.

(** ** The inodes of a super block *)
Record inode := Inode {
  i_ino : Z; i_ptr : list Z; nrpages : Z; i_dentry : list (list Z); private_list : list Z;
  page_tree : rroot; tree_ptr : list Z
}.

Definition inode_has_buffers (i : inode) : bool := negb (Nat.eqb (length (private_list i)) 0).

(** [show_dentry] *)
Definition show_dentry (i : inode) : list Z :=
  flat_map (fun name => str "        dentry name " ++ name ++ str " " ++ [10]) (i_dentry i).

(** The page that is printed to: bytes written so far and the position [ret]
    of the next, which can be ahead of them. *)
Record out := Out { bytes : list (option Z); ret : Z }.

(** [ret += sprintf(page + ret, ...)] *)
Definition put (o : out) (s : list Z) : out :=
  Out (take (Z.to_nat (ret o)) (bytes o ++ replicate (Z.to_nat (ret o)) None) ++ map Some s) (ret o + zlen s).

Record totals := Totals { total_page_count : Z; total_inode_count : Z; buffer_inode_count : Z }.

(** The loop of [set] over [s_inodes]. *)
Fixpoint set_inodes (list_buffer_of_inode : Z) (inodes : list inode) (o : out) (t : totals) : option (out * totals) :=
  match inodes with
  | [] => Some (o, t)
  | i :: rest =>
      if negb (i_ino i =? list_buffer_of_inode) then set_inodes list_buffer_of_inode rest o t
      else
        let o1 := put o (str "    inode " ++ i_ptr i ++ str " page count = " ++ dec (nrpages i) ++ [10]) in
        let o2 := put o1 (show_dentry i) in
        match radix_tree_walk_through (tree_ptr i) (page_tree i) with
        | None => None
        | Some (n, s) =>
            let o3 := Out (bytes (put o2 s)) (ret o2 + n) in
            set_inodes list_buffer_of_inode rest o3
              (Totals (u64 (total_page_count t + nrpages i)) (u64 (total_inode_count t + 1))
                 (if inode_has_buffers i then u64 (buffer_inode_count t + 1) else buffer_inode_count t))
        end
  end.

(** [set], into a page of its own: the text of one super block. *)
Definition set (list_buffer_of_inode : Z) (s_id : list Z) (s_inodes : list inode) (o : out) : option out :=
  match set_inodes list_buffer_of_inode s_inodes (put o (str "fst sid = " ++ s_id ++ [10])) (Totals 0 0 0) with
  | None => None
  | Some (o1, t) =>
      let o2 := put o1 (str "total page count " ++ dec (total_page_count t) ++ str " size = " ++
                        dec (s64 (total_page_count t * 4)) ++ str " K" ++ [10]) in
      Some (put o2 (str "total inode count " ++ dec (total_inode_count t) ++
                    str "  inode address space private buffer = " ++ dec (buffer_inode_count t) ++ str " " ++ [10]))
  end.

(** [list_buffer]: every super block of the file system type, if there is
    one. *)
Fixpoint set_all (list_buffer_of_inode : Z) (fs_supers : list (list Z * list inode)) (o : out) : option out :=
  match fs_supers with
  | [] => Some o
  | (s_id, s_inodes) :: rest =>
      match set list_buffer_of_inode s_id s_inodes o with
      | Some o' => set_all list_buffer_of_inode rest o'
      | None => None
      end
  end.

Definition list_buffer (list_buffer_of_inode : Z) (species : list Z)
    (fst : option (list (list Z * list inode))) : option out :=
  let o := Out [] 0 in
  match fst with
  | None => Some (put o (str "found no super block of [" ++ species ++ str "]" ++ [10]))
  | Some supers =>
      set_all list_buffer_of_inode supers
        (put o (str "List Inode [" ++ dec list_buffer_of_inode ++ str "] on super block [" ++ species ++ str "]" ++ [10]))
  end.

Definition list_buffer_init : prog (Z * unit) :=
  do! create_proc_read_entry "list_buffer" ;; Ret (0, tt).
Definition list_buffer_exit (_ : unit) : prog unit :=
  do! remove_proc_entry "list_buffer" ;; Ret tt.

(** ** The contents of a tree *)
Definition MAP (h : nat) : Z := 64 ^ Z.of_nat h.

(** A tree of height [h] as the kernel builds it. *)
Fixpoint wf (h : nat) (n : rnode) : Prop :=
  match h, n with
  | O, Page _ => True
  | S h', Node _ slots =>
      length slots = 64%nat /\ Forall (fun s => match s with Some c => wf h' c | None => True end) slots
  | _, _ => False
  end.

(** The pages of a tree in the order of their indexes. *)
Fixpoint pages_of (h : nat) (n : rnode) (base : Z) : list (Z * rnode) :=
  match h, n with
  | O, _ => [(base, n)]
  | S h', Node _ slots =>
      concat (imap (fun j s =>
        match s with Some c => pages_of h' c (base + Z.of_nat j * MAP h') | None => [] end) slots)
  | S _, Page _ => []
  end.

Definition buffers (n : rnode) : Z := match n with Page ring => zlen ring | Node _ _ => 0 end.

(** The pages the walk can reach: its bound is an [unsigned int]. *)
Definition reached (h : nat) (n : rnode) : list (Z * rnode) :=
  List.filter (fun x => fst x <? 2 ^ 32) (pages_of h n 0).

(** The lines and the counts for a list of pages. *)
Definition lines (l : list (Z * rnode)) : list Z :=
  flat_map (fun x => if c_true (buffers (snd x)) then page_line (fst x) else []) l.
Definition buffer_sum (l : list (Z * rnode)) : Z := foldr (fun x s => buffers (snd x) + s) 0 l.

(** ** Lemmas *)

(** The descent by the digits of the index. *)
Fixpoint find (h : nat) (n : rnode) (index : Z) : option rnode :=
  match h with
  | O => Some n
  | S h' =>
      match n with
      | Page _ => None
      | Node _ slots =>
          match slots !! Z.to_nat ((index / MAP h') mod 64) with
          | Some (Some c) => find h' c index
          | _ => None
          end
      end
  end.

Lemma MAP_S h : MAP (S h) = 64 * MAP h.
Proof. unfold MAP. rewrite Nat2Z.inj_succ, Z.pow_succ_r by lia. done. Qed.

Lemma MAP_pos h : 0 < MAP h.
Proof. unfold MAP. lia. Qed.

Lemma MAP_pow h : MAP h = 2 ^ (Z.of_nat h * 6).
Proof. unfold MAP. change 64 with (2 ^ 6). rewrite <- Z.pow_mul_r by lia. f_equal. lia. Qed.

Lemma digit h index : Z.land (Z.shiftr index (Z.of_nat h * 6)) RADIX_TREE_MAP_MASK = (index / MAP h) mod 64.
Proof.
  change RADIX_TREE_MAP_MASK with (Z.ones 6). rewrite Z.land_ones by lia.
  rewrite Z.shiftr_div_pow2 by lia. by rewrite MAP_pow.
Qed.

Lemma slot_of (slots : list (option rnode)) index h :
  length slots = 64%nat -> exists s, slots !! Z.to_nat ((index / MAP h) mod 64) = Some s.
Proof.
  intros Hl. apply lookup_lt_is_Some_2. rewrite Hl.
  pose proof (Z.mod_pos_bound (index / MAP h) 64 ltac:(lia)). lia.
Qed.

Lemma descend_find h n index :
  wf (S h) n -> descend (S h) (Z.of_nat h * 6) index n = Some (find (S h) n index).
Proof.
  revert n. induction h as [|h IH]; intros n Hw; destruct n as [|ht slots]; try done;
    destruct Hw as [Hl Hs]; cbn [descend]; rewrite digit.
  - destruct (slot_of slots index 0 Hl) as [s Hx]. cbn [find]. rewrite Hx. by destruct s.
  - destruct (slot_of slots index (S h) Hl) as [s Hx]. cbn [Nat.eqb].
    change (find (S (S h)) (Node ht slots) index) with
      (match slots !! Z.to_nat ((index / MAP (S h)) mod 64) with Some (Some c) => find (S h) c index | _ => None end).
    rewrite Hx. destruct s as [c|]; [|done].
    replace (Z.of_nat (S h) * 6 - RADIX_TREE_MAP_SHIFT) with (Z.of_nat h * 6) by (unfold RADIX_TREE_MAP_SHIFT; lia).
    apply IH. by apply (Forall_lookup_1 _ _ _ _ Hs Hx).
Qed.

Lemma find_period h n i k : find h n (i + k * MAP h) = find h n i.
Proof.
  revert n k. induction h as [|h IH]; intros n k; [done|]. cbn [find]. destruct n as [|ht slots]; [done|].
  pose proof (MAP_pos h). rewrite MAP_S.
  replace (i + k * (64 * MAP h)) with (i + (k * 64) * MAP h) by ring.
  rewrite Z.div_add by lia. rewrite Z.mod_add by lia.
  destruct (slots !! _) as [[c|]|]; [apply IH|done..].
Qed.

(** The contents of a tree are what the descent finds. *)
Definition found (h : nat) (n : rnode) (i : Z) : option (Z * rnode) := (fun c => (i, c)) <$> find h n i.
#[local] Arguments found : simpl never.

Lemma found_block h ht slots k s :
  slots !! k = Some s -> (k < 64)%nat ->
  omap (found (S h) (Node ht slots)) (seqZ (Z.of_nat k * MAP h) (MAP h)) =
  match s with Some c => omap (fun i => (fun x => (Z.of_nat k * MAP h + fst x, snd x)) <$> found h c i) (seqZ 0 (MAP h)) | None => [] end.
Proof.
  intros Hs Hk. pose proof (MAP_pos h).
  assert (forall i, 0 <= i < MAP h -> found (S h) (Node ht slots) (Z.of_nat k * MAP h + i) =
    match s with Some c => (fun x => (Z.of_nat k * MAP h + fst x, snd x)) <$> found h c i | None => None end) as Hi.
  { intros i Hi. unfold found. cbn [find]. rewrite Z.div_add_l by lia. rewrite Z.div_small by lia.
    rewrite Z.add_0_r, Z.mod_small by lia. rewrite Nat2Z.id, Hs. destruct s as [c|]; [|done].
    rewrite Z.add_comm, find_period. rewrite Z.add_comm. by destruct (find h c i). }
  replace (seqZ (Z.of_nat k * MAP h) (MAP h)) with (Z.add (Z.of_nat k * MAP h) <$> seqZ 0 (MAP h))
    by (rewrite fmap_add_seqZ; f_equal; lia).
  assert (Forall (fun i => 0 <= i < MAP h) (seqZ 0 (MAP h))) as Hall.
  { apply Forall_forall. intros i Hin%elem_of_seqZ. lia. }
  revert Hall. generalize (seqZ 0 (MAP h)). clear -Hi.
  induction 1 as [|i l Hin Hall IH]; cbn; [by destruct s|]. rewrite Hi by done.
  destruct s as [c|]; [|by rewrite IH]. destruct (found h c i); cbn; by rewrite IH.
Qed.

Lemma seqZ_split m a b : 0 <= a -> 0 <= b -> seqZ m (a + b) = seqZ m a ++ seqZ (m + a) b.
Proof. intros. apply seqZ_app; lia. Qed.

Lemma omap_fmap_pair h c (a : Z) (l : list Z) :
  omap (fun i => (fun x => (a + fst x, snd x)) <$> found h c i) l =
  (fun x : Z * rnode => (a + fst x, snd x)) <$> omap (found h c) l.
Proof. induction l as [|i l IH]; [done|]. cbn. destruct (found h c i); cbn; by rewrite IH. Qed.

Lemma pages_blocks h ht slots base rest k :
  (forall c b, wf h c -> pages_of h c b = (fun x => (b + fst x, snd x)) <$> omap (found h c) (seqZ 0 (MAP h))) ->
  wf (S h) (Node ht slots) -> drop k slots = rest ->
  concat (imap (fun j s =>
    match s with Some c => pages_of h c (base + Z.of_nat (k + j) * MAP h) | None => [] end) rest) =
  (fun x => (base + fst x, snd x)) <$> omap (found (S h) (Node ht slots)) (seqZ (Z.of_nat k * MAP h) (zlen rest * MAP h)).
Proof.
  intros Hp [Hl Hw]. revert k. induction rest as [|s rest IH]; intros k Hk; [done|].
  pose proof (MAP_pos h). pose proof (zlen_nonneg rest).
  assert (slots !! k = Some s) as Hs by (rewrite <- (Nat.add_0_r k), <- lookup_drop, Hk; done).
  pose proof (lookup_lt_Some _ _ _ Hs). cbn [imap concat].
  replace (zlen (s :: rest) * MAP h) with (MAP h + zlen rest * MAP h) by (unfold zlen; cbn [length]; lia).
  rewrite seqZ_split by nia. rewrite omap_app, fmap_app. f_equal.
  - rewrite (found_block h ht slots k s Hs) by lia. rewrite Nat.add_0_r. destruct s as [c|]; [|done].
    rewrite omap_fmap_pair, Hp by (by apply (Forall_lookup_1 _ _ _ _ Hw Hs)). rewrite <- list_fmap_compose. apply list_fmap_ext. intros _ [i x] _. cbn. f_equal. lia.
  - replace (Z.of_nat k * MAP h + MAP h) with (Z.of_nat (S k) * MAP h) by lia.
    rewrite <- IH by (rewrite (drop_S _ _ _ Hs) in Hk; by injection Hk).
    f_equal. apply imap_ext. intros j x _. cbn. by rewrite Nat.add_succ_r.
Qed.

Lemma pages_of_found h n base :
  wf h n -> pages_of h n base = (fun x => (base + fst x, snd x)) <$> omap (found h n) (seqZ 0 (MAP h)).
Proof.
  revert n base. induction h as [|h IH]; intros n base Hw.
  - change (omap (found 0 n) (seqZ 0 (MAP 0))) with [(0, n)]. cbn. by rewrite Z.add_0_r.
  - destruct n as [|ht slots]; [done|]. pose proof (pages_blocks h ht slots base slots 0 IH Hw eq_refl) as H.
    destruct Hw as [Hl _]. unfold zlen in H. rewrite Hl in H. rewrite MAP_S. exact H.
Qed.

Lemma count_ring_length fuel i ring n :
  (i < length ring)%nat -> fuel = (length ring - i)%nat ->
  count_ring fuel i ring n = Some (n + Z.of_nat (length ring - i)).
Proof.
  revert i n. induction fuel as [|fuel IH]; intros i n Hi Hf; [lia|]. cbn [count_ring].
  destruct (Nat.eqb_spec (S i) (length ring)) as [E|E]; cbn [Nat.eqb].
  - f_equal. lia.
  - rewrite IH by lia. f_equal. lia.
Qed.

Lemma has_buffer_spec ring : radix_node_has_buffer (Page ring) = Some (buffers (Page ring)).
Proof.
  destruct ring as [|b ring]; [done|]. cbn [radix_node_has_buffer].
  rewrite count_ring_length by (cbn [length]; lia). cbn [buffers]. unfold zlen. f_equal.
Qed.

Lemma find_page h n i c : wf h n -> find h n i = Some c -> exists ring, c = Page ring.
Proof.
  revert n. induction h as [|h IH]; intros n Hw Hf; destruct n as [ring|ht slots]; try done.
  - injection Hf as <-. eauto.
  - destruct Hw as [Hl Hw]. cbn [find] in Hf. destruct (slots !! _) as [[d|]|] eqn:E; try done.
    apply (IH d); [|done]. by apply (Forall_lookup_1 _ _ _ _ Hw E).
Qed.

(** The walk over the indexes is a fold over the pages it finds. *)
Definition tally_all (t : tally) (l : list (Z * rnode)) : tally :=
  fold_left (fun t x => count_page t (fst x) (buffers (snd x))) l t.

Lemma walk_indexes_fold h n fuel index max t :
  wf (S h) n -> 0 <= index -> index <= max + 1 -> max < 2 ^ 32 -> fuel = Z.to_nat (max + 1 - index) ->
  walk_indexes fuel (S h) n index max t = Some (tally_all t (omap (found (S h) n) (seqZ index (max + 1 - index)))).
Proof.
  intros Hw. revert index t. induction fuel as [|fuel IH]; intros index t H0 Hi Hm Hf.
  - assert (index = max + 1) as -> by lia. cbn [walk_indexes].
    rewrite (proj2 (Z.leb_gt (max + 1) max)) by lia. by rewrite Z.sub_diag.
  - cbn [walk_indexes]. rewrite (proj2 (Z.leb_le index max)) by lia.
    replace ((Z.of_nat (S h) - 1) * RADIX_TREE_MAP_SHIFT) with (Z.of_nat h * 6) by (unfold RADIX_TREE_MAP_SHIFT; lia).
    rewrite descend_find by done.
    replace (u64 (index + 1)) with (index + 1) by (unfold u64; rewrite wrapu_small; lia).
    rewrite seqZ_cons by lia. replace (Z.succ index) with (index + 1) by lia.
    replace (Z.pred (max + 1 - index)) with (max + 1 - (index + 1)) by lia. cbn [omap list_omap].
    unfold found at 1. destruct (find (S h) n index) as [c|] eqn:E; cbn [fmap option_fmap option_map].
    + destruct (find_page _ _ _ _ Hw E) as [ring ->]. rewrite has_buffer_spec. apply IH; lia.
    + apply IH; lia.
Qed.

Lemma s32_add a b : s32 (s32 a + b) = s32 (a + b).
Proof.
  unfold s32, wraps. f_equal. change (2 ^ (32 - 1)) with 2147483648. change (2 ^ 32) with 4294967296.
  replace ((a + 2147483648) mod 4294967296 - 2147483648 + b + 2147483648)
    with ((a + 2147483648) mod 4294967296 + b) by ring.
  rewrite Z.add_mod_idemp_l by lia. f_equal. ring.
Qed.

Lemma tally_all_spec l t p b :
  page_count t = s32 p -> buffer_head_count t = s32 b ->
  tally_all t l = Tally (text t ++ lines l) (s32 (p + zlen l)) (s32 (b + buffer_sum l)).
Proof.
  revert t p b. induction l as [|[i n] l IH]; intros t p b Hp Hb.
  { cbn. rewrite !Z.add_0_r, app_nil_r, <- Hp, <- Hb. by destruct t. }
  change (tally_all t ((i, n) :: l)) with (tally_all (count_page t i (buffers n)) l).
  assert (zlen ((i, n) :: l) = 1 + zlen l) as Hz by (unfold zlen; cbn [length]; lia).
  cbn [lines flat_map buffer_sum foldr fst snd]. fold (lines l) (buffer_sum l).
  rewrite (IH _ (p + 1) (b + buffers n)).
  - rewrite Hz. unfold count_page. cbn [fst snd].
    destruct (c_true (buffers n)) eqn:E; cbn [text app]; rewrite <- ?app_assoc; f_equal; f_equal; lia.
  - unfold count_page. destruct (c_true (buffers n)); cbn; rewrite Hp; apply s32_add.
  - unfold count_page, c_true. destruct (Z.eqb_spec (buffers n) 0) as [E|E]; cbn.
    + rewrite Hb. f_equal. lia.
    + rewrite Hb. apply s32_add.
Qed.

(** The bound of the walk. *)
Lemma max_index_spec h : (1 <= h <= 10)%nat -> u32 (maxindex (Z.of_nat h)) = Z.min (MAP h) (2 ^ 32) - 1.
Proof. intros Hh. do 11 (destruct h as [|h]; [by (lia || vm_compute)|]). lia. Qed.

Lemma filter_none {A} (f : A -> bool) l : Forall (fun x => f x = false) l -> List.filter f l = [].
Proof. induction 1 as [|x l Hx _ IH]; [done|]. cbn. by rewrite Hx. Qed.

Lemma filter_all {A} (f : A -> bool) l : Forall (fun x => f x = true) l -> List.filter f l = l.
Proof. induction 1 as [|x l Hx _ IH]; [done|]. cbn. by rewrite Hx, IH. Qed.

Lemma found_Forall h n (P : Z -> Prop) l : Forall P l -> Forall (fun x => P (fst x)) (omap (found h n) l).
Proof.
  induction 1 as [|i l Hi Hl IH]; [constructor|]. cbn. unfold found at 1.
  destruct (find h n i); cbn; [by constructor|done].
Qed.

Lemma reached_found h n :
  wf h n -> reached h n = omap (found h n) (seqZ 0 (Z.min (MAP h) (2 ^ 32))).
Proof.
  intros Hw. unfold reached. rewrite pages_of_found by done. pose proof (MAP_pos h).
  replace ((fun x : Z * rnode => (0 + fst x, snd x)) <$> omap (found h n) (seqZ 0 (MAP h)))
    with (omap (found h n) (seqZ 0 (MAP h))).
  2:{ generalize (omap (found h n) (seqZ 0 (MAP h))). intros l. induction l as [|[] l IH]; [done|]. cbn. by f_equal. }
  destruct (Z.le_gt_cases (MAP h) (2 ^ 32)) as [L|L].
  - rewrite Z.min_l by lia. apply filter_all, (found_Forall h n (fun i => (i <? 2 ^ 32) = true)).
    apply Forall_forall. intros i Hi%elem_of_seqZ. apply Z.ltb_lt. lia.
  - rewrite Z.min_r by lia. replace (MAP h) with (2 ^ 32 + (MAP h - 2 ^ 32)) by lia.
    rewrite seqZ_split by lia. rewrite omap_app, List.filter_app, filter_all, filter_none, app_nil_r; [done| |].
    + apply (found_Forall h n (fun i => (i <? 2 ^ 32) = false)).
      apply Forall_forall. intros i Hi%elem_of_seqZ. apply Z.ltb_ge. lia.
    + apply (found_Forall h n (fun i => (i <? 2 ^ 32) = true)).
      apply Forall_forall. intros i Hi%elem_of_seqZ. apply Z.ltb_lt. lia.
Qed.

#[global] Instance list_buffer_balanced : Balanced list_buffer_init list_buffer_exit.
Proof. kbalanced list_buffer_init list_buffer_exit. Qed.

(** ** Properties *)

(** C13: The walk of list_buffer.c meets every page of the tree exactly once, in
    the order of the indexes, as long as its index is below 2^32: it prints a
    line for each page that has buffers and the number of pages and of buffer
    heads.  Up to height 5 these are all pages of the tree. *)
Theorem list_buffer_walk ptr h height slots :
  (1 <= h <= 10)%nat -> height = Z.of_nat h -> wf h (Node height slots) ->
  let l := reached h (Node height slots) in
  let out := lines l ++ str "Tree[" ++ ptr ++ str "]has " ++ dec (s32 (zlen l)) ++ str " pages , and " ++
             dec (s32 (buffer_sum l)) ++ str " buffer head" ++ [10] in
  radix_tree_walk_through ptr (Indirect (Node height slots)) = Some (zlen out, out) /\
  ((h <= 5)%nat -> l = pages_of h (Node height slots) 0).
Proof.
  intros Hh -> Hw l out. split.
  - destruct h as [|h]; [lia|]. unfold radix_tree_walk_through. rewrite max_index_spec, Nat2Z.id by done.
    pose proof (MAP_pos (S h)).
    rewrite walk_indexes_fold by (done || lia).
    rewrite Z.sub_0_r, Z.sub_add, <- reached_found by done. fold l.
    rewrite (tally_all_spec l _ 0 0) by done. reflexivity.
  - intros H5. subst l. rewrite reached_found by done. rewrite Z.min_l.
    + rewrite pages_of_found by done. generalize (omap (found h (Node (Z.of_nat h) slots)) (seqZ 0 (MAP h))).
      intros l. induction l as [|[] l IH]; [done|]. cbn. by f_equal.
    + clear -H5. do 6 (destruct h as [|h]; [by vm_compute|]). lia.
Qed.

(** Two pages of a tree of height 1, the second one without buffers. *)
Definition demo_slots : list (option rnode) :=
  <[3%nat := Some (Page [1; 2; 3])]> (<[63%nat := Some (Page [])]> (replicate 64 None)).

Lemma list_buffer_walk_witness :
  exists out, radix_tree_walk_through (str "P") (Indirect (Node 1 demo_slots)) = Some (zlen out, out) /\
    out = str "    Page Index [3] has buffer" ++ [10] ++ str "Tree[P]has 2 pages , and 3 buffer head" ++ [10].
Proof.
  assert (wf 1 (Node 1 demo_slots)) as Hw.
  { split; [reflexivity|]. cbn. repeat (constructor; [exact I|]). constructor. }
  eexists. split; [apply (list_buffer_walk (str "P") 1 1 demo_slots ltac:(lia) eq_refl Hw)|].
  vm_compute. reflexivity.
Defined.

(** A cache of a single page has that page for its root: the walk returns
    the number of buffers of the page as if it were a number of characters,
    and [list_buffer] leaves as many bytes of its page unwritten. *)
Theorem list_buffer_gap ring ptr :
  radix_tree_walk_through ptr (Direct (Page ring)) = Some (zlen ring, []) /\
  exists o, list_buffer 8 (str "ext3") (Some [(str "sda1", [Inode 8 (str "I") 1 [] [] (Direct (Page [1; 2; 3; 4])) (str "T")])]) = Some o /\
    sl (bytes o) 79 5 = [None; None; None; None; Some 116].
Proof.
  split.
  - unfold radix_tree_walk_through. by rewrite has_buffer_spec.
  - eexists. split; vm_compute; reflexivity.
Qed.
