(* ===== verification/IoPort.v ===== *)
(** * io/my_ioport.c and io/my_ioport2.c: registers behind a port window

    The read handler fills a kernel buffer of [unsigned long] with 32-bit
    registers; the buffer is modelled byte by byte, so the width [W] of an
    [unsigned long], and of a [size_t], is a parameter (4 or 8 bytes).  The
    ports that are read are part of the result.  The second driver maps the
    ports first and reads every register twice.  Their load and unload
    routines are programs over the kernel calls. *)
From stdpp Require Import strings.
From S2P Require Import Prelude Kernel.
Local Open Scope Z_scope.

Definition MY_MAJOR : Z := 60.
Definition port : Z := 58368.        (* 0xe400 *)
Definition port_size : Z := 256.     (* 0x100 *)

(** The bytes of a value in memory, least significant first. *)
Fixpoint le_bytes (w : nat) (z : Z) : list Z :=
  match w with
  | O => []
  | S w' => z mod 256 :: le_bytes w' (z / 256)
  end.

Section Read.
Context (W : nat) (inl : Z -> Z).

(** The loop [for (i = 0; i < count; i += 4) kbuf[i/4] = inl(base + i)], with
    the ports it has read; [None] is a store outside the allocation, or the
    end of the fuel. *)
Fixpoint fill (fuel : nat) (i count base : Z) (kbuf ports : list Z) : option (list Z * list Z) :=
  if i <? count then
    match fuel with
    | O => None
    | S fuel' =>
        match wr kbuf (i / 4 * Z.of_nat W) (le_bytes W (inl (base + i))) with
        | Some kbuf' => fill fuel' (i + 4) count base kbuf' (ports ++ [base + i])
        | None => None
        end
    end
  else Some (kbuf, ports).

Definition loop_fuel (count : Z) : nat := Z.to_nat (count / 4 + 1).

(** A conversion to [size_t]. *)
Definition to_size (z : Z) : Z := wrapu (8 * Z.of_nat W) z.


(** [my_read] of my_ioport2.c, on the mapping [vir_addr]. *)
Definition my_read2 (vir_addr port_size count f_pos : Z) (alloc_ok : bool) (left : Z) : option (Z * Z * list Z * list Z) :=
  if c_true (Z.land count 3) then Some (-1, f_pos, [], [])
  else
    let count := Z.min count (to_size (port_size - f_pos)) in
    if count =? 0 then Some (0, f_pos, [], [])
    else if negb alloc_ok then Some (- ENOMEM, f_pos, [], [])
    else
      match fill (loop_fuel count) 0 count (vir_addr + f_pos) (replicate (Z.to_nat count) 0) [] with
      | None => None
      | Some (kbuf, ports) =>
          match fill (loop_fuel count) 0 count (vir_addr + f_pos) kbuf ports with
          | None => None
          | Some (kbuf, ports) =>
              if c_true left then Some (- EFAULT, f_pos, [], ports)
              else Some (count, f_pos + count, kbuf, ports)
          end
      end.

End Read.

(** ** Load and unload; the state is [res] *)
Definition ioport_cdev : Z := 4.

Definition ioport_init : prog (Z * Z) :=
  call! res <- request_region port port_size ;;
  call! ret <- register_chrdev_region (MKDEV MY_MAJOR 0) 1 ;;
  if c_true ret then
    if c_true res then do! release_region port port_size ;; Ret (-1, res) else Ret (-1, res)
  else
    do! cdev_init ioport_cdev ;;
    do! cdev_add ioport_cdev (MKDEV MY_MAJOR 0) 1 ;;
    Ret (0, res).

Definition ioport_exit (res : Z) : prog unit :=
  do! cdev_del ioport_cdev ;;
  do! unregister_chrdev_region (MKDEV MY_MAJOR 0) 1 ;;
  if c_true res then do! release_region port port_size ;; Ret tt else Ret tt.

(** my_ioport2.c: the structure is [dev]. *)
Record mydev := Mydev { dev : Z; res : Z; vir_addr : Z }.

Definition ioport2_init : prog (Z * mydev) :=
  call! dev <- kzalloc "mydev" 1 ;;
  if dev =? 0 then Ret (- ENOMEM, Mydev 0 0 0)
  else
    call! res <- request_region port port_size ;;
    call! vir_addr <- ioport_map port port_size ;;
    let d := Mydev dev res vir_addr in
    call! ret <- register_chrdev_region (MKDEV MY_MAJOR 0) 1 ;;
    if c_true ret then
      let! _ <- (if c_true res then do! release_region port port_size ;; Ret tt else Ret tt) ;;
      let! _ <- (if negb (c_true vir_addr) then do! iounmap vir_addr ;; Ret tt else Ret tt) ;;
      Ret (-1, d)
    else
      do! cdev_init dev ;;
      do! cdev_add dev (MKDEV MY_MAJOR 0) 1 ;;
      Ret (0, d).

Definition ioport2_exit (d : mydev) : prog unit :=
  do! cdev_del (dev d) ;;
  do! unregister_chrdev_region (MKDEV MY_MAJOR 0) 1 ;;
  let! _ <- (if c_true (res d) then do! release_region port port_size ;; Ret tt else Ret tt) ;;
  if negb (c_true (vir_addr d)) then do! iounmap (vir_addr d) ;; Ret tt else Ret tt.



#[global] Instance ioport_balanced : Balanced ioport_init ioport_exit.
Proof. kbalanced ioport_init ioport_exit. Qed.








(** ** Properties *)



(** My_ioport2.c unmaps its ports only when there is no mapping, and never
    frees its structure: loading and unloading it leaves both behind, and
    with no mapping the unload gives back what is not held. *)
Theorem ioport2_leaks :
  (exists t, run good_oracle [] [] (load_cycles 1 ioport2_init ioport2_exit) = Fin tt t [RIoMap 8192; RMem 4096]) /\
  (exists t h, run (failing_oracle 2 0) [] [] (load_cycles 1 ioport2_init ioport2_exit) = Misuse (iounmap 0) t h).
Proof. split; repeat eexists; vm_compute; reflexivity. Qed.
