(* ===== verification/Counters.v ===== *)
(** * protect/my_atomic.c: one counter twice, atomic and plain

    Two interrupt handlers count every interrupt in [irq_sum], an [atomic_t],
    and in [irqs], a plain [unsigned long].  The kernel does not run the
    handler of one line twice at the same time, but the two lines can be
    served by two processors: a handler is a thread of three steps, the load
    and the store of [irqs++] and the [atomic_inc].  Loading and unloading is
    in [Loaders]. *)
From S2P Require Import Prelude.
Local Open Scope Z_scope.

(** Where the handler of a line is: not running, before the load, between
    the load of [v] and the store, before [atomic_inc]. *)
Inductive hpc := Idle | Load | Store (v : Z) | Inc.

Record sys := Sys { irq_sum : Z; irqs : Z; key : hpc; mouse : hpc }.

Definition init_sys : sys := Sys 0 0 Idle Idle.

(** The next step of a handler ([key_func] and [mouse_func] have the same
    body); at [Idle] an interrupt arrives, [Inc] ends with IRQ_HANDLED. *)
Definition handler (s : sys) (p : hpc) : Z * Z * hpc :=
  match p with
  | Idle => (irq_sum s, irqs s, Load)
  | Load => (irq_sum s, irqs s, Store (irqs s))
  | Store v => (irq_sum s, u64 (v + 1), Inc)
  | Inc => (s32 (irq_sum s + 1), irqs s, Idle)
  end.

Inductive line := Key | Mouse.

Definition key_func (s : sys) : sys :=
  let '(a, n, p) := handler s (key s) in Sys a n p (mouse s).
Definition mouse_func (s : sys) : sys :=
  let '(a, n, p) := handler s (mouse s) in Sys a n (key s) p.
Definition advance (s : sys) (l : line) : sys := match l with Key => key_func s | Mouse => mouse_func s end.

Definition run_lines (ls : list line) (s : sys) : sys := fold_left advance ls s.

(** An interrupt served without interruption: four steps of its line. *)
Definition serve (s : sys) (l : line) : sys := run_lines [l; l; l; l] s.

(** The system with its history: how many interrupts have arrived, been
    stored in [irqs] and been counted in [irq_sum]. *)
Record hist := Hist { cur : sys; arrived : Z; stored : Z; counted : Z }.

Definition observe (h : hist) (l : line) : hist :=
  let p := match l with Key => key (cur h) | Mouse => mouse (cur h) end in
  Hist (advance (cur h) l)
       (arrived h + (if p is Idle then 1 else 0))
       (stored h + (if p is Store _ then 1 else 0))
       (counted h + (if p is Inc then 1 else 0)).

Definition step (h h' : hist) : Prop := exists l, h' = observe h l.
Definition start : hist := Hist init_sys 0 0 0.

(** ** Lemmas *)
Definition running (p : hpc) : Z := if p is Idle then 0 else 1.
Definition before_inc (p : hpc) : Z := if p is Inc then 1 else 0.

(** A value loaded and not stored yet. *)
Definition pending_ok (n : Z) (p : hpc) : Prop := if p is Store v then 0 <= v <= n else True.

Record inv (h : hist) : Prop := {
  inv_sum : irq_sum (cur h) = s32 (counted h);
  inv_arrived : arrived h = counted h + running (key (cur h)) + running (mouse (cur h));
  inv_stored : stored h = counted h + before_inc (key (cur h)) + before_inc (mouse (cur h));
  inv_nonneg : 0 <= counted h;
  inv_irqs : stored h < 2 ^ 64 -> 0 <= irqs (cur h) <= stored h /\ (0 < stored h -> 0 < irqs (cur h));
  inv_key : stored h < 2 ^ 64 -> pending_ok (stored h) (key (cur h));
  inv_mouse : stored h < 2 ^ 64 -> pending_ok (stored h) (mouse (cur h))
}.

Lemma observe_inv h l : inv h -> inv (observe h l).
Proof.
  intros [Hs Ha Ht Hn Hi Hk Hm]. destruct h as [[sum n k m] a t c].
  cbn [cur irq_sum irqs key mouse arrived stored counted] in *.
  destruct l, k as [| |v|], m as [| |w|]; cbn in *;
    (split; cbn; try done; try lia; try (rewrite Hs, ?s32_add_l; f_equal; lia);
     intros Hb; specialize (Hi ltac:(lia)); specialize (Hk ltac:(lia)); specialize (Hm ltac:(lia));
     rewrite ?u64_small by lia; lia).
Qed.

Lemma start_inv : inv start.
Proof. split; cbn; try done; lia. Qed.

Lemma counters_inv h : star step start h -> inv h.
Proof.
  apply star_invariant; [|apply start_inv]. intros h1 h2 Hi [l ->]. by apply observe_inv.
Qed.

Lemma serve_exact s l :
  key s = Idle -> mouse s = Idle -> 0 <= irqs s ->
  serve s l = Sys (s32 (irq_sum s + 1)) (u64 (irqs s + 1)) Idle Idle.
Proof. destruct s as [sum n k m]. cbn. intros -> -> _. by destruct l. Qed.

(** ** Properties *)

(** However the two handlers interleave, when none is running [irq_sum]
    is the number of interrupts (modulo 2^32), while [irqs] has counted at
    most that many and, after at least one interrupt, at least one. *)
Theorem atomic_sum_exact h :
  star step start h -> key (cur h) = Idle -> mouse (cur h) = Idle -> arrived h < 2 ^ 64 ->
  irq_sum (cur h) = s32 (arrived h) /\ 0 <= irqs (cur h) <= arrived h /\
  (0 < arrived h -> 0 < irqs (cur h)).
Proof.
  intros Hr Hk Hm Hb. destruct (counters_inv h Hr) as [Hs Ha Ht Hn Hi _ _].
  rewrite Hk, Hm in Ha, Ht. cbn in Ha, Ht. assert (counted h = arrived h) as E by lia.
  rewrite Hs, E. split; [done|]. specialize (Hi ltac:(lia)). lia.
Qed.

Definition lossy_run : list line := [Key; Mouse; Key; Mouse; Key; Mouse; Key; Mouse].

Lemma run_star ls h : star step h (fold_left observe ls h).
Proof.
  revert h. induction ls as [|l ls IH]; intros h; cbn [fold_left]; [constructor|].
  eapply star_trans; [|apply IH]. econstructor; [constructor|]. by exists l.
Qed.

Lemma atomic_sum_exact_witness :
  let h := fold_left observe lossy_run start in
  irq_sum (cur h) = s32 (arrived h) /\ 0 <= irqs (cur h) <= arrived h /\ (0 < arrived h -> 0 < irqs (cur h)).
Proof.
  intros h. apply (atomic_sum_exact h); [apply run_star|reflexivity|reflexivity|vm_compute; reflexivity].
Defined.

(** Two interrupts that overlap are counted once by the plain counter. *)
Theorem plain_counter_loses :
  let h := fold_left observe lossy_run start in
  star step start h /\ arrived h = 2 /\ irq_sum (cur h) = 2 /\ irqs (cur h) = 1.
Proof. split; [apply run_star|]. vm_compute. done. Qed.

(** Handlers that do not overlap lose nothing: both counters agree. *)
Theorem serial_counters_agree ls :
  Z.of_nat (length ls) < 2 ^ 31 ->
  fold_left serve ls init_sys = Sys (Z.of_nat (length ls)) (Z.of_nat (length ls)) Idle Idle.
Proof.
  intros Hl. assert (forall n, 0 <= n -> n + Z.of_nat (length ls) < 2 ^ 31 ->
    fold_left serve ls (Sys n n Idle Idle) =
    Sys (n + Z.of_nat (length ls)) (n + Z.of_nat (length ls)) Idle Idle) as H; [|by apply (H 0)].
  clear Hl. induction ls as [|l ls IH]; intros n Hn Hb.
  - cbn. by rewrite Z.add_0_r.
  - cbn [fold_left length] in *. rewrite serve_exact by done. cbn [irq_sum irqs].
    rewrite s32_small, u64_small by lia. rewrite IH by lia. f_equal; lia.
Qed.

Lemma serial_counters_agree_witness :
  fold_left serve [Key; Mouse; Mouse] init_sys = Sys 3 3 Idle Idle.
Proof. apply (serial_counters_agree [Key; Mouse; Mouse]). reflexivity. Defined.
