(* ===== verification/Deferred.v ===== *)
(** * Deferred work: interrupt/my_workqueue.c, interrupt/my_tasklet.c, time/my_timer.c

    An interrupt handler that leaves its work to a bottom half: the handler
    runs [top] on the device and marks the work pending, a worker takes the
    mark away ([Dequeue]) and runs [body].  A second interrupt before the
    worker has taken the mark is merged with the first.  Both modules request
    the interrupt before they initialise the work, and neither waits for
    pending work when it is unloaded.  The timer of my_timer.c rearms itself
    until its counter is zero.  Loading and unloading as such is in
    [Loaders]. *)
From stdpp Require Import strings.
From S2P Require Import Prelude.
Local Open Scope Z_scope.

Section Deferred.
Context {Clock Dev : Type} (top body : Clock -> Dev -> Dev * list Z).

Inductive message := Top (line : list Z) | Bottom (line : list Z).

(** [func]: the work has been initialised; [busy]: a worker has taken the
    work and not run it yet; [gone]: the module is unloaded. *)
Record state := State {
  dev : Dev; func : bool; pending : bool; busy : bool; gone : bool; out : list message
}.

Inductive event := Irq (now : Clock) | Install | Dequeue | Body (now : Clock) | Unload.
Inductive outcome := Next (s : state) | No | Crash.

Definition perform (s : state) (e : event) : outcome :=
  match e with
  | Irq now =>
      if gone s then No
      else let '(d, line) := top now (dev s) in
           Next (State d (func s) true (busy s) false (out s ++ [Top line]))
  | Install =>
      if func s || gone s then No
      else if pending s then Crash          (* a queued entry is initialised *)
      else Next (State (dev s) true false (busy s) false (out s))
  | Dequeue =>
      if negb (pending s) || busy s then No
      else if gone s || negb (func s) then Crash
      else Next (State (dev s) true false true false (out s))
  | Body now =>
      if negb (busy s) then No
      else if gone s then Crash             (* code and structure are gone *)
      else let '(d, line) := body now (dev s) in
           Next (State d (func s) (pending s) false false (out s ++ [Bottom line]))
  | Unload =>
      if gone s || negb (func s) then No
      else Next (State (dev s) (func s) (pending s) (busy s) true (out s))
  end.

Fixpoint perform_all (s : state) (es : list event) : outcome :=
  match es with
  | [] => Next s
  | e :: es' => match perform s e with Next s' => perform_all s' es' | r => r end
  end.

(** The state after [request_irq]. *)
Definition requested (d : Dev) : state := State d false false false false [].

Definition quiet (s : state) : bool := negb (pending s) && negb (busy s).

(** A step of a run that has not crashed. *)
Definition run_step (s s' : state) : Prop := exists e, perform s e = Next s'.

(** The events of a run in which the interrupts wait for the initialisation
    and the unload for the work.  The code waits for neither. *)
Definition disciplined (s : state) (e : event) : bool :=
  match e with Irq _ => func s | Unload => quiet s | _ => true end.

Definition good_step (s s' : state) : Prop :=
  exists e, disciplined s e = true /\ perform s e = Next s'.

(** ** Lemmas *)
Definition tops (l : list message) : Z := zlen (filter (fun m => is_true (if m is Top _ then true else false)) l).
Definition bottoms (l : list message) : Z := zlen (filter (fun m => is_true (if m is Bottom _ then true else false)) l).
Definition last_bottom (l : list message) : option (list Z) :=
  fold_left (fun o m => if m is Bottom line then Some line else o) l None.

#[local] Arguments tops : simpl never.
#[local] Arguments bottoms : simpl never.
#[local] Arguments last_bottom : simpl never.

Lemma tops_snoc l m : tops (l ++ [m]) = tops l + (if m is Top _ then 1 else 0).
Proof. unfold tops. rewrite filter_app, zlen_app. by destruct m. Qed.
Lemma bottoms_snoc l m : bottoms (l ++ [m]) = bottoms l + (if m is Bottom _ then 1 else 0).
Proof. unfold bottoms. rewrite filter_app, zlen_app. by destruct m. Qed.
Lemma last_bottom_snoc l m :
  last_bottom (l ++ [m]) = if m is Bottom line then Some line else last_bottom l.
Proof. unfold last_bottom. rewrite fold_left_app. by destruct m. Qed.

(** In all runs that have not crashed. *)
Record inv (s : state) : Prop := {
  inv_func : func s = false -> busy s = false /\ (out s = [] \/ pending s = true);
  inv_count : bottoms (out s) + (if pending s then 1 else 0) + (if busy s then 1 else 0) <= tops (out s);
  inv_served : quiet s = true -> out s <> [] ->
    exists now d, dev s = fst (body now d) /\ last_bottom (out s) = Some (snd (body now d))
}.

Lemma work_inv_step : preserves run_step inv.
Proof.
  intros s s' [Hf Hc Hv] (e & He). destruct s as [d f p b g o]. cbn in *.
  destruct e as [now| | |now|]; cbn in He.
  - destruct g; [done|]. destruct (top now d) as [d' line]. injection He as <-.
    split; cbn; rewrite ?tops_snoc, ?bottoms_snoc; [|destruct p; lia|done].
    intros E. split; [by apply Hf|by right].
  - destruct (f || g) eqn:E; [done|]. destruct p; [done|]. injection He as <-. by split.
  - destruct (negb p || b) eqn:E; [done|]. destruct (g || negb f) eqn:E'; [done|]. injection He as <-.
    apply orb_false_iff in E as [E ->]. apply negb_false_iff in E as ->.
    split; cbn; try done; lia.
  - destruct b; [|done]. destruct g; [done|]. destruct (body now d) as [d' line] eqn:Eb. injection He as <-.
    destruct f; [|by destruct (Hf eq_refl)].
    split; cbn; rewrite ?tops_snoc, ?bottoms_snoc, ?last_bottom_snoc; try done; [lia|].
    intros _ _. exists now, d. by rewrite Eb.
  - destruct (g || negb f) eqn:E; [done|]. apply orb_false_iff in E as [-> E].
    apply negb_false_iff in E as ->. injection He as <-. by split.
Qed.

Lemma inv_requested d : inv (requested d).
Proof. split; cbn; [by split; [|left]|done|done]. Qed.

Lemma work_reachable d s : star run_step (requested d) s -> inv s.
Proof. apply star_invariant; [apply work_inv_step|apply inv_requested]. Qed.

Lemma quiet_false s : quiet s = true -> pending s = false /\ busy s = false.
Proof. unfold quiet. by destruct (pending s), (busy s). Qed.

(** Only disciplined runs keep this: nothing is queued before the
    initialisation and after the unload. *)
Definition calm (s : state) : Prop := (gone s = true -> quiet s = true) /\ (func s = false -> quiet s = true).

Lemma calm_step : preserves good_step calm.
Proof.
  intros s s' [Hg Hf] (e & Hd & He). destruct s as [d f p b g o]. unfold calm, quiet in *. cbn in *.
  destruct e as [now| | |now|]; cbn in Hd, He.
  - destruct g; [done|]. destruct (top now d). by simplify_eq.
  - destruct f, g, p; simplify_eq; naive_solver.
  - destruct f, g, p, b; cbn in *; simplify_eq; naive_solver.
  - destruct f, g, p, b; cbn in *; destruct (body now d); simplify_eq; naive_solver.
  - destruct f, g, p, b; cbn in *; simplify_eq; naive_solver.
Qed.

(** No disciplined step crashes. *)
Lemma disciplined_safe d s e :
  star good_step (requested d) s -> disciplined s e = true -> perform s e <> Crash.
Proof.
  intros Hr He. assert (calm s) as [Hg Hf] by (by apply (star_invariant good_step calm (requested d) s calm_step)).
  destruct s as [d' f p b g o]. unfold quiet in *. cbn in *. destruct e as [now| | |now|]; cbn.
  - destruct g; [done|]. by destruct (top now d').
  - destruct f; [done|]. destruct g; [done|]. by destruct p; [specialize (Hf eq_refl)|].
  - destruct p; [|done]. destruct b; [done|]. destruct g; [by specialize (Hg eq_refl)|].
    destruct f; [done|]. by specialize (Hf eq_refl).
  - destruct b; [|done]. destruct g; [by specialize (Hg eq_refl); destruct p|]. by destruct (body now d').
  - by destruct (g || negb f).
Qed.

(** Two steps of the worker (one when it is busy already) serve what is
    pending. *)
Lemma drains s now :
  func s = true -> gone s = false -> exists es s', perform_all s es = Next s' /\ quiet s' = true /\
    (length es <= 3)%nat /\ Forall (fun e => e = Dequeue \/ e = Body now) es.
Proof.
  destruct s as [d f p b g o]. cbn. intros -> ->.
  assert (forall es : list event, Forall (fun e => e = Dequeue \/ e = Body now) es ->
    forall s', (length es <= 3)%nat -> quiet s' = true ->
    perform_all (State d true p b false o) es = Next s' ->
    exists es s', perform_all (State d true p b false o) es = Next s' /\ quiet s' = true /\
      (length es <= 3)%nat /\ Forall (fun e => e = Dequeue \/ e = Body now) es) as Hex by eauto 10.
  destruct (body now d) as [d' line] eqn:E. destruct (body now d') as [d2 line2] eqn:E2.
  destruct b; [destruct p|destruct p].
  - apply (Hex [Body now; Dequeue; Body now] ltac:(rewrite !Forall_cons; naive_solver)
      (State d2 true false false false ((o ++ [Bottom line]) ++ [Bottom line2]))); [cbn; lia|done|].
    cbn. rewrite E. cbn. by rewrite E2.
  - apply (Hex [Body now] ltac:(rewrite !Forall_cons; naive_solver)
      (State d' true false false false (o ++ [Bottom line]))); [cbn; lia|done|]. cbn. by rewrite E.
  - apply (Hex [Dequeue; Body now] ltac:(rewrite !Forall_cons; naive_solver)
      (State d' true false false false (o ++ [Bottom line]))); [cbn; lia|done|]. cbn. by rewrite E.
  - apply (Hex [] ltac:(constructor) (State d true false false false o)); [cbn; lia|done..].
Qed.

End Deferred.
Arguments state : clear implicits.
Arguments event : clear implicits.

(** ** interrupt/my_workqueue.c *)
Record mydev := Mydev { upper_count : Z; bottom_count : Z; tv : Z * Z; data : Z }.

(** The clock: [do_gettimeofday] and [jiffies]. *)
Record clock := Clock { timeofday : Z * Z; jiffies_now : Z }.

Definition zero_dev : mydev := Mydev 0 0 (0, 0) 0.

(** The numbers of the first [printk] line of each half, and [dev->data]. *)
Definition interrupt_func (now : clock) (dev : mydev) : mydev * list Z :=
  let up := u64 (upper_count dev + 1) in
  (Mydev up (bottom_count dev) (timeofday now) (jiffies_now now),
   [up; s32 (fst (timeofday now)); s32 (snd (timeofday now))]).

Definition work_func (now : clock) (dev : mydev) : mydev * list Z :=
  let bot := u64 (bottom_count dev + 1) in
  (Mydev (upper_count dev) bot (timeofday now) (data dev),
   [bot; s32 (fst (timeofday now)); s32 (snd (timeofday now)); data dev]).

Definition work_step := run_step interrupt_func work_func.
Definition work_all := perform_all interrupt_func work_func.

Definition clock0 : clock := Clock (10, 20) 5.

Definition counts (s : state mydev) : Prop :=
  upper_count (dev s) = u64 (tops (out s)) /\ bottom_count (dev s) = u64 (bottoms (out s)).

Lemma counts_step : preserves work_step counts.
Proof.
  intros s s' [Hu Hb] (e & He). destruct s as [d f p b g o]. cbn in *.
  destruct e as [now| | |now|]; cbn in He; repeat case_match; simplify_eq; cbn; unfold counts; cbn;
    rewrite ?tops_snoc, ?bottoms_snoc, ?Z.add_0_r, ?Hu, ?Hb, ?u64_add_l; done.
Qed.

(** The clock of the last interrupt. *)
Fixpoint last_irq (es : list (event clock)) : option clock :=
  match es with
  | [] => None
  | Irq now :: es' => Some (default now (last_irq es'))
  | _ :: es' => last_irq es'
  end.

Lemma last_irq_data es s s' :
  work_all s es = Next s' ->
  data (dev s') = default (data (dev s)) (jiffies_now <$> last_irq es) /\
  (out s <> [] \/ is_Some (last_irq es) -> out s' <> []).
Proof.
  revert s. induction es as [|e es IH]; intros s H.
  - injection H as <-. split; [done|]. intros [?|[? ?]]; done.
  - unfold work_all in H. cbn in H. destruct (perform interrupt_func work_func s e) as [s2| |] eqn:E; [|done..].
    destruct (IH s2 H) as [-> Ho]. destruct s as [d f p b g o]. cbn in Ho |- *.
    destruct e as [now| | |now|]; cbn in E; repeat case_match; simplify_eq; cbn in *;
      (split; [try done; by destruct (last_irq es)|]); intros Hc; apply Ho; try tauto; left; by destruct o.
Qed.

Lemma work_all_star s s' es : work_all s es = Next s' -> star work_step s s'.
Proof.
  assert (forall s2 es', star work_step s s2 -> work_all s2 es' = Next s' -> star work_step s s') as Hgen.
  { intros s2 es'. revert s2. induction es' as [|e es' IH]; intros s2 Hs H; [by injection H as <-|].
    unfold work_all in H. cbn in H. destruct (perform interrupt_func work_func s2 e) as [s3| |] eqn:E; [|done..].
    apply (IH s3); [|exact H]. econstructor; [exact Hs|]. by exists e. }
  apply Hgen. constructor.
Qed.

(** C29: In every run of my_workqueue.c that has not crashed, whatever the
    order of interrupts, initialisation, work and unload ([workqueue_races]
    has the runs that crash), the last interrupt is served: whenever no work
    is pending or running, the last line of [work_func] has the jiffies that
    the last interrupt stored, and its own count; the work has run at most
    once per interrupt; and between the initialisation and the unload what is
    pending can always be brought to run, in at most three steps of the
    worker. *)
Theorem workqueue_serves_last_irq es s :
  work_all (requested zero_dev) es = Next s -> tops (out s) < 2 ^ 64 ->
  bottom_count (dev s) <= upper_count (dev s) /\
  (forall now, quiet s = true -> last_irq es = Some now ->
     exists sec usec, last_bottom (out s) = Some [bottom_count (dev s); sec; usec; jiffies_now now]) /\
  (func s = true -> gone s = false ->
     exists es' s', work_all s es' = Next s' /\ quiet s' = true /\ (length es' <= 3)%nat /\
       Forall (fun e => e = Dequeue \/ e = Body clock0) es').
Proof.
  intros Hes Hb. pose proof (work_all_star _ _ _ Hes) as Hr. assert (counts s) as [Hu Hd].
  { by apply (star_invariant work_step counts (requested zero_dev) s counts_step). }
  pose proof (work_reachable _ _ _ _ Hr) as [_ Hc Hv].
  assert (0 <= bottoms (out s)) by apply zlen_nonneg. assert (0 <= tops (out s)) by apply zlen_nonneg.
  rewrite u64_small in Hu by lia. rewrite u64_small in Hd by (destruct (pending s), (busy s); lia).
  split; [destruct (pending s), (busy s); lia|]. split.
  - intros now Hq Hl. destruct (last_irq_data _ _ _ Hes) as [Hj Ho]. rewrite Hl in Hj. cbn in Hj. rewrite <- Hj.
    destruct (Hv Hq) as (now' & d & -> & ->); [apply Ho; right; by eexists|]. by do 2 eexists.
  - intros Hf Hg. by apply (drains interrupt_func work_func s clock0 Hf Hg).
Qed.

Definition work_demo : list (event clock) :=
  [Irq clock0; Irq (Clock (11, 0) 6); Dequeue; Irq (Clock (12, 0) 9); Body clock0; Dequeue; Body clock0].

Lemma workqueue_serves_last_irq_witness :
  exists s sec usec, work_all (requested zero_dev) (Install :: work_demo) = Next s /\
    upper_count (dev s) = 3 /\ last_bottom (out s) = Some [2; sec; usec; 9].
Proof.
  destruct (work_all (requested zero_dev) (Install :: work_demo)) as [s| |] eqn:E; [|vm_compute in E; discriminate..].
  destruct (workqueue_serves_last_irq (Install :: work_demo) s E) as (_ & H & _);
    [vm_compute in E; injection E as <-; vm_compute; reflexivity|].
  vm_compute in E. injection E as E. destruct (H (Clock (12, 0) 9)) as (sec & usec & Hl); [by subst s..|].
  exists s, sec, usec. rewrite <- E in Hl |- *. by split_and!.
Defined.

(** An interrupt that comes before [INIT_WORK], or an unload that does not
    wait for the pending work, ends in a crash; disciplined runs do not. *)
Theorem workqueue_races :
  (forall s e, star (good_step interrupt_func work_func) (requested zero_dev) s -> disciplined s e = true ->
     perform interrupt_func work_func s e <> Crash) /\
  work_all (requested zero_dev) [Irq clock0; Dequeue] = Crash /\
  work_all (requested zero_dev) [Irq clock0; Install] = Crash /\
  work_all (requested zero_dev) [Install; Irq clock0; Unload; Dequeue] = Crash /\
  work_all (requested zero_dev) [Install; Irq clock0; Dequeue; Unload; Body clock0] = Crash.
Proof. split; [intros s e Hr He; by eapply disciplined_safe|]. repeat split. Qed.

(** ** interrupt/my_tasklet.c: both halves only print *)
Definition tasklet_interrupt (_ : unit) (dev : unit) : unit * list Z := (dev, []).
Definition tasklet_func (_ : unit) (dev : unit) : unit * list Z := (dev, []).

(** The tasklet has run at most once per interrupt, and at least once when
    none is scheduled any more; unloading while it is scheduled crashes. *)
Theorem tasklet_serves_irqs s :
  star (run_step tasklet_interrupt tasklet_func) (requested tt) s ->
  bottoms (out s) <= tops (out s) /\ (quiet s = true -> out s <> [] -> last_bottom (out s) = Some []).
Proof.
  intros Hr. apply work_reachable in Hr as [_ Hc Hv]. split; [destruct (pending s), (busy s); lia|].
  intros Hq Ho. by destruct (Hv Hq Ho) as (now & d & _ & ->).
Qed.

Theorem tasklet_unload_race :
  perform_all tasklet_interrupt tasklet_func (requested tt) [Install; Irq tt; Unload; Dequeue] = Crash.
Proof. reflexivity. Qed.

(** ** time/my_timer.c *)
Module Timer.

(** [armed]: the tick at which [my_timer] expires; [fired] counts the calls
    of [timer_func]; [HZ] is the configuration's number of ticks a second. *)
Record state := State { jiffies : Z; armed : option Z; tdata : Z; fired : Z; unloaded : bool }.

Definition timer_func (s : state) (data : Z) : state :=
  let data' := u64 (data - 1) in
  State (jiffies s) (if c_true data' then Some (u64 (jiffies s + 1)) else None) data' (fired s + 1) (unloaded s).

(** A tick of the clock; [None]: the function of an unloaded module is called. *)
Definition tick (s : state) : option state :=
  let now := u64 (jiffies s + 1) in
  match armed s with
  | Some e =>
      if e =? now then
        if unloaded s then None else Some (timer_func (State now None (tdata s) (fired s) false) (tdata s))
      else Some (State now (Some e) (tdata s) (fired s) (unloaded s))
  | None => Some (State now None (tdata s) (fired s) (unloaded s))
  end.

Fixpoint ticks (n : nat) (s : state) : option state :=
  match n with O => Some s | S n' => s' ← tick s; ticks n' s' end.

(** [my_proc]: the text and the new state; [None]: [setup_timer] initialises
    a timer that is still in the kernel's list. *)
Definition my_proc (HZ : Z) (comm : list Z) (s : state) : option (list Z * state) :=
  match armed s with
  | Some _ => None
  | None =>
      Some (str "In " ++ comm ++ str ", add a timer at " ++ dec (s64 (jiffies s)) ++ str "." ++ [10] ++
            str "Ok, exit " ++ comm ++ str " in time " ++ dec (s64 (jiffies s)) ++ [10],
            State (jiffies s) (Some (u64 (jiffies s + HZ / 2))) 100 (fired s) (unloaded s))
  end.

(** [my_exit] takes the /proc entry away and nothing else. *)
Definition my_exit (s : state) : state := State (jiffies s) (armed s) (tdata s) (fired s) true.

Lemma ticks_app n m s : ticks (n + m) s = s' ← ticks n s; ticks m s'.
Proof. revert s. induction n as [|n IH]; intros s; [done|]. cbn. destruct (tick s); cbn; [apply IH|done]. Qed.

Lemma u64_inj_near j a b : 0 <= a < 2 ^ 64 -> 0 <= b < 2 ^ 64 -> u64 (j + a) = u64 (j + b) -> a = b.
Proof.
  unfold u64, wrapu. intros Ha Hb H.
  assert ((a - b) mod 2 ^ 64 = 0) as Hz.
  { replace (a - b) with ((j + a) - (j + b)) by lia. rewrite Zminus_mod, H, Z.sub_diag. done. }
  apply Z.mod_divide in Hz as [k Hk]; [|lia]. nia.
Qed.

Lemma ticks_idle n j d f u : ticks n (State j None d f u) =
  Some (State (if n is O then j else u64 (j + Z.of_nat n)) None d f u).
Proof.
  revert j. induction n as [|n IH]; intros j; [done|]. cbn [ticks]. unfold tick. cbn [jiffies armed tdata fired unloaded mbind option_bind].
  rewrite IH. do 2 f_equal. destruct n as [|n]; [done|]. rewrite u64_add_l. f_equal. lia.
Qed.

Lemma ticks_wait n j e d f u :
  0 <= e < 2 ^ 64 -> Z.of_nat n < e ->
  ticks n (State (u64 j) (Some (u64 (j + e))) d f u) = Some (State (u64 (j + Z.of_nat n)) (Some (u64 (j + e))) d f u).
Proof.
  intros He. revert j e He. induction n as [|n IH]; intros j e He Hn; [by rewrite Z.add_0_r|].
  cbn [ticks]. unfold tick. cbn [jiffies armed].
  rewrite ?u64_add_l.
  destruct (Z.eqb_spec (u64 (j + e)) (u64 (j + 1))) as [E|_]; [apply u64_inj_near in E; lia|].
  cbn [mbind option_bind]. replace (j + e) with (j + 1 + (e - 1)) by lia.
  cbn [tdata fired unloaded]. rewrite (IH (j + 1) (e - 1)) by lia. do 3 f_equal; lia.
Qed.

Lemma ticks_fire k j d f :
  0 < d < 2 ^ 64 -> Z.of_nat k <= d ->
  ticks k (State (u64 j) (Some (u64 (j + 1))) d f false) =
  Some (State (u64 (j + Z.of_nat k)) (if Z.of_nat k <? d then Some (u64 (j + Z.of_nat k + 1)) else None)
              (d - Z.of_nat k) (f + Z.of_nat k) false).
Proof.
  revert j d f. induction k as [|k IH]; intros j d f Hd Hk.
  { change (Z.of_nat 0) with 0. rewrite (proj2 (Z.ltb_lt 0 d)) by lia. by rewrite !Z.add_0_r, Z.sub_0_r. }
  cbn [ticks]. unfold tick. cbn [jiffies armed tdata fired unloaded].
  rewrite ?u64_add_l.
  rewrite Z.eqb_refl. unfold timer_func. cbn [jiffies armed tdata fired unloaded mbind option_bind].
  rewrite (u64_small (d - 1)) by lia. unfold c_true.
  rewrite ?u64_add_l.
  destruct (Z.eqb_spec (d - 1) 0) as [E|E]; cbn [negb].
  - assert (k = O) as -> by lia. change (Z.of_nat 1) with 1. rewrite (proj2 (Z.ltb_ge 1 d)) by lia. cbn [ticks].
    do 2 f_equal; lia.
  - rewrite IH by lia. do 2 f_equal; try lia; [f_equal; lia|].
    destruct (Z.ltb_spec (Z.of_nat k) (d - 1)), (Z.ltb_spec (Z.of_nat (S k)) d); try lia; [|done].
    do 2 f_equal. lia.
Qed.

(** C30: A read of /proc/proc_timer arms the timer once and for good: from the
    tick HZ/2 on [timer_func] is called at one hundred consecutive ticks, and
    then never again; the clock may wrap around meanwhile, but the module is
    not unloaded and the entry not read again. *)
Theorem timer_terminates HZ comm j d f text s n :
  2 <= HZ < 2 ^ 32 -> my_proc HZ comm (State (u64 j) None d f false) = Some (text, s) ->
  exists s', ticks n s = Some s' /\
    fired s' = f + Z.max 0 (Z.min 100 (Z.of_nat n - HZ / 2 + 1)) /\
    (armed s' = None <-> HZ / 2 + 99 <= Z.of_nat n).
Proof.
  intros HHZ Hp. cbn in Hp. injection Hp as <- <-.
  assert (1 <= HZ / 2 < 2 ^ 32) as Hh by (split; [apply Z.div_le_lower_bound|apply Z.div_lt_upper_bound]; lia).
  rewrite ?u64_add_l.
  destruct (Z.lt_ge_cases (Z.of_nat n) (HZ / 2)) as [Hn|Hn].
  { rewrite ticks_wait by lia. eexists. split; [done|]. cbn. split; [lia|]. split; [done|lia]. }
  set (w := Z.to_nat (HZ / 2 - 1)). replace n with (w + (n - w))%nat by lia. rewrite ticks_app.
  rewrite ticks_wait by lia. cbn [mbind option_bind].
  replace (j + HZ / 2) with (j + Z.of_nat w + 1) by lia. set (j' := j + Z.of_nat w). set (k := (n - w)%nat).
  destruct (Z.le_gt_cases (Z.of_nat k) 100) as [Hk|Hk].
  - rewrite ticks_fire by lia. eexists. split; [done|]. cbn [fired armed]. split; [lia|].
    destruct (Z.ltb_spec (Z.of_nat k) 100); split; done || lia.
  - replace k with (100 + (k - 100))%nat by lia. rewrite ticks_app, ticks_fire by lia.
    cbn [mbind option_bind]. change (Z.of_nat 100 <? 100) with false. cbv iota. rewrite ticks_idle.
    eexists. split; [done|]. cbn [fired armed]. split; [lia|]. split; [lia|done].
Qed.

Lemma timer_terminates_witness :
  exists text s s', my_proc 4 (str "cat") (State (u64 (2 ^ 64 - 3)) None 0 0 false) = Some (text, s) /\
    ticks 101 s = Some s' /\ fired s' = 100 /\ (armed s' = None <-> 4 / 2 + 99 <= 101).
Proof.
  destruct (my_proc 4 (str "cat") (State (u64 (2 ^ 64 - 3)) None 0 0 false)) as [[text s]|] eqn:E; [|done].
  destruct (timer_terminates 4 (str "cat") (2 ^ 64 - 3) 0 0 text s 101 ltac:(lia) E) as (s' & H1 & H2 & H3).
  by exists text, s, s'.
Defined.

(** Unloading the module while the timer is armed ends, HZ/2 ticks after the
    read, in a call of a function that is gone; reading /proc/proc_timer
    again before the timer has run out initialises a pending timer. *)
Theorem timer_races HZ comm j d f :
  2 <= HZ < 2 ^ 32 ->
  exists text s, my_proc HZ comm (State (u64 j) None d f false) = Some (text, s) /\
    my_proc HZ comm s = None /\ ticks (Z.to_nat (HZ / 2)) (my_exit s) = None.
Proof.
  intros HHZ. cbn [my_proc armed]. do 2 eexists. split; [done|]. split; [done|].
  assert (1 <= HZ / 2 < 2 ^ 32) as Hh by (split; [apply Z.div_le_lower_bound|apply Z.div_lt_upper_bound]; lia).
  unfold my_exit. cbn [jiffies armed tdata fired].
  rewrite ?u64_add_l.
  replace (Z.to_nat (HZ / 2)) with (Z.to_nat (HZ / 2 - 1) + 1)%nat by lia.
  rewrite ticks_app, ticks_wait by lia. cbn [mbind option_bind ticks]. unfold tick. cbn [jiffies armed unloaded].
  destruct (Z.eqb_spec (u64 (j + HZ / 2)) (u64 (u64 (j + Z.of_nat (Z.to_nat (HZ / 2 - 1))) + 1))) as [_|E]; [done|].
  destruct E. rewrite u64_add_l. f_equal. lia.
Qed.

Lemma timer_races_witness :
  exists text s, my_proc 100 (str "cat") (State (u64 7) None 0 0 false) = Some (text, s) /\
    my_proc 100 (str "cat") s = None /\ ticks 50 (my_exit s) = None.
Proof. apply (timer_races 100). lia. Defined.
End Timer.
