(* ===== verification/ProcBuf.v ===== *)
(** * debug/my_proc.c: a /proc file that gives back what was written

    [proc_write] keeps a copy of the written bytes in [ker_buf], [proc_read]
    prints it as a C string.  debug/my_proc2.c is the same text. *)
From stdpp Require Import strings.
From S2P Require Import Prelude Kernel.
Local Open Scope Z_scope.

(** [ker_buf]: the address, and the bytes of the block it points to. *)
Record procbuf := Procbuf { ker_buf : Z; bytes : list Z }.

Definition no_buf : procbuf := Procbuf 0 [].

(** [%s] of a block: the bytes before the first NUL; [None]: there is none,
    and [sprintf] reads past the end of the block. *)
Fixpoint c_string (l : list Z) : option (list Z) :=
  match l with
  | [] => None
  | b :: l' => if b =? 0 then Some [] else s ← c_string l'; Some (b :: s)
  end.

(** [info] of [my_init] *)
Definition info : list Z := str "Information from my_init".

Definition PAGE_SIZE : Z := 4096.

(** [sprintf] to [page], one page of memory: the text and its NUL have to fit;
    [None] is a store behind the page. *)
Definition sprintf_page (text : list Z) : option (list Z) :=
  if zlen text + 1 <=? PAGE_SIZE then Some text else None.

(** The text that is printed; [None]: an access outside a block or the page. *)
Definition proc_read (b : procbuf) : option (list Z) :=
  if ker_buf b =? 0 then sprintf_page (str "Cat /proc/proc_test" ++ [10] ++ info ++ [10])
  else s ← c_string (bytes b); sprintf_page (s ++ [10]).

(** [buf]: the bytes of the user buffer.  The answer of [copy_from_user] is
    the number of bytes not copied. *)
Definition proc_write (b : procbuf) (buf : list Z) : prog (Z * procbuf) :=
  let count := zlen buf in
  do! kfree (ker_buf b) ;;
  call! p <- kzalloc "ker_buf" count ;;
  if p =? 0 then Ret (- ENOMEM, no_buf)
  else
    call! left <- kquery "copy_from_user" count ;;
    if c_true left then do! kfree p ;; Ret (- EFAULT, Procbuf p (from_user buf count left))
    else Ret (s32 count, Procbuf p buf).

Definition my_init : prog (Z * procbuf) :=
  call! res <- create_proc_read_entry "proc_test2" ;;
  if res =? 0 then Ret (-1, no_buf) else Ret (0, no_buf).

Definition my_exit (b : procbuf) : prog unit :=
  do! remove_proc_entry "proc_test2" ;;
  do! kfree (ker_buf b) ;;
  Ret tt.

(** The writes between load and unload. *)
Fixpoint writes (b : procbuf) (bufs : list (list Z)) : prog procbuf :=
  match bufs with
  | [] => Ret b
  | buf :: rest => let! (_, b') <- proc_write b buf ;; writes b' rest
  end.

(** The module is loaded, written to and unloaded; the answer is what
    [proc_read] gives before the unload ([None]: the load failed). *)
Definition session (bufs : list (list Z)) : prog (option (option (list Z))) :=
  let! (ret, b) <- my_init ;;
  if c_true ret then Ret None
  else
    let! b' <- writes b bufs ;;
    let! _ <- my_exit b' ;;
    Ret (Some (proc_read b')).

(** ** Lemmas *)
Lemma c_string_app s l : Forall (fun b => b <> 0) s -> c_string (s ++ 0 :: l) = Some s.
Proof.
  induction 1 as [|b s Hb _ IH]; [done|]. cbn [app c_string]. rewrite (proj2 (Z.eqb_neq b 0) Hb).
  by rewrite IH.
Qed.

Lemma c_string_none s : Forall (fun b => b <> 0) s -> c_string s = None.
Proof.
  induction 1 as [|b s Hb _ IH]; [done|]. cbn [c_string]. rewrite (proj2 (Z.eqb_neq b 0) Hb). by rewrite IH.
Qed.

(** The calls answer as documented and every user buffer can be read. *)
Definition answers_readable (held : list res) (c : kcall) (r : Z) : Prop :=
  answers held c r /\ (if c is kquery _ _ then r = 0 else True).

Definition owns (b : procbuf) : list res := if ker_buf b =? 0 then [] else [RMem (ker_buf b)].

(** What a write of [buf] leaves, by the answer of its allocation at the end
    of the calls made since [t]. *)
Definition wrote (buf : list Z) (t t' : trace) (b : procbuf) : Prop :=
  (exists t1, t' = t ++ t1 ++ [(kzalloc "ker_buf" (zlen buf), 0)] /\ b = no_buf) \/
  (exists t1 p, t' = t ++ t1 ++ [(kzalloc "ker_buf" (zlen buf), p); (kquery "copy_from_user" (zlen buf), 0)] /\
     0 < p /\ b = Procbuf p buf).

Lemma proc_write_safe b buf t Y (Q : Z * procbuf -> trace -> list res -> Prop) :
  (forall t' ret b', 0 <= ker_buf b' -> wrote buf t t' b' -> Q (ret, b') t' (owns b' ++ Y)) ->
  safe answers_readable (proc_write b buf) t (owns b ++ Y) Q.
Proof.
  intros HQ. unfold proc_write, owns. apply safe_call. intros r _. kred.
  assert (safe answers_readable (
    call! p <- kzalloc "ker_buf" (zlen buf) ;;
    if p =? 0 then Ret (- ENOMEM, no_buf)
    else
      call! left <- kquery "copy_from_user" (zlen buf) ;;
      if c_true left then do! kfree p ;; Ret (- EFAULT, Procbuf p (from_user buf (zlen buf) left))
      else Ret (s32 (zlen buf), Procbuf p buf)) (t ++ [(kfree (ker_buf b), r)]) Y Q) as Hrest.
  { apply safe_call. intros p [Hp _]. cbn in Hp. kred. destruct (Z.eqb_spec p 0) as [->|E].
    - apply safe_ret. apply (HQ _ (- ENOMEM) no_buf); [done|]. left. eexists. split; [|done]. by rewrite app_assoc.
    - apply safe_call. intros left [_ ->]. kred. cbn [Z.eqb negb]. apply safe_ret.
      pose proof (HQ (((t ++ [(kfree (ker_buf b), r)]) ++ [(kzalloc "ker_buf" (zlen buf), p)]) ++ [(kquery "copy_from_user" (zlen buf), 0)])
        (s32 (zlen buf)) (Procbuf p buf)) as H.
      unfold owns in H. cbn [ker_buf bytes] in H. rewrite (proj2 (Z.eqb_neq p 0) E) in H.
      apply H; [lia|]. right. exists [(kfree (ker_buf b), r)], p. split; [by rewrite <- !app_assoc|]. by split; [lia|]. }
  destruct (ker_buf b =? 0); kred; apply Hrest.
Qed.

Lemma writes_safe bufs buf b t Y (Q : procbuf -> trace -> list res -> Prop) :
  (forall t' b', 0 <= ker_buf b' -> wrote buf t t' b' -> Q b' t' (owns b' ++ Y)) ->
  safe answers_readable (writes b (bufs ++ [buf])) t (owns b ++ Y) Q.
Proof.
  assert (forall t1 t2 t3 b', (exists u, t2 = t1 ++ u) -> wrote buf t2 t3 b' -> wrote buf t1 t3 b') as Hw.
  { intros t1 t2 t3 b' [u ->] [(t4 & -> & Hb')|(t4 & p & -> & Hb')]; [left; exists (u ++ t4)|right; exists (u ++ t4), p];
      by rewrite <- !app_assoc. }
  revert b t Q. induction bufs as [|buf0 bufs IH]; intros b t Q HQ; cbn [app writes]; apply safe_bind, proc_write_safe;
    intros t' ret b' Hb' Hret.
  - by apply safe_ret, HQ.
  - apply IH. intros t2 b2 Hb2 H2. apply HQ; [done|]. eapply Hw; [|exact H2].
    destruct Hret as [(t4 & -> & _)|(t4 & p & -> & _)]; by eexists.
Qed.

Lemma sprintf_page_ok text : zlen text < PAGE_SIZE -> sprintf_page text = Some text.
Proof. intros H. unfold sprintf_page. by rewrite (proj2 (Z.leb_le _ _)) by lia. Qed.

Lemma proc_read_c_string p s pad :
  0 < p -> Forall (fun b => b <> 0) s -> proc_read (Procbuf p (s ++ 0 :: pad)) = sprintf_page (s ++ [10]).
Proof.
  intros Hp Hs. unfold proc_read. cbn [ker_buf bytes]. rewrite (proj2 (Z.eqb_neq p 0)) by lia. by rewrite c_string_app.
Qed.

(** The unload frees what [ker_buf] points to. *)
Lemma my_exit_safe b t base (Q : unit -> trace -> list res -> Prop) :
  0 <= ker_buf b ->
  (forall r1 r2, Q tt (t ++ [(remove_proc_entry "proc_test2", r1); (kfree (ker_buf b), r2)]) base) ->
  safe answers_readable (my_exit b) t (owns b ++ RProc "proc_test2" :: base) Q.
Proof.
  intros Hb HQ. unfold my_exit, owns. apply safe_call. intros r1 _. unfold settle.
  cbn [releases drops give_back_all acquires app drop_all].
  destruct (Z.eqb_spec (ker_buf b) 0) as [E|E]; cbn [app give_back res_eqb]; rewrite String.eqb_refl;
    apply safe_call; intros r2 _; unfold settle; cbn [releases]; rewrite ?E, ?(proj2 (Z.eqb_neq _ _) E);
    cbn [Z.eqb give_back_all give_back res_eqb]; rewrite ?Z.eqb_refl; cbn [acquires drops drop_all app];
    apply safe_ret; rewrite <- app_assoc; rewrite ?E in HQ; apply HQ.
Qed.

(** ** Properties *)

(** C31: A session of any writes whose user buffers can be read, ending with
    the C string [s], on any other answers of the kernel: no memory is
    misused and nothing is left behind.  When the entry cannot be created
    nothing more happens.  Otherwise the last write allocates its block: when
    that fails the read before the unload prints the text of an empty file;
    when it succeeds the read prints exactly [s] and a line break, if the
    text fits the page of 4096 bytes (for a longer one it leaves the page). *)
Theorem proc_session_roundtrip o bufs s pad base :
  obeys answers_readable o -> clean base -> Forall (fun b => b <> 0) s ->
  let buf := s ++ 0 :: pad in
  let create := create_proc_read_entry "proc_test2" in
  let alloc := kzalloc "ker_buf" (zlen buf) in
  let copy := kquery "copy_from_user" (zlen buf) in
  exists text t, run o [] base (session (bufs ++ [buf])) = Fin text t base /\
    ((t = [(create, 0)] /\ text = None) \/
     (exists r t1 r1 r2, r <> 0 /\ t = (create, r) :: t1 ++ [(alloc, 0); (remove_proc_entry "proc_test2", r1); (kfree 0, r2)] /\
        text = Some (Some (str "Cat /proc/proc_test" ++ [10] ++ info ++ [10]))) \/
     (exists r t1 p r1 r2, r <> 0 /\ 0 < p /\
        t = (create, r) :: t1 ++ [(alloc, p); (copy, 0); (remove_proc_entry "proc_test2", r1); (kfree p, r2)] /\
        text = Some (if zlen s + 2 <=? PAGE_SIZE then Some (s ++ [10]) else None))).
Proof.
  intros Ho Hc Hs buf create alloc copy.
  match goal with |- exists text t, _ /\ @?P text t =>
    destruct (safe_run answers_readable o (session (bufs ++ [buf])) [] base (fun text t held => held = base /\ P text t) Ho)
      as (text & t & h & Hr & -> & Ht); [|by exists text, t] end.
  unfold session, my_init. apply safe_call. intros r _. kred. destruct (Z.eqb_spec r 0) as [->|Er].
  { cbn [bind]. change (c_true (-1)) with true. apply safe_ret. split; [done|by left]. }
  cbn [bind app]. change (c_true 0) with false. cbv iota. apply safe_bind.
  change (RProc "proc_test2" :: base) with (owns no_buf ++ RProc "proc_test2" :: base).
  apply writes_safe. intros t' b Hb Hw. apply safe_bind.
  apply my_exit_safe; [done|]. intros r1 r2. apply safe_ret. split; [done|]. right.
  destruct Hw as [(t1 & -> & ->)|(t1 & p & -> & Hp & ->)].
  - left. exists r, t1, r1, r2. split; [done|]. split; [|reflexivity]. cbn [app]. f_equal. by rewrite <- app_assoc.
  - right. exists r, t1, p, r1, r2. split; [done|]. split; [done|]. split; [cbn [app]; f_equal; by rewrite <- app_assoc|].
    unfold buf. rewrite proc_read_c_string by done. unfold sprintf_page. rewrite zlen_app. change (zlen [10]) with 1.
    by replace (zlen s + 1 + 1) with (zlen s + 2) by lia.
Qed.

Lemma good_oracle_readable : obeys answers_readable good_oracle.
Proof. intros t held c. split; [apply good_oracle_conforming|]. by destruct c. Qed.

Lemma proc_session_roundtrip_witness :
  run good_oracle [] [] (session [str "first"; str "hello" ++ 0 :: [7]]) =
    Fin (Some (Some (str "hello" ++ [10]))) [(create_proc_read_entry "proc_test2", 4096); (kfree 0, 0);
      (kzalloc "ker_buf" 5, 4096); (kquery "copy_from_user" 5, 0); (kfree 4096, 0);
      (kzalloc "ker_buf" 7, 4096); (kquery "copy_from_user" 7, 0);
      (remove_proc_entry "proc_test2", 0); (kfree 4096, 0)] [].
Proof.
  destruct (proc_session_roundtrip good_oracle [str "first"] (str "hello") [7] [] good_oracle_readable
    ltac:(constructor) ltac:(by repeat constructor)) as (text & t & Hr & _).
  cbn [app] in Hr. rewrite Hr. vm_compute in Hr. by injection Hr as <- <-.
Defined.

(** After a write whose user buffer could not be read [ker_buf] points to a
    freed block: the next write, and the unload, free it again. *)
Theorem proc_failed_write_double_free b buf1 buf2 o t base :
  obeys answers o -> ker_buf b = 0 ->
  (forall t h w x, o t h (kquery w x) <> 0) ->
  (forall t h n, o t h (kzalloc "ker_buf" n) <> 0) ->
  (forall p, RMem p ∉ base) ->
  exists p t', run o t base (writes b [buf1; buf2]) = Misuse (kfree p) t' base.
Proof.
  intros Ho Hb Hq Hz Hbase. cbn [writes]. unfold proc_write. rewrite Hb. cbn [bind run settle releases Z.eqb].
  unfold settle. cbn [releases Z.eqb give_back_all acquires drops drop_all app].
  set (t1 := t ++ _). set (p := o t1 base (kzalloc "ker_buf" (zlen buf1))).
  rewrite (proj2 (Z.eqb_neq p 0) (Hz _ _ _)). cbn [app bind run]. unfold settle.
  cbn [releases give_back_all acquires drops drop_all app]. unfold c_true.
  rewrite (proj2 (Z.eqb_neq _ 0) (Hq _ _ _ _)). cbn [negb bind run]. unfold settle.
  cbn [releases]. rewrite (proj2 (Z.eqb_neq p 0) (Hz _ _ _)). cbn [give_back_all give_back res_eqb].
  rewrite Z.eqb_refl. cbn [acquires drops drop_all app bind run ker_buf]. unfold settle. cbn [releases].
  rewrite (proj2 (Z.eqb_neq p 0) (Hz _ _ _)). cbn [give_back_all].
  rewrite give_back_none by done. by do 2 eexists.
Qed.

(** A user buffer that cannot be read. *)
Definition efault_oracle : oracle := fun t h c => if c is kquery _ _ then 1 else good_oracle t h c.

Lemma proc_failed_write_double_free_witness :
  exists p t', run efault_oracle [] [] (writes no_buf [str "a"; str "b"]) = Misuse (kfree p) t' [].
Proof.
  apply proc_failed_write_double_free; [|done|done| |].
  - intros t h c. pose proof (good_oracle_conforming t h c). by destruct c.
  - intros t h n H. pose proof (top_nonneg h). cbn in H. lia.
  - intros p. apply not_elem_of_nil.
Defined.

(** Bytes without a NUL are printed past the end of the block. *)
Theorem proc_read_unterminated buf p :
  0 < p -> Forall (fun b => b <> 0) buf -> proc_read (Procbuf p buf) = None.
Proof.
  intros Hp Hb. unfold proc_read. cbn [ker_buf bytes]. rewrite (proj2 (Z.eqb_neq p 0)) by lia.
  by rewrite c_string_none.
Qed.

Lemma proc_read_unterminated_witness : proc_read (Procbuf 4096 (str "hello")) = None.
Proof. apply proc_read_unterminated; [lia|by repeat constructor]. Defined.

(** A text of 4095 bytes and more does not fit the page it is printed to. *)
Theorem proc_read_overflows s pad p :
  0 < p -> Forall (fun b => b <> 0) s -> PAGE_SIZE - 2 < zlen s -> proc_read (Procbuf p (s ++ 0 :: pad)) = None.
Proof.
  intros Hp Hs Hl. rewrite proc_read_c_string by done. unfold sprintf_page. rewrite zlen_app. change (zlen [10]) with 1.
  by rewrite (proj2 (Z.leb_gt _ _)) by lia.
Qed.

Lemma proc_read_overflows_witness : proc_read (Procbuf 4096 (replicate 4095 65 ++ [0])) = None.
Proof. apply proc_read_overflows; [lia|apply Forall_replicate; lia|vm_compute; reflexivity]. Defined.
