(* ===== verification/ProcText.v ===== *)
(** * time/my_time.c, time/my_delay.c and the /proc file of protect/pipe.c

    The texts these handlers print with [sprintf] into the page that the
    kernel gives them, which nothing in the code checks. *)
From stdpp Require Import strings.
From S2P Require Import Prelude Kernel.
From S2P Require Pipe.
Local Open Scope Z_scope.

(** [%lx]: hexadecimal without leading zeros; 16 digits are enough for 64
    bits. *)
Definition hex_digit (d : Z) : Z := if d <? 10 then 48 + d else 87 + d.

Fixpoint hexits (fuel : nat) (n : Z) : list Z :=
  match fuel with
  | O => []
  | S fuel' => if n <? 16 then [hex_digit n] else hexits fuel' (n / 16) ++ [hex_digit (n mod 16)]
  end.
Definition hex (n : Z) : list Z := hexits 16 (u64 n).

(** [%p]: 16 hexadecimal digits. *)
Fixpoint pointer_digits (k : nat) (n : Z) : list Z :=
  match k with O => [] | S k' => pointer_digits k' (n / 16) ++ [hex_digit (n mod 16)] end.
Definition pointer (p : Z) : list Z := pointer_digits 16 (u64 p).

Definition newline : list Z := [10].

(** ** time/my_time.c and time/my_delay.c *)

(** What the clocks show at one reading: [jiffies], [jiffies_64] and the
    fields of [timeval] and [timespec], all [long] or 64 bits wide. *)
Record clock := Clock { jiffies : Z; jiffies_64 : Z; tv_sec : Z; tv_usec : Z; ts_sec : Z; ts_nsec : Z }.

Definition clock_lines (c : clock) : list Z :=
  str "Use jiffies: 0x" ++ hex (jiffies c) ++ newline ++
  str "Use jiffies_64: 0x" ++ hex (jiffies_64 c) ++ newline ++
  str "Use timeval: " ++ dec (s64 (tv_sec c)) ++ str "s, " ++ dec (s64 (tv_usec c)) ++ str "us" ++ newline ++
  str "Use timespec: " ++ dec (s64 (ts_sec c)) ++ str "s, " ++ dec (s64 (ts_nsec c)) ++ str "ns" ++ newline.

(** [my_proc] of time/my_time.c *)
Definition time_proc (c : clock) : list Z := str "Current time is: " ++ newline ++ clock_lines c.

(** [my_proc] of time/my_delay.c: a reading, and one after each delay. *)
Definition delay_proc (c c_ns c_us c_ms : clock) : list Z :=
  str "Current time is: " ++ newline ++ clock_lines c ++
  newline ++ str "----Delay 300ns---- " ++ newline ++ clock_lines c_ns ++
  newline ++ str "----Delay 300us---- " ++ newline ++ clock_lines c_us ++
  newline ++ str "----Delay 300ms----" ++ newline ++ clock_lines c_ms.

(** Loading ignores whether the entry could be made. *)
Definition time_init : prog (Z * unit) := do! create_proc_read_entry "proc_time" ;; Ret (0, tt).
Definition time_exit (_ : unit) : prog unit := do! remove_proc_entry "proc_time" ;; Ret tt.
Definition delay_init : prog (Z * unit) := do! create_proc_read_entry "proc_sdelay" ;; Ret (0, tt).
Definition delay_exit (_ : unit) : prog unit := do! remove_proc_entry "proc_sdelay" ;; Ret tt.

#[global] Instance time_balanced : Balanced time_init time_exit.
Proof. kbalanced time_init time_exit. Qed.
#[global] Instance delay_balanced : Balanced delay_init delay_exit.
Proof. kbalanced delay_init delay_exit. Qed.

(** ** protect/pipe.c: [my_proc] *)
Definition pipe_proc (d : Pipe.mydev) : list Z :=
  str "------Buffer-----" ++ newline ++
  str "Readers: " ++ dec (s32 (Pipe.nreaders d)) ++ str " ; Writers: " ++ dec (s32 (Pipe.nwriters d)) ++ newline ++
  str "Start from 0x" ++ pointer (Pipe.start d) ++ str ", end in 0x" ++ pointer (Pipe.end_ d) ++ newline ++
  str "Wp: 0x" ++ pointer (Pipe.wp d) ++ str " ; Rp: 0x" ++ pointer (Pipe.rp d) ++ newline.

(** ** Lemmas *)

(** The lengths of the constant pieces of a text. *)
Ltac text_len :=
  repeat rewrite zlen_app;
  change (zlen newline) with 1;
  repeat match goal with
  | |- context [zlen (str ?s)] => let v := eval vm_compute in (zlen (str s)) in change (zlen (str s)) with v
  end.

Lemma digits_fuel fuel n : zlen (digits fuel n) <= Z.of_nat fuel.
Proof.
  revert n. induction fuel as [|fuel IH]; intros n; cbn [digits]; [done|].
  destruct (n <? 10); [unfold zlen; cbn; lia|]. rewrite zlen_app. specialize (IH (n / 10)). unfold zlen in *. cbn. lia.
Qed.

Lemma dec_fuel z : zlen (dec z) <= 21.
Proof.
  unfold dec. destruct (z <? 0); rewrite ?zlen_cons;
    [pose proof (digits_fuel 20 (- z))|pose proof (digits_fuel 20 z)]; lia.
Qed.

Lemma hexits_fuel fuel n : zlen (hexits fuel n) <= Z.of_nat fuel.
Proof.
  revert n. induction fuel as [|fuel IH]; intros n; cbn [hexits]; [done|].
  destruct (n <? 16); [unfold zlen; cbn; lia|]. rewrite zlen_app. specialize (IH (n / 16)). unfold zlen in *. cbn. lia.
Qed.

Lemma hex_len n : zlen (hex n) <= 16.
Proof. apply (hexits_fuel 16). Qed.

Lemma pointer_len p : zlen (pointer p) = 16.
Proof.
  unfold pointer. generalize (u64 p). assert (forall k n, zlen (pointer_digits k n) = Z.of_nat k) as H; [|intros; apply (H 16%nat)].
  induction k as [|k IH]; intros n; cbn [pointer_digits]; [done|]. rewrite zlen_app, IH. unfold zlen. cbn. lia.
Qed.

Lemma clock_lines_len c : zlen (clock_lines c) <= 190.
Proof.
  unfold clock_lines.
  pose proof (hex_len (jiffies c)). pose proof (hex_len (jiffies_64 c)).
  pose proof (dec_fuel (s64 (tv_sec c))). pose proof (dec_fuel (s64 (tv_usec c))).
  pose proof (dec_fuel (s64 (ts_sec c))). pose proof (dec_fuel (s64 (ts_nsec c))).
  text_len. lia.
Qed.

(** Whatever the clocks show, the texts with their NUL fit the page: at most
    209 bytes for /proc/proc_time, 846 for /proc/proc_sdelay and 203 for the
    pipe's file. *)
Theorem proc_texts_fit c c_ns c_us c_ms d :
  zlen (time_proc c) + 1 <= 209 /\ zlen (delay_proc c c_ns c_us c_ms) + 1 <= 846 /\
  zlen (pipe_proc d) + 1 <= 203.
Proof.
  pose proof (clock_lines_len c). pose proof (clock_lines_len c_ns).
  pose proof (clock_lines_len c_us). pose proof (clock_lines_len c_ms).
  split; [|split].
  - unfold time_proc. text_len. lia.
  - unfold delay_proc. text_len. lia.
  - unfold pipe_proc. text_len. rewrite !pointer_len.
    pose proof (dec_fuel (s32 (Pipe.nreaders d))). pose proof (dec_fuel (s32 (Pipe.nwriters d))). lia.
Qed.

(** The hexadecimal texts are read back: the value of [%lx]. *)
Definition hex_value (c : Z) : Z := if c <? 58 then c - 48 else c - 87.
Definition of_hex (l : list Z) : Z := fold_left (fun a c => a * 16 + hex_value c) l 0.

Lemma hex_digit_value d : 0 <= d < 16 -> hex_value (hex_digit d) = d.
Proof. intros Hd. unfold hex_value, hex_digit. zcase; lia. Qed.

Lemma of_hexits fuel n : 0 <= n < 16 ^ Z.of_nat (S fuel) -> of_hex (hexits (S fuel) n) = n.
Proof.
  revert n. induction fuel as [|fuel IH]; intros n Hn.
  - cbn [hexits]. destruct (Z.ltb_spec n 16); [|cbn in Hn; lia]. unfold of_hex. cbn. rewrite hex_digit_value; lia.
  - change (hexits (S (S fuel)) n) with
      (if n <? 16 then [hex_digit n] else hexits (S fuel) (n / 16) ++ [hex_digit (n mod 16)]).
    destruct (Z.ltb_spec n 16); [unfold of_hex; cbn; rewrite hex_digit_value; lia|].
    rewrite Nat2Z.inj_succ, Z.pow_succ_r in Hn by lia.
    unfold of_hex. rewrite fold_left_app. cbn [fold_left]. fold (of_hex (hexits (S fuel) (n / 16))).
    rewrite IH by (split; [apply Z.div_pos; lia|apply Z.div_lt_upper_bound; lia]).
    rewrite hex_digit_value by (apply Z.mod_pos_bound; lia). rewrite Z.mul_comm. symmetry. apply Z.div_mod. lia.
Qed.

(** /proc/proc_time, /proc/proc_sdelay and the pipe's file: the texts fit
    the page they are printed into, whatever the values, and the jiffies
    printed in hexadecimal are read back exactly. *)
Theorem proc_text_bounds c c_ns c_us c_ms d :
  zlen (time_proc c) + 1 <= 209 /\ zlen (delay_proc c c_ns c_us c_ms) + 1 <= 846 /\
  zlen (pipe_proc d) + 1 <= 203 /\
  (exists rest, time_proc c = str "Current time is: " ++ newline ++ str "Use jiffies: 0x" ++ hex (jiffies c) ++ newline ++ rest) /\
  of_hex (hex (jiffies c)) = u64 (jiffies c).
Proof.
  destruct (proc_texts_fit c c_ns c_us c_ms d) as (H1 & H2 & H3). split; [done|]. split; [done|]. split; [done|].
  split; [by eexists|]. unfold hex. apply (of_hexits 15). apply wrapu_range. lia.
Qed.
