(* ===== verification/FsTree.v ===== *)
(** * The teaching file systems: names, root and mount

    Each directory of fs/ is one file system of a course; its inode.c answers
    [lookup] and [readdir] for a root directory with one file, its super.c
    fills the super block, and its file_system.c or super.c registers the file
    system type.  The copies of a routine share a definition here.

    A [lookup] is a program over the kernel calls; what it tells the VFS is the
    inode whose fields it set, or no inode (a negative dentry).  A [readdir] is
    a function of the position, and of whether the caller's buffer has room.
    Mounting and unloading are the steps of a system with the reference count
    of the module. *)
From stdpp Require Import sets strings.
From S2P Require Import Prelude Kernel.
Local Open Scope Z_scope.

(** ** Inodes and directory entries *)
Record inode := Inode { i_ino : Z; i_mode : Z; i_uid : Z; i_gid : Z; i_size : Z }.
Record dirent := Dirent { d_name : string; d_ino : Z; d_type : Z }.

Definition S_IFDIR : Z := 0x4000.
Definition DT_REG : Z := 8.

(** The file type of a mode, as a [d_type]: the bits of S_IFMT. *)
Definition dt_of (mode : Z) : Z := Z.shiftr (Z.land mode 0xf000) 12.

(** ** lookup

    The result: the static variable [private_inode] of the file system with
    what was stored in the inode, the dentry returned, the inode found. *)
Definition static : Type := option (Z * inode).
Definition found : Type := static * (Z * option inode).

(** [iget_locked], the fields, [unlock_new_inode], [d_splice_alias]; [st] gives
    the static variable from the pointer. *)
Definition iget_and_splice (sb : Z) (i : inode) (st : Z -> static) : prog found :=
  call! p <- iget_locked sb (i_ino i) ;;
  if p =? 0 then Oops "inode->i_mode of NULL inode"
  else
    do! kquery "unlock_new_inode" p ;;
    call! d <- d_splice_alias p ;;
    Ret (st p, (d, Some i)).

Definition min_root_lookup (sb : Z) (name : string) (st : static) : prog found :=
  iget_and_splice sb (Inode 123 0x666 0xde 0xad 3) (fun _ => st).

Definition block_page_read_lookup (sb : Z) (name : string) (st : static) : prog found :=
  iget_and_splice sb (Inode 123 0x6660 0xde 0xad 3) (fun _ => st).

Definition submit_bh_lookup (sb : Z) (name : string) (st : static) : prog found :=
  iget_and_splice sb (Inode 123 0x6660 0xde 0xad 3) (fun _ => st).

(** The mode 0666, that is 0x1b6; 0444 below is 0x124. *)
Definition get_block_lookup (sb : Z) (name : string) (st : static) : prog found :=
  iget_and_splice sb (Inode 123 (Z.lor 0x1b6 (Z.shiftl DT_REG 12)) 0xde 0xad 5) (fun _ => st).

Definition JOURNAL_INUM : Z := 2.

Definition journal_lookup (sb : Z) (name : string) (st : static) : prog found :=
  if String.eqb name "UUID" then
    iget_and_splice sb (Inode JOURNAL_INUM (Z.lor 0x124 (Z.shiftl DT_REG 12)) 0 0 16) (fun _ => st)
  else call! d <- d_splice_alias 0 ;; Ret (st, (d, None)).

(** fs/bread, fs/buffer_read and fs/page_cache_read look the inode up once
    and keep the pointer in [private_inode]. *)
Definition bread_lookup (sb : Z) (name : string) (st : static) : prog found :=
  match st with
  | None =>
      let i := Inode 123 0x6660 0xde 0xad 3 in
      iget_and_splice sb i (fun p => Some (p, i))
  | Some (p, i) => call! d <- d_splice_alias p ;; Ret (st, (d, Some i))
  end.

(** ** readdir

    [room]: whether the caller's buffer takes an entry; the answer of
    [filldir] and of [dir_emit], which no routine looks at.  The result: the
    new position, the returned value, the entries stored. *)
Definition emit (room : dirent -> bool) (e : dirent) : list dirent := if room e then [e] else [].

Definition filldir_readdir (room : dirent -> bool) (pos : Z) : Z * Z * list dirent :=
  if c_true pos then (pos, 0, []) else (pos + 1, 1, emit room (Dirent "test1" 233 1)).

Definition get_block_readdir (room : dirent -> bool) (pos : Z) : Z * Z * list dirent :=
  if c_true pos then (pos, 0, []) else (pos + 1, 0, emit room (Dirent "test1" 233 DT_REG)).

Definition journal_readdir (room : dirent -> bool) (pos : Z) : Z * Z * list dirent :=
  if c_true pos then (pos, 0, []) else (pos + 1, 0, emit room (Dirent "UUID" 233 DT_REG)).

(** The calls of a program that lists the directory, each with its buffer. *)
Fixpoint listing (readdir : (dirent -> bool) -> Z -> Z * Z * list dirent)
    (calls : list (dirent -> bool)) (pos : Z) : Z * list dirent :=
  match calls with
  | [] => (pos, [])
  | room :: rest =>
      let '(pos, _, es) := readdir room pos in
      let (pos, es') := listing readdir rest pos in (pos, es ++ es')
  end.

(** ** The directories of the file systems *)
Record tree := Tree {
  t_lookup : Z -> string -> static -> prog found;
  t_readdir : (dirent -> bool) -> Z -> Z * Z * list dirent }.

Definition min_root : tree := Tree min_root_lookup filldir_readdir.
Definition block_page_read : tree := Tree block_page_read_lookup filldir_readdir.
Definition min_read : tree := Tree block_page_read_lookup filldir_readdir.
Definition sb_bread_fs : tree := Tree block_page_read_lookup filldir_readdir.
Definition submit_bh_readpage : tree := Tree submit_bh_lookup filldir_readdir.
Definition bread : tree := Tree bread_lookup filldir_readdir.
Definition buffer_read : tree := Tree bread_lookup filldir_readdir.
Definition page_cache_read : tree := Tree bread_lookup filldir_readdir.
Definition get_block : tree := Tree get_block_lookup get_block_readdir.
Definition write_page : tree := Tree get_block_lookup get_block_readdir.
Definition journal : tree := Tree journal_lookup journal_readdir.
Definition jbd2 : tree := Tree journal_lookup journal_readdir.

(** With the [readdir] interface of the older kernels, with the newer one. *)
Definition old_trees : list tree :=
  [min_root; block_page_read; min_read; sb_bread_fs; submit_bh_readpage; bread; buffer_read; page_cache_read].
Definition new_trees : list tree := [get_block; write_page; journal; jbd2].

(** ** The super block *)
Record super := Super { s_blocksize : Z; s_blocksize_bits : Z; s_fs_info : Z; s_root : Z }.

(** S_IFDIR | S_IRUGO | S_IXUGO | S_IWUSR: 0444, 0111, 0200 in octal. *)
Definition root_mode : Z := Z.lor S_IFDIR (Z.lor 0x124 (Z.lor 0x49 0x80)).

(** The pointer returned, and the fields set (the size stays 0). *)
Definition get_example_fs_root_inode (s : Z) : prog (Z * inode) :=
  call! p <- new_inode s ;;
  if p =? 0 then Oops "i_ino of NULL inode" else Ret (p, Inode 1 root_mode 0 0 0).

(** [root_inode] is the [get_example_fs_root_inode] the file is linked with. *)
Definition fill_super_with (root_inode : Z -> prog (Z * inode)) (s : Z) : prog (Z * super) :=
  let! (inode, _) <- root_inode s ;;
  if inode =? 0 then Ret (- ENOMEM, Super 1024 10 0 0)
  else
    call! root <- d_make_root inode ;;
    if c_true root then Ret (0, Super 1024 10 0 root) else Ret (- ENOMEM, Super 1024 10 0 0).

Definition example_fill_super : Z -> prog (Z * super) := fill_super_with get_example_fs_root_inode.

(** fs/min_mountable/fill_super.c: with a private structure. *)
Definition new_example_fs_info (s : Z) : prog Z :=
  call! fsi <- kzalloc "struct example_fs_info" 1 ;; Ret fsi.

Definition min_mountable_fill_super (s : Z) : prog (Z * super) :=
  let! fsi <- new_example_fs_info s ;;
  if fsi =? 0 then Ret (- ENOMEM, Super 1024 10 0 0)
  else
    call! inode <- new_inode s ;;
    if inode =? 0 then Ret (- ENOMEM, Super 1024 10 fsi 0)
    else
      call! root <- d_make_root inode ;;
      if c_true root then Ret (0, Super 1024 10 fsi root) else Ret (- ENOMEM, Super 1024 10 fsi 0).

(** [kill_sb]: [kill_block_super] and [kill_litter_super] of the kernel drop
    the root; min_mountable's [example_kill_sb] does no more. *)
Definition example_kill_sb (sb : super) : prog unit := do! kill_super (s_root sb) ;; Ret tt.

(** Mount and unmount; the kernel calls [kill_sb] also when [fill_super] has
    failed. *)
Definition mount_cycle (fill : Z -> prog (Z * super)) (s : Z) : prog Z :=
  let! (ret, sb) <- fill s ;;
  let! _ <- example_kill_sb sb ;;
  Ret ret.

(** ** Registration *)
Definition init_example_fs : prog (Z * unit) :=
  call! err <- register_filesystem "example_fs" ;;
  if c_true err then do! unregister_filesystem "example_fs" ;; Ret (err, tt) else Ret (err, tt).

Definition exit_example_fs (_ : unit) : prog unit :=
  do! unregister_filesystem "example_fs" ;; Ret tt.

(** ** Mounting and unloading

    [supers]: super blocks of the file system; [killing]: calls of [kill_sb]
    in progress, which return into the module; [Going]: [rmmod] has begun and
    the file system is still registered. *)
Inductive phase := Loaded | Going | Gone.
Record kmod := Kmod { ph : phase; refs : Z; supers : Z; killing : Z }.

(** What [mount_bdev] finds: a new super block that [fill_super] can or
    cannot fill, a device mounted already, no such device. *)
Inductive bdev := NewSuper | FillFails | OldSuper | OpenFails.

Inductive mounted := Root | ErrPtr | Null.

(** [begin_kill]: the part of [kill_sb] before its call of the kernel. *)
Definition begin_killing (begin_kill : Z -> Z) (m : kmod) : kmod :=
  Kmod (ph m) (begin_kill (refs m)) (supers m) (killing m + 1).

Definition mount_bdev (begin_kill : Z -> Z) (b : bdev) (m : kmod) : kmod * mounted :=
  match b with
  | NewSuper => (Kmod (ph m) (refs m) (supers m + 1) (killing m), Root)
  | OldSuper => (m, Root)
  | OpenFails => (m, ErrPtr)
  | FillFails => (begin_killing begin_kill m, ErrPtr)
  end.

(** fs/get_block, fs/write_page, fs/submit_bh_readpage, fs/journal, fs/jbd2 *)
Definition example_kill_block_super (refs : Z) : Z := refs - 1.

Definition pinned_fs_mount (b : bdev) (m : kmod) : kmod * mounted :=
  match ph m with
  | Loaded => mount_bdev example_kill_block_super b (Kmod (ph m) (refs m + 1) (supers m) (killing m))
  | _ => (m, Null)
  end.

(** The other file systems: no reference is taken, [kill_sb] is the kernel's. *)
Definition plain_fs_mount (b : bdev) (m : kmod) : kmod * mounted := mount_bdev id b m.

Record fs_type := FsType { fs_mount : bdev -> kmod -> kmod * mounted; fs_kill_sb : Z -> Z }.
Definition pinned_fs : fs_type := FsType pinned_fs_mount example_kill_block_super.
Definition plain_fs : fs_type := FsType plain_fs_mount id.

Inductive event := Mount (b : bdev) | Umount | KillDone | Rmmod | ExitDone.

Definition act (f : fs_type) (m : kmod) (e : event) : option (kmod * option mounted) :=
  match e with
  | Mount b =>
      match ph m with
      | Gone => None
      | _ => if match b with OldSuper => 0 <? supers m | _ => true end
             then let (m', r) := fs_mount f b m in Some (m', Some r) else None
      end
  | Umount =>
      if 0 <? supers m
      then Some (begin_killing (fs_kill_sb f) (Kmod (ph m) (refs m) (supers m - 1) (killing m)), None)
      else None
  | KillDone =>
      if 0 <? killing m then Some (Kmod (ph m) (refs m) (supers m) (killing m - 1), None) else None
  | Rmmod =>
      match ph m with
      | Loaded => if refs m =? 0 then Some (Kmod Going (refs m) (supers m) (killing m), None) else None
      | _ => None
      end
  | ExitDone => match ph m with Going => Some (Kmod Gone (refs m) (supers m) (killing m), None) | _ => None end
  end.

Definition step (f : fs_type) (m m' : kmod) : Prop := exists e r, act f m e = Some (m', r).

Fixpoint acts (f : fs_type) (m : kmod) (l : list event) : option kmod :=
  match l with
  | [] => Some m
  | e :: l' => match act f m e with Some (m', _) => acts f m' l' | None => None end
  end.

Definition fresh : kmod := Kmod Loaded 0 0 0.

(** ** Lemmas *)
Lemma iget_and_splice_run o t base sb i st :
  let p := o t base (iget_locked sb (i_ino i)) in
  p <> 0 ->
  exists t' d, run o t base (iget_and_splice sb i st) = Fin (st p, (d, Some i)) t' base.
Proof.
  intros p Hp. unfold iget_and_splice. cbn [run]. fold p. unfold settle.
  cbn [releases acquires drops give_back_all drop_all].
  rewrite (proj2 (Z.eqb_neq _ _) Hp). cbn [app run]. unfold settle.
  cbn [releases acquires drops give_back_all drop_all app run]. unfold settle.
  cbn [releases acquires drops]. rewrite (proj2 (Z.eqb_neq _ _) Hp).
  cbn [give_back_all]. rewrite give_back_head. cbn. by eexists _, _.
Qed.

Lemma iget_and_splice_null o t base sb i st :
  o t base (iget_locked sb (i_ino i)) = 0 ->
  exists w t', run o t base (iget_and_splice sb i st) = Fault w t' base.
Proof.
  intros Hp. unfold iget_and_splice. cbn [run]. rewrite Hp. cbn. by eexists _, _.
Qed.

(** The entry of a directory. *)
Definition entry (t : tree) : option dirent := head (snd (t_readdir t (fun _ => true) 0)).

(** ** Properties *)

(** Listing the root directory of a teaching file system, in any number of
    calls with any buffers, ends after the first call: its one entry is
    delivered once if the first buffer has room for it, and is lost if not. *)
Theorem listing_once t room rest :
  t ∈ old_trees ++ new_trees ->
  exists e, entry t = Some e /\
    listing (t_readdir t) (room :: rest) 0 = (1, emit room e) /\
    forall calls pos, pos <> 0 -> listing (t_readdir t) calls pos = (pos, []).
Proof.
  assert (forall r, (forall room pos, pos <> 0 -> exists ret, r room pos = (pos, ret, [])) ->
    forall calls pos, pos <> 0 -> listing r calls pos = (pos, [])) as Hend.
  { intros r Hr calls. induction calls as [|c calls IH]; intros pos Hp; [done|].
    cbn. destruct (Hr c pos Hp) as [ret ->]. by rewrite (IH pos Hp). }
  assert (forall r e ret, (forall room pos, r room pos = if c_true pos then (pos, 0, []) else (pos + 1, ret, emit room e)) ->
    forall room rest, listing r (room :: rest) 0 = (1, emit room e) /\
      forall calls pos, pos <> 0 -> listing r calls pos = (pos, [])) as Hall.
  { intros r e ret Hr room' rest'.
    assert (forall calls pos, pos <> 0 -> listing r calls pos = (pos, [])) as He.
    { apply Hend. intros room0 pos Hp. exists 0. rewrite Hr. unfold c_true. by rewrite (proj2 (Z.eqb_neq _ _) Hp). }
    split; [|exact He]. cbn. rewrite Hr. cbn. rewrite He by done. by rewrite app_nil_r. }
  intros Ht. unfold old_trees, new_trees in Ht. cbn [app] in Ht.
  repeat (apply elem_of_cons in Ht as [->|Ht]; [eexists; split; [reflexivity|by eapply Hall]|]).
  by apply elem_of_nil in Ht.
Qed.

Lemma listing_once_witness :
  listing (t_readdir jbd2) [(fun e => String.eqb (d_name e) "UUID"); (fun _ => true)] 0 = (1, [Dirent "UUID" 233 8]).
Proof.
  destruct (listing_once jbd2 (fun e => String.eqb (d_name e) "UUID") [(fun _ => true)] ltac:(set_solver))
    as (e & He & Hl & _). injection He as <-. exact Hl.
Defined.

(** C17: The one file of each teaching file system.  Listing the root
    directory in any number of calls delivers one entry, in the first call if
    its buffer has room, and from any other position nothing.  The first lookup
    of the name of that entry finds, whenever [iget_locked] returns an inode, one
    and the same inode, and holds nothing afterwards; when it returns none the
    lookup dereferences NULL.  In the file systems with the newer [readdir]
    interface entry and inode are both regular files; in the older ones the
    entry says a FIFO (1 is not DT_REG) and the inode is a block device or has
    no type.  The inode number of the entry is nowhere that of the inode. *)
Theorem listed_types t :
  t ∈ old_trees ++ new_trees ->
  exists e i,
    (forall room rest, listing (t_readdir t) (room :: rest) 0 = (1, emit room e)) /\
    (forall calls pos, pos <> 0 -> listing (t_readdir t) calls pos = (pos, [])) /\
    (forall o tr base sb, o tr base (iget_locked sb (i_ino i)) <> 0 ->
       exists st d tr', run o tr base (t_lookup t sb (d_name e) None) = Fin (st, (d, Some i)) tr' base) /\
    (forall o tr base sb, o tr base (iget_locked sb (i_ino i)) = 0 ->
       exists w tr', run o tr base (t_lookup t sb (d_name e) None) = Fault w tr' base) /\
    d_ino e <> i_ino i /\
    ((t ∈ new_trees /\ d_type e = DT_REG /\ dt_of (i_mode i) = DT_REG) \/
     (t ∈ old_trees /\ d_type e = 1 /\ dt_of (i_mode i) ∈ [0; 6])).
Proof.
  intros Ht. destruct (listing_once t (fun _ => true) [] Ht) as (e & He & _ & Hend).
  assert (exists i st, (forall sb, t_lookup t sb (d_name e) None = iget_and_splice sb i st) /\
    d_ino e <> i_ino i /\
    ((t ∈ new_trees /\ d_type e = DT_REG /\ dt_of (i_mode i) = DT_REG) \/
     (t ∈ old_trees /\ d_type e = 1 /\ dt_of (i_mode i) ∈ [0; 6]))) as (i & st & Hl & Hino & Htypes).
  { unfold old_trees, new_trees in Ht. cbn [app] in Ht.
    repeat (apply elem_of_cons in Ht as [->|Ht]; [injection He as <-; do 2 eexists; split; [intros sb; reflexivity|];
      (split; [done|]; first
        [right; split; [unfold old_trees; set_solver|by split; [|cbn; set_solver]]
        |left; split; [unfold new_trees; set_solver|by split]])|]).
    by apply elem_of_nil in Ht. }
  exists e, i. split; [|split; [exact Hend|split; [|split; [|by split]]]].
  - intros room rest. destruct (listing_once t room rest Ht) as (e' & He' & H & _). rewrite He in He'. by injection He' as <-.
  - intros o tr base sb Hp. rewrite Hl. destruct (iget_and_splice_run o tr base sb i st Hp) as (tr' & d & Hr). by do 3 eexists.
  - intros o tr base sb Hp. rewrite Hl. by apply iget_and_splice_null.
Qed.

Lemma listed_types_witness :
  exists e i, d_ino e <> i_ino i /\ listing (t_readdir get_block) [(fun _ => true)] 0 = (1, [e]) /\
    exists st d tr', run good_oracle [] [] (t_lookup get_block 7 (d_name e) None) = Fin (st, (d, Some i)) tr' [].
Proof.
  destruct (listed_types get_block ltac:(set_solver)) as (e & i & Hl & _ & Hf & _ & Hino & _).
  exists e, i. split; [exact Hino|]. split; [apply (Hl (fun _ => true) [])|]. apply Hf. by cbn.
Defined.

(** [lookup] hands the reference to its inode to the dentry and holds
    nothing afterwards, whenever [iget_locked] returns an inode.  The journal
    file systems find the name that [readdir] lists and answer any other with a
    negative dentry; in the others every name is the same file. *)
Theorem lookup_names o tr base sb name :
  (forall ino, o tr base (iget_locked sb ino) <> 0) ->
  (forall t, t ∈ old_trees ++ [get_block; write_page] -> exists a st tr' d, i_ino a = 123 /\
     run o tr base (t_lookup t sb name None) = Fin (st, (d, Some a)) tr' base) /\
  (forall t, t ∈ [journal; jbd2] -> exists e a st tr' d, entry t = Some e /\ i_ino a = JOURNAL_INUM /\
     run o tr base (t_lookup t sb name None) =
       Fin (st, (d, if String.eqb name (d_name e) then Some a else None)) tr' base).
Proof.
  intros Hget.
  assert (forall a st, exists tr' d, run o tr base (iget_and_splice sb a st) =
    Fin (st (o tr base (iget_locked sb (i_ino a))), (d, Some a)) tr' base) as Hs.
  { intros a st. apply iget_and_splice_run, Hget. }
  split; intros t Ht.
  - unfold old_trees in Ht. cbn [app] in Ht.
    repeat (apply elem_of_cons in Ht as [->|Ht];
      [edestruct Hs as (tr' & d & Hr); do 4 eexists; (split; [|exact Hr]); reflexivity|]).
    by apply elem_of_nil in Ht.
  - assert (t_lookup t = journal_lookup /\ entry t = Some (Dirent "UUID" 233 DT_REG)) as [-> ->].
    { repeat (apply elem_of_cons in Ht as [->|Ht]; [done|]). by apply elem_of_nil in Ht. }
    destruct (Hs (Inode JOURNAL_INUM 0x8124 0 0 16) (fun _ => None)) as (tr1 & d1 & Hr1).
    do 2 eexists. unfold journal_lookup. destruct (String.eqb name "UUID") eqn:En.
    + do 3 eexists. split; [reflexivity|]. split; [|cbn [d_name]; rewrite En; exact Hr1]. reflexivity.
    + do 3 eexists. split; [reflexivity|]. split; [|cbn [d_name]; rewrite En; reflexivity]. exact (eq_refl (i_ino (Inode 2 0 0 0 0))).
Qed.

Lemma lookup_names_witness :
  exists e a st tr' d, entry jbd2 = Some e /\ i_ino a = JOURNAL_INUM /\
     run good_oracle [] [] (t_lookup jbd2 7 "uuid" None) =
       Fin (st, (d, if String.eqb "uuid" (d_name e) then Some a else None)) tr' [].
Proof.
  apply (lookup_names good_oracle [] [] 7 "uuid"); [by intros ino|set_solver].
Defined.

(** Fs/bread, fs/buffer_read and fs/page_cache_read keep a pointer in
    [private_inode] and the reference goes to the first dentry: the second
    lookup of the module hands out a reference it does not have. *)
Theorem second_lookup_unowned t o tr base sb name name' :
  t ∈ [bread; buffer_read; page_cache_read] ->
  let p := o tr base (iget_locked sb 123) in
  p <> 0 -> RInode p ∉ base ->
  exists tr', run o tr base
    (let! (st, _) <- t_lookup t sb name None ;; t_lookup t sb name' st) = Misuse (d_splice_alias p) tr' base.
Proof.
  intros Ht p Hp Hb.
  assert (t_lookup t = bread_lookup) as ->.
  { repeat (apply elem_of_cons in Ht as [->|Ht]; [done|]). by apply elem_of_nil in Ht. }
  eexists. unfold bread_lookup at 1, iget_and_splice. cbn [bind run]. unfold settle.
  cbn [releases acquires drops give_back_all drop_all i_ino]. fold p.
  rewrite (proj2 (Z.eqb_neq _ _) Hp). cbn [app bind run]. unfold settle.
  cbn [releases acquires drops give_back_all drop_all app run]. unfold settle.
  cbn [releases acquires drops]. rewrite (proj2 (Z.eqb_neq _ _) Hp).
  cbn [give_back_all]. rewrite give_back_head. cbn [drop_all app bind bread_lookup run]. unfold settle.
  cbn [releases]. rewrite (proj2 (Z.eqb_neq _ _) Hp). cbn [give_back_all].
  rewrite (give_back_none _ _ Hb). reflexivity.
Qed.

Lemma second_lookup_unowned_witness :
  exists tr', run good_oracle [] []
    (let! (st, _) <- t_lookup bread 7 "test1" None ;; t_lookup bread 7 "test1" st) = Misuse (d_splice_alias 4096) tr' [].
Proof.
  apply (second_lookup_unowned bread good_oracle [] [] 7 "test1" "test1"); [set_solver|done|].
  by apply not_elem_of_nil.
Defined.

(** ** The super block *)

(** [example_fill_super] on every answer of the kernel: without an inode it
    crashes, since the NULL check comes after the fields are set; without a root dentry
    it returns -ENOMEM and holds nothing; else the super block has its root and a
    block size that agrees with its number of bits. *)
Theorem fill_super_outcomes o tr base s :
  conforming o ->
  let inode := o tr base (new_inode s) in
  let tr1 := tr ++ [(new_inode s, inode)] in
  let root := o tr1 (RInode inode :: base) (d_make_root inode) in
  run o tr base (example_fill_super s) =
    (if inode =? 0 then Fault "i_ino of NULL inode" tr1 base
     else if root =? 0 then Fin (- ENOMEM, Super 1024 10 0 0) (tr1 ++ [(d_make_root inode, root)]) base
     else Fin (0, Super 1024 10 0 root) (tr1 ++ [(d_make_root inode, root)]) (RDentry root :: base)) /\
  forall ret sb tr' h, run o tr base (example_fill_super s) = Fin (ret, sb) tr' h ->
    s_blocksize sb = 2 ^ s_blocksize_bits sb.
Proof.
  intros Ho inode tr1 root.
  assert (run o tr base (example_fill_super s) =
    (if inode =? 0 then Fault "i_ino of NULL inode" tr1 base
     else if root =? 0 then Fin (- ENOMEM, Super 1024 10 0 0) (tr1 ++ [(d_make_root inode, root)]) base
     else Fin (0, Super 1024 10 0 root) (tr1 ++ [(d_make_root inode, root)]) (RDentry root :: base))) as Hr.
  { unfold example_fill_super, fill_super_with, get_example_fs_root_inode. cbn [bind run]. fold inode. unfold settle at 1.
    cbn [releases acquires drops give_back_all drop_all].
    destruct (inode =? 0) eqn:Ei; cbn [app bind run]; [done|]. rewrite Ei. cbn [run]. fold tr1. fold root.
    unfold settle, c_true. cbn [releases acquires drops]. rewrite Ei. cbn [give_back_all].
    rewrite give_back_head. cbn [drop_all]. destruct (root =? 0); done. }
  split; [exact Hr|]. intros ret sb tr' h. rewrite Hr.
  destruct (inode =? 0), (root =? 0); intros H; try done; by injection H as <- <- _ _.
Qed.

Lemma fill_super_outcomes_witness :
  exists tr', run good_oracle [] [] (example_fill_super 7) = Fin (0, Super 1024 10 0 4096) tr' [RDentry 4096].
Proof. eexists. exact (proj1 (fill_super_outcomes good_oracle [] [] 7 good_oracle_conforming)). Defined.

(** The contract of the calls where memory for inodes is never short. *)
Definition inodes_granted (held : list res) (c : kcall) (r : Z) : Prop :=
  answers held c r /\ match c with new_inode _ => r <> 0 | _ => True end.

Ltac mount_goal :=
  intros; unfold mount_cycle, example_kill_sb; krun; cbn [s_root]; krun;
  repeat match goal with H : inodes_granted _ _ _ |- _ => destruct H as [? ?] end;
  zbool; try done; try (exfalso; congruence).

Lemma mount_cycle_safe s tr base :
  safe inodes_granted (mount_cycle example_fill_super s) tr base (fun _ _ h => h = base).
Proof. unfold example_fill_super, fill_super_with, get_example_fs_root_inode. mount_goal. Qed.

Lemma min_mountable_cycle_safe s tr base :
  safe inodes_granted (mount_cycle min_mountable_fill_super s) tr base
    (fun _ tr' h => exists p rest, tr' = tr ++ (kzalloc "struct example_fs_info" 1, p) :: rest /\
       h = if p =? 0 then base else RMem p :: base).
Proof.
  unfold min_mountable_fill_super, new_example_fs_info. mount_goal.
  all: rewrite <- ?app_assoc; do 2 eexists; split; [reflexivity|].
  all: match goal with |- context [?x =? 0] => by destruct (Z.eqb_spec x 0) end.
Qed.

(** A mount that gets its inode, and the unmount or the clean-up after its
    failure, give everything back; the one of fs/min_mountable leaves the
    private structure behind whenever it could allocate it. *)
Theorem mount_cycles o tr base s :
  obeys inodes_granted o ->
  (exists ret tr', run o tr base (mount_cycle example_fill_super s) = Fin ret tr' base) /\
  (exists ret p rest, run o tr base (mount_cycle min_mountable_fill_super s) =
     Fin ret (tr ++ (kzalloc "struct example_fs_info" 1, p) :: rest) (if p =? 0 then base else RMem p :: base)).
Proof.
  intros Ho. split.
  - destruct (safe_run _ o _ tr base _ Ho (mount_cycle_safe s tr base)) as (ret & tr' & h & Hr & ->). by exists ret, tr'.
  - destruct (safe_run _ o _ tr base _ Ho (min_mountable_cycle_safe s tr base))
      as (ret & tr' & h & Hr & p & rest & -> & ->).
    by exists ret, p, rest.
Qed.

Lemma good_inodes_granted : obeys inodes_granted good_oracle.
Proof.
  intros t held c. split; [apply good_oracle_conforming|]. destruct c; try done.
  cbn. pose proof (top_nonneg held). lia.
Qed.

Lemma mount_cycles_witness :
  exists ret p rest, run good_oracle [] [] (mount_cycle min_mountable_fill_super 7) =
    Fin ret ([] ++ (kzalloc "struct example_fs_info" 1, p) :: rest) (if p =? 0 then [] else [RMem p]).
Proof. apply (mount_cycles good_oracle [] [] 7 good_inodes_granted). Defined.

(** Loading and unloading a file system module. *)
#[global] Instance example_fs_balanced : Balanced init_example_fs exit_example_fs.
Proof. kbalanced init_example_fs exit_example_fs. Qed.

(** ** Mounting and unloading *)
Record pinned_inv (m : kmod) : Prop := {
  pinned_refs : 0 <= supers m <= refs m;
  pinned_killing : 0 <= killing m;
  pinned_gone : ph m <> Loaded -> refs m = 0
}.

Lemma pinned_inv_step : preserves (step pinned_fs) pinned_inv.
Proof.
  intros [p r s k] m' [Hs Hk Hg] (e & res & Ha). cbn in *.
  destruct e as [b| | | |]; cbn in Ha.
  - destruct p; [destruct b; cbn in Ha|destruct b; cbn in Ha|done].
    all: try match type of Ha with context [0 <? ?x] => destruct (Z.ltb_spec 0 x) end; try done.
    all: injection Ha as <- _; split; cbn; unfold example_kill_block_super; try done; try lia; intros Hp; specialize (Hg Hp); lia.
  - destruct (Z.ltb_spec 0 s); [|done]. injection Ha as <- _. unfold begin_killing, example_kill_block_super.
    split; cbn; try lia. intros Hp. specialize (Hg Hp). lia.
  - destruct (Z.ltb_spec 0 k); [|done]. injection Ha as <- _. split; cbn; try lia. done.
  - destruct p; [|done..]. destruct (Z.eqb_spec r 0); [|done]. injection Ha as <- _. split; cbn; try lia.
  - destruct p; try done. injection Ha as <- _. split; cbn; try lia. intros _. by apply Hg.
Qed.

Lemma pinned_reachable m : star (step pinned_fs) fresh m -> pinned_inv m.
Proof. apply star_invariant; [apply pinned_inv_step|by split; cbn]. Qed.

Lemma fs_acts_star f m l m' : acts f m l = Some m' -> star (step f) m m'.
Proof.
  revert m. induction l as [|e l IH]; intros m H; [injection H as <-; constructor|].
  cbn in H. destruct (act f m e) as [[m1 r]|] eqn:E; [|done]. apply (star_trans _ _ m1); [|by apply IH].
  econstructor; [constructor|by exists e, r].
Qed.

(** C27: The file systems that take a module reference per mount cannot be
    unloaded while a super block is live: once [rmmod] has begun there is none,
    and a mount that arrives then gets NULL. *)
Theorem pinned_unload_safe m :
  star (step pinned_fs) fresh m -> ph m <> Loaded ->
  supers m = 0 /\ forall b m' r, act pinned_fs m (Mount b) = Some (m', r) -> m' = m /\ r = Some Null.
Proof.
  intros Hr Hp. destruct (pinned_reachable m Hr) as [Hs _ Hg]. specialize (Hg Hp). split; [lia|].
  intros b m' r. destruct m as [p rf s k]. cbn in *.
  destruct p, b; cbn; try done; try (intros H; injection H as <- <-; by split).
  destruct (0 <? s); [|done]. intros H; injection H as <- <-; by split.
Qed.

Lemma pinned_unload_safe_witness :
  acts pinned_fs fresh [Mount NewSuper; Umount; KillDone; Rmmod] = Some (Kmod Going 0 0 0) /\
  (0 = 0 /\ forall b m' r, act pinned_fs (Kmod Going 0 0 0) (Mount b) = Some (m', r) ->
     m' = Kmod Going 0 0 0 /\ r = Some Null).
Proof.
  assert (acts pinned_fs fresh [Mount NewSuper; Umount; KillDone; Rmmod] = Some (Kmod Going 0 0 0)) as H by reflexivity.
  split; [exact H|]. apply (pinned_unload_safe (Kmod Going 0 0 0) (fs_acts_star _ _ _ _ H)). done.
Defined.

(** A reference that no super block accounts for is never put. *)
Lemma leak_forever : preserves (step pinned_fs) (fun m => pinned_inv m /\ supers m < refs m /\ ph m = Loaded).
Proof.
  intros m m' (Hi & Hl & Hp) Hs. assert (pinned_inv m') as Hi' by (by eapply pinned_inv_step).
  split; [exact Hi'|]. destruct Hs as (e & res & Ha). destruct m as [p r s k], Hi as [Hs _ _]. cbn in *. subst p.
  destruct e as [b| | | |]; cbn in Ha.
  - destruct b; cbn in Ha.
    all: try match type of Ha with context [0 <? ?x] => destruct (Z.ltb_spec 0 x) end; try done.
    all: injection Ha as <- _; unfold example_kill_block_super; cbn; split; [lia|done].
  - destruct (Z.ltb_spec 0 s); [|done]. injection Ha as <- _. unfold example_kill_block_super. cbn. split; [lia|done].
  - destruct (Z.ltb_spec 0 k); [|done]. by injection Ha as <- _.
  - destruct (Z.eqb_spec r 0); [lia|done].
  - done.
Qed.

(** The reference taken by a mount of a device that cannot be opened, or
    that is mounted already, is never put: after such a mount the module
    cannot be unloaded any more, whatever happens. *)
Theorem failed_mount_pins_forever m m1 m' r b :
  star (step pinned_fs) fresh m -> ph m = Loaded -> b = OpenFails \/ b = OldSuper ->
  act pinned_fs m (Mount b) = Some (m1, r) -> star (step pinned_fs) m1 m' ->
  act pinned_fs m' Rmmod = None.
Proof.
  intros Hr Hp Hb Ha Hs'. pose proof (pinned_reachable m Hr) as Hi.
  assert (pinned_inv m1 /\ supers m1 < refs m1 /\ ph m1 = Loaded) as H1.
  { split; [eapply pinned_inv_step; [exact Hi|by eexists _, _]|]. destruct Hi as [Hi _ _].
    destruct m as [p rf s k]. cbn in *. subst p. destruct Hb as [-> | ->]; cbn in Ha; [|destruct (0 <? s); [|done]];
    injection Ha as <- _; cbn; split; lia || done. }
  destruct (star_invariant _ _ _ _ leak_forever H1 Hs') as ([Hi' _ _] & Hl & Hp').
  unfold act. rewrite Hp'. by rewrite (proj2 (Z.eqb_neq _ _)) by lia.
Qed.

Lemma failed_mount_pins_forever_witness :
  exists m', acts pinned_fs fresh [Mount NewSuper; Mount OldSuper; Umount; KillDone] = Some m' /\
    act pinned_fs m' Rmmod = None.
Proof.
  exists (Kmod Loaded 1 0 0). split; [reflexivity|].
  apply (failed_mount_pins_forever (Kmod Loaded 1 1 0) (Kmod Loaded 2 1 0) (Kmod Loaded 1 0 0) (Some Root) OldSuper);
    [apply (fs_acts_star _ _ [Mount NewSuper]); reflexivity|done|by right|reflexivity|].
  apply (fs_acts_star _ _ [Umount; KillDone]). reflexivity.
Defined.

(** The other file systems can be unloaded while mounted; and the ones that
    take a reference put it before [kill_block_super] has returned into them. *)
Theorem unload_races :
  acts plain_fs fresh [Mount NewSuper; Rmmod; ExitDone] = Some (Kmod Gone 0 1 0) /\
  acts pinned_fs fresh [Mount NewSuper; Umount; Rmmod; ExitDone] = Some (Kmod Gone 0 0 1).
Proof. split; reflexivity. Qed.
