(* ===== verification/FsLife.v ===== *)
(** * The teaching file systems: sessions of mounts, lookups and unmounts

    Each file system module of fs/ with the routines its kernel type points
    to: fill_super of its super block source, the directory of its inode.c,
    registration.  A session loads the module, mounts, looks names up and
    unmounts on any number of devices in any order, and unloads it.  The
    journalling ones add fs/journal/super_with_journal.c and its copy in
    fs/jbd2, which keep their journal in one global variable. *)
From stdpp Require Import sets strings.
From S2P Require Import Prelude Kernel FsTree.
Local Open Scope Z_scope.

Definition BLOCKSIZE : Z := 1024.    (* s_blocksize of a mount *)

(** ** fs/journal/super_with_journal.c *)

(** [example_sync_fs]; [journal_start_commit] takes the journal's lock. *)
Definition example_sync_fs (example_journal wait : Z) : prog Z :=
  if example_journal =? 0 then Oops "journal_start_commit of NULL"
  else
    call! started <- kquery "journal_start_commit" example_journal ;;
    if c_true started && c_true wait then
      do! kquery "log_wait_commit" example_journal ;; Ret 0
    else Ret 0.

(** [example_init_journal]; the length it takes is the address of the field
    it means to read. *)
Definition example_init_journal (bdev blocksize : Z) : prog Z :=
  call! hblock <- kquery "bdev_logical_block_size" bdev ;;
  if u64 blocksize <? u64 hblock then Ret 0
  else
    do! kquery "set_blocksize" blocksize ;;
    call! bh <- sb_bread bdev 1 blocksize ;;
    if bh =? 0 then Ret 0
    else
      call! b_data <- kquery "b_data" bh ;;
      let len := u32 (b_data + 4) in
      do! brelse bh ;;
      call! journal <- journal_init_dev bdev 2 len blocksize ;;
      if journal =? 0 then Ret 0
      else
        let out_journal := Call (journal_destroy journal) (fun _ => Ret 0) in
        let check_users :=
          call! users <- kquery "s_nr_users" journal ;;
          if u32 users =? 1 then Ret journal else out_journal in
        call! uptodate <- kquery "bh_uptodate_or_lock" journal ;;
        if c_true uptodate then check_users
        else
          call! err <- kquery "bh_submit_read" journal ;;
          if c_true err then out_journal else check_users.

(** [example_fill_super] of the journalling file systems for the device of
    super block [s]; the last component is the new [example_journal]. *)
Definition journal_fill_super_with (root_inode : Z -> prog (Z * inode)) (s : Z) : prog (Z * super * Z) :=
  let! (inode, _) <- root_inode s ;;
  if inode =? 0 then Ret (- ENOMEM, Super BLOCKSIZE 10 0 0, 0)
  else
    let! example_journal <- example_init_journal s BLOCKSIZE ;;
    call! err <- journal_load example_journal ;;
    if c_true err then do! journal_destroy example_journal ;; Ret (err, Super BLOCKSIZE 10 0 0, 0)
    else
      call! root <- d_make_root inode ;;
      if c_true root then Ret (0, Super BLOCKSIZE 10 0 root, example_journal)
      else Ret (- ENOMEM, Super BLOCKSIZE 10 0 0, example_journal).

Definition journal_root_inode : Z -> prog (Z * inode) := get_example_fs_root_inode.
Definition journal_fill_super : Z -> prog (Z * super * Z) := journal_fill_super_with journal_root_inode.

(** fs/jbd2/super_with_journal.c: the same text without [sync_fs]. *)
Definition jbd2_root_inode : Z -> prog (Z * inode) := get_example_fs_root_inode.
Definition jbd2_init_journal : Z -> Z -> prog Z := example_init_journal.
Definition jbd2_fill_super : Z -> prog (Z * super * Z) := journal_fill_super_with jbd2_root_inode.

(** ** The modules *)

(** The static variables of a module: [private_inode] of its inode.c,
    [example_journal] of its super block source. *)
Record statics := Statics { private_inode : static; example_journal : Z }.

Definition no_statics : statics := Statics None 0.

(** [fm_fill]: the fill_super a mount is given, [None] for NULL; [fm_sync]:
    sync_fs, called when a super block goes; [fm_tree]: [None] for the kernel's simple
    directory operations; [fm_type]: mount and kill_sb, as far as they count
    references to the module. *)
Record fs_module := FsModule {
  fm_fill : option (Z -> statics -> prog (Z * super * statics));
  fm_sync : statics -> prog Z;
  fm_tree : option tree;
  fm_type : fs_type;
  fm_init : prog (Z * unit);
  fm_exit : unit -> prog unit
}.

Definition plain_fill (fill : Z -> prog (Z * super)) (s : Z) (st : statics) : prog (Z * super * statics) :=
  let! (ret, sb) <- fill s ;; Ret (ret, sb, st).

Definition journalled_fill (fill : Z -> prog (Z * super * Z)) (s : Z) (st : statics) : prog (Z * super * statics) :=
  let! (ret, sb, j) <- fill s ;; Ret (ret, sb, Statics (private_inode st) j).

Definition no_sync (_ : statics) : prog Z := Ret 0.

(** The root inodes and super blocks: copies of one text. *)
Definition min_device_root_inode : Z -> prog (Z * inode) := get_example_fs_root_inode.
Definition min_device_fill_super : Z -> prog (Z * super) := fill_super_with min_device_root_inode.
Definition min_root_root_inode : Z -> prog (Z * inode) := get_example_fs_root_inode.
Definition min_root_fill_super : Z -> prog (Z * super) := fill_super_with min_root_root_inode.
Definition min_read_root_inode : Z -> prog (Z * inode) := get_example_fs_root_inode.
Definition min_read_fill_super : Z -> prog (Z * super) := fill_super_with min_read_root_inode.
Definition block_page_read_root_inode : Z -> prog (Z * inode) := get_example_fs_root_inode.
Definition block_page_read_fill_super : Z -> prog (Z * super) := fill_super_with block_page_read_root_inode.
Definition sb_bread_root_inode : Z -> prog (Z * inode) := get_example_fs_root_inode.
Definition sb_bread_fill_super : Z -> prog (Z * super) := fill_super_with sb_bread_root_inode.
Definition submit_bh_root_inode : Z -> prog (Z * inode) := get_example_fs_root_inode.
Definition submit_bh_fill_super : Z -> prog (Z * super) := fill_super_with submit_bh_root_inode.
Definition buffer_read_root_inode : Z -> prog (Z * inode) := get_example_fs_root_inode.
Definition buffer_read_fill_super : Z -> prog (Z * super) := fill_super_with buffer_read_root_inode.
Definition page_cache_read_root_inode : Z -> prog (Z * inode) := get_example_fs_root_inode.
Definition page_cache_read_fill_super : Z -> prog (Z * super) := fill_super_with page_cache_read_root_inode.
Definition get_block_root_inode : Z -> prog (Z * inode) := get_example_fs_root_inode.
Definition get_block_fill_super : Z -> prog (Z * super) := fill_super_with get_block_root_inode.
Definition write_page_root_inode : Z -> prog (Z * inode) := get_example_fs_root_inode.
Definition write_page_fill_super : Z -> prog (Z * super) := fill_super_with write_page_root_inode.

Definition block_module (fill : Z -> prog (Z * super)) (t : option tree) (ty : fs_type) : fs_module :=
  FsModule (Some (plain_fill fill)) no_sync t ty init_example_fs exit_example_fs.
Definition plain_module (fill : Z -> prog (Z * super)) (t : option tree) : fs_module := block_module fill t plain_fs.
Definition pinned_module (fill : Z -> prog (Z * super)) (t : option tree) : fs_module := block_module fill t pinned_fs.
Definition unmountable : fs_module := FsModule None no_sync None plain_fs init_example_fs exit_example_fs.

(** fs/super_orig.c registers like fs/never_mount. *)
Definition super_orig_module : fs_module := unmountable.
Definition never_mount_module : fs_module := unmountable.
Definition nodev_no_fill_sb_module : fs_module := unmountable.
Definition min_mountable_module : fs_module := plain_module min_mountable_fill_super None.
Definition min_device_module : fs_module := plain_module min_device_fill_super None.
Definition min_root_module : fs_module := plain_module min_root_fill_super (Some min_root).
Definition min_read_module : fs_module := plain_module min_read_fill_super (Some min_read).
Definition block_page_read_module : fs_module := plain_module block_page_read_fill_super (Some block_page_read).
Definition sb_bread_module : fs_module := plain_module sb_bread_fill_super (Some sb_bread_fs).
Definition bread_module : fs_module := plain_module example_fill_super (Some bread).
Definition buffer_read_module : fs_module := plain_module buffer_read_fill_super (Some buffer_read).
Definition page_cache_read_module : fs_module := plain_module page_cache_read_fill_super (Some page_cache_read).
Definition submit_bh_module : fs_module := pinned_module submit_bh_fill_super (Some submit_bh_readpage).
Definition get_block_module : fs_module := pinned_module get_block_fill_super (Some get_block).
Definition write_page_module : fs_module := pinned_module write_page_fill_super (Some write_page).
Definition journal_module : fs_module :=
  FsModule (Some (journalled_fill journal_fill_super)) (fun st => example_sync_fs (example_journal st) 1)
    (Some journal) pinned_fs init_example_fs exit_example_fs.
Definition jbd2_module : fs_module :=
  FsModule (Some (journalled_fill jbd2_fill_super)) no_sync (Some jbd2) pinned_fs init_example_fs exit_example_fs.

(** Block device file systems that look their inode up at every lookup, and
    those that keep it in [private_inode]. *)
Definition fresh_modules : list fs_module :=
  [min_device_module; min_root_module; min_read_module; block_page_read_module; sb_bread_module;
   submit_bh_module; get_block_module; write_page_module].
Definition cached_modules : list fs_module := [bread_module; buffer_read_module; page_cache_read_module].

(** ** Sessions *)
Inductive fsop := Mount (s : Z) | Lookup (s : Z) (name : string) | Umount (s : Z).

(** The statics and the mounted super blocks by device. *)
Record mstate := MState { vars : statics; supers : list (Z * super) }.

Fixpoint super_of (sbs : list (Z * super)) (s : Z) : option super :=
  match sbs with
  | [] => None
  | (d, sb) :: rest => if d =? s then Some sb else super_of rest s
  end.

Fixpoint without (sbs : list (Z * super)) (s : Z) : list (Z * super) :=
  match sbs with
  | [] => []
  | (d, sb) :: rest => if d =? s then rest else (d, sb) :: without rest s
  end.

(** One request; those the VFS does not pass on (a second mount of a device,
    a name on a device that is not mounted) do nothing here.  A failed mount
    is cleaned up by [kill_sb]; an unmount syncs and kills. *)
Definition fs_do (f : fs_module) (op : fsop) (ms : mstate) : prog mstate :=
  match op with
  | Mount s =>
      match super_of (supers ms) s with
      | Some _ => Ret ms
      | None =>
          match fm_fill f with
          | None => Oops "call of the NULL fill_super"
          | Some fill =>
              let! (ret, sb, st) <- fill s (vars ms) ;;
              if ret =? 0 then Ret (MState st ((s, sb) :: supers ms))
              else let! _ <- example_kill_sb sb ;; Ret (MState st (supers ms))
          end
      end
  | Lookup s name =>
      match super_of (supers ms) s, fm_tree f with
      | Some _, Some t =>
          let! (pi, _) <- t_lookup t s name (private_inode (vars ms)) ;;
          Ret (MState (Statics pi (example_journal (vars ms))) (supers ms))
      | _, _ => Ret ms
      end
  | Umount s =>
      match super_of (supers ms) s with
      | None => Ret ms
      | Some sb =>
          let! _ <- fm_sync f (vars ms) ;;
          let! _ <- example_kill_sb sb ;;
          Ret (MState (vars ms) (without (supers ms) s))
      end
  end.

Fixpoint fs_ops (f : fs_module) (ops : list fsop) (ms : mstate) : prog mstate :=
  match ops with
  | [] => Ret ms
  | op :: rest => let! ms' <- fs_do f op ms ;; fs_ops f rest ms'
  end.

(** Unmount what is left before the module can go. *)
Fixpoint umount_all (f : fs_module) (sbs : list (Z * super)) (ms : mstate) : prog mstate :=
  match sbs with
  | [] => Ret ms
  | (s, _) :: rest => let! ms' <- fs_do f (Umount s) ms ;; umount_all f rest ms'
  end.

Definition fs_session (f : fs_module) (ops : list fsop) : prog Z :=
  let! (ret, u) <- fm_init f ;;
  if ret =? 0 then
    let! ms <- fs_ops f ops (MState no_statics []) ;;
    let! _ <- umount_all f (supers ms) ms ;;
    let! _ <- fm_exit f u ;;
    Ret 0
  else Ret ret.

(** ** What a module promises to a session *)

(** The root a filled super block holds. *)
Definition root_of (sb : super) : list res := if s_root sb =? 0 then [] else [RDentry (s_root sb)].
Definition roots (sbs : list (Z * super)) : list res := flat_map (fun x => root_of (snd x)) sbs.

(** [keeps n st X]: after [n] successful mounts, with the statics [st], the module
    itself holds [X]. *)
Class Tidy (ok : list res -> kcall -> Z -> Prop) (exact : bool) (f : fs_module)
    (keeps : nat -> statics -> list res -> Prop) : Prop := {
  tidy_init : fm_init f = init_example_fs /\ fm_exit f = exit_example_fs;
  tidy_start : keeps 0%nat no_statics [];
  tidy_fill fill : fm_fill f = Some fill -> forall n s st t X B h,
    keeps n st X -> h ≡ₚ X ++ B ->
    safe ok (fill s st) t h (fun '(ret, sb, st') _ h' => exists X',
      h' ≡ₚ root_of sb ++ X' ++ B /\ keeps (if ret =? 0 then S n else n) st' X' /\ (exact = true -> ret = 0));
  tidy_sync n st t X h : keeps (S n) st X -> safe ok (fm_sync f st) t h (fun _ _ h' => h' = h);
  tidy_lookup tr : fm_tree f = Some tr -> forall n s name st t X B h,
    keeps n st X -> h ≡ₚ X ++ B ->
    safe ok (t_lookup tr s name (private_inode st)) t h (fun '(pi, _) _ h' => exists X',
      h' ≡ₚ X' ++ B /\ keeps n (Statics pi (example_journal st)) X')
}.

(** The mounts that find their device unmounted, when every mount succeeds. *)
Fixpoint unmounted (devs : list Z) (s : Z) : list Z :=
  match devs with
  | [] => []
  | d :: rest => if d =? s then rest else d :: unmounted rest s
  end.

Definition devices_after (op : fsop) (devs : list Z) : list Z :=
  match op with
  | Mount s => if bool_decide (s ∈ devs) then devs else s :: devs
  | Lookup _ _ => devs
  | Umount s => unmounted devs s
  end.

Definition mounts_by (op : fsop) (devs : list Z) : nat :=
  match op with Mount s => if bool_decide (s ∈ devs) then 0 else 1 | _ => 0 end.

Fixpoint mounts_done (ops : list fsop) (devs : list Z) : nat :=
  match ops with
  | [] => 0
  | op :: rest => mounts_by op devs + mounts_done rest (devices_after op devs)
  end.

(** ** Lemmas *)
Lemma safe_kill ok sb t h B :
  h ≡ₚ root_of sb ++ B -> safe ok (example_kill_sb sb) t h (fun _ _ h' => h' ≡ₚ B).
Proof.
  intros Hh. apply safe_call. intros r _. unfold settle, root_of in *. cbn [releases acquires drops].
  destruct (s_root sb =? 0); [exact Hh|]. cbn [give_back_all].
  destruct (give_back_permutation _ _ _ Hh) as (h' & -> & Hp). exact Hp.
Qed.

Lemma super_of_split sbs s sb :
  super_of sbs s = Some sb -> exists l1 l2, sbs = l1 ++ (s, sb) :: l2 /\ without sbs s = l1 ++ l2.
Proof.
  induction sbs as [|[d b] sbs IH]; cbn; [done|]. destruct (Z.eqb_spec d s) as [->|Hd].
  - intros [= ->]. by exists [], sbs.
  - intros H. destruct (IH H) as (l1 & l2 & -> & ->). by exists ((d, b) :: l1), l2.
Qed.

Lemma super_of_mounted sbs s : is_Some (super_of sbs s) <-> s ∈ map fst sbs.
Proof.
  induction sbs as [|[d b] sbs IH]; cbn; [split; [by intros []|by intros ?%not_elem_of_nil]|].
  rewrite elem_of_cons, <- IH. destruct (Z.eqb_spec d s) as [->|Hd]; [split; [by left|by eexists]|]. naive_solver.
Qed.

Lemma devices_without sbs s : map fst (without sbs s) = unmounted (map fst sbs) s.
Proof. induction sbs as [|[d b] sbs IH]; cbn; [done|]. destruct (d =? s); cbn; by rewrite ?IH. Qed.

Lemma unmounted_none devs s : s ∉ devs -> unmounted devs s = devs.
Proof.
  induction devs as [|d devs IH]; cbn; [done|]. intros [Hd Hs]%not_elem_of_cons.
  rewrite (proj2 (Z.eqb_neq d s)) by congruence. by rewrite IH.
Qed.

Lemma roots_split l1 s sb l2 : roots (l1 ++ (s, sb) :: l2) ≡ₚ root_of sb ++ roots (l1 ++ l2).
Proof. unfold roots. rewrite !flat_map_app. cbn. solve_Permutation. Qed.

Section Session.
Context {ok : list res -> kcall -> Z -> Prop} {exact : bool} {f : fs_module}
  {keeps : nat -> statics -> list res -> Prop} `{!Tidy ok exact f keeps}.
Context (mountable : is_Some (fm_fill f)).

(** A state of the session: the roots of the mounted super blocks, and what
    the module keeps. *)
Record in_session (base : list res) (ms : mstate) (n : nat) (h : list res) : Prop := {
  is_held : exists X, h ≡ₚ roots (supers ms) ++ X ++ base /\ keeps n (vars ms) X;
  is_some : supers ms <> [] -> (0 < n)%nat
}.

Lemma in_session_roots base ms n h :
  in_session base ms n h -> exists X, keeps n (vars ms) X /\ h ≡ₚ X ++ (roots (supers ms) ++ base).
Proof. intros [[X [Hh Hk]] _]. exists X. split; [done|]. rewrite Hh. solve_Permutation. Qed.

Lemma safe_fs_do op ms n t h base :
  in_session base ms n h ->
  safe ok (fs_do f op ms) t h (fun ms' _ h' => exists n', in_session base ms' n' h' /\
    (exact = true -> n' = (n + mounts_by op (map fst (supers ms)))%nat /\
       map fst (supers ms') = devices_after op (map fst (supers ms)))).
Proof.
  intros Hi. pose proof Hi as [_ Hsome]. destruct (in_session_roots _ _ _ _ Hi) as (X & Hk & Hh).
  destruct op as [s|s name|s]; cbn [fs_do mounts_by devices_after].
  - pose proof (super_of_mounted (supers ms) s) as Hm.
    destruct (super_of (supers ms) s) as [sb0|].
    { rewrite bool_decide_eq_true_2 by (apply Hm; by eexists). exists n. split; [done|]. intros _. split; [lia|done]. }
    rewrite bool_decide_eq_false_2 by (rewrite <- Hm; by intros []).
    destruct mountable as [fill Hf]. rewrite Hf. apply safe_bind.
    eapply safe_mono; [by eapply tidy_fill|]. intros [[ret sb] st] t' h' (X' & Hh' & Hk' & Hx).
    destruct (Z.eqb_spec ret 0) as [->|Hr].
    + cbn. exists (S n). split; [|intros _; split; [lia|done]]. split; [|cbn; lia].
      exists X'. split; [|done]. rewrite Hh'. cbn. unfold roots. cbn. solve_Permutation.
    + apply safe_bind. eapply safe_mono; [eapply safe_kill; exact Hh'|]. cbn. intros _ _ h2 Hh2. exists n.
      split; [|intros Hxx; by destruct Hr; apply Hx]. split; [|done]. exists X'. split; [|done]. cbn. rewrite Hh2. solve_Permutation.
  - destruct (super_of (supers ms) s) as [sb|]; [|exists n; split; [done|]; intros _; split; [lia|done]].
    destruct (fm_tree f) as [tr|] eqn:Ht; [|exists n; split; [done|]; intros _; split; [lia|done]].
    apply safe_bind. eapply safe_mono; [by eapply tidy_lookup|]. intros [pi fnd] t' h' (X' & Hh' & Hk'). cbn.
    exists n. split; [|intros _; split; [lia|done]]. split; [|done]. exists X'. split; [|done]. cbn. rewrite Hh'. solve_Permutation.
  - pose proof (super_of_mounted (supers ms) s) as Hm. rewrite <- devices_without.
    destruct (super_of (supers ms) s) as [sb|] eqn:Hs.
    2:{ exists n. split; [done|]. intros _. split; [lia|]. rewrite devices_without, unmounted_none; [done|].
        rewrite <- Hm. by intros []. }
    destruct (super_of_split _ _ _ Hs) as (l1 & l2 & El & Ew). rewrite Ew, El in *.
    destruct n as [|n]; [pose proof (Hsome ltac:(by destruct l1)); lia|].
    apply safe_bind. eapply safe_mono; [by eapply tidy_sync|]. intros _ t' h' ->. cbn beta.
    apply safe_bind. eapply safe_mono.
    + apply (safe_kill _ _ _ _ (roots (l1 ++ l2) ++ X ++ base)). rewrite Hh, roots_split. solve_Permutation.
    + cbn. intros _ _ h2 Hh2. exists (S n). split; [|intros _; split; [lia|done]]. split; cbn; [|lia].
      by exists X.
Qed.

Lemma safe_fs_ops ops ms n t h base :
  in_session base ms n h ->
  safe ok (fs_ops f ops ms) t h (fun ms' _ h' => exists n', in_session base ms' n' h' /\
    (exact = true -> n' = (n + mounts_done ops (map fst (supers ms)))%nat)).
Proof.
  revert ms n t h. induction ops as [|op ops IH]; intros ms n t h Hi; cbn [fs_ops mounts_done].
  - exists n. split; [done|]. intros. lia.
  - apply safe_bind. eapply safe_mono; [by apply safe_fs_do|]. intros ms1 t1 h1 (n1 & Hi1 & Hx1). cbn beta.
    eapply safe_mono; [by apply IH|]. intros ms2 t2 h2 (n2 & Hi2 & Hx2). exists n2. split; [done|].
    intros Hx. destruct (Hx1 Hx) as [-> <-]. rewrite (Hx2 Hx). lia.
Qed.

Lemma safe_umount_all sbs ms n t h base :
  sbs = supers ms -> in_session base ms n h ->
  safe ok (umount_all f sbs ms) t h (fun ms' _ h' => in_session base ms' n h' /\ supers ms' = []).
Proof.
  revert ms t h. induction sbs as [|[s sb] sbs IH]; intros ms t h Es Hi; cbn [umount_all]; [done|].
  apply safe_bind. pose proof Hi as [_ Hsome]. destruct (in_session_roots _ _ _ _ Hi) as (X & Hk & Hh).
  cbn [fs_do]. rewrite <- Es in *. cbn [super_of without]. rewrite Z.eqb_refl.
  destruct n as [|n]; [pose proof (Hsome ltac:(done)); lia|].
  apply safe_bind. eapply safe_mono; [by eapply tidy_sync|]. intros _ t' h' ->. cbn beta.
  apply safe_bind. eapply safe_mono.
  - apply (safe_kill _ _ _ _ (roots sbs ++ X ++ base)). rewrite Hh. unfold roots. cbn. solve_Permutation.
  - cbn. intros _ t2 h2 Hh2. apply (IH (MState (vars ms) sbs)); [done|]. split; cbn; [by exists X|lia].
Qed.

(** A session runs to its end; what is left is what the module keeps. *)
Lemma safe_session ops t base :
  clean base ->
  safe ok (fs_session f ops) t base (fun ret _ h' =>
    if ret =? 0 then exists n st X, h' ≡ₚ X ++ base /\ keeps n st X /\ (exact = true -> n = mounts_done ops [])
    else h' = base).
Proof.
  intros Hc. destruct tidy_init as [Ei Ee]. unfold fs_session. rewrite Ei, Ee. unfold init_example_fs. cbn [bind].
  apply safe_call. intros r _. kred. unfold c_true. destruct (Z.eqb_spec r 0) as [->|Hr]; cbn [negb bind].
  - apply safe_bind. eapply safe_mono.
    { apply (safe_fs_ops _ _ 0%nat _ _ (RFs "example_fs" :: base)). split; [|done]. exists []. split; [done|apply tidy_start]. }
    intros ms t1 h1 (n & Hi & Hx). cbn beta. apply safe_bind. eapply safe_mono; [by apply safe_umount_all|].
    intros ms' t2 h2 [[[X [Hh Hk]] _] Hs]. rewrite Hs in Hh. cbn in Hh. cbn beta.
    unfold exit_example_fs. cbn [bind]. apply safe_call. intros r' _. unfold settle.
    cbn [releases acquires drops give_back_all drop_all app].
    destruct (give_back_permutation (RFs "example_fs") h2 (X ++ base)) as (h3 & -> & Hh3); [rewrite Hh; solve_Permutation|].
    apply safe_ret. cbn. exists n, (vars ms'), X. split; [done|]. split; [done|exact Hx].
  - apply safe_call. intros r' _. kred. rewrite (proj2 (Z.eqb_neq r 0)) by done. apply safe_ret. by rewrite (proj2 (Z.eqb_neq r 0)).
Qed.

End Session.

(** ** The modules that look their inode up each time *)

(** Every call may fail but the allocation of inodes, whose failure none of the
    routines survives. *)
Definition inodes_there (held : list res) (c : kcall) (r : Z) : Prop :=
  inodes_granted held c r /\ match c with iget_locked _ _ => r <> 0 | _ => True end.

Definition keeps_nothing (_ : nat) (_ : statics) (X : list res) : Prop := X = [].

(** A step that takes a resource and one that gives it back, up to the order. *)
Ltac returned H :=
  destruct (give_back_permutation _ _ _ H) as (? & -> & ?).

Lemma safe_splice ok sb i st t h :
  (forall h r s n, ok h (iget_locked s n) r -> r <> 0) ->
  safe ok (iget_and_splice sb i st) t h (fun '(pi, (_, fnd)) _ h' => h' = h /\ fnd = Some i /\ exists p, p <> 0 /\ pi = st p).
Proof.
  intros Hok. unfold iget_and_splice. apply safe_call. intros p Hp%Hok. kred.
  rewrite (proj2 (Z.eqb_neq p 0)) by done. cbn [app]. apply safe_call. intros u _. kred.
  apply safe_call. intros d _. kred. rewrite (proj2 (Z.eqb_neq p 0)) by done. cbn [give_back_all].
  rewrite give_back_head. apply safe_ret. split; [done|]. split; [done|]. by exists p.
Qed.

Lemma safe_plain_fill s t h :
  safe inodes_there (example_fill_super s) t h (fun '(_, sb) _ h' => h' = root_of sb ++ h).
Proof.
  unfold example_fill_super, fill_super_with, get_example_fs_root_inode. cbn [bind]. apply safe_call. intros p [[_ Hp] _]. kred.
  rewrite (proj2 (Z.eqb_neq p 0)) by done. cbn [app bind]. rewrite (proj2 (Z.eqb_neq p 0)) by done.
  apply safe_call. intros d _. kred. rewrite (proj2 (Z.eqb_neq p 0)) by done. cbn [give_back_all].
  rewrite give_back_head. unfold c_true. destruct (Z.eqb_spec d 0) as [->|Hd]; cbn [negb]; apply safe_ret; unfold root_of; cbn; [done|].
  by rewrite (proj2 (Z.eqb_neq d 0)).
Qed.

Lemma fresh_tidy f : f ∈ fresh_modules -> Tidy inodes_there false f keeps_nothing /\ is_Some (fm_fill f).
Proof.
  assert (forall t0 ty, (forall tr, t0 = Some tr -> forall sb name st, exists i, t_lookup tr sb name st = iget_and_splice sb i (fun _ => st)) ->
    Tidy inodes_there false (block_module example_fill_super t0 ty) keeps_nothing) as H.
  { intros t0 ty Ht. split; [done|done| | |].
    - intros fill [= <-] n s st t X B h -> Hh. unfold plain_fill. apply safe_bind.
      eapply safe_mono; [apply safe_plain_fill|]. intros [ret sb] t' h' ->. apply safe_ret. exists []. by rewrite Hh.
    - intros n st t X h _. by apply safe_ret.
    - intros tr Etr n s name st t X B h -> Hh. destruct (Ht tr Etr s name (private_inode st)) as [i ->].
      eapply safe_mono; [apply safe_splice; by intros ? ? ? ? [_ ?]|]. intros [pi [d fnd]] t' h' (-> & _). by exists []. }
  intros Hf. unfold fresh_modules in Hf.
  repeat (apply elem_of_cons in Hf as [->|Hf]; [split; [apply H; intros ? [= <-]; intros; by eexists|by eexists]|]).
  by apply elem_of_nil in Hf.
Qed.

(** ** The modules that leave something behind at every mount *)

(** A kernel in which a mount of a journal succeeds. *)
Definition journals_granted (held : list res) (c : kcall) (r : Z) : Prop :=
  inodes_there held c r /\
  match c with
  | d_make_root _ | journal_init_dev _ _ _ _ | sb_bread _ _ _ | kzalloc _ _ => r <> 0
  | journal_load _ => r = 0
  | kquery what _ =>
      (what = "bdev_logical_block_size"%string -> 0 <= r <= BLOCKSIZE) /\
      (what = "s_nr_users"%string \/ what = "bh_uptodate_or_lock"%string -> r = 1)
  | _ => True
  end.

Definition keeps_journals (n : nat) (st : statics) (X : list res) : Prop :=
  exists js, X = map RJournal js /\ length js = n /\ ((0 < n)%nat -> example_journal st <> 0).

Definition keeps_memory (n : nat) (_ : statics) (X : list res) : Prop :=
  exists ps, X = map RMem ps /\ length ps = n.

Lemma safe_init_journal s t h :
  safe journals_granted (example_init_journal s BLOCKSIZE) t h (fun j _ h' => j <> 0 /\ h' = RJournal j :: h).
Proof.
  unfold example_init_journal. apply safe_call. intros bs [_ [Hbs _]]. specialize (Hbs eq_refl). kred.
  unfold BLOCKSIZE in *. rewrite !u64_small by lia. destruct (Z.ltb_spec 1024 bs); [lia|].
  apply safe_call. intros r1 _. kred. apply safe_call. intros bh [_ Hbh]. kred.
  rewrite (proj2 (Z.eqb_neq bh 0)) by done. cbn [app]. apply safe_call. intros r2 _. kred.
  apply safe_call. intros r3 _. kred. apply safe_call. intros j [_ Hj]. kred.
  rewrite (proj2 (Z.eqb_neq j 0)) by done. cbn [app]. apply safe_call. intros up [_ [_ Hup]]. kred.
  rewrite Hup by (by right). cbn [Z.eqb negb]. apply safe_call. intros us [_ [_ Hus]]. kred.
  rewrite Hus by (by left). cbn. by apply safe_ret.
Qed.

Lemma safe_journal_fill s t h :
  safe journals_granted (journal_fill_super s) t h (fun '(ret, sb, j) _ h' =>
    ret = 0 /\ j <> 0 /\ h' = root_of sb ++ RJournal j :: h).
Proof.
  unfold journal_fill_super, journal_fill_super_with, journal_root_inode, get_example_fs_root_inode. cbn [bind]. apply safe_call. intros p [[[_ Hp] _] _]. kred.
  rewrite (proj2 (Z.eqb_neq p 0)) by done. cbn [app bind]. rewrite (proj2 (Z.eqb_neq p 0)) by done.
  apply safe_bind. eapply safe_mono; [apply safe_init_journal|]. intros j t' h' [Hj ->]. cbn beta.
  apply safe_call. intros e [_ ->]. unfold settle. cbn [releases acquires drops give_back_all drop_all app].
  rewrite give_back_head. cbn [app c_true Z.eqb negb].
  apply safe_call. intros d [_ Hd]. unfold settle. cbn [releases acquires drops]. rewrite (proj2 (Z.eqb_neq p 0)) by done.
  cbn [give_back_all]. unfold give_back; fold give_back. cbn [res_eqb]. rewrite Z.eqb_refl, (proj2 (Z.eqb_neq d 0)) by done.
  cbn [negb drop_all app]. apply safe_ret. unfold root_of. cbn.
  by rewrite (proj2 (Z.eqb_neq d 0)).
Qed.

Lemma safe_min_mountable_fill s t h :
  safe journals_granted (min_mountable_fill_super s) t h (fun '(ret, sb) _ h' =>
    ret = 0 /\ exists p, h' = root_of sb ++ RMem p :: h).
Proof.
  unfold min_mountable_fill_super, new_example_fs_info. cbn [bind]. apply safe_call. intros p [_ Hp]. kred.
  rewrite (proj2 (Z.eqb_neq p 0)) by done. kred. apply safe_call. intros i [[[_ Hi] _] _]. kred.
  rewrite (proj2 (Z.eqb_neq i 0)) by done. kred. apply safe_call. intros d [_ Hd]. unfold settle. cbn [releases acquires drops].
  rewrite (proj2 (Z.eqb_neq i 0)) by done. cbn [give_back_all]. rewrite give_back_head. unfold c_true.
  rewrite !(proj2 (Z.eqb_neq d 0)) by done. cbn [negb drop_all app].
  apply safe_ret. split; [done|]. exists p. unfold root_of. cbn. by rewrite (proj2 (Z.eqb_neq d 0)).
Qed.

Lemma journal_tidy f : f ∈ [journal_module; jbd2_module] -> Tidy journals_granted true f keeps_journals /\ is_Some (fm_fill f).
Proof.
  assert (forall sync tr, (forall n st t X h, keeps_journals (S n) st X -> safe journals_granted (sync st) t h (fun _ _ h' => h' = h)) ->
    t_lookup tr = journal_lookup ->
    Tidy journals_granted true (FsModule (Some (journalled_fill journal_fill_super)) sync (Some tr) pinned_fs init_example_fs exit_example_fs) keeps_journals) as H.
  { intros sync tr Hsync Htr. split; [done|exists []; split; [done|split; [done|lia]]| |exact Hsync|].
    - intros fill [= <-] n s st t X B h (js & -> & Hn & Hj) Hh. unfold journalled_fill. apply safe_bind.
      eapply safe_mono; [apply safe_journal_fill|]. intros [[ret sb] j] t' h' (-> & Hjn & ->). apply safe_ret.
      exists (map RJournal (j :: js)). split; [by rewrite Hh|]. split; [|done]. exists (j :: js). cbn. auto.
    - intros tr' [= <-] n s name st t X B h HX Hh. rewrite Htr. unfold journal_lookup. destruct (String.eqb name "UUID").
      + eapply safe_mono; [apply safe_splice; by intros ? ? ? ? [[_ ?] _]|]. intros [pi [d fnd]] t' h' (-> & _). exists X. split; done.
      + apply safe_call. intros d _. kred. apply safe_ret. exists X. split; done. }
  intros Hf. repeat (apply elem_of_cons in Hf as [->|Hf]; [split; [apply H; [|done]|by eexists]|]).
  - intros n st t X h (js & _ & _ & Hj). unfold example_sync_fs. rewrite (proj2 (Z.eqb_neq _ 0)) by (apply Hj; lia).
    krun; done.
  - intros n st t X h _. by apply safe_ret.
  - by apply elem_of_nil in Hf.
Qed.

Lemma min_mountable_tidy : Tidy journals_granted true min_mountable_module keeps_memory.
Proof.
  split; [done|by exists []| | |done].
  - intros fill [= <-] n s st t X B h (ps & -> & Hn) Hh. unfold plain_fill. apply safe_bind.
    eapply safe_mono; [apply safe_min_mountable_fill|]. intros [ret sb] t' h' (-> & p & ->). apply safe_ret.
    exists (map RMem (p :: ps)). split; [by rewrite Hh|]. split; [|done]. exists (p :: ps). cbn. auto.
  - intros n st t X h _. by apply safe_ret.
Qed.

(** ** Properties *)

(** C25: Load a file system module that looks its inode up at every lookup,
    mount, look up and unmount on any devices in any order, whatever fails
    besides the allocation of inodes, unmount the rest and unload: the session
    runs to its end without a crash or a misuse and nothing is left. *)
Theorem fresh_sessions_tidy f ops o t base :
  f ∈ fresh_modules -> obeys inodes_there o -> clean base ->
  exists ret tr h, run o t base (fs_session f ops) = Fin ret tr h /\ h ≡ₚ base.
Proof.
  intros Hf Ho Hc. destruct (fresh_tidy f Hf) as [Ht Hm].
  destruct (safe_run _ o _ t base _ Ho (safe_session Hm ops t base Hc)) as (ret & tr & h & Hr & Hq).
  exists ret, tr, h. split; [done|]. destruct (ret =? 0); [|by subst h].
  destruct Hq as (n & st & X & Hh & -> & _). exact Hh.
Qed.

(** C26: In a session whose mounts meet no error ([journals_granted]: every
    allocation and every journal call of a mount succeeds; the errors are in
    [journal_mount_errors]) the
    journalling file systems keep one journal for every mount, none of which
    is ever destroyed, since the super block has no routine that runs at
    unmount; fs/min_mountable keeps one private structure for every mount. *)
Theorem sessions_leak_per_mount ops o t base :
  obeys journals_granted o -> clean base ->
  (forall f, f ∈ [journal_module; jbd2_module] -> exists ret tr h,
     run o t base (fs_session f ops) = Fin ret tr h /\
     (ret = 0 -> exists js, h ≡ₚ map RJournal js ++ base /\ length js = mounts_done ops [])) /\
  (exists ret tr h, run o t base (fs_session min_mountable_module ops) = Fin ret tr h /\
     (ret = 0 -> exists ps, h ≡ₚ map RMem ps ++ base /\ length ps = mounts_done ops [])).
Proof.
  intros Ho Hc. split.
  - intros f Hf. destruct (journal_tidy f Hf) as [Ht Hm].
    destruct (safe_run _ o _ t base _ Ho (safe_session Hm ops t base Hc)) as (ret & tr & h & Hr & Hq).
    exists ret, tr, h. split; [done|]. intros ->. destruct Hq as (n & st & X & Hh & (js & -> & Hn & _) & Hx).
    exists js. split; [done|]. by rewrite Hn, Hx.
  - pose proof min_mountable_tidy as Ht.
    destruct (safe_run _ o _ t base _ Ho (safe_session (f := min_mountable_module) (ex_intro _ _ eq_refl) ops t base Hc))
      as (ret & tr & h & Hr & Hq).
    exists ret, tr, h. split; [done|]. intros ->. destruct Hq as (n & st & X & Hh & (ps & -> & Hn) & Hx).
    exists ps. split; [done|]. by rewrite Hn, Hx.
Qed.

(** A kernel for concrete sessions: the super block of a journal reads well;
    [load n] answers the [n]-th [journal_load]. *)
Definition session_oracle (bread s_root : Z) (load : nat -> Z) : oracle := fun t h c =>
  match c with
  | sb_bread _ _ _ => bread
  | d_make_root _ => s_root
  | journal_init_dev _ _ _ _ => 8192 + Z.of_nat (length t)
  | journal_load _ => load (length (List.filter (fun x => match fst x with journal_load _ => true | _ => false end) t))
  | kquery what _ =>
      if String.eqb what "b_data" then 2 ^ 40 + 16384
      else if String.eqb what "bh_uptodate_or_lock" then 1
      else if String.eqb what "s_nr_users" then 1
      else if String.eqb what "bdev_logical_block_size" then 512
      else 0
  | _ => good_oracle t h c
  end.

Lemma session_oracle_granted : obeys journals_granted (session_oracle 9 77 (fun _ => 0)).
Proof.
  intros t held c. pose proof (top_nonneg held). pose proof (good_oracle_conforming t held c) as Hg.
  destruct c; cbn -[top String.eqb] in *; repeat split; try done; try lia; try apply Hg; unfold errno_or; try (by right); try lia.
  - cbn. lia.
  - by subst what.
  - by subst what.
  - by intros [-> | ->].
Qed.

Lemma fresh_sessions_tidy_witness :
  exists ret tr h, run (session_oracle 9 77 (fun _ => 0)) [] []
    (fs_session get_block_module [Mount 1; Lookup 1 "test1"; Mount 2; Lookup 2 "test1"; Umount 1; Lookup 2 "x"]) = Fin ret tr h /\ h ≡ₚ [].
Proof.
  apply (fresh_sessions_tidy get_block_module); [set_solver| |constructor].
  intros t held c. apply session_oracle_granted.
Defined.

Lemma sessions_leak_per_mount_witness :
  exists ret tr h, run (session_oracle 9 77 (fun _ => 0)) [] []
    (fs_session journal_module [Mount 1; Mount 2; Umount 1; Mount 1]) = Fin ret tr h /\
    (ret = 0 -> exists js, h ≡ₚ map RJournal js ++ [] /\ length js = 3%nat).
Proof.
  apply (sessions_leak_per_mount [Mount 1; Mount 2; Umount 1; Mount 1] _ [] [] session_oracle_granted);
    [constructor|set_solver].
Defined.

(** fs/bread, fs/buffer_read and fs/page_cache_read keep the inode pointer in a
    static variable: after an unmount the next lookup, on whatever device,
    hands out an inode that went with the old super block. *)
Theorem cached_lookup_after_unmount f :
  f ∈ cached_modules ->
  exists p t h, run (session_oracle 9 77 (fun _ => 0)) [] []
    (fs_session f [Mount 1; Lookup 1 "test1"; Umount 1; Mount 2; Lookup 2 "test1"]) = Misuse (d_splice_alias p) t h /\
    (iget_locked 1 123, p) ∈ t /\ RInode p ∉ h.
Proof.
  intros Hf. unfold cached_modules in Hf.
  repeat (apply elem_of_cons in Hf as [->|Hf]; [do 3 eexists; split; [vm_compute; reflexivity|];
    split; [repeat (first [apply list_elem_of_here | apply list_elem_of_further])|set_solver]|]).
  by apply elem_of_nil in Hf.
Qed.

(** fs/never_mount and fs/nodev_no_fill_sb load and unload, and crash at
    the first mount: there is no fill_super. *)
Theorem unmountable_sessions o t base s :
  conforming o -> clean base -> o t base (register_filesystem "example_fs") = 0 ->
  (exists tr, run o t base (fs_session nodev_no_fill_sb_module []) = Fin 0 tr base) /\
  (exists tr, run o t base (fs_session never_mount_module [Mount s]) =
     Fault "call of the NULL fill_super" tr (RFs "example_fs" :: base)).
Proof.
  intros Ho Hc Hr. unfold fs_session, never_mount_module, nodev_no_fill_sb_module, unmountable, init_example_fs, exit_example_fs.
  cbn. rewrite Hr. cbn. split; by eexists.
Qed.

Lemma unmountable_sessions_witness :
  exists tr, run good_oracle [] [] (fs_session never_mount_module [Mount 3]) =
     Fault "call of the NULL fill_super" tr [RFs "example_fs"].
Proof. apply (unmountable_sessions good_oracle [] [] 3 good_oracle_conforming); [constructor|reflexivity]. Defined.

(** Mounts of the journalling file systems.  The length of the journal is taken from the address
    of the super block's buffer, not from its contents; a super block that
    cannot be read makes [example_fill_super] load the NULL journal; a mount
    that fails at the root dentry keeps the journal, one that fails at the
    journal keeps the root inode; and then the other mount's unmount
    syncs the NULL journal that the failure left in [example_journal]. *)
Theorem journal_mount_errors :
  (exists sb j t, run (session_oracle 9 1 (fun _ => 0)) [] [] (journal_fill_super 6) = Fin (0, sb, j) t [RDentry 1; RJournal j] /\
     (journal_init_dev 6 2 16388 1024, j) ∈ t) /\
  (exists t h, run (session_oracle 0 1 (fun _ => 0)) [] [] (journal_fill_super 6) = Misuse (journal_load 0) t h) /\
  (exists sb j t, run (session_oracle 9 0 (fun _ => 0)) [] [] (journal_fill_super 6) = Fin (- ENOMEM, sb, j) t [RJournal j]) /\
  (exists sb j t p, run (session_oracle 9 1 (fun _ => - EIO)) [] [] (journal_fill_super 6) = Fin (- EIO, sb, j) t [RInode p]) /\
  (exists t h, run (session_oracle 9 77 (fun n => if Nat.eqb n 1 then - EIO else 0)) [] []
     (fs_session journal_module [Mount 1; Mount 2; Umount 1]) = Fault "journal_start_commit of NULL" t h).
Proof.
  split; [|split; [|split; [|split]]].
  - do 3 eexists. split; [vm_compute; reflexivity|]. repeat (first [apply list_elem_of_here | apply list_elem_of_further]).
  - do 2 eexists. vm_compute. reflexivity.
  - do 3 eexists. vm_compute. reflexivity.
  - do 4 eexists. vm_compute. reflexivity.
  - do 2 eexists. vm_compute. reflexivity.
Qed.
