(* ===== verification/ListCache.v ===== *)
(** * The inode lister (memory/list_cache.c)

    The /proc entry [list_cache] walks the super blocks of one file system
    type and the inodes of each, and prints the inodes with many pages, their
    names, and totals.  A kernel list is a list here, so its walk ends; the
    text is the list of the bytes printed, and it goes to a page of 4096
    bytes without a check. *)
From stdpp Require Import strings.
From S2P Require Import Prelude Kernel.
Local Open Scope Z_scope.

(** What the routines read of an inode and of a super block; [private_list]
    are the buffers of [i_data]. *)
Record inode := Inode { addr : Z; nrpages : Z; i_dentry : list string; private_list : list Z }.
Record super_block := Super { s_id : string; s_inodes : list inode }.

Section ListCache.
(** [%p] of the kernel; the parameters of the module: [show_threshold] (an
    int) and [species]. *)
Variable fmt_p : Z -> list Z.
Variable show_threshold : Z.
Variable species : string.

Definition inode_has_buffers (i : inode) : bool := match private_list i with [] => false | _ => true end.

Fixpoint show_dentry (dentries : list string) : list Z :=
  match dentries with
  | [] => []
  | d_iname :: rest => str "        dentry name " ++ str d_iname ++ str " " ++ [10] ++ show_dentry rest
  end.

(** The comparison of an unsigned long with an int is unsigned. *)
Definition shown (i : inode) : bool := u64 show_threshold <? nrpages i.

Definition show_inode (i : inode) : list Z :=
  if shown i then
    str "    inode " ++ fmt_p (addr i) ++ str " page count = " ++ dec (s64 (nrpages i)) ++ [10]
    ++ show_dentry (i_dentry i)
  else [].

Record totals := Totals { total_page_count : Z; total_inode_count : Z; buffer_inode_count : Z }.

(** The loop of [set]: the text and the counters (unsigned longs). *)
Fixpoint set_loop (inodes : list inode) (c : totals) : list Z * totals :=
  match inodes with
  | [] => ([], c)
  | i :: rest =>
      let c := Totals (u64 (total_page_count c + nrpages i)) (u64 (total_inode_count c + 1))
                 (if inode_has_buffers i then u64 (buffer_inode_count c + 1) else buffer_inode_count c) in
      let (text, c) := set_loop rest c in
      (show_inode i ++ text, c)
  end.

Definition set (fst : super_block) : list Z :=
  let (text, c) := set_loop (s_inodes fst) (Totals 0 0 0) in
  str "fst sid = " ++ str (s_id fst) ++ [10] ++ text
  ++ str "total page count " ++ dec (s64 (total_page_count c)) ++ str " size = "
  ++ dec (s64 (u64 (total_page_count c * 4))) ++ str " K" ++ [10]
  ++ str "total inode count " ++ dec (s64 (total_inode_count c)) ++ str "  inode address space private buffer = "
  ++ dec (s64 (buffer_inode_count c)) ++ str " " ++ [10].

Fixpoint set_all (fs_supers : list super_block) : list Z :=
  match fs_supers with [] => [] | old :: rest => set old ++ set_all rest end.

(** The super blocks of the type are a parameter. *)
Definition list_cache (fs_supers : list super_block) : prog (list Z) :=
  call! fst <- get_fs_type species ;;
  if fst =? 0 then Ret (str "found no super block of [" ++ str species ++ str "]" ++ [10])
  else Ret (str "list super block of [" ++ str species ++ str "]" ++ [10] ++ set_all fs_supers).

(** Reading the /proc entry [n] times. *)
Fixpoint reads (n : nat) (fs_supers : list super_block) : prog unit :=
  match n with
  | O => Ret tt
  | S n' => let! _ <- list_cache fs_supers ;; reads n' fs_supers
  end.
End ListCache.

Definition my_init : prog (Z * unit) := do! create_proc_read_entry "list_cache" ;; Ret (0, tt).
Definition my_exit (_ : unit) : prog unit := do! remove_proc_entry "list_cache" ;; Ret tt.

(** ** Lemmas *)
#[global] Instance list_cache_balanced : Balanced my_init my_exit.
Proof. kbalanced my_init my_exit. Qed.

(** A number of the page count, as the counters have it. *)
Definition sum (l : list Z) : Z := foldr Z.add 0 l.

Definition in_range (c : totals) : Prop :=
  u64 (total_page_count c) = total_page_count c /\ u64 (total_inode_count c) = total_inode_count c /\
  u64 (buffer_inode_count c) = buffer_inode_count c.

Lemma u64_u64 z : u64 (u64 z) = u64 z.
Proof. unfold u64, wrapu. apply Z.mod_mod. lia. Qed.

Lemma set_loop_spec fmt th inodes c :
  in_range c ->
  set_loop fmt th inodes c =
    (flat_map (show_inode fmt th) inodes,
     Totals (u64 (total_page_count c + sum (map nrpages inodes)))
            (u64 (total_inode_count c + zlen inodes))
            (u64 (buffer_inode_count c + zlen (List.filter inode_has_buffers inodes)))).
Proof.
  revert c. induction inodes as [|i rest IH]; intros c (Hp & Hi & Hb).
  { cbn. rewrite !Z.add_0_r, Hp, Hi, Hb. by destruct c. }
  cbn [set_loop flat_map map sum foldr]. rewrite IH.
  2: { split; [|split]; cbn; [apply u64_u64..|]. by destruct (inode_has_buffers i); [apply u64_u64|]. }
  cbn [total_page_count total_inode_count buffer_inode_count]. fold (sum (map nrpages rest)).
  rewrite !u64_add_l, zlen_cons. do 2 f_equal; [by rewrite Z.add_assoc|by rewrite Z.add_assoc|].
  cbn [List.filter]. destruct (inode_has_buffers i); [|done]. by rewrite u64_add_l, zlen_cons, Z.add_assoc.
Qed.

Lemma set_text fmt th fst :
  set fmt th fst =
  let pages := u64 (sum (map nrpages (s_inodes fst))) in
  str "fst sid = " ++ str (s_id fst) ++ [10] ++ flat_map (show_inode fmt th) (s_inodes fst)
  ++ str "total page count " ++ dec (s64 pages) ++ str " size = " ++ dec (s64 (u64 (pages * 4))) ++ str " K" ++ [10]
  ++ str "total inode count " ++ dec (s64 (u64 (zlen (s_inodes fst)))) ++ str "  inode address space private buffer = "
  ++ dec (s64 (u64 (zlen (List.filter inode_has_buffers (s_inodes fst))))) ++ str " " ++ [10].
Proof. unfold set. by rewrite set_loop_spec. Qed.

Lemma dec_s64_len z : zlen (dec (s64 z)) <= 20.
Proof.
  pose proof (s64_range z). unfold dec. destruct (Z.ltb_spec (s64 z) 0).
  - rewrite zlen_cons.
    pose proof (digits_len 20 18 (- s64 z) ltac:(cbn; lia)). lia.
  - pose proof (digits_len 20 18 (s64 z) ltac:(cbn; lia)). lia.
Qed.

Lemma zlen_str s : zlen (str s) = Z.of_nat (String.length s).
Proof.
  unfold str, zlen. rewrite length_map. f_equal. induction s; cbn; [done|]. by rewrite IHs.
Qed.

Lemma flat_map_none {A B} (f : A -> list B) l : Forall (fun x => f x = []) l -> flat_map f l = [].
Proof. induction 1 as [|x l Hx _ IH]; [done|]. cbn. by rewrite Hx. Qed.

(** The sizes of the texts. *)
Lemma set_len fmt th fst :
  Forall (fun i => shown th i = false) (s_inodes fst) ->
  zlen (set fmt th fst) <= 178 + zlen (str (s_id fst)).
Proof.
  intros Hf. rewrite set_text. cbv zeta. rewrite flat_map_none.
  2: { eapply Forall_impl; [exact Hf|]. intros i Hi. unfold show_inode. by rewrite Hi. }
  rewrite !zlen_app.
  repeat match goal with |- context [dec (s64 ?x)] =>
    let H := fresh in pose proof (dec_s64_len x) as H; revert H; generalize (dec (s64 x)) end.
  intros. change (zlen (@nil Z)) with 0. rewrite !(zlen_str _).
  repeat match goal with |- context [String.length ?s] =>
    lazymatch s with s_id _ => fail | _ => let n := eval cbv in (String.length s) in change (String.length s) with n end end.
  change (zlen [10]) with 1. lia.
Qed.

Lemma set_all_len fmt th supers k :
  Forall (fun fst => Forall (fun i => shown th i = false) (s_inodes fst) /\ zlen (str (s_id fst)) <= k) supers ->
  zlen (set_all fmt th supers) <= (178 + k) * zlen supers.
Proof.
  induction 1 as [|fst rest [Hf Hk] _ IH]; [unfold zlen; cbn; lia|]. cbn [set_all]. rewrite zlen_app.
  pose proof (set_len fmt th fst Hf). rewrite zlen_cons. lia.
Qed.

Lemma show_dentry_len names : 22 * zlen names <= zlen (show_dentry names).
Proof.
  induction names as [|d rest IH]; [done|]. cbn [show_dentry]. rewrite !zlen_app.
  pose proof (zlen_nonneg (str d)). rewrite zlen_cons. change (zlen (str "        dentry name ")) with 20.
  change (zlen (str " ")) with 1. change (zlen [10]) with 1. lia.
Qed.

(** ** Properties *)

(** The totals that the lister prints for a super block are the sum of the
    page counts, the number of inodes and the number of those with buffers,
    and between them and the header stand the inodes above the threshold, in
    the order of the list; a negative threshold, compared as an unsigned
    long, shows none of fewer than 2^63 pages. *)
Theorem lister_totals fmt th fst :
  Forall (fun i => 0 <= nrpages i) (s_inodes fst) ->
  sum (map nrpages (s_inodes fst)) < 2 ^ 61 -> zlen (s_inodes fst) < 2 ^ 63 ->
  set fmt th fst =
    str "fst sid = " ++ str (s_id fst) ++ [10]
    ++ flat_map (fun i => if u64 th <? nrpages i then show_inode fmt th i else []) (s_inodes fst)
    ++ str "total page count " ++ dec (sum (map nrpages (s_inodes fst)))
    ++ str " size = " ++ dec (sum (map nrpages (s_inodes fst)) * 4) ++ str " K" ++ [10]
    ++ str "total inode count " ++ dec (zlen (s_inodes fst))
    ++ str "  inode address space private buffer = "
    ++ dec (zlen (List.filter inode_has_buffers (s_inodes fst))) ++ str " " ++ [10] /\
  (- 2 ^ 31 <= th < 0 -> flat_map (show_inode fmt th) (s_inodes fst) = []).
Proof.
  intros Hn Hs Hl.
  assert (0 <= sum (map nrpages (s_inodes fst)) /\
    Forall (fun i => nrpages i <= sum (map nrpages (s_inodes fst))) (s_inodes fst)) as [Hs0 Hall].
  { clear Hs Hl. induction Hn as [|i l Hi _ [IH1 IH2]]; [by split|]. cbn. fold (sum (map nrpages l)).
    split; [lia|]. constructor; [lia|]. eapply Forall_impl; [exact IH2|]. cbn. lia. }
  pose proof (zlen_nonneg (s_inodes fst)). set (P := sum (map nrpages (s_inodes fst))) in *.
  assert (0 <= zlen (List.filter inode_has_buffers (s_inodes fst)) <= zlen (s_inodes fst)).
  { unfold zlen. split; [lia|]. apply inj_le. apply List.filter_length_le. }
  split.
  - rewrite set_text. cbv zeta. fold P. rewrite !u64_small by lia. rewrite !s64_small by lia. do 3 f_equal. f_equal.
    apply flat_map_ext. intros i. unfold show_inode, shown. by destruct (u64 th <? nrpages i).
  - intros Ht. apply flat_map_none. eapply Forall_impl; [exact Hall|]. intros i Hi. cbn in Hi.
    unfold show_inode, shown.
    assert (u64 th = 2 ^ 64 + th) as -> by (unfold u64, wrapu; symmetry; apply (Z.mod_unique_pos _ _ (-1)); lia).
    by rewrite (proj2 (Z.ltb_ge _ _)) by lia.
Qed.

Definition two_inodes : super_block :=
  Super "sda1" [Inode 4096 1500 ["a"%string; "b"%string] [7]; Inode 8192 3 ["c"%string] []].

Lemma lister_totals_witness :
  set (fun _ => []) 1000 two_inodes =
    str "fst sid = sda1" ++ [10] ++ str "    inode  page count = 1500" ++ [10]
    ++ str "        dentry name a " ++ [10] ++ str "        dentry name b " ++ [10]
    ++ str "total page count 1503 size = 6012 K" ++ [10]
    ++ str "total inode count 2  inode address space private buffer = 1 " ++ [10].
Proof.
  destruct (lister_totals (fun _ => []) 1000 two_inodes) as [-> _]; [|done|done|vm_compute; reflexivity].
  repeat constructor; done.
Defined.

Lemma set_shown fmt th fst i :
  i ∈ s_inodes fst -> shown th i = true -> 22 * zlen (i_dentry i) <= zlen (set fmt th fst).
Proof.
  intros Hi Hs.
  assert (22 * zlen (i_dentry i) <= zlen (flat_map (show_inode fmt th) (s_inodes fst))) as H.
  { apply list_elem_of_split in Hi as (l1 & l2 & ->). rewrite flat_map_app. cbn [flat_map]. rewrite !zlen_app.
    unfold show_inode at 2. rewrite Hs, !zlen_app. pose proof (show_dentry_len (i_dentry i)).
    repeat match goal with |- context [zlen ?x] =>
      lazymatch x with i_dentry _ => fail | show_dentry _ => fail | _ =>
        let H := fresh in pose proof (zlen_nonneg x) as H; revert H; generalize (zlen x); intros ? end end.
    lia. }
  rewrite set_text. cbv zeta. rewrite !zlen_app. revert H. generalize (zlen (flat_map (show_inode fmt th) (s_inodes fst))).
  intros n Hn. repeat match goal with |- context [zlen ?x] =>
    lazymatch x with i_dentry _ => fail | _ => let H := fresh in pose proof (zlen_nonneg x) as H; revert H; generalize (zlen x); intros ? end end.
  lia.
Qed.

(** Whether the text fits into the page: it does, with its NUL, for up to 19
    super blocks with no inode above the threshold, a name of at most 31 bytes,
    the kernel's limit, and a type name of at most 99; one inode
    above the threshold with 187 names is enough to write past the page. *)
Theorem lister_page_bounds fmt th species o tr base supers text tr' h :
  run o tr base (list_cache fmt th species supers) = Fin text tr' h ->
  (zlen (str species) <= 99 -> zlen supers <= 19 ->
   Forall (fun fst => Forall (fun i => shown th i = false) (s_inodes fst) /\ zlen (str (s_id fst)) <= 31) supers ->
   zlen text < 4096) /\
  (o tr base (get_fs_type species) <> 0 ->
   (exists fst i, fst ∈ supers /\ i ∈ s_inodes fst /\ shown th i = true /\ 187 <= zlen (i_dentry i)) ->
   4096 < zlen text).
Proof.
  intros Hr. unfold list_cache in Hr. cbn [run] in Hr. unfold settle in Hr.
  cbn [releases acquires drops give_back_all drop_all] in Hr.
  assert (text = if o tr base (get_fs_type species) =? 0 then str "found no super block of [" ++ str species ++ str "]" ++ [10]
    else str "list super block of [" ++ str species ++ str "]" ++ [10] ++ set_all fmt th supers) as ->.
  { destruct (_ =? 0); cbn [run] in Hr; by injection Hr as <- _ _. }
  clear Hr. split.
  - intros Hsp Hn Hf. pose proof (set_all_len fmt th supers 31 Hf).
    destruct (_ =? 0); rewrite !zlen_app; change (zlen (str "]")) with 1; change (zlen [10]) with 1.
    + change (zlen (str "found no super block of [")) with 25. lia.
    + change (zlen (str "list super block of [")) with 21. lia.
  - intros Hp (fst & i & Hfst & Hi & Hs & Hl). rewrite (proj2 (Z.eqb_neq _ _) Hp), !zlen_app.
    assert (22 * zlen (i_dentry i) <= zlen (set_all fmt th supers)) as H.
    { pose proof (set_shown fmt th fst i Hi Hs) as H. apply list_elem_of_split in Hfst as (l1 & l2 & ->). revert H.
      clear. induction l1 as [|y l1 IH]; cbn [app set_all]; rewrite zlen_app; intros H;
        [pose proof (zlen_nonneg (set_all fmt th l2))|pose proof (zlen_nonneg (set fmt th y)); specialize (IH H)]; lia. }
    pose proof (zlen_nonneg (str species)). change (zlen (str "list super block of [")) with 21.
    change (zlen (str "]")) with 1. change (zlen [10]) with 1. lia.
Qed.

Definition crowded : super_block := Super "sda1" [Inode 4096 1001 (replicate 187 "name"%string) []].

Lemma lister_page_bounds_witness :
  exists text tr h, run good_oracle [] [] (list_cache (fun _ => []) 1000 "ext3" [crowded]) = Fin text tr h /\
    4096 < zlen text.
Proof.
  destruct (run good_oracle [] [] (list_cache (fun _ => []) 1000 "ext3" [crowded])) as [text tr h|c t h|w t h] eqn:E;
    [|vm_compute in E; discriminate..].
  exists text, tr, h. split; [done|].
  apply (lister_page_bounds (fun _ => []) 1000 "ext3" good_oracle [] [] [crowded] text tr h E); [done|].
  exists crowded, (Inode 4096 1001 (replicate 187 "name"%string) []).
  split; [by left|]. split; [by left|]. split; [reflexivity|]. vm_compute. discriminate.
Defined.

(** Every read of the /proc entry takes a reference to the module of the
    file system type and gives none back: after [n] reads [n] are held. *)
Theorem lister_leaks_reference fmt th species o supers p base n tr :
  (forall tr h, o tr h (get_fs_type species) = p) -> p <> 0 ->
  exists tr', run o tr base (reads fmt th species n supers) = Fin tt tr' (replicate n (RModule p) ++ base).
Proof.
  intros Ho Hp. revert tr base. induction n as [|n IH]; intros tr base; [by eexists|].
  cbn [reads bind run list_cache]. unfold list_cache. cbn [bind run]. rewrite Ho. unfold settle.
  cbn [releases acquires drops give_back_all drop_all]. rewrite (proj2 (Z.eqb_neq _ _) Hp). cbn [app bind].
  destruct (IH (tr ++ [(get_fs_type species, p)]) (RModule p :: base)) as (tr' & ->).
  exists tr'. f_equal. clear. induction n as [|n IH]; [done|]. cbn. by rewrite IH.
Qed.

Lemma lister_leaks_reference_witness :
  exists tr', run (fun _ _ c => match c with get_fs_type _ => 8192 | _ => 0 end) [] []
    (reads (fun _ => []) 1000 "ext3" 3 [two_inodes]) = Fin tt tr' (replicate 3 (RModule 8192) ++ []).
Proof. by apply lister_leaks_reference. Defined.
