(* ===== verification/MemExamples.v ===== *)
(** * The allocation examples (memory/my_kmalloc.c, my_page1.c, my_vmalloc.c, my_kmap.c)

    Each module allocates at load and frees at unload; [order] is its
    parameter.  my_vmalloc.c also fills what it has allocated. *)
From stdpp Require Import strings.
From S2P Require Import Prelude Kernel.
Local Open Scope Z_scope.

Definition PAGE_SIZE : Z := 4096.

(** [1 << order] of an int. *)
Definition one_shl (order : Z) : Z := s32 (Z.shiftl 1 order).

(** ** memory/my_kmalloc.c *)
Definition kmalloc_init (order : Z) : prog (Z * Z) :=
  call! buf <- kzalloc "bytes" (s32 (one_shl order - 1)) ;;
  if buf =? 0 then Ret (- ENOMEM, 0) else Ret (0, buf).
Definition kmalloc_exit (buf : Z) : prog unit := do! kfree buf ;; Ret tt.

(** ** memory/my_page1.c *)
Definition page1_init (order : Z) : prog (Z * Z) :=
  call! buf <- alloc_pages order ;;
  if buf =? 0 then Ret (- ENOMEM, 0) else Ret (0, buf).
Definition page1_exit (order buf : Z) : prog unit := do! free_pages buf order ;; Ret tt.

(** ** memory/my_kmap.c: the page and its mapping *)
Definition kmap_init (order : Z) : prog (Z * (Z * Z)) :=
  call! buf <- alloc_pages order ;;
  if buf =? 0 then Ret (- ENOMEM, (0, 0))
  else call! kmap_buf <- kmap buf ;; Ret (0, (buf, kmap_buf)).
Definition kmap_exit (order : Z) (st : Z * Z) : prog unit :=
  do! kunmap (snd st) ;;
  do! free_pages (fst st) order ;;
  Ret tt.

(** ** memory/my_vmalloc.c *)

(** What [vmalloc] maps for a request: whole pages, none for no byte. *)
Definition area (n : Z) : list Z := replicate (Z.to_nat ((n + PAGE_SIZE - 1) / PAGE_SIZE * PAGE_SIZE)) 0.

(** The loop [buf[i] = 0x5a] from [i] on, [n] rounds. *)
Fixpoint fill (buf : list Z) (i : Z) (n : nat) : option (list Z) :=
  match n with
  | O => Some buf
  | S n' => buf ← wr buf i [0x5a]; fill buf (i + 1) n'
  end.

(** The module's state: the address, and the area after the loop. *)
Definition vmalloc_init (order : Z) : prog (Z * (Z * list Z)) :=
  let n := s32 (one_shl order - 1) in
  call! buf <- vmalloc n ;;
  if buf =? 0 then Ret (- ENOMEM, (0, []))
  else
    match fill (area n) 0 (Z.to_nat (one_shl order)) with
    | Some bytes => Ret (0, (buf, bytes))
    | None => Oops "buf[i] outside the area"
    end.
Definition vmalloc_exit (st : Z * list Z) : prog unit := do! vfree (fst st) ;; Ret tt.

(** ** Lemmas *)
#[global] Instance kmalloc_balanced order : Balanced (kmalloc_init order) kmalloc_exit.
Proof. unfold Balanced, kmalloc_init. kbalanced kmalloc_init kmalloc_exit. Qed.

#[global] Instance page1_balanced order : Balanced (page1_init order) (page1_exit order).
Proof. unfold Balanced, page1_init. kbalanced page1_init page1_exit. Qed.

Lemma area_fill_ok buf i n :
  0 <= i -> i + Z.of_nat n <= zlen buf ->
  exists buf', fill buf i n = Some buf' /\ zlen buf' = zlen buf /\ sl buf' 0 i = sl buf 0 i /\
    sl buf' i (Z.of_nat n) = replicate n 0x5a.
Proof.
  revert buf i. induction n as [|n IH]; intros buf i Hi Hl; [by exists buf|].
  cbn [fill]. rewrite wr_ok by (change (zlen [0x5a]) with 1; lia). cbn [mbind option_bind].
  destruct (IH (upd buf i [0x5a]) (i + 1)) as (buf' & Hf & Hz & Hb & Hs);
    [lia|rewrite zlen_upd by (change (zlen [0x5a]) with 1; lia); lia|].
  exists buf'. rewrite zlen_upd in Hz by (change (zlen [0x5a]) with 1; lia).
  split; [done|]. split; [done|].
  change 1 with (zlen [0x5a]) in Hb at 1 2. rewrite sl_upd_append in Hb by (change (zlen [0x5a]) with 1; lia).
  change (zlen [0x5a]) with 1 in Hb. rewrite sl_app in Hb by lia. cbn in Hb.
  assert (length (sl buf' 0 i) = length (sl buf 0 i)) as Hlen.
  { apply Nat2Z.inj. change (zlen (sl buf' 0 i) = zlen (sl buf 0 i)). rewrite !zlen_sl by lia. done. }
  apply app_inj_1 in Hb as [-> Hb]; [|done]. split; [done|].
  replace (Z.of_nat (S n)) with (1 + Z.of_nat n) by lia. rewrite Z.add_0_l in Hb.
  rewrite sl_app by lia. by rewrite Hb, Hs.
Qed.

(** The area for one byte less than a power of two has room for all of it. *)
Lemma area_room order : 1 <= order <= 30 ->
  one_shl order = 2 ^ order /\ s32 (one_shl order - 1) = 2 ^ order - 1 /\ 2 ^ order <= zlen (area (2 ^ order - 1)).
Proof.
  intros Ho. assert (2 <= 2 ^ order <= 2 ^ 30) as Hr.
  { split; [apply (Z.pow_le_mono_r 2 1); lia|apply Z.pow_le_mono_r; lia]. }
  assert (one_shl order = 2 ^ order) as E.
  { unfold one_shl. rewrite Z.shiftl_1_l. apply s32_small. lia. }
  split; [done|]. split; [rewrite E; apply s32_small; lia|].
  unfold area, zlen. rewrite length_replicate. unfold PAGE_SIZE.
  assert (0 <= (2 ^ order - 1 + 4096 - 1) / 4096) by (apply Z.div_pos; lia). rewrite Z2Nat.id by lia.
  destruct (Z.le_gt_cases 12 order) as [Hge|Hlt].
  - replace order with (order - 12 + 12) by lia. rewrite Z.pow_add_r by lia. change (2 ^ 12) with 4096.
    assert (0 < 2 ^ (order - 12)) by (apply Z.pow_pos_nonneg; lia).
    replace (2 ^ (order - 12) * 4096 - 1 + 4096 - 1) with (4094 + 2 ^ (order - 12) * 4096) by lia.
    rewrite Z.div_add by lia. change (4094 / 4096) with 0. lia.
  - assert (2 ^ order <= 2 ^ 11) by (apply Z.pow_le_mono_r; lia).
    assert (1 <= (2 ^ order - 1 + 4096 - 1) / 4096) by (apply Z.div_le_lower_bound; lia). lia.
Qed.

#[global] Instance vmalloc_balanced order : 1 <= order <= 30 -> Balanced (vmalloc_init order) vmalloc_exit.
Proof.
  intros Ho. destruct (area_room order Ho) as (E1 & E2 & Hr). unfold Balanced, vmalloc_init. rewrite E2, E1.
  destruct (area_fill_ok (area (2 ^ order - 1)) 0 (Z.to_nat (2 ^ order))) as (b & -> & _); [lia|lia|].
  kbalanced vmalloc_init vmalloc_exit.
Qed.

(** ** Properties *)

(** My_vmalloc.c asks for one byte less than it fills, and the store still
    stays inside what [vmalloc] maps, for every order from 1 to 30: loading
    never faults, each of the first 2^order bytes is 0x5a, and unloading gives
    the area back. *)
Theorem vmalloc_fill_in_area order o base n :
  1 <= order <= 30 -> conforming o -> clean base ->
  (exists b, fill (area (s32 (one_shl order - 1))) 0 (Z.to_nat (one_shl order)) = Some b /\
     2 ^ order <= zlen b /\ sl b 0 (2 ^ order) = replicate (Z.to_nat (2 ^ order)) 0x5a) /\
  exists t, run o [] base (load_cycles n (vmalloc_init order) vmalloc_exit) = Fin tt t base.
Proof.
  intros Ho Hc Hb. split.
  - destruct (area_room order Ho) as (E1 & E2 & Hr). rewrite E2, E1.
    destruct (area_fill_ok (area (2 ^ order - 1)) 0 (Z.to_nat (2 ^ order))) as (b & Hf & Hz & _ & Hs); [lia|lia|].
    exists b. rewrite Z2Nat.id in Hs by (apply Z.pow_nonneg; lia). split; [done|]. split; [lia|done].
  - pose proof (vmalloc_balanced order Ho) as Hbal.
    destruct (safe_run answers o _ [] base _ Hc (load_cycles_safe n (vmalloc_init order) vmalloc_exit [] base Hb))
      as ([] & t & h & Hr & ->). by exists t.
Qed.

Lemma vmalloc_fill_in_area_witness :
  exists t, run good_oracle [] [] (load_cycles 2 (vmalloc_init 12) vmalloc_exit) = Fin tt t [].
Proof. apply (vmalloc_fill_in_area 12); [lia|apply good_oracle_conforming|constructor]. Defined.

(** My_kmap.c gives back the address of the mapping where [kunmap] wants
    the page: the page stays mapped when the module is gone. *)
Theorem kmap_exit_misuse order o t base :
  let p := o t base (alloc_pages order) in
  let t1 := t ++ [(alloc_pages order, p)] in
  let q := o t1 (RPages p order :: base) (kmap p) in
  p <> 0 -> q <> p -> RKmap q ∉ base ->
  run o t base (let! (_, st) <- kmap_init order ;; kmap_exit order st) =
    Misuse (kunmap q) (t1 ++ [(kmap p, q)]) (RKmap p :: RPages p order :: base).
Proof.
  intros p t1 q Hp Hq Hb. unfold kmap_init, kmap_exit. cbn [bind run]. fold p. unfold settle at 1.
  cbn [releases acquires drops give_back_all drop_all]. rewrite (proj2 (Z.eqb_neq _ _) Hp).
  cbn [app bind run]. fold t1 q. unfold settle. cbn [releases acquires drops give_back_all drop_all app snd run].
  unfold settle. cbn [releases give_back_all]. rewrite give_back_none; [done|].
  rewrite !not_elem_of_cons. split; [congruence|by split].
Qed.

Definition mapping_oracle : oracle := fun _ _ c => match c with kmap _ => 0x7000 | _ => 4096 end.

Lemma kmap_exit_misuse_witness :
  run mapping_oracle [] []
    (let! (_, st) <- kmap_init 0 ;; kmap_exit 0 st) =
    Misuse (kunmap 0x7000) [(alloc_pages 0, 4096); (kmap 4096, 0x7000)] [RKmap 4096; RPages 4096 0].
Proof. apply (kmap_exit_misuse 0 mapping_oracle [] []); [done|done|by apply not_elem_of_nil]. Defined.
