(* ===== verification/Loaders.v ===== *)
(** * Module load and unload of the small drivers

    The [module_init] and [module_exit] routines (and the platform driver's
    probe and remove) of drivers whose loading is all they do with kernel
    resources.  Static objects that identify a handler or hold a cdev
    ([&irq_sum], [&my_tasklet], [mycdev]) have fixed addresses. *)
From stdpp Require Import strings.
From S2P Require Import Prelude Kernel CharIface.
From S2P Require MyChar MyWait KeySpin RadixWalk IoPort FsTree ListCache MemExamples.
Local Open Scope Z_scope.

(** ** protect/pipe.c: the buffer's allocation is not checked *)
Definition pipe_init (major : Z) : prog (Z * handles) :=
  call! dev <- kzalloc "struct mydev" 1 ;;
  if dev =? 0 then Ret (- ENOMEM, Handles 0 0 major) else
  call! start <- kzalloc "buffer" 100 ;;
  let! (ret, major) <- get_region major 10 ;;
  if c_true ret then
    do! kfree start ;;
    do! kfree dev ;;
    Ret (-1, Handles dev start major)
  else
    do! cdev_init dev ;;
    do! cdev_add dev (MKDEV major 0) 1 ;;
    do! create_proc_read_entry "proc_pipe" ;;
    Ret (0, Handles dev start major).

Definition pipe_exit (h : handles) : prog unit :=
  do! remove_proc_entry "proc_pipe" ;;
  do! cdev_del (h_dev h) ;;
  do! unregister_chrdev_region (MKDEV (h_major h) 0) 10 ;;
  do! kfree (h_start h) ;;
  do! kfree (h_dev h) ;;
  Ret tt.

(** ** protect/my_mutex.c: a skeleton whose read and write transfer nothing *)
Definition mutex_read (count : Z) : Z := s64 count.
Definition mutex_write (count : Z) : Z := s64 count.

Definition mutex_init (major : Z) : prog (Z * handles) :=
  call! dev <- kzalloc "struct mydev" 1 ;;
  if dev =? 0 then Ret (- ENOMEM, Handles 0 0 major) else
  call! start <- kzalloc "buffer" 100 ;;
  if start =? 0 then do! kfree dev ;; Ret (- ENOMEM, Handles dev 0 major) else
  let! (ret, major) <- get_region major 20 ;;
  if c_true ret then
    do! kfree start ;;
    do! kfree dev ;;
    Ret (-1, Handles dev start major)
  else
    do! cdev_init dev ;;
    do! cdev_add dev (MKDEV major 0) 1 ;;
    Ret (0, Handles dev start major).

Definition mutex_exit (h : handles) : prog unit :=
  do! cdev_del (h_dev h) ;;
  do! unregister_chrdev_region (MKDEV (h_major h) 0) 20 ;;
  do! kfree (h_start h) ;;
  do! kfree (h_dev h) ;;
  Ret tt.

(** ** protect/my_atomic.c *)
Definition irq_sum_addr : Z := 2.

Definition atomic_init : prog (Z * unit) :=
  call! ret <- request_irq 1 irq_sum_addr ;;
  if c_true ret then Ret (-1, tt) else
  call! ret <- request_irq 12 irq_sum_addr ;;
  if c_true ret then do! free_irq 1 irq_sum_addr ;; Ret (-1, tt)
  else Ret (0, tt).

Definition atomic_exit (_ : unit) : prog unit :=
  do! free_irq 12 irq_sum_addr ;;
  do! free_irq 1 irq_sum_addr ;;
  Ret tt.

(** ** interrupt/irq_disable.c *)
Definition irq_disable_init : prog (Z * unit) :=
  do! create_proc_read_entry "proc_disable" ;;
  do! create_proc_read_entry "proc_enable" ;;
  Ret (0, tt).

Definition irq_disable_exit (_ : unit) : prog unit :=
  do! remove_proc_entry "proc_disable" ;;
  do! remove_proc_entry "proc_enable" ;;
  Ret tt.

(** The counter [disable_count] (an unsigned int) of the two /proc handlers. *)
Definition proc_disable (disable_count : Z) : Z := u32 (disable_count + 1).
Definition proc_enable (disable_count : Z) : Z := u32 (disable_count - 1).

(** ** interrupt/my_tasklet.c *)
Definition my_tasklet_addr : Z := 3.

Definition tasklet_init_ : prog (Z * unit) :=
  call! ret <- request_irq 12 my_tasklet_addr ;;
  if c_true ret then Ret (-1, tt) else Ret (0, tt).

Definition tasklet_exit (_ : unit) : prog unit :=
  do! free_irq 12 my_tasklet_addr ;; Ret tt.

(** ** interrupt/my_workqueue.c *)
Definition workqueue_init : prog (Z * Z) :=
  call! dev <- kzalloc "struct mydev" 1 ;;
  if dev =? 0 then Ret (- ENOMEM, 0) else
  call! ret <- request_irq 12 dev ;;
  if c_true ret then Ret (-1, dev) else Ret (0, dev).

Definition workqueue_exit (dev : Z) : prog unit :=
  do! free_irq 12 dev ;;
  do! kfree dev ;;
  Ret tt.

(** ** interrupt/my_irq.c: an exercise; the handlers are empty, the interrupt
    is not requested *)
Definition my_irq_init : prog (Z * unit) := do! create_proc_read_entry "proc_key" ;; Ret (0, tt).
Definition my_irq_exit (_ : unit) : prog unit := do! remove_proc_entry "proc_key" ;; Ret tt.

(** ** time/my_timer.c *)
Definition timer_init : prog (Z * unit) :=
  do! create_proc_read_entry "proc_timer" ;; Ret (0, tt).
Definition timer_exit (_ : unit) : prog unit :=
  do! remove_proc_entry "proc_timer" ;; Ret tt.

(** ** memory/my_slab.c: a thousand objects of a slab cache *)
Definition ITEM_LEN : nat := 1000.

Fixpoint slab_free_all (cache : Z) (items : list Z) : prog unit :=
  match items with
  | [] => Ret tt
  | pos :: rest => do! kmem_cache_free cache pos ;; slab_free_all cache rest
  end.

(** The loop of [my_init]; [items] is [mydev.proc_list], newest first. *)
Fixpoint slab_fill (n : nat) (cache : Z) (items : list Z) : prog (bool * list Z) :=
  match n with
  | O => Ret (true, items)
  | S n' =>
      call! pos <- kmem_cache_alloc cache ;;
      if pos =? 0 then Ret (false, items) else slab_fill n' cache (pos :: items)
  end.

Definition slab_init (len : nat) : prog (Z * (Z * list Z)) :=
  call! cache <- kmem_cache_create "my_cache" ;;
  let! (ok, items) <- slab_fill len cache [] ;;
  if ok : bool then do! create_proc_read_entry "proc_slab" ;; Ret (0, (cache, items))
  else
    let! _ <- slab_free_all cache items ;;
    do! kmem_cache_destroy cache ;;
    Ret (- ENOMEM, (cache, items)).

Definition slab_exit (st : Z * list Z) : prog unit :=
  do! remove_proc_entry "proc_slab" ;;
  let! _ <- slab_free_all (fst st) (snd st) ;;
  do! kmem_cache_destroy (fst st) ;;
  Ret tt.

(** What [proc_read] prints: the count, then the values oldest first (the
    value of the [i]-th object is [i] modulo 256). *)
Definition slab_proc_read (len : nat) : list Z :=
  str "count = " ++ dec (Z.of_nat len) ++ [10] ++
  flat_map (fun i => str "Value = " ++ dec (u8 (Z.of_nat i)) ++ [10]) (seq 0 len).

(** ** platform/skel_drv.c *)
Record pdev := Pdev { id : Z; mem_start : option Z; io_start : option Z; irq : option Z }.

Definition skel_init : prog (Z * Z) :=
  call! my_class <- class_create "uplooking" ;;
  if IS_ERR my_class then Ret (my_class, my_class)
  else call! ret <- driver_register "nolan" ;; Ret (ret, my_class).

Definition skel_exit (my_class : Z) : prog unit :=
  do! driver_unregister "nolan" ;;
  do! class_destroy my_class ;;
  Ret tt.

Definition skel_probe (my_class : Z) (p : pdev) : prog (Z * Z) :=
  call! dev <- kzalloc "struct mydev" 1 ;;
  if dev =? 0 then Ret (- ENOMEM, 0) else
  match mem_start p, io_start p, irq p with
  | Some _, Some _, Some _ =>
      let devno := MKDEV 50 (id p) in
      call! ret <- register_chrdev_region devno 1 ;;
      if c_true ret then do! kfree dev ;; Ret (-1, dev) else
      do! cdev_init dev ;;
      do! cdev_add dev devno 1 ;;
      call! class_dev <- device_create my_class devno ;;
      if IS_ERR class_dev then
        do! cdev_del dev ;;
        do! unregister_chrdev_region devno 1 ;;
        do! kfree dev ;;
        Ret (class_dev, dev)
      else Ret (0, dev)
  | _, _, _ => Oops "res->start of NULL res"
  end.

Definition skel_remove (my_class : Z) (p : pdev) (dev : Z) : prog unit :=
  let devno := MKDEV 50 (id p) in
  do! device_destroy my_class devno ;;
  do! cdev_del dev ;;
  do! unregister_chrdev_region devno 1 ;;
  do! kfree dev ;;
  Ret tt.

(** ** platform/key_char_platform.c *)

(** [ioaddr] of the device structure is never set; the mapping goes to the
    static pointer of the same name. *)
Definition key_init : prog (Z * Z) :=
  call! my_class <- class_create "key_class" ;;
  if IS_ERR my_class then Ret (my_class, my_class)
  else call! ret <- driver_register "pata_platform" ;; Ret (ret, my_class).

Definition key_exit (my_class : Z) : prog unit :=
  do! driver_unregister "pata_platform" ;;
  do! class_destroy my_class ;;
  Ret tt.

Record keydev := Keydev { kself : Z; dev_ioaddr : Z; static_ioaddr : Z }.

Definition key_probe (PAGE_OFFSET my_class : Z) (p : pdev) : prog (Z * keydev) :=
  call! dev <- kzalloc "struct mydev" 1 ;;
  if dev =? 0 then Ret (- ENOMEM, Keydev 0 0 0) else
  match irq p, mem_start p with
  | Some _, Some start =>
      let devno := MKDEV 80 (id p) in
      do! cdev_init dev ;;
      do! cdev_add dev devno 1 ;;
      do! device_create my_class devno ;;
      Ret (0, Keydev dev 0 (u64 (start + PAGE_OFFSET)))
  | _, _ => Oops "res->start of NULL res"
  end.

Definition key_remove (my_class : Z) (p : pdev) (d : keydev) : prog unit :=
  do! device_destroy my_class (MKDEV 80 (id p)) ;;
  do! cdev_del (kself d) ;;
  do! iounmap (dev_ioaddr d) ;;
  do! kfree (kself d) ;;
  Ret tt.

(** ** The promise to the module loader *)
#[global] Instance pipe_balanced major : Balanced (pipe_init major) pipe_exit.
Proof. unfold Balanced, pipe_init, get_region. kbalanced pipe_init pipe_exit. Qed.
#[global] Instance mutex_balanced major : Balanced (mutex_init major) mutex_exit.
Proof. unfold Balanced, mutex_init, get_region. kbalanced mutex_init mutex_exit. Qed.
#[global] Instance atomic_balanced : Balanced atomic_init atomic_exit.
Proof. kbalanced atomic_init atomic_exit. Qed.
#[global] Instance irq_disable_balanced : Balanced irq_disable_init irq_disable_exit.
Proof. kbalanced irq_disable_init irq_disable_exit. Qed.
#[global] Instance tasklet_balanced : Balanced tasklet_init_ tasklet_exit.
Proof. kbalanced tasklet_init_ tasklet_exit. Qed.
#[global] Instance my_irq_balanced : Balanced my_irq_init my_irq_exit.
Proof. kbalanced my_irq_init my_irq_exit. Qed.
#[global] Instance timer_balanced : Balanced timer_init timer_exit.
Proof. kbalanced timer_init timer_exit. Qed.
#[global] Instance skel_probe_balanced c i m io q :
  Balanced (skel_probe c (Pdev i (Some m) (Some io) (Some q)))
           (skel_remove c (Pdev i (Some m) (Some io) (Some q))).
Proof.
  unfold Balanced, skel_probe. cbn [mem_start io_start irq id].
  kbalanced skel_probe skel_remove.
Qed.

(** my_slab.c, for any number of objects. *)
Definition objects (items : list Z) : list res := map RMem items.

Lemma slab_free_all_safe cache items t X Y base (Q : unit -> trace -> list res -> Prop) :
  X ≡ₚ objects items ++ Y ->
  (forall t' X', X' ≡ₚ Y -> Q tt t' (X' ++ base)) ->
  safe answers (slab_free_all cache items) t (X ++ base) Q.
Proof.
  revert t X. induction items as [|p items IH]; intros t X HX HQ.
  { by apply safe_ret, HQ. }
  cbn [slab_free_all]. eapply (safe_release _ _ (RMem p)); [done..|exact HX|].
  intros _ t1 X1 HX1. by apply IH.
Qed.

Lemma slab_fill_safe n cache items t Y base (Q : bool * list Z -> trace -> list res -> Prop) :
  (forall t' ok items', Q (ok, items') t' (objects items' ++ Y ++ base)) ->
  safe answers (slab_fill n cache items) t (objects items ++ Y ++ base) Q.
Proof.
  revert items t. induction n as [|n IH]; intros items t HQ; [by apply safe_ret|].
  cbn [slab_fill]. apply safe_call. intros pos Hpos. kred.
  destruct (Z.eqb_spec pos 0) as [E|E]; [by apply safe_ret|]. by apply (IH (pos :: items)).
Qed.

#[global] Instance slab_balanced len : Balanced (slab_init len) slab_exit.
Proof.
  intros t base Hc. unfold slab_init. apply safe_call. intros c Hcache. cbn in Hcache. kred.
  rewrite (proj2 (Z.eqb_neq c 0)) by lia. apply safe_bind.
  assert (forall items t' X, X ≡ₚ objects items ++ [RSlab c] ->
    forall A (a : A) (Q : A -> trace -> list res -> Prop), (forall t2, Q a t2 base) ->
    safe answers (let! _ <- slab_free_all c items ;; do! kmem_cache_destroy c ;; Ret a)
      t' (X ++ base) Q) as Hfree.
  { intros items t' X HX A a Q HQ. apply safe_bind. eapply slab_free_all_safe; [exact HX|].
    intros t1 X1 HX1. eapply (safe_release _ _ (RSlab c)); [done..|exact HX1|].
    intros _ t2 X2 HX2. apply Permutation_nil_r in HX2 as ->. apply HQ. }
  apply (slab_fill_safe len c [] _ [RSlab c] base). intros t1 ok items. destruct ok.
  - apply safe_call. intros r Hr. cbn in Hr. kred. apply safe_ret. split; [done|]. intros _.
    unfold slab_exit. cbn [fst snd]. rewrite app_assoc.
    apply safe_call. intros r2 _. kred.
    assert (clean (objects items ++ RSlab c :: base)) as Hcl.
    { apply Forall_app; split; [|by constructor]. apply Forall_map, Forall_true. done. }
    destruct (r =? 0) eqn:E; kcbn.
    + rewrite <- app_assoc. cbn [app]. rewrite clean_proc by done. change (RSlab c :: base) with ([RSlab c] ++ base).
      rewrite app_assoc. by apply Hfree.
    + rewrite String.eqb_refl. kcbn. change (RSlab c :: base) with ([RSlab c] ++ base).
      rewrite app_assoc. by apply Hfree.
  - rewrite app_assoc. apply Hfree; [done|]. intros t2. split; [done|discriminate].
Qed.

(** A module that the loader can load and unload. *)
Record kmodule := Kmodule { m_st : Type; m_init : prog (Z * m_st); m_exit : m_st -> prog unit }.

Definition modules : list kmodule :=
  [Kmodule _ (MyChar.my_init MyChar.MY_MAJOR) MyChar.my_exit;
   Kmodule _ (MyChar.my_init 0) MyChar.my_exit;
   Kmodule _ (MyWait.my_init 50) MyWait.my_exit;
   Kmodule _ (mutex_init 50) mutex_exit;
   Kmodule _ (pipe_init 60) pipe_exit;
   Kmodule _ atomic_init atomic_exit;
   Kmodule _ KeySpin.like_irq_init KeySpin.like_irq_exit;
   Kmodule _ irq_disable_init irq_disable_exit;
   Kmodule _ tasklet_init_ tasklet_exit;
   Kmodule _ timer_init timer_exit;
   Kmodule _ RadixWalk.list_buffer_init RadixWalk.list_buffer_exit;
   Kmodule _ ListCache.my_init ListCache.my_exit;
   Kmodule _ (MemExamples.kmalloc_init 1) MemExamples.kmalloc_exit;
   Kmodule _ (MemExamples.page1_init 0) (MemExamples.page1_exit 0);
   Kmodule _ FsTree.init_example_fs FsTree.exit_example_fs;
   Kmodule _ IoPort.ioport_init IoPort.ioport_exit;
   Kmodule _ (slab_init ITEM_LEN) slab_exit].

(** Loading and unloading these drivers any number of times, with any of
    the kernel calls failing at any point, never gives back what is not held
    and leaves nothing behind. *)
Theorem modules_load_cleanly o base :
  conforming o -> clean base ->
  Forall (fun m => forall n t, exists t',
      run o t base (load_cycles n (m_init m) (m_exit m)) = Fin tt t' base) modules.
Proof.
  intros Ho Hc.
  assert (forall m, Balanced (m_init m) (m_exit m) -> forall n t, exists t',
    run o t base (load_cycles n (m_init m) (m_exit m)) = Fin tt t' base) as H.
  { intros m Hm n t.
    destruct (safe_run answers o _ t base _ Ho (load_cycles_safe n (m_init m) (m_exit m) t base Hc))
      as ([] & t' & h & Hr & ->). by exists t'. }
  repeat constructor; apply H; cbn; apply _.
Qed.

Lemma modules_load_cleanly_witness :
  exists t', run good_oracle [] [] (load_cycles 2 (MyChar.my_init 0) MyChar.my_exit) = Fin tt t' [].
Proof.
  pose proof (modules_load_cleanly good_oracle [] good_oracle_conforming ltac:(constructor)) as H.
  inversion_clear H as [|? ? _ H']. inversion_clear H' as [|? ? H1 _]. apply (H1 2%nat []).
Defined.

(** Probing a skel_drv device that has its three resources and removing it
    again gives everything back, also when a registration fails half-way. *)
Theorem skel_probe_remove o c i m io q n base :
  conforming o -> clean base ->
  exists t', run o [] base (load_cycles n (skel_probe c (Pdev i (Some m) (Some io) (Some q)))
                                          (skel_remove c (Pdev i (Some m) (Some io) (Some q)))) = Fin tt t' base.
Proof.
  intros Ho Hc. destruct (safe_run answers o _ [] base _ Ho
    (load_cycles_safe n (skel_probe c (Pdev i (Some m) (Some io) (Some q))) (skel_remove c _) [] base Hc))
    as ([] & t' & h & Hr & ->). by exists t'.
Qed.

Lemma skel_probe_remove_witness :
  exists t', run good_oracle [] [] (load_cycles 3 (skel_probe 7 (Pdev 1 (Some 4096) (Some 1000) (Some 5)))
                                          (skel_remove 7 (Pdev 1 (Some 4096) (Some 1000) (Some 5)))) = Fin tt t' [].
Proof. apply skel_probe_remove; [apply good_oracle_conforming|constructor]. Defined.

(** Load routines that leak: my_workqueue.c keeps its structure when
    [request_irq] fails, skel_drv.c and key_char_platform.c keep their class
    when the driver cannot be registered. *)
Theorem failed_loads_leak :
  (exists t, run (failing_oracle 1 (- EBUSY)) [] [] workqueue_init = Fin (-1, 4096) t [RMem 4096]) /\
  (exists t, run (failing_oracle 1 (- EBUSY)) [] [] skel_init = Fin (- EBUSY, 4096) t [RClass 4096]) /\
  (exists t, run (failing_oracle 1 (- EBUSY)) [] [] key_init = Fin (- EBUSY, 4096) t [RClass 4096]).
Proof. repeat split; eexists; vm_compute; reflexivity. Qed.

(** [my_remove] of key_char_platform.c unmaps [dev->ioaddr], which the
    probe never set: the first thing it misuses is [iounmap] of NULL. *)
Theorem key_remove_unmaps_null PAGE_OFFSET c m q :
  exists t held, run good_oracle [] []
    (let! (_, d) <- key_probe PAGE_OFFSET c (Pdev 0 (Some m) None (Some q)) ;;
     key_remove c (Pdev 0 (Some m) None (Some q)) d) = Misuse (iounmap 0) t held.
Proof. do 2 eexists. vm_compute. reflexivity. Qed.

(** My_slab.c prints its thousand objects into one /proc page: the text
    has 11573 bytes where the page has 4096. *)
Theorem slab_proc_overflows : zlen (slab_proc_read ITEM_LEN) = 11573 /\ 4096 < zlen (slab_proc_read ITEM_LEN).
Proof. vm_compute. done. Qed.

(** Pipe.c loads successfully although its buffer could not be allocated:
    [dev->start] is NULL. *)
Theorem pipe_loads_without_buffer :
  exists t held, run (failing_oracle 1 0) [] [] (pipe_init 60) = Fin (0, Handles 4096 0 60) t held.
Proof. do 2 eexists. vm_compute. reflexivity. Qed.
