(* ===== verification/UsbSkel.v ===== *)
(** * usb/usb-skeleton.c: the USB driver

    The I/O side of the driver: readers, writers, flush, the completion
    callbacks of the USB core, disconnect and reset, as one system whose steps
    interleave.  The first part is the device structure and what each routine
    does with it between two points where another one can run; [act] is the
    step of the whole system.  [io_mutex] and [limit_sem] are part of the
    state; a call that would wait is not enabled.  Freed memory, NULL
    pointers, accesses outside [bulk_in_buffer] are [Crash]. *)
From stdpp Require Import strings.
From S2P Require Import Prelude Kernel.
Local Open Scope Z_scope.

Definition PAGE_SIZE : Z := 4096.
Definition MAX_TRANSFER : Z := PAGE_SIZE - 512.
Definition WRITES_IN_FLIGHT : Z := 8.

Definition EINTR : Z := 4.
Definition ENOENT : Z := 2.
Definition ECONNRESET : Z := 104.
Definition ESHUTDOWN : Z := 108.

(** A write request in flight: its urb, its DMA buffer, its data. *)
Record wurb := Wurb { w_urb : Z; w_buf : Z; w_data : list Z }.

(** [struct usb_skel].  [interface] tells whether the pointer is not NULL,
    [bulk_in_urb] is the transfer length of the read urb while the core has
    it. *)
Record usb_skel := UsbSkel {
  interface : bool;
  limit_sem : Z;
  submitted : list wurb;
  bulk_in_urb : option Z;
  bulk_in_buffer : list Z;
  bulk_in_size : Z;
  bulk_in_filled : Z;
  bulk_in_copied : Z;
  errors : Z;
  ongoing_read : bool;
  kref : Z;
  io_mutex : bool
}.

Definition set_errors (d : usb_skel) (v : Z) : usb_skel :=
  UsbSkel (interface d) (limit_sem d) (submitted d) (bulk_in_urb d) (bulk_in_buffer d)
    (bulk_in_size d) (bulk_in_filled d) (bulk_in_copied d) v (ongoing_read d) (kref d) (io_mutex d).
Definition set_mutex (d : usb_skel) (b : bool) : usb_skel :=
  UsbSkel (interface d) (limit_sem d) (submitted d) (bulk_in_urb d) (bulk_in_buffer d)
    (bulk_in_size d) (bulk_in_filled d) (bulk_in_copied d) (errors d) (ongoing_read d) (kref d) b.
Definition set_kref (d : usb_skel) (v : Z) : usb_skel :=
  UsbSkel (interface d) (limit_sem d) (submitted d) (bulk_in_urb d) (bulk_in_buffer d)
    (bulk_in_size d) (bulk_in_filled d) (bulk_in_copied d) (errors d) (ongoing_read d) v (io_mutex d).
Definition set_interface (d : usb_skel) (b : bool) : usb_skel :=
  UsbSkel b (limit_sem d) (submitted d) (bulk_in_urb d) (bulk_in_buffer d)
    (bulk_in_size d) (bulk_in_filled d) (bulk_in_copied d) (errors d) (ongoing_read d) (kref d) (io_mutex d).
Definition set_sem (d : usb_skel) (v : Z) : usb_skel :=
  UsbSkel (interface d) v (submitted d) (bulk_in_urb d) (bulk_in_buffer d)
    (bulk_in_size d) (bulk_in_filled d) (bulk_in_copied d) (errors d) (ongoing_read d) (kref d) (io_mutex d).
Definition set_submitted (d : usb_skel) (l : list wurb) : usb_skel :=
  UsbSkel (interface d) (limit_sem d) l (bulk_in_urb d) (bulk_in_buffer d)
    (bulk_in_size d) (bulk_in_filled d) (bulk_in_copied d) (errors d) (ongoing_read d) (kref d) (io_mutex d).
Definition set_copied (d : usb_skel) (v : Z) : usb_skel :=
  UsbSkel (interface d) (limit_sem d) (submitted d) (bulk_in_urb d) (bulk_in_buffer d)
    (bulk_in_size d) (bulk_in_filled d) v (errors d) (ongoing_read d) (kref d) (io_mutex d).
(** The read side: the urb with the core, the buffer, its fill, the flag. *)
Definition set_read (d : usb_skel) (u : option Z) (buf : list Z) (filled copied : Z) (ongoing : bool) : usb_skel :=
  UsbSkel (interface d) (limit_sem d) (submitted d) u buf
    (bulk_in_size d) filled copied (errors d) ongoing (kref d) (io_mutex d).

(** What the device sent, what reached a reader, what a failed user copy
    lost. *)
Inductive event := EvIn (data : list Z) | EvOut (data : list Z) | EvLost (data : list Z).

(** Program points: [RLock] the entry of [skel_read], [RRetry] the label
    retry (with the mutex), [RWait] the wait for the ongoing read; [WDown]
    the entry of [skel_write], [WPrep] behind the semaphore, [WReady] with
    the urb and the buffer filled, before [mutex_lock], [WFail] behind the
    [mutex_unlock] when the submission failed; [FLock] the entry of
    [skel_flush].  A [Done] has the return value and the bytes for the user. *)
Inductive pc :=
| RLock (count : Z) (nonblock : bool) | RRetry (count : Z) (nonblock : bool) | RWait (count : Z) (nonblock : bool)
| WDown (ubuf : list Z) (nonblock : bool) | WPrep (ubuf : list Z) | WReady (ubuf : list Z) (urb buf : Z)
| WFail (rv urb buf : Z)
| FLock
| Done (rv : Z) (bytes : list Z).

(** The answers of the environment during one step: a signal, a failed user
    copy, the return of [usb_submit_urb], the addresses of the allocations
    ([0]: none), the answer of [usb_wait_anchor_empty_timeout]. *)
Record env := Env { e_signal : bool; e_fault : bool; e_submit : Z; e_urb : Z; e_buf : Z; e_time : Z }.

(** The system: the device, the objects that are allocated, the number of
    open files, whether a reset holds the mutex, the calls, the log. *)
Record sys := Sys {
  dev : usb_skel; objs : list res; files : Z; resetting : bool; threads : list pc; log : list event
}.

Inductive result := Ok (s : sys) | No | Crash.

(** A status that is not an error of the transfer. *)
Definition unlink_status (status : Z) : bool :=
  (status =? - ENOENT) || (status =? - ECONNRESET) || (status =? - ESHUTDOWN).

(** [skel_read_bulk_callback]; [None]: [dev_err] on a NULL interface. *)
Definition skel_read_bulk_callback (d : usb_skel) (status : Z) (data : list Z) : option usb_skel :=
  if c_true status then
    if negb (unlink_status status) && negb (interface d) then None
    else Some (set_read (set_errors d status) None (bulk_in_buffer d) (bulk_in_filled d) (bulk_in_copied d) false)
  else Some (set_read d None (upd (bulk_in_buffer d) 0 data) (zlen data) (bulk_in_copied d) false).

(** [skel_do_read_io] with the answer [submit] of [usb_submit_urb]. *)
Definition skel_do_read_io (d : usb_skel) (count submit : Z) : usb_skel * Z :=
  if submit <? 0 then
    (set_read d None (bulk_in_buffer d) 0 0 false, if submit =? - ENOMEM then submit else - EIO)
  else
    (set_read d (Some (Z.min (bulk_in_size d) count)) (bulk_in_buffer d) 0 0 true, submit).

(** An error to report: once, and reset notifications as they are. *)
Definition report (e : Z) : Z := if e =? - EPIPE then e else - EIO.

(** [skel_read] behind the wait (line 271), with the mutex: the device, where
    the reader is next, what happened. *)
Definition read_tail (d : usb_skel) (count : Z) (nonblock : bool) (e : env) : option (usb_skel * pc * list event) :=
  if errors d <? 0 then
    Some (set_mutex (set_errors d 0) false, Done (report (errors d)) [], [])
  else if c_true (bulk_in_filled d) then
    let available := u64 (bulk_in_filled d - bulk_in_copied d) in
    let chunk := Z.min available count in
    if available =? 0 then
      let '(d', rv) := skel_do_read_io d count (e_submit e) in
      Some (if rv <? 0 then (set_mutex d' false, Done rv [], []) else (d', RRetry count nonblock, []))
    else
      match rd (bulk_in_buffer d) (bulk_in_copied d) chunk with
      | None => None
      | Some bytes =>
          let rv := if e_fault e then - EFAULT else chunk in
          let d1 := set_copied d (bulk_in_copied d + chunk) in
          let d2 := if available <? count then fst (skel_do_read_io d1 (count - chunk) (e_submit e)) else d1 in
          Some (set_mutex d2 false, Done rv (if e_fault e then [] else bytes),
                [if e_fault e then EvLost bytes else EvOut bytes])
      end
  else
    let '(d', rv) := skel_do_read_io d count (e_submit e) in
    Some (if rv <? 0 then (set_mutex d' false, Done rv [], []) else (d', RRetry count nonblock, [])).

(** [skel_write_bulk_callback] for one request, which also drops the core's
    reference to the urb. *)
Definition skel_write_bulk_callback (d : usb_skel) (o : list res) (w : wurb) (status : Z) : option (usb_skel * list res) :=
  if c_true status && negb (unlink_status status) && negb (interface d) then None
  else
    match give_back_all [RCoherent (w_buf w); RUrb (w_urb w)] o with
    | None => None
    | Some o' =>
        let d1 := if c_true status then set_errors d status else d in
        Some (set_sem d1 (limit_sem d1 + 1), o')
    end.

(** [usb_kill_anchored_urbs]: every request in flight completes with
    [-ENOENT]. *)
Fixpoint kill_writes (ws : list wurb) (d : usb_skel) (o : list res) : option (usb_skel * list res) :=
  match ws with
  | [] => Some (d, o)
  | w :: ws' =>
      '(d', o') ← skel_write_bulk_callback d o w (- ENOENT);
      kill_writes ws' d' o'
  end.

Definition usb_kill_anchored_urbs (d : usb_skel) (o : list res) : option (usb_skel * list res) :=
  '(d', o') ← kill_writes (submitted d) d o; Some (set_submitted d' [], o').

(** [usb_kill_urb] of the read urb. *)
Definition usb_kill_read (d : usb_skel) : option usb_skel :=
  match bulk_in_urb d with
  | Some _ => skel_read_bulk_callback d (- ENOENT) []
  | None => Some d
  end.

(** [skel_draw_down] with the answer [time] of the wait, which is non-zero
    only when no request is in flight. *)
Definition skel_draw_down (d : usb_skel) (o : list res) (time : Z) : option (usb_skel * list res) :=
  '(d1, o1) ← (if time =? 0 then usb_kill_anchored_urbs d o else Some (d, o));
  d2 ← usb_kill_read d1;
  Some (d2, o1).

(** The objects [skel_delete] frees: the read urb, the reference to the USB
    device, the read buffer, the structure. *)
Definition own : list res := [RUrb 1; RUsbDev 1; RMem 1; RMem 2].

(** [kref_put] with [skel_delete]. *)
Definition kref_put (d : usb_skel) (o : list res) : option (usb_skel * list res) :=
  if kref d =? 1 then
    o' ← give_back_all own o; Some (set_kref d 0, o')
  else Some (set_kref d (kref d - 1), o).

(** A writer leaves behind the label error: its objects are freed and the
    semaphore is given back. *)
Definition write_error (d : usb_skel) (o : list res) (mine : list res) (rv : Z) : option (usb_skel * list res * pc * list event) :=
  o' ← give_back_all mine o;
  Some (set_sem d (limit_sem d + 1), o', Done rv [], []).

(** [skel_read], from the [mutex_lock_interruptible] on: one step of the call
    at [p].  [None] is a crash, [Some None] a call that has to wait. *)
Definition skel_read_step (d : usb_skel) (o : list res) (p : pc) (e : env) : option (option (usb_skel * list res * pc * list event)) :=
  let stay q := Some (Some (d, o, q, [])) in
  match p with
  | RLock count nonblock =>
      if count =? 0 then stay (Done 0 [])
      else if e_signal e then stay (Done (- EINTR) [])
      else if io_mutex d then Some None
      else if negb (interface d) then stay (Done (- ENODEV) [])
      else Some (Some (set_mutex d true, o, RRetry count nonblock, []))
  | RRetry count nonblock =>
      if ongoing_read d then
        if nonblock then Some (Some (set_mutex d false, o, Done (- EAGAIN) [], []))
        else stay (RWait count nonblock)
      else '(d', q, evs) ← read_tail d count nonblock e; Some (Some (d', o, q, evs))
  | RWait count nonblock =>
      if e_signal e then Some (Some (set_mutex d false, o, Done (- ERESTARTSYS) [], []))
      else if ongoing_read d then Some None
      else '(d', q, evs) ← read_tail d count nonblock e; Some (Some (d', o, q, evs))
  | _ => Some None
  end.

(** [skel_write], up to the taking of [limit_sem] and up to the [mutex_lock]. *)
Definition write_prepare (d : usb_skel) (o : list res) (p : pc) (e : env) : option (option (usb_skel * list res * pc * list event)) :=
  let stay q := Some (Some (d, o, q, [])) in
  match p with
  | WDown ubuf nonblock =>
      if zlen ubuf =? 0 then stay (Done 0 [])
      else if negb nonblock && e_signal e then stay (Done (- ERESTARTSYS) [])
      else if 0 <? limit_sem d then Some (Some (set_sem d (limit_sem d - 1), o, WPrep ubuf, []))
      else if nonblock then stay (Done (- EAGAIN) []) else Some None
  | WPrep ubuf =>
      if errors d <? 0 then
        r ← write_error (set_errors d 0) o [] (report (errors d)); Some (Some r)
      else if e_urb e =? 0 then r ← write_error d o [] (- ENOMEM); Some (Some r)
      else if e_buf e =? 0 then
        r ← write_error d (RUrb (e_urb e) :: o) [RUrb (e_urb e)] (- ENOMEM); Some (Some r)
      else
        let o1 := RCoherent (e_buf e) :: RUrb (e_urb e) :: o in
        if e_fault e then
          r ← write_error d o1 [RCoherent (e_buf e); RUrb (e_urb e)] (- EFAULT); Some (Some r)
        else Some (Some (d, o1, WReady ubuf (e_urb e) (e_buf e), []))
  | _ => Some None
  end.

(** [skel_write] under [io_mutex]: the submission of the request. *)
Definition write_submit (d : usb_skel) (o : list res) (ubuf : list Z) (urb buf : Z) (e : env) : option (option (usb_skel * list res * pc * list event)) :=
  if io_mutex d then Some None
  else if negb (interface d) then
    r ← write_error d o [RCoherent buf; RUrb urb] (- ENODEV); Some (Some r)
  else if c_true (e_submit e) then Some (Some (d, o, WFail (e_submit e) urb buf, []))
  else
    let writesize := Z.min (zlen ubuf) MAX_TRANSFER in
    Some (Some (set_submitted d (submitted d ++ [Wurb urb buf (sl ubuf 0 writesize)]), o, Done writesize [], [])).

(** The failed submission is reported with [dev_err] on the interface, which
    may be gone since the [mutex_unlock]. *)
Definition write_fail (d : usb_skel) (o : list res) (rv urb buf : Z) : option (option (usb_skel * list res * pc * list event)) :=
  if negb (interface d) then None
  else r ← write_error d o [RCoherent buf; RUrb urb] rv; Some (Some r).

Definition skel_flush (d : usb_skel) (o : list res) (e : env) : option (option (usb_skel * list res * pc * list event)) :=
  if io_mutex d then Some None
  else if c_true (e_time e) && negb (Nat.eqb (length (submitted d)) 0) then Some None
  else
    '(d1, o1) ← skel_draw_down d o (e_time e);
    let res := if c_true (errors d1) then report (errors d1) else 0 in
    Some (Some (set_errors d1 0, o1, Done res [], [])).

(** One step of the call at [p]. *)
Definition thread_step (s : sys) (p : pc) (e : env) : option (option (usb_skel * list res * pc * list event)) :=
  match p with
  | RLock _ _ | RRetry _ _ | RWait _ _ => skel_read_step (dev s) (objs s) p e
  | WDown _ _ | WPrep _ => write_prepare (dev s) (objs s) p e
  | WReady ubuf urb buf => write_submit (dev s) (objs s) ubuf urb buf e
  | WFail rv urb buf => write_fail (dev s) (objs s) rv urb buf
  | FLock => skel_flush (dev s) (objs s) e
  | Done _ _ => Some None
  end.

Definition active (p : pc) : bool := match p with Done _ _ => false | _ => true end.
Definition entry (p : pc) : bool :=
  match p with RLock count _ => 0 <=? count | WDown _ _ | FLock => true | _ => false end.

Inductive action :=
| Spawn (p : pc) | Go (i : nat) (e : env)
| ReadDone (status : Z) (data : list Z) | WriteDone (k : nat) (status : Z)
| Open | Release | Disconnect
| PreReset (time : Z) | PostReset | Suspend (time : Z).

Definition with_dev (s : sys) (d : usb_skel) (o : list res) : sys :=
  Sys d o (files s) (resetting s) (threads s) (log s).

(** An answer of a routine; [None] crashes. *)
Definition answer {A} (r : option A) (k : A -> result) : result :=
  match r with Some a => k a | None => Crash end.

(** A routine that starts with [skel_draw_down]: enabled when the answer of
    the wait is one it can give. *)
Definition drawn (s : sys) (time : Z) (k : usb_skel -> list res -> result) : result :=
  if c_true time && negb (Nat.eqb (length (submitted (dev s))) 0) then No
  else answer (skel_draw_down (dev s) (objs s) time) (fun '(d, o) => k d o).

(** [skel_open]; the core finds the interface only while it is bound. *)
Definition skel_open (s : sys) : result :=
  let d := dev s in
  if interface d then
    Ok (Sys (set_kref d (kref d + 1)) (objs s) (files s + 1) (resetting s) (threads s) (log s))
  else No.

(** [skel_release]: called for the last use of an open file, so not while the
    only file still has a call running. *)
Definition skel_release (s : sys) : result :=
  let d := dev s in
  if (0 <? files s) && ((1 <? files s) || negb (existsb active (threads s))) then
    if kref d <=? 0 then Crash
    else if io_mutex d then No
    else answer (kref_put d (objs s)) (fun '(d', o') =>
           Ok (Sys d' o' (files s - 1) (resetting s) (threads s) (log s)))
  else No.

(** [skel_disconnect]; the core has stopped the read urb before the call. *)
Definition skel_disconnect (s : sys) : result :=
  let d := dev s in
  match interface d, io_mutex d, bulk_in_urb d with
  | true, false, None =>
      answer (usb_kill_anchored_urbs (set_interface d false) (objs s)) (fun '(d1, o1) =>
      answer (kref_put d1 o1) (fun '(d2, o2) => Ok (with_dev s d2 o2)))
  | _, _, _ => No
  end.

Definition skel_suspend (s : sys) (time : Z) : result :=
  if interface (dev s) then drawn s time (fun d1 o1 => Ok (with_dev s d1 o1)) else No.

Definition skel_pre_reset (s : sys) (time : Z) : result :=
  if interface (dev s) && negb (io_mutex (dev s)) then
    drawn s time (fun d1 o1 =>
      Ok (Sys (set_mutex d1 true) o1 (files s) true (threads s) (log s)))
  else No.

Definition skel_post_reset (s : sys) : result :=
  if resetting s then
    Ok (Sys (set_mutex (set_errors (dev s) (- EPIPE)) false) (objs s) (files s) false (threads s) (log s))
  else No.

(** One step of the system.  The core completes a request with at most the
    bytes that were asked for. *)
Definition act (s : sys) (a : action) : result :=
  let d := dev s in
  match a with
  | Spawn p =>
      if entry p && (0 <? files s) then
        Ok (Sys d (objs s) (files s) (resetting s) (threads s ++ [p]) (log s))
      else No
  | Go i e =>
      match threads s !! i with
      | Some p =>
          if active p && (kref d <=? 0) then Crash
          else answer (thread_step s p e) (fun r =>
                 match r with
                 | Some (d', o', p', evs) =>
                     Ok (Sys d' o' (files s) (resetting s) (<[i := p']> (threads s)) (log s ++ evs))
                 | None => No
                 end)
      | None => No
      end
  | ReadDone status data =>
      match bulk_in_urb d with
      | Some len =>
          if kref d <=? 0 then Crash
          else if zlen data <=? len then
            answer (skel_read_bulk_callback d status data) (fun d' =>
              Ok (Sys d' (objs s) (files s) (resetting s) (threads s)
                    (log s ++ (if c_true status then [] else [EvIn data]))))
          else No
      | None => No
      end
  | WriteDone k status =>
      match submitted d !! k with
      | Some w =>
          if kref d <=? 0 then Crash
          else answer (skel_write_bulk_callback (set_submitted d (take k (submitted d) ++ drop (S k) (submitted d)))
                 (objs s) w status) (fun '(d', o') => Ok (with_dev s d' o'))
      | None => No
      end
  | Open => skel_open s
  | Release => skel_release s
  | Disconnect => skel_disconnect s
  | PreReset time => skel_pre_reset s time
  | PostReset => skel_post_reset s
  | Suspend time => skel_suspend s time
  end.

(** The device as [skel_probe] leaves it, with a read buffer of [size]. *)
Definition probed (size : Z) : usb_skel :=
  UsbSkel true WRITES_IN_FLIGHT [] None (replicate (Z.to_nat size) 0) size 0 0 0 false 1 false.

Definition init_sys (size : Z) : sys := Sys (probed size) own 0 false [] [].

Definition step (s s' : sys) : Prop := exists a, act s a = Ok s'.

Fixpoint act_all (s : sys) (acts : list action) : result :=
  match acts with
  | [] => Ok s
  | a :: rest => match act s a with Ok s' => act_all s' rest | r => r end
  end.

Definition received (l : list event) : list Z :=
  flat_map (fun ev => match ev with EvIn d => d | _ => [] end) l.
Definition consumed (l : list event) : list Z :=
  flat_map (fun ev => match ev with EvIn _ => [] | EvOut d | EvLost d => d end) l.

(** ** Invariants *)
Definition w_objs (w : wurb) : list res := [RCoherent (w_buf w); RUrb (w_urb w)].
Definition pc_objs (p : pc) : list res :=
  match p with WReady _ urb buf | WFail _ urb buf => [RCoherent buf; RUrb urb] | _ => [] end.
Definition own_of (d : usb_skel) : list res := if 0 <? kref d then own else [].

(** Calls that hold a unit of the semaphore, and calls that hold the mutex. *)
Definition credit (p : pc) : Z := match p with WPrep _ | WReady _ _ _ | WFail _ _ _ => 1 | _ => 0 end.
Definition locked (p : pc) : Z := match p with RRetry _ _ | RWait _ _ => 1 | _ => 0 end.

#[local] Arguments sum_of : simpl never.
#[local] Arguments received : simpl never.
#[local] Arguments consumed : simpl never.

Definition pc_ok (p : pc) : Prop :=
  match p with RRetry count _ | RWait count _ => 0 < count | RLock count _ => 0 <= count | _ => True end.

(** What is in the read buffer and not copied yet. *)
Definition remaining (d : usb_skel) : list Z :=
  sl (bulk_in_buffer d) (bulk_in_copied d) (bulk_in_filled d - bulk_in_copied d).

Record read_side (d : usb_skel) : Prop := {
  rs_size : zlen (bulk_in_buffer d) = bulk_in_size d /\ 0 < bulk_in_size d < 2 ^ 32;
  rs_fill : 0 <= bulk_in_copied d <= bulk_in_filled d /\ bulk_in_filled d <= bulk_in_size d;
  rs_urb : match bulk_in_urb d with
           | Some len => ongoing_read d = true /\ bulk_in_filled d = 0 /\ 0 <= len <= bulk_in_size d
           | None => ongoing_read d = false
           end
}.

(** A report of a failed submission that comes after the disconnect. *)
Definition late (s : sys) (a : action) : bool :=
  match a with
  | Go i _ =>
      match threads s !! i with
      | Some (WFail _ _ _) => negb (interface (dev s))
      | _ => false
      end
  | _ => false
  end.

Record inv (s : sys) : Prop := {
  inv_read : read_side (dev s);
  inv_sem : 0 <= limit_sem (dev s) /\
    limit_sem (dev s) + zlen (submitted (dev s)) + sum_of credit (threads s) = WRITES_IN_FLIGHT;
  inv_kref : kref (dev s) = (if interface (dev s) then 1 else 0) + files s /\ 0 <= files s;
  inv_objs : objs s ≡ₚ own_of (dev s) ++ flat_map w_objs (submitted (dev s)) ++ flat_map pc_objs (threads s);
  inv_mutex : (if io_mutex (dev s) then 1 else 0) = sum_of locked (threads s) + (if resetting s then 1 else 0);
  inv_locked : io_mutex (dev s) = true -> interface (dev s) = true;
  inv_gone : interface (dev s) = false -> submitted (dev s) = [] /\ bulk_in_urb (dev s) = None;
  inv_files : files s = 0 -> existsb active (threads s) = false;
  inv_pcs : Forall pc_ok (threads s);
  inv_stream : received (log s) = consumed (log s) ++ remaining (dev s)
}.

(** ** Lemmas *)
Lemma usb_received_app l l' : received (l ++ l') = received l ++ received l'.
Proof. apply flat_map_app. Qed.
Lemma usb_consumed_app l l' : consumed (l ++ l') = consumed l ++ consumed l'.
Proof. apply flat_map_app. Qed.

Lemma pc_objs_insert ts i p p' :
  ts !! i = Some p ->
  flat_map pc_objs (<[i := p']> ts) ++ pc_objs p ≡ₚ pc_objs p' ++ flat_map pc_objs ts.
Proof.
  revert i. induction ts as [|q ts IH]; intros [|i] H; cbn in *; simplify_eq.
  - rewrite <- app_assoc. f_equiv. apply Permutation_app_comm.
  - rewrite <- app_assoc, IH by done. apply Permutation_app_swap_app.
Qed.

Lemma not_active ts i p :
  existsb active ts = false -> ts !! i = Some p -> active p = false.
Proof.
  intros He Hi. destruct (active p) eqn:E; [|done]. rewrite <- He. symmetry.
  apply existsb_exists. exists p. split; [|done].
  apply list_elem_of_In. by eapply list_elem_of_lookup_2.
Qed.

Lemma existsb_insert ts i p' :
  existsb active ts = false -> active p' = false -> existsb active (<[i := p']> ts) = false.
Proof.
  intros He Hp. destruct (existsb active (<[i := p']> ts)) eqn:E; [|done].
  apply existsb_exists in E as (q & Hq & Ha). apply list_elem_of_In, list_elem_of_lookup in Hq as [j Hj].
  apply list_lookup_insert_Some in Hj as [(-> & <- & _)|[_ Hj]]; [congruence|].
  pose proof (not_active _ _ _ He Hj). congruence.
Qed.

(** What a routine of the read side leaves alone. *)
Definition frame (d d' : usb_skel) : Prop :=
  interface d' = interface d /\ limit_sem d' = limit_sem d /\ submitted d' = submitted d /\ kref d' = kref d.

Lemma do_read_io_ok d count rv :
  read_side d -> 0 < count ->
  let '(d', rv') := skel_do_read_io d count rv in
  read_side d' /\ frame d d' /\ io_mutex d' = io_mutex d /\ remaining d' = [].
Proof.
  intros [Hs Hf Hu] Hc. unfold skel_do_read_io. destruct (rv <? 0); cbn.
  - split; [|done]. split; cbn; [done|lia|done].
  - split; [|done]. split; cbn; [done|lia|]. split; [done|]. lia.
Qed.

Lemma sl_rest (l : list Z) a b n :
  0 <= a -> 0 <= n <= b - a -> sl l a (b - a) = sl l a n ++ sl l (a + n) (b - (a + n)).
Proof. intros. rewrite <- sl_app by lia. f_equal. lia. Qed.

Lemma read_tail_ok d count nonblock e :
  read_side d -> 0 < count -> io_mutex d = true -> bulk_in_urb d = None ->
  exists d' q evs, read_tail d count nonblock e = Some (d', q, evs) /\
    read_side d' /\ frame d d' /\ io_mutex d' = (locked q =? 1) /\
    (q = RRetry count nonblock \/ exists rv bytes, q = Done rv bytes) /\
    (forall l, received l = consumed l ++ remaining d ->
       received (l ++ evs) = consumed (l ++ evs) ++ remaining d').
Proof.
  intros Hr Hc Hm Hu. destruct (Hr) as [[Hs Hs2] [Hf Hf2] Hurb]. unfold read_tail.
  assert (remaining d = [] -> exists d' q evs,
    (let '(d', rv) := skel_do_read_io d count (e_submit e) in
     Some (if rv <? 0 then (set_mutex d' false, Done rv [], []) else (d', RRetry count nonblock, []))) =
      Some (d', q, evs) /\
    read_side d' /\ frame d d' /\ io_mutex d' = (locked q =? 1) /\
    (q = RRetry count nonblock \/ exists rv bytes, q = Done rv bytes) /\
    (forall l, received l = consumed l ++ remaining d ->
       received (l ++ evs) = consumed (l ++ evs) ++ remaining d')) as Hio.
  { intros Hrem. pose proof (do_read_io_ok d count (e_submit e) Hr Hc) as H.
    destruct (skel_do_read_io d count (e_submit e)) as [d' rv]. destruct H as ([? ? ?] & Hfr & Hmu & Hrem').
    destruct (rv <? 0); do 3 eexists; (split; [done|]); rewrite Hrem.
    - split; [split; done|]. split; [done|]. split; [done|]. split; [eauto|].
      intros l Hl. change (remaining (set_mutex d' false)) with (remaining d'). rewrite Hrem', !app_nil_r in *. done.
    - split; [split; done|]. split; [done|]. split; [by rewrite Hmu, Hm|]. split; [eauto|].
      intros l Hl. rewrite Hrem', !app_nil_r in *. done. }
  destruct (errors d <? 0).
  { do 3 eexists. split; [done|]. split; [split; done|]. split; [done|]. split; [done|]. split; [eauto|].
    intros l Hl. rewrite !app_nil_r. exact Hl. }
  unfold c_true. destruct (Z.eqb_spec (bulk_in_filled d) 0) as [E0|E0]; cbn [negb].
  { apply Hio. unfold remaining. replace (bulk_in_filled d - bulk_in_copied d) with 0 by lia. apply sl_zero. }
  rewrite u64_small by lia. destruct (Z.eqb_spec (bulk_in_filled d - bulk_in_copied d) 0) as [E1|E1].
  { apply Hio. unfold remaining. rewrite E1. apply sl_zero. }
  set (chunk := Z.min _ count). rewrite rd_ok by lia.
  set (bytes := sl (bulk_in_buffer d) (bulk_in_copied d) chunk).
  assert (read_side (set_copied d (bulk_in_copied d + chunk))) as Hr1.
  { split; cbn; [done|lia|by rewrite Hu in *]. }
  do 3 eexists. split; [done|].
  assert (forall x, consumed [if e_fault e then EvLost x else EvOut x] = x /\
                    received [if e_fault e then EvLost x else EvOut x] = []) as Hev.
  { intros x. unfold consumed, received. destruct (e_fault e); cbn; rewrite app_nil_r; done. }
  assert (forall l d2, received l = consumed l ++ remaining d -> remaining d2 = remaining (set_copied d (bulk_in_copied d + chunk)) ->
    received (l ++ [if e_fault e then EvLost bytes else EvOut bytes]) =
    consumed (l ++ [if e_fault e then EvLost bytes else EvOut bytes]) ++ remaining d2) as Hstream.
  { intros l d2 Hl ->. rewrite usb_received_app, usb_consumed_app. rewrite (proj1 (Hev bytes)), (proj2 (Hev bytes)).
    rewrite app_nil_r, <- app_assoc, Hl. f_equal. unfold remaining, bytes. cbn.
    apply sl_rest; lia. }
  destruct (Z.ltb_spec (bulk_in_filled d - bulk_in_copied d) count) as [L|L].
  - pose proof (do_read_io_ok _ (count - chunk) (e_submit e) Hr1 ltac:(lia)) as H.
    destruct (skel_do_read_io (set_copied d (bulk_in_copied d + chunk)) (count - chunk) (e_submit e)) as [d' rv].
    destruct H as ([? ? ?] & Hfr & Hmu & Hrem'). cbn [fst].
    split; [split; done|]. split; [done|]. split; [done|]. split; [eauto|].
    intros l Hl. apply Hstream; [done|].
    change (remaining (set_mutex d' false)) with (remaining d'). rewrite Hrem'. symmetry.
    unfold remaining. cbn. replace (bulk_in_filled d - (bulk_in_copied d + chunk)) with 0 by lia. apply sl_zero.
  - destruct Hr1. split; [split; done|]. split; [done|]. split; [done|]. split; [eauto|].
    intros l Hl. by apply Hstream.
Qed.

(** The device with every request completed. *)
Definition drained (d : usb_skel) (e : Z) : usb_skel :=
  UsbSkel (interface d) (limit_sem d + zlen (submitted d)) [] None (bulk_in_buffer d) (bulk_in_size d)
    (bulk_in_filled d) (bulk_in_copied d) e false (kref d) (io_mutex d).

Lemma write_callback_ok d o Y w status :
  o ≡ₚ w_objs w ++ Y -> (interface d = true \/ unlink_status status = true) ->
  exists o', skel_write_bulk_callback d o w status =
      Some (set_sem (set_errors d (if c_true status then status else errors d)) (limit_sem d + 1), o') /\ o' ≡ₚ Y.
Proof.
  intros Ho Hok. unfold skel_write_bulk_callback.
  assert (c_true status && negb (unlink_status status) && negb (interface d) = false) as ->.
  { destruct Hok as [-> | ->]; cbn; destruct (c_true status); cbn; rewrite ?andb_false_r; done. }
  destruct (give_back_all_perm (w_objs w) o Y [] Ho) as (o' & Hg & Ho'). rewrite !app_nil_r in Hg.
  unfold w_objs in Hg. rewrite Hg. exists o'. split; [|done]. destruct (c_true status); [done|]. by destruct d.
Qed.

Lemma kill_writes_ok ws d o Y :
  o ≡ₚ flat_map w_objs ws ++ Y ->
  exists o' e, kill_writes ws d o = Some (set_sem (set_errors d e) (limit_sem d + zlen ws), o') /\ o' ≡ₚ Y.
Proof.
  revert d o. induction ws as [|w ws IH]; intros d o Ho.
  { exists o, (errors d). split; [|done]. cbn. rewrite zlen_nil, Z.add_0_r. by destruct d. }
  cbn [flat_map] in Ho. rewrite <- app_assoc in Ho. cbn [kill_writes].
  destruct (write_callback_ok d o _ w (- ENOENT) Ho) as (o1 & -> & Ho1); [by right|]. cbn [mbind option_bind].
  destruct (IH (set_sem (set_errors d (if c_true (- ENOENT) then - ENOENT else errors d)) (limit_sem d + 1)) o1 Ho1)
    as (o2 & e & -> & Ho2). exists o2, e. split; [|done]. do 2 f_equal. unfold set_sem, set_errors. cbn.
  f_equal. unfold zlen. cbn. lia.
Qed.

Lemma kill_read_ok d :
  read_side d -> exists e, usb_kill_read d =
    Some (set_read (set_errors d e) None (bulk_in_buffer d) (bulk_in_filled d) (bulk_in_copied d) false).
Proof.
  intros [_ _ Hu]. unfold usb_kill_read. destruct (bulk_in_urb d) as [len|] eqn:E.
  - exists (- ENOENT). done.
  - exists (errors d). unfold set_read, set_errors. destruct d; cbn in *. by subst.
Qed.

Lemma draw_down_ok d o Y time :
  read_side d -> o ≡ₚ flat_map w_objs (submitted d) ++ Y -> (time <> 0 -> submitted d = []) ->
  exists o' e, skel_draw_down d o time = Some (drained d e, o') /\ o' ≡ₚ Y.
Proof.
  intros Hr Ho Ht. unfold skel_draw_down. destruct (Z.eqb_spec time 0) as [E|E].
  - unfold usb_kill_anchored_urbs. destruct (kill_writes_ok _ d o Y Ho) as (o1 & e1 & -> & Ho1).
    cbn [mbind option_bind].
    set (d1 := set_submitted _ _). assert (read_side d1) as Hr1 by (by destruct Hr; split).
    destruct (kill_read_ok d1 Hr1) as (e & ->). exists o1, e. done.
  - cbn [mbind option_bind]. destruct (kill_read_ok d Hr) as (e & ->). exists o, e. split.
    + cbn. unfold drained, set_read, set_errors. cbn. rewrite (Ht E), zlen_nil, Z.add_0_r. done.
    + by rewrite Ho, (Ht E).
Qed.

Lemma drained_read d e : read_side d -> read_side (drained d e).
Proof. intros [Hs Hf Hu]. by split. Qed.

Lemma inv_objs_drain s : inv s ->
  objs s ≡ₚ flat_map w_objs (submitted (dev s)) ++ own_of (dev s) ++ flat_map pc_objs (threads s).
Proof. intros [_ _ _ Ho _ _ _ _ _ _]. rewrite Ho. apply Permutation_app_swap_app. Qed.

(** The system after all requests were completed; the mutex may change hands. *)
Lemma inv_drained s e o' (m r : bool) :
  inv s -> o' ≡ₚ own_of (dev s) ++ flat_map pc_objs (threads s) ->
  (if m then 1 else 0) = sum_of locked (threads s) + (if r then 1 else 0) ->
  (m = true -> interface (dev s) = true) ->
  inv (Sys (set_mutex (drained (dev s) e) m) o' (files s) r (threads s) (log s)).
Proof.
  intros [Hr [Hs1 Hs2] Hk Ho Hm Hl Hg Hf Hp Hst] Ho' Hmu Hmi.
  pose proof (zlen_nonneg (submitted (dev s))). pose proof (drained_read _ e Hr) as [? ? ?].
  split; cbn; try done.
  - change (zlen (@nil wurb)) with 0. lia.
Qed.

Lemma drawn_ok s time (k : usb_skel -> list res -> result) :
  inv s ->
  (forall e o', o' ≡ₚ own_of (dev s) ++ flat_map pc_objs (threads s) ->
     exists s', k (drained (dev s) e) o' = Ok s' /\ inv s') ->
  drawn s time k = No \/ exists s', drawn s time k = Ok s' /\ inv s'.
Proof.
  intros Hi Hk. unfold drawn.
  destruct (c_true time && negb (Nat.eqb (length (submitted (dev s))) 0)) eqn:E; [by left|right].
  destruct (draw_down_ok (dev s) (objs s) _ time (inv_read s Hi) (inv_objs_drain s Hi)) as (o' & e & -> & Ho').
  { intros Ht. unfold c_true in E. rewrite (proj2 (Z.eqb_neq time 0) Ht) in E. cbn in E.
    apply negb_false_iff, Nat.eqb_eq in E. by destruct (submitted (dev s)). }
  cbn. by apply Hk.
Qed.

Lemma kref_put_ok d o Y :
  0 < kref d -> o ≡ₚ own ++ Y ->
  exists o', kref_put d o = Some (set_kref d (kref d - 1), o') /\
    o' ≡ₚ (if 0 <? kref d - 1 then own else []) ++ Y.
Proof.
  intros Hk Ho. unfold kref_put. destruct (Z.eqb_spec (kref d) 1) as [E|E].
  - destruct (give_back_all_perm own o Y [] Ho) as (o' & Hg & Ho'). rewrite !app_nil_r in Hg. rewrite Hg.
    rewrite E. by exists o'.
  - exists o. rewrite (proj2 (Z.ltb_lt 0 _)) by lia. done.
Qed.

(** A step of a call: what has to be shown of the new device and the new
    program point. *)
Lemma inv_thread s i p d' o' p' evs :
  inv s -> threads s !! i = Some p -> 0 < kref (dev s) ->
  read_side d' -> kref d' = kref (dev s) -> interface d' = interface (dev s) ->
  0 <= limit_sem d' ->
  limit_sem d' + zlen (submitted d') + credit p' = limit_sem (dev s) + zlen (submitted (dev s)) + credit p ->
  o' ++ flat_map w_objs (submitted (dev s)) ++ pc_objs p ≡ₚ
    objs s ++ flat_map w_objs (submitted d') ++ pc_objs p' ->
  (if io_mutex d' then 1 else 0) = (if io_mutex (dev s) then 1 else 0) - locked p + locked p' ->
  (io_mutex d' = true -> interface d' = true) ->
  (interface d' = false -> submitted d' = [] /\ bulk_in_urb d' = None) ->
  (active p = true) -> pc_ok p' ->
  (forall l, received l = consumed l ++ remaining (dev s) ->
     received (l ++ evs) = consumed (l ++ evs) ++ remaining d') ->
  inv (Sys d' o' (files s) (resetting s) (<[i := p']> (threads s)) (log s ++ evs)).
Proof.
  intros [Hr [Hs1 Hs2] Hk Ho Hm Hl Hg Hf Hp Hst] Hi Hkp Hr' Hk' Hi' Hs' Hsem Hobj Hmu Hmi Hgo Hact Hok Hstr.
  split; cbn; try done.
  - split; [done|]. rewrite (sum_of_insert _ _ _ _ p' Hi). lia.
  - by rewrite Hk', Hi'.
  - apply (Permutation_app_inv_r (flat_map w_objs (submitted (dev s)) ++ pc_objs p)).
    rewrite Hobj, Ho. unfold own_of. rewrite Hk'.
    pose proof (pc_objs_insert _ _ _ p' Hi) as Hins.
    set (X := flat_map pc_objs (<[i := p']> (threads s))) in *.
    set (W := flat_map w_objs (submitted (dev s))). set (W' := flat_map w_objs (submitted d')).
    set (K := if 0 <? kref (dev s) then own else []).
    transitivity (K ++ W ++ W' ++ (pc_objs p' ++ flat_map pc_objs (threads s))); [solve_Permutation|].
    rewrite <- Hins. solve_Permutation.
  - rewrite (sum_of_insert _ _ _ _ p' Hi). lia.
  - intros H0. rewrite (not_active _ _ _ (Hf H0) Hi) in Hact. done.
  - by apply Forall_insert.
  - by apply Hstr.
Qed.

(** The result of a step of a call that keeps the invariant, or a wait. *)
Definition good (s : sys) (i : nat) (r : option (option (usb_skel * list res * pc * list event))) : Prop :=
  r = Some None \/
  exists d' o' p' evs, r = Some (Some (d', o', p', evs)) /\
    inv (Sys d' o' (files s) (resetting s) (<[i := p']> (threads s)) (log s ++ evs)).

Lemma stream_same l d : received l = consumed l ++ remaining d ->
  received (l ++ []) = consumed (l ++ []) ++ remaining d.
Proof. by rewrite app_nil_r. Qed.

(** A step that only moves the call on, with the mutex [m] and the errors [e]. *)
Lemma good_move s i p (m : bool) e p' :
  inv s -> threads s !! i = Some p -> 0 < kref (dev s) -> active p = true ->
  credit p' = credit p -> pc_objs p' = pc_objs p -> pc_ok p' ->
  (if m then 1 else 0) = (if io_mutex (dev s) then 1 else 0) - locked p + locked p' ->
  (m = true -> interface (dev s) = true) ->
  good s i (Some (Some (set_mutex (set_errors (dev s) e) m, objs s, p', []))).
Proof.
  intros Hi Hp Hk Ha Hc Ho Hok Hm Hmi. right. do 4 eexists. split; [done|].
  destruct (Hi) as [Hr [? ?] ? ? ? ? Hg ? ? Hst].
  eapply inv_thread; try done.
  - by destruct Hr; split.
  - cbn. rewrite Hc. done.
  - cbn. by rewrite Ho.
  - intros. apply stream_same. done.
Qed.

Lemma same_dev d : set_mutex (set_errors d (errors d)) (io_mutex d) = d.
Proof. by destruct d. Qed.

Lemma good_stay s i p p' :
  inv s -> threads s !! i = Some p -> 0 < kref (dev s) -> active p = true ->
  credit p' = credit p -> pc_objs p' = pc_objs p -> pc_ok p' -> locked p' = locked p ->
  good s i (Some (Some (dev s, objs s, p', []))).
Proof.
  intros Hi Hp Hk Ha Hc Ho Hok Hl. rewrite <- (same_dev (dev s)) at 1.
  apply (good_move s i p); try done; [lia|apply (inv_locked s Hi)].
Qed.

(** The end of a failed write. *)
Lemma good_write_error s i p e o mine rv :
  inv s -> threads s !! i = Some p -> 0 < kref (dev s) -> credit p = 1 -> locked p = 0 ->
  active p = true -> (forall Y, objs s ≡ₚ pc_objs p ++ Y -> o ≡ₚ mine ++ Y) ->
  good s i (r ← write_error (set_errors (dev s) e) o mine rv; Some (Some r)).
Proof.
  intros Hi Hp Hk Hc Hl Ha Ho. destruct (Hi) as [Hr [? ?] ? Hobj ? ? Hg ? ? Hst].
  assert (exists Y, objs s ≡ₚ pc_objs p ++ Y) as [Y HY].
  { pose proof (pc_objs_insert _ _ _ (Done 0 []) Hp) as Hins. cbn in Hins.
    set (X := flat_map pc_objs (<[i := Done 0 []]> (threads s))) in *.
    exists (own_of (dev s) ++ flat_map w_objs (submitted (dev s)) ++ X).
    rewrite Hobj. transitivity (own_of (dev s) ++ flat_map w_objs (submitted (dev s)) ++ X ++ pc_objs p).
    - by rewrite Hins.
    - solve_Permutation. }
  destruct (give_back_all_perm mine o Y [] (Ho Y HY)) as (o' & Hg' & Ho'). rewrite !app_nil_r in Hg'.
  unfold write_error. rewrite Hg'. right. do 4 eexists. split; [done|].
  eapply inv_thread; try done; cbn.
  - by destruct Hr; split.
  - lia.
  - rewrite Hc. lia.
  - rewrite Ho', HY, app_nil_r. solve_Permutation.
  - rewrite Hl. lia.
  - intros. by apply stream_same.
Qed.

Lemma write_error_same d o mine rv :
  write_error d o mine rv = write_error (set_errors d (errors d)) o mine rv.
Proof. by destruct d. Qed.

Lemma good_read_tail s i p count nonblock e :
  inv s -> threads s !! i = Some p -> 0 < kref (dev s) -> active p = true ->
  locked p = 1 -> credit p = 0 -> pc_objs p = [] -> 0 < count -> ongoing_read (dev s) = false ->
  good s i ('(d', q, evs) ← read_tail (dev s) count nonblock e; Some (Some (d', objs s, q, evs))).
Proof.
  intros Hi Hp Hk Ha Hl Hc Ho Hcnt Hon. destruct (Hi) as [Hr [? ?] ? Hobj Hmu Hlk Hg ? ? Hst].
  assert (io_mutex (dev s) = true) as Hm.
  { assert (forall q, 0 <= locked q) as Hnn by (by intros []).
    pose proof (sum_of_bound locked _ _ _ Hnn Hp). destruct (io_mutex (dev s)), (resetting s); lia || done. }
  assert (bulk_in_urb (dev s) = None) as Hu.
  { destruct Hr as [_ _ Hu]. destruct (bulk_in_urb (dev s)); [|done]. destruct Hu. congruence. }
  destruct (read_tail_ok _ _ nonblock e Hr Hcnt Hm Hu) as (d' & q & evs & -> & Hr' & (F1 & F2 & F3 & F4) & Hm' & Hq & Hs').
  cbn. right. do 4 eexists. split; [done|].
  eapply inv_thread; try done; rewrite ?F1, ?F2, ?F3, ?Hc, ?Ho; try done.
  - destruct Hq as [->|(rv & bytes & ->)]; cbn; lia.
  - destruct Hq as [->|(rv & bytes & ->)]; done.
  - rewrite Hm', Hm, Hl. destruct Hq as [->|(rv & bytes & ->)]; done.
  - intros _. by apply Hlk.
  - intros Hif. by rewrite Hlk in Hif.
  - destruct Hq as [->|(rv & bytes & ->)]; done.
Qed.

(** The program points of read, write and flush. *)
Definition in_read (p : pc) : bool := match p with RLock _ _ | RRetry _ _ | RWait _ _ => true | _ => false end.
Definition in_write (p : pc) : bool :=
  match p with WDown _ _ | WPrep _ | WReady _ _ _ | WFail _ _ _ => true | _ => false end.
Definition in_flush (p : pc) : bool := match p with FLock => true | _ => false end.

(** Steps of [skel_read]. *)
Lemma read_step_good s i p e :
  inv s -> threads s !! i = Some p -> 0 < kref (dev s) -> late s (Go i e) = false ->
  in_read p = true -> good s i (thread_step s p e).
Proof.
  intros Hi Hp Hk Hlate Hsel. unfold late in Hlate. rewrite Hp in Hlate.
  destruct (active p) eqn:Ha; [|destruct p; try done; by left].
  assert (pc_ok p) as Hok by (eapply Forall_lookup_1; [apply (inv_pcs s Hi)|done]).
  destruct (Hi) as [Hr [Hs1 Hs2] Hkr Hobj Hmu Hlk Hg Hf _ Hst].
  destruct p; try done; cbn [thread_step skel_read_step write_prepare]; unfold write_submit, write_fail, skel_flush.
  - destruct (Z.eqb_spec count 0); [by apply (good_stay s i _ _ Hi Hp)|].
    destruct (e_signal e); [by apply (good_stay s i _ _ Hi Hp)|].
    destruct (io_mutex (dev s)) eqn:Em; [by left|].
    destruct (interface (dev s)) eqn:Ei; cbn [negb]; [|by apply (good_stay s i _ _ Hi Hp)].
    replace (set_mutex (dev s) true) with (set_mutex (set_errors (dev s) (errors (dev s))) true) by (by destruct (dev s)).
    apply (good_move s i _ _ _ _ Hi Hp); try done; cbn in *; [lia|by rewrite Em].
  - destruct (ongoing_read (dev s)) eqn:Eo; [|by apply (good_read_tail s i _ _ _ _ Hi Hp)].
    destruct nonblock; [|by apply (good_stay s i _ _ Hi Hp)].
    replace (set_mutex (dev s) false) with (set_mutex (set_errors (dev s) (errors (dev s))) false) by (by destruct (dev s)).
    apply (good_move s i _ _ _ _ Hi Hp); try done. cbn.
    pose proof (sum_of_bound locked _ _ _ ltac:(by intros []) Hp). cbn in *. destruct (io_mutex (dev s)), (resetting s); lia.
  - destruct (e_signal e).
    + replace (set_mutex (dev s) false) with (set_mutex (set_errors (dev s) (errors (dev s))) false) by (by destruct (dev s)).
      apply (good_move s i _ _ _ _ Hi Hp); try done. cbn.
      pose proof (sum_of_bound locked _ _ _ ltac:(by intros []) Hp). cbn in *. destruct (io_mutex (dev s)), (resetting s); lia.
    + destruct (ongoing_read (dev s)) eqn:Eo; [by left|by apply (good_read_tail s i _ _ _ _ Hi Hp)].
Qed.

(** Steps of [skel_write]. *)
Lemma write_step_good s i p e :
  inv s -> threads s !! i = Some p -> 0 < kref (dev s) -> late s (Go i e) = false ->
  in_write p = true -> good s i (thread_step s p e).
Proof.
  intros Hi Hp Hk Hlate Hsel. unfold late in Hlate. rewrite Hp in Hlate.
  destruct (active p) eqn:Ha; [|destruct p; try done; by left].
  assert (pc_ok p) as Hok by (eapply Forall_lookup_1; [apply (inv_pcs s Hi)|done]).
  destruct (Hi) as [Hr [Hs1 Hs2] Hkr Hobj Hmu Hlk Hg Hf _ Hst].
  destruct p; try done; cbn [thread_step skel_read_step write_prepare]; unfold write_submit, write_fail, skel_flush.
  - destruct (Z.eqb_spec (zlen ubuf) 0); [by apply (good_stay s i _ _ Hi Hp)|].
    destruct (negb nonblock && e_signal e); [by apply (good_stay s i _ _ Hi Hp)|].
    destruct (Z.ltb_spec 0 (limit_sem (dev s))).
    + right. do 4 eexists. split; [done|]. eapply inv_thread; try done; cbn; try lia.
      * by destruct Hr; split.
      * intros. by apply stream_same.
    + destruct nonblock; [by apply (good_stay s i _ _ Hi Hp)|by left].
  - destruct (errors (dev s) <? 0); [by apply (good_write_error s i _ _ _ _ _ Hi Hp)|].
    destruct (e_urb e =? 0); [rewrite write_error_same; by apply (good_write_error s i _ _ _ _ _ Hi Hp)|].
    destruct (e_buf e =? 0).
    { rewrite write_error_same. apply (good_write_error s i _ _ _ _ _ Hi Hp); try done.
      intros Y HY. cbn in *. by rewrite HY. }
    destruct (e_fault e).
    { rewrite write_error_same. apply (good_write_error s i _ _ _ _ _ Hi Hp); try done.
      intros Y HY. cbn in *. by rewrite HY. }
    right. do 4 eexists. split; [done|]. eapply inv_thread; try done; cbn.
    + rewrite app_nil_r. solve_Permutation.
    + lia.
    + intros. by apply stream_same.
  - destruct (io_mutex (dev s)) eqn:Em; [by left|].
    destruct (interface (dev s)) eqn:Ei; cbn [negb].
    + destruct (c_true (e_submit e)).
      { by apply (good_stay s i _ _ Hi Hp). }
      right. do 4 eexists. split; [done|]. eapply inv_thread; try done; cbn.
      * by destruct Hr; split.
      * rewrite zlen_app. change (zlen [_]) with 1. lia.
      * rewrite flat_map_app. cbn. solve_Permutation.
      * by rewrite Em.
      * by rewrite Ei.
      * intros. by apply stream_same.
    + rewrite write_error_same. by apply (good_write_error s i _ _ _ _ _ Hi Hp).
  - rewrite Hlate, write_error_same. by apply (good_write_error s i _ _ _ _ _ Hi Hp).
Qed.

(** The step of [skel_flush]. *)
Lemma flush_step_good s i p e :
  inv s -> threads s !! i = Some p -> 0 < kref (dev s) -> late s (Go i e) = false ->
  in_flush p = true -> good s i (thread_step s p e).
Proof.
  intros Hi Hp Hk Hlate Hsel. unfold late in Hlate. rewrite Hp in Hlate.
  destruct (active p) eqn:Ha; [|destruct p; try done; by left].
  assert (pc_ok p) as Hok by (eapply Forall_lookup_1; [apply (inv_pcs s Hi)|done]).
  destruct (Hi) as [Hr [Hs1 Hs2] Hkr Hobj Hmu Hlk Hg Hf _ Hst].
  destruct p; try done; cbn [thread_step skel_read_step write_prepare]; unfold write_submit, write_fail, skel_flush.
  - destruct (io_mutex (dev s)) eqn:Em; [by left|].
    destruct (c_true (e_time e) && negb (Nat.eqb (length (submitted (dev s))) 0)) eqn:E; [by left|].
    destruct (draw_down_ok (dev s) (objs s) _ (e_time e) Hr (inv_objs_drain s Hi)) as (o' & e' & -> & Ho').
    { intros Ht. unfold c_true in E. rewrite (proj2 (Z.eqb_neq _ 0) Ht) in E. cbn in E.
      apply negb_false_iff, Nat.eqb_eq in E. by destruct (submitted (dev s)). }
    cbn [mbind option_bind]. right. do 4 eexists. split; [done|].
    pose proof (zlen_nonneg (submitted (dev s))).
    eapply inv_thread; try done; cbn.
    + by destruct Hr; split.
    + lia.
    + change (zlen (@nil wurb)) with 0. lia.
    + rewrite Ho', Hobj. rewrite !app_nil_r. solve_Permutation.
    + by rewrite Em.
    + by rewrite Em.
    + intros. by apply stream_same.
Qed.

Lemma thread_step_good s i p e :
  inv s -> threads s !! i = Some p -> 0 < kref (dev s) -> late s (Go i e) = false ->
  good s i (thread_step s p e).
Proof.
  intros Hi Hp Hk Hl. destruct p; first [by left|by apply read_step_good|by apply write_step_good|by apply flush_step_good].
Qed.

(** *** The other steps *)
Definition fine (r : result) : Prop := r = No \/ exists s', r = Ok s' /\ inv s'.

Lemma inv_kref_pos s i p : inv s -> threads s !! i = Some p -> active p = true -> 0 < kref (dev s).
Proof.
  intros [_ _ [Hk Hf0] _ _ _ _ Hf _ _] Hp Ha. destruct (Z.eq_dec (files s) 0) as [E|E].
  - pose proof (not_active _ _ _ (Hf E) Hp). congruence.
  - destruct (interface (dev s)); lia.
Qed.

Ltac act_cbn :=
  cbn [act];
  unfold skel_open, skel_release, skel_disconnect, skel_suspend, skel_pre_reset, skel_post_reset.

Lemma act_go s i e : inv s -> late s (Go i e) = false -> fine (act s (Go i e)).
Proof.
  intros Hi Hlate. act_cbn. destruct (threads s !! i) as [p|] eqn:Hp; [|by left].
  destruct (active p) eqn:Ha; cbn [andb].
  - pose proof (inv_kref_pos s i p Hi Hp Ha). rewrite (proj2 (Z.leb_gt (kref (dev s)) 0)) by lia.
    destruct (thread_step_good s i p e Hi Hp) as [->|(d' & o' & p' & evs & -> & Hi')]; [done|done|by left|].
    right. by eexists.
  - destruct p; try done. by left.
Qed.

Lemma act_read_done s status data : inv s -> fine (act s (ReadDone status data)).
Proof.
  intros Hi. act_cbn. destruct (bulk_in_urb (dev s)) as [len|] eqn:Eu; [|by left].
  destruct (Hi) as [[Hsz Hfl Hu] Hsem [Hkr Hfi] Hobj Hmu Hlk Hg Hf Hp Hst]. rewrite Eu in Hu. destruct Hu as (Hon & Hf0 & Hlen).
  assert (interface (dev s) = true) as Ei.
  { destruct (interface (dev s)); [done|]. destruct (Hg eq_refl) as [_ ?]. congruence. }
  rewrite Ei in *. rewrite (proj2 (Z.leb_gt (kref (dev s)) 0)) by lia.
  destruct (Z.leb_spec (zlen data) len); [|by left]. right. pose proof (zlen_nonneg data).
  unfold skel_read_bulk_callback. rewrite Ei. cbn [negb]. rewrite andb_false_r.
  assert (remaining (dev s) = []) as Hrem.
  { unfold remaining. replace (bulk_in_filled (dev s) - bulk_in_copied (dev s)) with 0 by lia. apply sl_zero. }
  rewrite Hrem, app_nil_r in Hst.
  destruct (c_true status); eexists; (split; [done|]); split; cbn; rewrite ?Ei; try done.
  - rewrite app_nil_r. unfold remaining in *. cbn. by rewrite Hrem, app_nil_r.
  - assert (bulk_in_copied (dev s) = 0) as -> by lia. split; cbn; [|lia|done].
    rewrite zlen_upd by lia. done.
  - rewrite usb_received_app, usb_consumed_app. unfold remaining, received at 2, consumed at 2. cbn.
    assert (bulk_in_copied (dev s) = 0) as -> by lia. rewrite Z.sub_0_r, !app_nil_r, Hst. f_equal.
    symmetry. apply sl_upd_same; lia.
Qed.

Lemma take_drop_perm {A} (l : list A) k x : l !! k = Some x -> l ≡ₚ x :: take k l ++ drop (S k) l.
Proof. intros H. rewrite <- (take_drop_middle l k x H) at 1. symmetry. apply Permutation_middle. Qed.

Lemma act_write_done s k status : inv s -> fine (act s (WriteDone k status)).
Proof.
  intros Hi. act_cbn. destruct (submitted (dev s) !! k) as [w|] eqn:Ew; [|by left].
  destruct (Hi) as [[Hsz Hfl Hu] Hsem [Hkr Hfi] Hobj Hmu Hlk Hg Hf Hp Hst].
  assert (interface (dev s) = true) as Ei.
  { destruct (interface (dev s)); [done|]. destruct (Hg eq_refl) as [E _]. by rewrite E in Ew. }
  rewrite Ei in *. rewrite (proj2 (Z.leb_gt (kref (dev s)) 0)) by lia.
  pose proof (take_drop_perm _ _ _ Ew) as Hperm. set (rest := take k _ ++ drop _ _) in *.
  destruct (write_callback_ok (set_submitted (dev s) rest) (objs s)
    (own_of (dev s) ++ flat_map w_objs rest ++ flat_map pc_objs (threads s)) w status) as (o' & -> & Ho').
  { rewrite Hobj, Hperm. cbn [flat_map]. solve_Permutation. }
  { by left. }
  right. eexists. split; [done|]. split; cbn; rewrite ?Ei; try done.
  apply Permutation_length in Hperm. cbn in Hperm. unfold zlen in *. lia.
Qed.

Lemma act_release s : inv s -> fine (act s Release).
Proof.
  intros Hi. act_cbn. destruct (Hi) as [[Hsz Hfl Hu] Hsem [Hkr Hfi] Hobj Hmu Hlk Hg Hf Hp Hst].
  destruct (Z.ltb_spec 0 (files s)) as [L|L]; cbn [andb]; [|by left].
  destruct ((1 <? files s) || negb (existsb active (threads s))) eqn:E; [|by left].
  assert (0 < kref (dev s)) as Hk by (destruct (interface (dev s)); lia).
  rewrite (proj2 (Z.leb_gt _ 0)) by lia. destruct (io_mutex (dev s)) eqn:Em; [by left|].
  unfold own_of in Hobj. rewrite (proj2 (Z.ltb_lt 0 _) Hk) in Hobj.
  destruct (kref_put_ok _ _ _ Hk Hobj) as (o' & -> & Ho'). right. eexists. split; [done|].
  split; cbn; rewrite ?Em; try done.
  - destruct (interface (dev s)); lia.
  - intros Hz. apply orb_true_iff in E as [E|E]; [zbool; lia|]. by apply negb_true_iff.
Qed.

Lemma act_disconnect s : inv s -> fine (act s Disconnect).
Proof.
  intros Hi. act_cbn. destruct (interface (dev s)) eqn:Ei; [|by left].
  destruct (io_mutex (dev s)) eqn:Em; [by left|]. destruct (bulk_in_urb (dev s)) eqn:Eu; [by left|].
  pose proof (inv_objs_drain s Hi) as Hobj.
  destruct (Hi) as [[Hsz Hfl Hu] [Hsem Hsem2] [Hkr Hfi] _ Hmu Hlk Hg Hf Hp Hst].
  rewrite Ei in Hkr. assert (0 < kref (dev s)) as Hk by lia.
  unfold own_of in Hobj. rewrite (proj2 (Z.ltb_lt 0 _) Hk) in Hobj.
  unfold usb_kill_anchored_urbs. change (submitted (set_interface (dev s) false)) with (submitted (dev s)).
  destruct (kill_writes_ok _ (set_interface (dev s) false) (objs s) _ Hobj) as (o1 & e & -> & Ho1).
  cbn [mbind option_bind answer]. set (d1 := set_submitted _ []).
  destruct (kref_put_ok d1 o1 _ Hk Ho1) as (o2 & -> & Ho2). right. eexists. split; [done|].
  pose proof (zlen_nonneg (submitted (dev s))).
  split; cbn; rewrite ?Em; try done.
  - change (zlen (@nil wurb)) with 0. lia.
  - lia.
  - by rewrite Em in Hmu.
Qed.

Lemma act_fine s a : inv s -> late s a = false -> fine (act s a).
Proof.
  intros Hi Hlate. destruct a as [p|i e|status data|k status| | | |time| |time];
    auto using act_go, act_read_done, act_write_done, act_release, act_disconnect.
  - act_cbn. destruct (entry p) eqn:E; cbn [andb]; [|by left]. destruct (Z.ltb_spec 0 (files s)); [|by left].
    right. eexists. split; [done|]. destruct Hi. split; cbn; try done.
    + rewrite sum_of_app. destruct p; cbn in *; try done; unfold sum_of at 2; cbn; lia.
    + rewrite flat_map_app. destruct p; cbn in *; try done; by rewrite app_nil_r.
    + rewrite sum_of_app. destruct p; cbn in *; try done; unfold sum_of at 2; cbn; lia.
    + lia.
    + apply Forall_app; split; [done|]. constructor; [|done]. destruct p; cbn in *; try done. zbool. lia.
  - act_cbn. destruct (interface (dev s)) eqn:Ei; [|by left]. right. eexists. split; [done|].
    destruct (Hi) as [[Hsz Hfl Hu] Hsem [Hkr Hfi] Hobj Hmu Hlk Hg Hf Hp Hst]. rewrite Ei in *.
    split; cbn; rewrite ?Ei; try done; try lia.
    unfold own_of in *. cbn. rewrite (proj2 (Z.ltb_lt 0 (kref (dev s)))) in Hobj by lia.
    rewrite (proj2 (Z.ltb_lt 0 (kref (dev s) + 1))) by lia. done.
  - act_cbn. destruct (interface (dev s)) eqn:Ei; cbn [andb]; [|by left].
    destruct (io_mutex (dev s)) eqn:Em; cbn [negb]; [by left|]. apply drawn_ok; [done|].
    intros e o' Ho'. eexists. split; [done|]. apply inv_drained; try done.
    destruct (Hi) as [_ _ _ _ Hmu _ _ _ _ _]. rewrite Em in Hmu.
    assert (0 <= sum_of locked (threads s)) by (unfold sum_of; clear; induction (threads s) as [|[] ? ?]; cbn in *; lia).
    destruct (resetting s); lia.
  - act_cbn. destruct (resetting s) eqn:Er; [|by left]. right. eexists. split; [done|].
    destruct (Hi) as [[Hsz Hfl Hu] Hsem [Hkr Hfi] Hobj Hmu Hlk Hg Hf Hp Hst]. rewrite Er in Hmu.
    assert (0 <= sum_of locked (threads s)) by (unfold sum_of; clear; induction (threads s) as [|[] ? ?]; cbn in *; lia).
    split; cbn; try done. destruct (io_mutex (dev s)); lia.
  - act_cbn. destruct (interface (dev s)) eqn:Ei; [|by left]. apply drawn_ok; [done|].
    intros e o' Ho'. eexists. split; [done|].
    pose proof (inv_drained s e o' (io_mutex (dev s)) (resetting s) Hi Ho' (inv_mutex s Hi) (inv_locked s Hi)) as H.
    exact H.
Qed.

Lemma usb_init_inv size : 0 < size < 2 ^ 32 -> inv (init_sys size).
Proof.
  intros Hs. split; cbn; try done.
  - split; cbn; [|lia|done]. unfold zlen. rewrite length_replicate. lia.
Qed.

Lemma late_crash s a : inv s -> late s a = true -> act s a = Crash.
Proof.
  intros Hi Hlate. destruct a as [|i e| | | | | | | |]; try done. cbn in *.
  destruct (threads s !! i) as [[]|] eqn:Hp; try done. cbn [active andb].
  rewrite (proj2 (Z.leb_gt (kref (dev s)) 0)) by (by apply (inv_kref_pos s i _ Hi Hp)).
  cbn. unfold write_fail. by rewrite Hlate.
Qed.

Lemma crash_late s a : inv s -> act s a = Crash <-> late s a = true.
Proof.
  intros Hi. split; [|by apply late_crash]. intros Hc. destruct (late s a) eqn:E; [done|].
  destruct (act_fine s a Hi E) as [H|(s1 & H & _)]; congruence.
Qed.

Lemma usb_step_inv : preserves step inv.
Proof.
  intros s s' Hi [a Ha]. destruct (late s a) eqn:E.
  - rewrite (late_crash s a Hi E) in Ha. done.
  - destruct (act_fine s a Hi E) as [H|(s1 & H & Hi1)]; congruence.
Qed.

Lemma usb_reachable_inv size s : 0 < size < 2 ^ 32 -> star step (init_sys size) s -> inv s.
Proof. intros Hs. apply star_invariant; [apply usb_step_inv|by apply usb_init_inv]. Qed.

Lemma act_all_star s acts s' : act_all s acts = Ok s' -> star step s s'.
Proof.
  revert s. induction acts as [|a acts IH]; intros s H; cbn in H; [injection H as ->; constructor|].
  destruct (act s a) as [s1| |] eqn:E; try done. eapply star_trans; [|by apply IH].
  eapply star_more; [constructor|]. by exists a.
Qed.

(** ** Properties *)

(** C4: Readers, writers, flushes, completions, resets, suspends, disconnects
    and closes can interleave in any way: the driver never uses freed memory,
    frees an object twice or copies outside the read buffer, and it
    dereferences the cleared interface in exactly one situation, the report of
    a failed submission after a disconnect ([late]).  At most [WRITES_IN_FLIGHT] requests are in flight, each with
    the urb and the buffer it owns; and when the device is gone and the last
    file is closed, nothing is left allocated. *)
Theorem usb_io_safe size s :
  0 < size < 2 ^ 32 -> star step (init_sys size) s ->
  (forall a, act s a = Crash <-> late s a = true) /\
  zlen (submitted (dev s)) <= WRITES_IN_FLIGHT /\
  (kref (dev s) = 0 -> objs s = []).
Proof.
  intros Hs Hr. pose proof (usb_reachable_inv size s Hs Hr) as Hi. split; [|split].
  - intros a. by apply crash_late.
  - destruct Hi as [_ [Hs1 Hs2] _ _ _ _ _ _ _ _].
    assert (0 <= sum_of credit (threads s)); [|lia].
    unfold sum_of. clear. induction (threads s) as [|[] ? ?]; cbn in *; lia.
  - intros Hk. destruct Hi as [_ _ [Hkr Hf0] Ho _ _ Hg Hf _ _].
    assert (interface (dev s) = false /\ files s = 0) as [Ei Ef].
    { destruct (interface (dev s)); split; try lia; done. }
    unfold own_of in Ho. rewrite Hk, (proj1 (Hg Ei)) in Ho. cbn in Ho. specialize (Hf Ef).
    assert (flat_map pc_objs (threads s) = []) as E.
    { clear -Hf. induction (threads s) as [|[] ? IH]; cbn in *; try done. by apply IH. }
    rewrite E in Ho. by apply Permutation_nil_r in Ho.
Qed.

(** C16: The bytes the device sent (in transfers with status 0), in order, are the bytes readers got or
    lost to a failed user copy, followed by those still in the buffer: no
    data is dropped or delivered twice by the read-ahead, the retries or the
    partial reads. *)
Theorem usb_read_stream size s :
  0 < size < 2 ^ 32 -> star step (init_sys size) s ->
  received (log s) = consumed (log s) ++ remaining (dev s).
Proof. intros Hs Hr. apply (inv_stream s (usb_reachable_inv size s Hs Hr)). Qed.

(** An environment in which every call succeeds. *)
Definition calm : env := Env false false 0 1000 2000 0.

(** A session: two files, a read of 4 bytes of which the device sends 6, two
    writes, the first completed. *)
Definition demo : list action :=
  [Open; Open; Spawn (RLock 4 false); Go 0 calm; Go 0 calm; Go 0 calm; ReadDone 0 [1; 2; 3; 4];
   Go 0 calm; Spawn (WDown [9; 9] false); Go 1 calm; Go 1 calm; Go 1 calm;
   Spawn (WDown [8] true); Go 2 calm; Go 2 calm; WriteDone 0 0].

Definition state_after (acts : list action) : sys :=
  match act_all (init_sys 64) acts with Ok s => s | _ => init_sys 64 end.

Lemma usb_demo_reach : star step (init_sys 64) (state_after demo).
Proof. apply (act_all_star _ demo). vm_compute. reflexivity. Qed.

Lemma usb_io_safe_witness :
  zlen (submitted (dev (state_after demo))) <= WRITES_IN_FLIGHT /\
  act (state_after demo) Disconnect <> Crash.
Proof.
  destruct (usb_io_safe 64 (state_after demo) ltac:(lia) usb_demo_reach) as (H1 & H2 & _).
  split; [exact H2|]. intros H. apply H1 in H. discriminate H.
Defined.

Lemma usb_read_stream_witness :
  [1; 2; 3; 4] = consumed (log (state_after demo)) ++ remaining (dev (state_after demo)).
Proof.
  change [1; 2; 3; 4] with (received (log (state_after demo))).
  exact (usb_read_stream 64 (state_after demo) ltac:(lia) usb_demo_reach).
Defined.

(** A reader waits while the device is suspended: [skel_draw_down] unlinks the
    read request with [-ENOENT]. *)
Definition unlinked : list action :=
  [Open; Spawn (RLock 4 false); Go 0 calm; Go 0 calm; Go 0 calm; Suspend 0; Go 0 calm].

(** The callbacks say that unlink faults are no errors, but they store the
    status in [errors] all the same: a read interrupted by a suspend fails
    with [-EIO], and so does the flush of a file whose read is in flight. *)
Theorem usb_unlink_reported_as_error :
  threads (state_after unlinked) = [Done (- EIO) []] /\
  exists s, act_all (init_sys 64)
      [Open; Spawn (RLock 4 true); Go 0 calm; Go 0 calm; Go 0 calm; Spawn FLock; Go 1 calm] = Ok s /\
    threads s = [Done (- EAGAIN) []; Done (- EIO) []].
Proof. split; [vm_compute; reflexivity|]. eexists. split; vm_compute; reflexivity. Qed.

(** A writer whose submission fails is overtaken by the disconnect. *)
Definition overtaken : list action :=
  [Open; Spawn (WDown [9] false); Go 0 calm; Go 0 calm; Go 0 (Env false false (- ENOENT) 0 0 0); Disconnect].

(** The one crash is real: [skel_write] unlocks [io_mutex] before it
    reports a failed submission on [dev->interface], and a disconnect in
    between has cleared that pointer. *)
Theorem usb_write_report_race :
  star step (init_sys 64) (state_after overtaken) /\ act (state_after overtaken) (Go 0 calm) = Crash.
Proof. split; [apply (act_all_star _ overtaken)|]; vm_compute; reflexivity. Qed.
