(* ===== verification/UsbLive.v ===== *)
(** * usb/usb-skeleton.c: the calls come to an end

    The retry loop of [skel_read], the wait for the ongoing read and the locks
    of the driver of [UsbSkel]: how many steps the calls can take, and that
    they never all wait for each other.  [potential] counts the steps the
    calls have left until each is done or waits for the device. *)
From stdpp Require Import strings.
From S2P Require Import Prelude Kernel UsbSkel.
Local Open Scope Z_scope.

(** What a call at [p] can still do by itself; [on]: a read is ongoing. *)
Definition weight (on : bool) (p : pc) : Z :=
  match p with
  | RLock _ _ | WDown _ _ => 4
  | RRetry _ _ => if on then 2 else 3
  | RWait _ _ => if on then 1 else 3
  | WPrep _ => 3
  | WReady _ _ _ => 2
  | WFail _ _ _ | FLock => 1
  | Done _ _ => 0
  end.

Definition potential (s : sys) : Z := sum_of (weight (ongoing_read (dev s))) (threads s).

(** The steps of calls, the calls made, and the events that can wake a reader
    without serving it: completions of the read and suspends. *)
Definition is_go (a : action) : Z := match a with Go _ _ => 1 | _ => 0 end.
Definition is_call (a : action) : Z := match a with Spawn _ => 1 | _ => 0 end.
Definition is_wake (a : action) : Z := match a with ReadDone _ _ | Suspend _ => 1 | _ => 0 end.

(** No transfer is with the USB core. *)
Definition quiet (s : sys) : bool :=
  match bulk_in_urb (dev s), submitted (dev s) with None, [] => true | _, _ => false end.

(** ** Lemmas *)
#[local] Arguments sum_of : simpl never.

Lemma weight_on p : weight true p <= weight false p <= weight true p + 2 * locked p.
Proof. destruct p; cbn; lia. Qed.

Lemma weight_unlocked on on' p : locked p = 0 -> weight on p = weight on' p.
Proof. by destruct p. Qed.

Lemma weight_active on p : 0 <= weight on p <= 4 /\ (active p = false -> weight on p = 0).
Proof. destruct p, on; cbn; by split; [lia|]. Qed.

(** When the read ends, the one call that holds the mutex gains two steps. *)
Lemma potential_wake ts : sum_of (weight false) ts <= sum_of (weight true) ts + 2 * sum_of locked ts.
Proof.
  induction ts as [|p ts IH]; [done|]. unfold sum_of in *. cbn. pose proof (weight_on p). lia.
Qed.

Lemma locked_nonneg p : 0 <= locked p.
Proof. by destruct p. Qed.

Lemma potential_unlocked on on' ts : sum_of locked ts = 0 -> sum_of (weight on) ts = sum_of (weight on') ts.
Proof.
  intros H. pose proof (sum_of_none locked ts locked_nonneg H) as Hall.
  clear H. induction Hall as [|p ts Hp _ IH]; [done|]. unfold sum_of in *. cbn. rewrite (weight_unlocked on on' p Hp). lia.
Qed.

Lemma potential_off on ts : sum_of (weight true) ts <= sum_of (weight on) ts.
Proof. apply sum_of_mono. intros p. destruct on; [done|apply weight_on]. Qed.

(** *** The step of a call *)
Lemma read_tail_weight d count nonblock e d' q evs :
  ongoing_read d = false -> read_tail d count nonblock e = Some (d', q, evs) -> weight (ongoing_read d') q <= 2.
Proof.
  intros Ho. unfold read_tail, skel_do_read_io. repeat case_match; intros; simplify_eq; cbn; zbool; lia.
Qed.

Lemma write_error_ongoing d o mine rv r :
  write_error d o mine rv = Some r -> ongoing_read (fst (fst (fst r))) = ongoing_read d /\ snd (fst r) = Done rv [].
Proof. unfold write_error. intros (o' & _ & H)%bind_Some. by injection H as <-. Qed.

(** A step of a write either moves on or leaves through [write_error]. *)
Ltac write_case H :=
  let Ht := fresh in let Ht1 := fresh in let Ht2 := fresh in
  repeat case_match; simplify_eq;
  try (apply bind_Some in H as ([[[? ?] ?] ?] & Ht & H); simplify_eq;
       apply write_error_ongoing in Ht as [Ht1 Ht2]; cbn in Ht1, Ht2; rewrite Ht1, Ht2);
  cbn; (split; [lia|by left]).

(** A step of a call uses up a step, and ends no ongoing read; only a flush
    can, which has to wait for the mutex. *)
Lemma thread_step_weight s p e d' o' p' evs :
  thread_step s p e = Some (Some (d', o', p', evs)) ->
  weight (ongoing_read d') p' + 1 <= weight (ongoing_read (dev s)) p /\
  (ongoing_read d' = ongoing_read (dev s) \/ ongoing_read d' = true \/ io_mutex (dev s) = false /\ p = FLock).
Proof.
  assert (forall on, on = true \/ on = false) as Hb by (intros []; auto).
  destruct p as [count nonblock|count nonblock|count nonblock|ubuf nonblock|ubuf|ubuf urb buf|rv urb buf| |rv bytes];
    cbn [thread_step]; unfold skel_read_step, write_prepare, write_submit, write_fail, skel_flush; cbn zeta; intros H; try done.
  - repeat case_match; simplify_eq; cbn; (split; [repeat case_match; lia|by left]).
  - destruct (ongoing_read (dev s)) eqn:Eo.
    + destruct nonblock; simplify_eq; cbn; rewrite ?Eo; cbn; (split; [lia|by left]).
    + apply bind_Some in H as ([[d1 q] ev] & Ht & H). simplify_eq. pose proof (read_tail_weight _ _ _ _ _ _ _ Eo Ht).
      cbn. split; [lia|]. destruct (ongoing_read d'); auto.
  - destruct (e_signal e); simplify_eq; [cbn; split; [case_match; lia|by left]|].
    destruct (ongoing_read (dev s)) eqn:Eo; [done|].
    apply bind_Some in H as ([[d1 q] ev] & Ht & H). simplify_eq. pose proof (read_tail_weight _ _ _ _ _ _ _ Eo Ht).
    cbn. split; [lia|]. destruct (ongoing_read d'); auto.
  - repeat case_match; simplify_eq; cbn; (split; [lia|by left]).
  - write_case H.
  - write_case H.
  - write_case H.
  - repeat case_match; simplify_eq; apply bind_Some in H as ([d1 o1] & Hd & H); simplify_eq; cbn; (split; [lia|by right; right]).
Qed.

(** *** The steps of the system *)
Lemma unlocked s : inv s -> io_mutex (dev s) = false -> sum_of locked (threads s) = 0.
Proof.
  intros Hi E. pose proof (inv_mutex s Hi) as Hm. rewrite E in Hm.
  pose proof (sum_of_nonneg locked (threads s) locked_nonneg). destruct (resetting s); lia.
Qed.

Lemma locked_one s : inv s -> sum_of locked (threads s) <= 1.
Proof. intros Hi. pose proof (inv_mutex s Hi) as Hm. destruct (io_mutex (dev s)), (resetting s); lia. Qed.

Lemma potential_any on on' ts : sum_of (weight on) ts <= sum_of (weight on') ts + 2 * sum_of locked ts.
Proof.
  pose proof (sum_of_nonneg locked ts locked_nonneg). pose proof (potential_off on' ts). pose proof (potential_wake ts).
  destruct on; [pose proof (potential_off on' ts); lia|lia].
Qed.

Lemma potential_go s i p e d' o' p' evs :
  inv s -> threads s !! i = Some p -> thread_step s p e = Some (Some (d', o', p', evs)) ->
  sum_of (weight (ongoing_read d')) (<[i := p']> (threads s)) + 1 <= potential s.
Proof.
  intros Hi Hp Hs. destruct (thread_step_weight _ _ _ _ _ _ _ Hs) as [Hw Ho].
  rewrite (sum_of_insert _ _ _ _ p' Hp). unfold potential. destruct Ho as [E|[E|[E ->]]].
  - rewrite E in *. lia.
  - rewrite E in *. pose proof (sum_of_mono_but (weight true) (weight (ongoing_read (dev s))) (threads s) i p) as Hm.
    specialize (Hm ltac:(intros y; destruct (ongoing_read (dev s)); [done|apply weight_on]) Hp). lia.
  - rewrite (potential_unlocked (ongoing_read d') (ongoing_read (dev s)) (threads s)) by by apply unlocked. cbn in *. lia.
Qed.

Lemma write_callback_ongoing d o w status d' o' :
  skel_write_bulk_callback d o w status = Some (d', o') -> ongoing_read d' = ongoing_read d.
Proof. unfold skel_write_bulk_callback. cbn zeta. repeat case_match; intros; simplify_eq; done. Qed.

Lemma kref_put_ongoing d o d' o' : kref_put d o = Some (d', o') -> ongoing_read d' = ongoing_read d.
Proof.
  unfold kref_put. destruct (kref d =? 1); [|by intros [= <- _]].
  intros (o1 & _ & H)%bind_Some. by injection H as <- _.
Qed.

Lemma act_potential s a s' :
  inv s -> act s a = Ok s' -> potential s' + is_go a <= potential s + 4 * is_call a + 2 * is_wake a.
Proof.
  intros Hi Ha. destruct a as [p|i e|status data|k status| | | |time| |time]; cbn [is_go is_call is_wake].
  - cbn [act] in Ha. destruct (entry p && (0 <? files s)); [|done]. injection Ha as <-. unfold potential. cbn.
    rewrite sum_of_app. unfold sum_of at 2. cbn. pose proof (proj1 (weight_active (ongoing_read (dev s)) p)). lia.
  - cbn [act] in Ha. destruct (threads s !! i) as [p|] eqn:Hp; [|done].
    destruct (active p && (kref (dev s) <=? 0)); [done|]. unfold answer in Ha.
    destruct (thread_step s p e) as [[[[[d' o'] p'] evs]|]|] eqn:Hs; simplify_eq.
    pose proof (potential_go s i p e d' o' p' evs Hi Hp Hs). unfold potential at 1. cbn. lia.
  - cbn [act] in Ha. destruct (bulk_in_urb (dev s)); [|done]. destruct (kref (dev s) <=? 0); [done|].
    destruct (zlen data <=? z); [|done]. unfold answer in Ha.
    destruct (skel_read_bulk_callback (dev s) status data) as [d'|]; [|done]. injection Ha as <-. unfold potential. cbn.
    pose proof (potential_any (ongoing_read d') (ongoing_read (dev s)) (threads s)). pose proof (locked_one s Hi). lia.
  - cbn [act] in Ha. destruct (submitted (dev s) !! k) as [w|]; [|done]. destruct (kref (dev s) <=? 0); [done|].
    unfold answer in Ha. destruct (skel_write_bulk_callback _ (objs s) w status) as [[d' o']|] eqn:Hw; [|done].
    injection Ha as <-. apply write_callback_ongoing in Hw. unfold potential. cbn in *. rewrite Hw. lia.
  - cbn [act] in Ha. unfold skel_open in Ha. destruct (interface (dev s)); [|done]. injection Ha as <-. unfold potential. cbn. lia.
  - cbn [act] in Ha. unfold skel_release, answer in Ha. destruct (_ && _); [|done]. destruct (kref (dev s) <=? 0); [done|].
    destruct (io_mutex (dev s)); [done|]. destruct (kref_put (dev s) (objs s)) as [[d' o']|] eqn:Hk; [|done].
    injection Ha as <-. apply kref_put_ongoing in Hk. unfold potential. cbn. rewrite Hk. lia.
  - cbn [act] in Ha. unfold skel_disconnect in Ha. destruct (interface (dev s)); [|done].
    destruct (io_mutex (dev s)) eqn:Em; [done|]. destruct (bulk_in_urb (dev s)); [done|]. unfold answer in Ha.
    destruct (usb_kill_anchored_urbs _ _) as [[d1 o1]|]; [|done]. destruct (kref_put d1 o1) as [[d2 o2]|]; [|done].
    injection Ha as <-. unfold potential. cbn.
    rewrite (potential_unlocked (ongoing_read d2) (ongoing_read (dev s)) (threads s)) by by apply unlocked. lia.
  - cbn [act] in Ha. unfold skel_pre_reset, drawn, answer in Ha. destruct (interface (dev s)); [|done].
    destruct (io_mutex (dev s)) eqn:Em; [done|]. cbn in Ha. destruct (_ && _); [done|].
    destruct (skel_draw_down _ _ _) as [[d1 o1]|]; [|done]. injection Ha as <-. unfold potential. cbn.
    rewrite (potential_unlocked (ongoing_read d1) (ongoing_read (dev s)) (threads s)) by by apply unlocked. lia.
  - cbn [act] in Ha. unfold skel_post_reset in Ha. destruct (resetting s); [|done]. injection Ha as <-. unfold potential. cbn. lia.
  - cbn [act] in Ha. unfold skel_suspend, drawn, answer in Ha. destruct (interface (dev s)); [|done].
    destruct (_ && _); [done|]. destruct (skel_draw_down _ _ _) as [[d1 o1]|]; [|done]. injection Ha as <-.
    unfold potential. cbn. pose proof (potential_any (ongoing_read d1) (ongoing_read (dev s)) (threads s)).
    pose proof (locked_one s Hi). lia.
Qed.

Definition total (f : action -> Z) (acts : list action) : Z := sum_of f acts.

Lemma acts_potential acts s s' :
  inv s -> act_all s acts = Ok s' ->
  potential s' + total is_go acts <= potential s + 4 * total is_call acts + 2 * total is_wake acts.
Proof.
  revert s. unfold total, sum_of. induction acts as [|a acts IH]; intros s Hi H; cbn [act_all foldr] in *; [injection H as ->; lia|].
  destruct (act s a) as [s1| |] eqn:Ha; try done. pose proof (act_potential s a s1 Hi Ha).
  pose proof (IH s1 (usb_step_inv s s1 Hi (ex_intro _ a Ha)) H). lia.
Qed.

(** *** Nobody waits for nothing *)

(** A routine that answers has gone on, and so has one that crashes. *)
Lemma bind_goes {A B} (r : option A) (f : A -> option (option B)) :
  (forall a, f a <> Some None) -> r ≫= f <> Some None.
Proof. intros Hf. destruct r; [apply Hf|done]. Qed.

(** With no transfer in flight a call goes on if the mutex is free or its
    own, and the semaphore, for a writer at its start. *)
Lemma quiet_goes s p e :
  ongoing_read (dev s) = false -> submitted (dev s) = [] -> active p = true ->
  (io_mutex (dev s) = false \/ locked p = 1) ->
  (forall ubuf nonblock, p = WDown ubuf nonblock -> 0 < limit_sem (dev s)) ->
  thread_step s p e <> Some None.
Proof.
  intros Ho Hs Ha Hm Hsem. destruct p as [count nonblock|count nonblock|count nonblock|ubuf nonblock|ubuf|ubuf urb buf|rv urb buf| |rv bytes];
    try done; cbn [thread_step]; unfold skel_read_step, write_prepare, write_submit, write_fail, skel_flush; cbn zeta;
    try (destruct Hm as [-> | ]; [|done]); rewrite ?Ho, ?Hs.
  4: rewrite (proj2 (Z.ltb_lt 0 _) (Hsem _ _ eq_refl)).
  all: rewrite ?andb_false_r; cbn [length Nat.eqb negb]; rewrite ?andb_false_r.
  all: repeat case_match; try done; apply bind_goes; intros; by repeat case_match.
Qed.

(** A reader that has the mutex, or else any call; a writer at its start
    behind one that has the semaphore. *)
Lemma quiet_next s :
  inv s -> resetting s = false -> quiet s = true -> existsb active (threads s) = true ->
  exists i p, threads s !! i = Some p /\ active p = true /\ (io_mutex (dev s) = false \/ locked p = 1) /\
    (forall ubuf nonblock, p = WDown ubuf nonblock -> 0 < limit_sem (dev s)).
Proof.
  intros Hi Hr Hq Ha. pose proof (inv_mutex s Hi) as Hm. rewrite Hr in Hm. destruct (io_mutex (dev s)) eqn:Em.
  - destruct (sum_of_pos locked (threads s)) as (i & p & Hp & Hl); [lia|]. exists i, p.
    destruct p; cbn in Hl; try lia; (split; [done|split; [done|split; [by right|done]]]).
  - destruct (Z.eq_dec (sum_of credit (threads s)) 0) as [Hc|Hc].
    + apply existsb_exists in Ha as (p & Hp & Hap). apply list_elem_of_In, list_elem_of_lookup in Hp as [i Hp].
      exists i, p. split; [done|]. split; [done|]. split; [by left|]. intros _ _ _.
      destruct (inv_sem s Hi) as [_ Hs]. unfold quiet in Hq. destruct (bulk_in_urb (dev s)), (submitted (dev s)); try done.
      rewrite Hc in Hs. change (zlen (@nil wurb)) with 0 in Hs. unfold WRITES_IN_FLIGHT in Hs. lia.
    + assert (0 <= sum_of credit (threads s)) by (apply sum_of_nonneg; by intros []).
      destruct (sum_of_pos credit (threads s)) as (i & p & Hp & Hl); [lia|]. exists i, p.
      destruct p; cbn in Hl; try lia; (split; [done|split; [done|split; [by left|done]]]).
Qed.

(** ** Properties *)

(** C6: The calls of the driver end.  The steps they take are at most four for
    each call under way or made, and two for each completion of the read and
    each suspend: no call retries by itself.  And they never wait for each
    other: while no transfer is with the USB core and no reset is in
    progress, some call under way can go on, whatever its environment
    answers (or it is the one that reports on the cleared interface). *)
Theorem usb_calls_end size s acts s' :
  0 < size < 2 ^ 32 -> star step (init_sys size) s -> act_all s acts = Ok s' ->
  total is_go acts <= 4 * sum_of (fun p => if active p then 1 else 0) (threads s) +
    4 * total is_call acts + 2 * total is_wake acts /\
  (resetting s' = false -> quiet s' = true -> existsb active (threads s') = true ->
   exists i, forall e, (exists s2, act s' (Go i e) = Ok s2) \/ late s' (Go i e) = true).
Proof.
  intros Hsz Hs Hacts. pose proof (usb_reachable_inv size s Hsz Hs) as Hi. split.
  - pose proof (acts_potential acts s s' Hi Hacts).
    assert (0 <= potential s') by (apply sum_of_nonneg; intros p; apply weight_active).
    enough (potential s <= 4 * sum_of (fun p => if active p then 1 else 0) (threads s)) by lia.
    unfold potential, sum_of. induction (threads s) as [|p ts IH]; cbn; [lia|].
    destruct (weight_active (ongoing_read (dev s)) p) as [H1 H2]. destruct (active p); [lia|rewrite (H2 eq_refl); lia].
  - intros Hr Hq Ha. pose proof (usb_reachable_inv size s' Hsz (star_trans _ _ _ _ Hs (act_all_star s acts s' Hacts))) as Hi'.
    destruct (quiet_next s' Hi' Hr Hq Ha) as (i & p & Hp & Hap & Hm & Hsem). exists i. intros e.
    enough (act s' (Go i e) <> No) as Hno.
    { destruct (act s' (Go i e)) as [s2| |] eqn:E; [left; by exists s2|done|right; by apply (crash_late s' _ Hi')]. }
    cbn [act]. rewrite Hp.
    unfold quiet in Hq. pose proof (rs_urb _ (inv_read s' Hi')) as Hu.
    destruct (bulk_in_urb (dev s')), (submitted (dev s')) eqn:Es; try done.
    pose proof (quiet_goes s' p e Hu Es Hap Hm Hsem) as Hg. rewrite Hap. destruct (kref (dev s') <=? 0); [done|]. cbn [andb].
    unfold answer. destruct (thread_step s' p e) as [[[[[d' o'] p'] evs]|]|]; done.
Qed.

(** A read whose data have come, and a writer: the reader can go on. *)
Definition data_here : list action :=
  [Open; Spawn (RLock 4 false); Go 0 calm; Go 0 calm; Go 0 calm; ReadDone 0 [1; 2; 3; 4]; Spawn (WDown [8] false); Go 1 calm].

Lemma usb_calls_end_witness :
  total is_go data_here <= 4 * 0 + 4 * 2 + 2 * 1 /\
  exists i, forall e, (exists s2, act (state_after data_here) (Go i e) = Ok s2) \/ late (state_after data_here) (Go i e) = true.
Proof.
  assert (act_all (init_sys 64) data_here = Ok (state_after data_here)) as H by (vm_compute; reflexivity).
  destruct (usb_calls_end 64 (init_sys 64) data_here (state_after data_here) ltac:(lia) (star_here _ _) H) as [H1 H2].
  split; [exact H1|]. by apply H2; vm_compute.
Defined.
