(* ===== verification/UsbProbe.v ===== *)
(** * usb/usb-skeleton.c: probe and disconnect

    The allocation of the device structure and its endpoints and their
    release through [kref_put], as routines over the kernel calls; the I/O of
    the probed device is in [UsbSkel]. *)
From stdpp Require Import strings.
From S2P Require Import Prelude Kernel.
Local Open Scope Z_scope.

Record endpoint := Endpoint { bEndpointAddress : Z; maxp : Z; is_bulk_in : bool; is_bulk_out : bool }.

(** The fields of the structure the probe sets: [p_self] is its address;
    [p_intfdata] is the driver data of the interface, which the probe points
    at the structure. *)
Record probe_st := Pst {
  p_self : Z; p_interface : Z; p_intfdata : Z;
  p_in : Z; p_size : Z; p_buf : Z; p_urb : Z; p_out : Z
}.

Definition zero_st : probe_st := Pst 0 0 0 0 0 0 0 0.

Definition set_in (d : probe_st) (addr size buf urb : Z) : probe_st :=
  Pst (p_self d) (p_interface d) (p_intfdata d) addr size buf urb (p_out d).
Definition set_out (d : probe_st) (addr : Z) : probe_st :=
  Pst (p_self d) (p_interface d) (p_intfdata d) (p_in d) (p_size d) (p_buf d) (p_urb d) addr.
Definition usb_set_intfdata (d : probe_st) (v : Z) : probe_st :=
  Pst (p_self d) (p_interface d) v (p_in d) (p_size d) (p_buf d) (p_urb d) (p_out d).

Definition skel_delete (d : probe_st) (udev : Z) : prog unit :=
  do! usb_free_urb (p_urb d) ;;
  do! usb_put_dev udev ;;
  do! kfree (p_buf d) ;;
  do! kfree (p_self d) ;;
  Ret tt.

(** The second half of the loop's body. *)
Definition bulk_out (ep : endpoint) (d : probe_st) : probe_st :=
  if (p_out d =? 0) && is_bulk_out ep then set_out d (bEndpointAddress ep) else d.

(** The loop over the endpoints; [false]: goto error. *)
Fixpoint probe_endpoints (eps : list endpoint) (d : probe_st) : prog (bool * probe_st) :=
  match eps with
  | [] => Ret (true, d)
  | ep :: rest =>
      if (p_in d =? 0) && is_bulk_in ep then
        call! buf <- kzalloc "bulk_in_buffer" (maxp ep) ;;
        if buf =? 0 then Ret (false, set_in d (bEndpointAddress ep) (maxp ep) 0 (p_urb d))
        else
          call! urb <- usb_alloc_urb ;;
          let d := set_in d (bEndpointAddress ep) (maxp ep) buf urb in
          if urb =? 0 then Ret (false, d) else probe_endpoints rest (bulk_out ep d)
      else probe_endpoints rest (bulk_out ep d)
  end.

Definition skel_probe (udev intf : Z) (eps : list endpoint) : prog (Z * probe_st) :=
  call! dev <- kzalloc "struct usb_skel" 1 ;;
  if dev =? 0 then Ret (- ENOMEM, zero_st)
  else
    do! usb_get_dev udev ;;
    let! (ok, d) <- probe_endpoints eps (Pst dev intf 0 0 0 0 0 0) ;;
    if (ok : bool) && (c_true (p_in d) && c_true (p_out d)) then
      let d := usb_set_intfdata d dev in
      call! retval <- usb_register_dev intf ;;
      if c_true retval then
        let d := usb_set_intfdata d 0 in
        let! _ <- skel_delete d udev ;; Ret (retval, d)
      else Ret (0, d)
    else let! _ <- skel_delete d udev ;; Ret (- ENOMEM, d).

(** [skel_disconnect] when no file is open and no urb in flight, so that its
    reference is the last one; the structure is the interface's data. *)
Definition skel_disconnect (udev intf : Z) (d : probe_st) : prog unit :=
  let dev := p_intfdata d in
  do! usb_deregister_dev intf ;;
  if dev =? 0 then Oops "io_mutex of a NULL structure"
  else skel_delete (Pst dev 0 0 (p_in d) (p_size d) (p_buf d) (p_urb d) (p_out d)) udev.

(** ** Lemmas *)

(** What the structure owns besides itself. *)
Definition owned (d : probe_st) : list res :=
  releases (usb_free_urb (p_urb d)) ++ releases (kfree (p_buf d)).

(** A bulk-in endpoint has the direction bit in its address. *)
Definition eps_ok (eps : list endpoint) : Prop :=
  Forall (fun ep => is_bulk_in ep = true -> bEndpointAddress ep <> 0) eps.

Definition st_ok (d : probe_st) : Prop := 0 <= p_urb d /\ 0 <= p_buf d /\ (p_in d = 0 -> p_urb d = 0 /\ p_buf d = 0).

Lemma bulk_out_owned ep d : owned (bulk_out ep d) = owned d.
Proof. unfold bulk_out. by case_match. Qed.
Lemma bulk_out_ok ep d : st_ok d -> st_ok (bulk_out ep d).
Proof. unfold bulk_out. by case_match. Qed.
Lemma bulk_out_self ep d : p_self (bulk_out ep d) = p_self d.
Proof. unfold bulk_out. by case_match. Qed.

Lemma owned_empty d : st_ok d -> p_in d = 0 -> owned d = [].
Proof. intros (_ & _ & Hz) E. destruct (Hz E) as [Hu Hb]. unfold owned. by rewrite Hu, Hb. Qed.

Lemma set_in_owned d addr size buf urb :
  owned (set_in d addr size buf urb) =
  (if urb =? 0 then [] else [RUrb urb]) ++ (if buf =? 0 then [] else [RMem buf]).
Proof. done. Qed.

Lemma probe_endpoints_safe eps d t Y (Q : bool * probe_st -> trace -> list res -> Prop) :
  eps_ok eps -> st_ok d ->
  (forall t' ok d', st_ok d' -> p_self d' = p_self d -> Q (ok, d') t' (owned d' ++ Y)) ->
  safe answers (probe_endpoints eps d) t (owned d ++ Y) Q.
Proof.
  intros He. revert d t. induction He as [|ep eps Hep _ IH]; intros d t Hd HQ; [by apply safe_ret, HQ|].
  cbn [probe_endpoints].
  assert (forall d' t', st_ok d' -> p_self d' = p_self d ->
    safe answers (probe_endpoints eps (bulk_out ep d')) t' (owned d' ++ Y) Q) as Hnext.
  { intros d' t' Hd' Hs. rewrite <- (bulk_out_owned ep d'). apply IH; [by apply bulk_out_ok|].
    rewrite bulk_out_self, Hs. apply HQ. }
  destruct (Z.eqb_spec (p_in d) 0) as [E|E]; cbn [andb]; [|by apply Hnext].
  destruct (is_bulk_in ep) eqn:Eb; [|by apply Hnext]. specialize (Hep eq_refl).
  rewrite (owned_empty d Hd E). destruct Hd as (_ & _ & Hz). destruct (Hz E) as [Hu Hb].
  assert (forall buf urb, 0 <= buf -> 0 <= urb ->
    st_ok (set_in d (bEndpointAddress ep) (maxp ep) buf urb)) as Hok.
  { intros buf urb ? ?. split; [done|]. split; [done|]. cbn. by intros ?. }
  apply safe_call. intros buf Hbuf. cbn in Hbuf. kred. destruct (Z.eqb_spec buf 0) as [E0|E0].
  { rewrite Hu. apply safe_ret, (HQ _ false (set_in d _ _ 0 0)); [|done]. apply Hok; lia. }
  apply safe_call. intros urb Hurb. cbn in Hurb. kred.
  pose proof (set_in_owned d (bEndpointAddress ep) (maxp ep) buf urb) as Ho.
  rewrite (proj2 (Z.eqb_neq buf 0) E0) in Ho. destruct (Z.eqb_spec urb 0) as [E1|E1].
  - apply safe_ret. change (RMem buf :: Y) with ([RMem buf] ++ Y). cbn in Ho. rewrite <- Ho.
    apply HQ; [|done]. apply Hok; lia.
  - change ([RUrb urb] ++ RMem buf :: Y) with (([RUrb urb] ++ [RMem buf]) ++ Y). rewrite <- Ho.
    apply Hnext; [|done]. apply Hok; lia.
Qed.

Lemma skel_delete_safe d udev t base (Q : unit -> trace -> list res -> Prop) :
  0 < p_self d -> st_ok d -> (forall t', Q tt t' base) ->
  safe answers (skel_delete d udev) t (owned d ++ RUsbDev udev :: RMem (p_self d) :: base) Q.
Proof.
  intros Hs (Hu & Hb & _) HQ. unfold skel_delete, owned. cbn [releases].
  apply safe_call. intros r1 _. kred. destruct (p_urb d =? 0) eqn:Eu; destruct (p_buf d =? 0) eqn:Eb; kred;
    (apply safe_call; intros r2 _; kred); (apply safe_call; intros r3 _; kred);
    (apply safe_call; intros r4 _; kred); rewrite (proj2 (Z.eqb_neq (p_self d) 0)) by lia; kred; apply HQ.
Qed.

(** C35: Whatever endpoints the interface has, a failing [skel_probe] (no
    memory, no urb, no bulk endpoints, no minor number) has given everything
    back through [skel_delete], and after a successful one
    [skel_disconnect] does. *)
Theorem usb_probe_balanced udev intf eps :
  eps_ok eps -> Balanced (skel_probe udev intf eps) (skel_disconnect udev intf).
Proof.
  intros He t base Hc. unfold skel_probe.
  apply safe_call. intros dev Hdev. cbn in Hdev. kred. destruct (Z.eqb_spec dev 0) as [E|E].
  { apply safe_ret. split; [done|discriminate]. }
  apply safe_call. intros r _. kred. apply safe_bind.
  change (RUsbDev udev :: RMem dev :: base) with (owned (Pst dev intf 0 0 0 0 0 0) ++ RUsbDev udev :: RMem dev :: base).
  apply probe_endpoints_safe; [done|done|]. intros t1 ok d Hd Hs. cbn in Hs.
  assert (forall d' ret t2, owned d' = owned d -> st_ok d' -> p_self d' = dev -> ret <> 0 ->
    safe answers (let! _ <- skel_delete d' udev ;; Ret (ret, d')) t2 (owned d ++ RUsbDev udev :: RMem dev :: base)
      (fun '(ret, st) t' held => (ret <> 0 -> held = base) /\
        (ret = 0 -> safe answers (skel_disconnect udev intf st) t' held (fun _ _ held' => held' = base)))) as Hdel.
  { intros d' ret t2 Ho Hd' Hs' Hret. apply safe_bind. rewrite <- Ho, <- Hs'.
    apply skel_delete_safe; [lia|done|]. intros t3. by apply safe_ret. }
  match goal with |- context [if ?b then _ else _] => destruct b end; [|by apply Hdel].
  apply safe_call. intros ret Hret. kred. unfold c_true. destruct (Z.eqb_spec ret 0) as [Er|Er]; cbn [negb].
  - apply safe_ret. split; [done|]. intros _. unfold skel_disconnect. apply safe_call. intros r1 _. kred.
    cbn [p_intfdata p_in p_size p_buf p_urb p_out usb_set_intfdata].
    destruct (Z.eqb_spec dev 0) as [?|_]; [done|].
    apply (skel_delete_safe (Pst dev 0 0 (p_in d) (p_size d) (p_buf d) (p_urb d) (p_out d))); [cbn; lia|done|done].
  - by apply (Hdel (usb_set_intfdata d 0)).
Qed.

Lemma usb_probe_balanced_witness :
  exists t, run good_oracle [] [] (load_cycles 2
    (skel_probe 7 3 [Endpoint 129 512 true false; Endpoint 2 512 false true]) (skel_disconnect 7 3)) = Fin tt t [].
Proof.
  assert (eps_ok [Endpoint 129 512 true false; Endpoint 2 512 false true]) as He by (repeat constructor; done).
  pose proof (usb_probe_balanced 7 3 _ He) as Hb.
  destruct (safe_run answers good_oracle _ [] [] _ good_oracle_conforming
    (load_cycles_safe 2 _ _ [] [] ltac:(constructor))) as ([] & t & h & Hr & ->). by exists t.
Defined.
