(* ===== verification/Devpts.v ===== *)
(** * fs/inode_orig.c: the pseudo terminal file system

    Mount options and their parser, the instances (one per super block) with
    the indexes of their terminals and the nodes of their root directory, and
    the operations of the file system on them.  The kernel's option matcher,
    user name spaces and id allocator are parameters. *)
From stdpp Require Import strings gmap.
From S2P Require Import Prelude Kernel.
Local Open Scope Z_scope.

Definition DEVPTS_DEFAULT_MODE : Z := 384.        (* 0600 *)
Definition DEVPTS_DEFAULT_PTMX_MODE : Z := 0.
Definition NR_UNIX98_PTY_MAX : Z := 1048576.
Definition pty_limit : Z := 4096.                  (* NR_UNIX98_PTY_DEFAULT *)
Definition pty_reserve : Z := 1024.                (* NR_UNIX98_PTY_RESERVE *)
Definition S_IALLUGO : Z := 4095.                  (* 07777 *)
Definition S_IFCHR : Z := 8192.
Definition TTYAUX_MAJOR : Z := 5.
Definition PTMX_MINOR : Z := 2.
Definition DEVPTS_SUPER_MAGIC : Z := 7377.         (* 0x1cd1 *)

Record pts_mount_opts := Opts {
  setuid : bool; setgid : bool; uid : Z; gid : Z;
  mode : Z; ptmxmode : Z; newinstance : bool; max : Z
}.

(** A matched option and the substring of its argument. *)
Inductive token :=
| Opt_uid (arg : list Z) | Opt_gid (arg : list Z) | Opt_mode (arg : list Z)
| Opt_ptmxmode (arg : list Z) | Opt_newinstance | Opt_max (arg : list Z)
| Opt_err.

Inductive parse_op := PARSE_MOUNT | PARSE_REMOUNT.

(** [strsep] on commas: the pieces of the data, the empty ones included. *)
Fixpoint strsep (data : list Z) (piece : list Z) : list (list Z) :=
  match data with
  | [] => [piece]
  | c :: rest => if c =? 44 then piece :: strsep rest [] else strsep rest (piece ++ [c])
  end.

Definition default_opts (op : parse_op) (o : pts_mount_opts) : pts_mount_opts :=
  Opts false false 0 0 DEVPTS_DEFAULT_MODE DEVPTS_DEFAULT_PTMX_MODE
    (match op with PARSE_MOUNT => false | PARSE_REMOUNT => newinstance o end) NR_UNIX98_PTY_MAX.

(** [%03o]: octal with at least three digits. *)
Fixpoint octal (fuel : nat) (n : Z) : list Z :=
  match fuel with
  | O => []
  | S fuel' => octal fuel' (n / 8) ++ [48 + n mod 8]
  end.
Definition oct03 (n : Z) : list Z := if n <? 512 then octal 3 n else octal 4 n.

Section Parser.
(** CONFIG_DEVPTS_MULTIPLE_INSTANCES; the option matcher and number parsers of
    the kernel; [make_kuid] and [make_kgid] with the validity test. *)
Context (multi : bool).
Context (match_token : list Z -> token) (match_int match_octal : list Z -> option Z).
Context (make_kuid make_kgid : Z -> option Z).

(** One option; [None] is [-EINVAL]. *)
Definition parse_option (op : parse_op) (p : list Z) (o : pts_mount_opts) : option pts_mount_opts :=
  match match_token p with
  | Opt_uid arg =>
      option ← match_int arg; u ← make_kuid option;
      Some (Opts true (setgid o) u (gid o) (mode o) (ptmxmode o) (newinstance o) (max o))
  | Opt_gid arg =>
      option ← match_int arg; g ← make_kgid option;
      Some (Opts (setuid o) true (uid o) g (mode o) (ptmxmode o) (newinstance o) (max o))
  | Opt_mode arg =>
      option ← match_octal arg;
      Some (Opts (setuid o) (setgid o) (uid o) (gid o) (Z.land option S_IALLUGO) (ptmxmode o) (newinstance o) (max o))
  | Opt_ptmxmode arg =>
      if multi then
        option ← match_octal arg;
        Some (Opts (setuid o) (setgid o) (uid o) (gid o) (mode o) (Z.land option S_IALLUGO) (newinstance o) (max o))
      else None
  | Opt_newinstance =>
      if multi then
        Some (match op with
              | PARSE_MOUNT => Opts (setuid o) (setgid o) (uid o) (gid o) (mode o) (ptmxmode o) true (max o)
              | PARSE_REMOUNT => o
              end)
      else None
  | Opt_max arg =>
      if multi then
        option ← match_int arg;
        if (option <? 0) || (NR_UNIX98_PTY_MAX <? option) then None
        else Some (Opts (setuid o) (setgid o) (uid o) (gid o) (mode o) (ptmxmode o) (newinstance o) option)
      else None
  | Opt_err => None
  end.

(** The loop: the options are changed in place, so an error leaves those
    before it. *)
Fixpoint parse_pieces (op : parse_op) (ps : list (list Z)) (o : pts_mount_opts) : pts_mount_opts * Z :=
  match ps with
  | [] => (o, 0)
  | [] :: rest => parse_pieces op rest o
  | p :: rest =>
      match parse_option op p o with
      | Some o' => parse_pieces op rest o'
      | None => (o, - EINVAL)
      end
  end.

Definition parse_mount_options (data : option (list Z)) (op : parse_op) (o : pts_mount_opts) : pts_mount_opts * Z :=
  match data with
  | None => (default_opts op o, 0)
  | Some s => parse_pieces op (strsep s []) (default_opts op o)
  end.

(** [devpts_show_options]: each option preceded by a comma. *)
Definition devpts_show_options (from_kuid from_kgid : Z -> Z) (o : pts_mount_opts) : list Z :=
  (if setuid o then str ",uid=" ++ dec (from_kuid (uid o)) else []) ++
  (if setgid o then str ",gid=" ++ dec (from_kgid (gid o)) else []) ++
  str ",mode=" ++ oct03 (mode o) ++
  (if multi then
     str ",ptmxmode=" ++ oct03 (ptmxmode o) ++
     (if max o <? NR_UNIX98_PTY_MAX then str ",max=" ++ dec (max o) else [])
   else []).

(** ** Instances *)

(** A node of the root directory. *)
Record inode := Inode { i_ino : Z; i_uid : Z; i_gid : Z; i_mode : Z; i_rdev : dev_t; i_private : Z }.

(** [struct pts_fs_info] with the root directory of its super block; the
    ptmx node is the entry named ptmx. *)
Record pts_fs_info := Fsi {
  allocated_ptys : gset Z;
  mount_opts : pts_mount_opts;
  ptmx_dentry : bool;
  root : gmap (list Z) inode
}.

(** All instances by super block, the global count, and [devpts_mnt], which
    nothing in the file sets. *)
Record world := World { pty_count : Z; devpts_mnt : option Z; sbs : gmap Z pts_fs_info }.

Definition set_opts (f : pts_fs_info) (o : pts_mount_opts) : pts_fs_info :=
  Fsi (allocated_ptys f) o (ptmx_dentry f) (root f).
Definition put (w : world) (sb : Z) (f : pts_fs_info) : world :=
  World (pty_count w) (devpts_mnt w) (<[sb := f]> (sbs w)).

Definition ptmx_name : list Z := str "ptmx".

(** The answers of the allocations of [mknod_ptmx]. *)
Definition mknod_ptmx (f : pts_fs_info) (dentry_ok inode_ok : bool) : pts_fs_info * Z :=
  match make_kuid 0, make_kgid 0 with
  | Some root_uid, Some root_gid =>
      if ptmx_dentry f then (f, 0)
      else if negb dentry_ok then (f, - ENOMEM)
      else if negb inode_ok then (f, - ENOMEM)
      else
        let ino := Inode 2 root_uid root_gid (Z.lor S_IFCHR (ptmxmode (mount_opts f)))
                     (MKDEV TTYAUX_MAJOR 2) 0 in
        (Fsi (allocated_ptys f) (mount_opts f) true (<[ptmx_name := ino]> (root f)), 0)
  | _, _ => (f, - EINVAL)
  end.

Definition update_ptmx_mode (f : pts_fs_info) : pts_fs_info :=
  if multi && ptmx_dentry f then
    Fsi (allocated_ptys f) (mount_opts f) true
      (alter (fun i => Inode (i_ino i) (i_uid i) (i_gid i) (Z.lor S_IFCHR (ptmxmode (mount_opts f)))
                         (i_rdev i) (i_private i)) ptmx_name (root f))
  else f.

Definition devpts_remount (f : pts_fs_info) (data : option (list Z)) : pts_fs_info * Z :=
  let '(o, err) := parse_mount_options data PARSE_REMOUNT (mount_opts f) in
  (update_ptmx_mode (set_opts f o), err).

(** [devpts_fill_super]: [None] is [-ENOMEM]; the boolean of the failure says
    whether [s_fs_info] was allocated. *)
Definition new_pts_fs_info : pts_fs_info :=
  Fsi ∅ (Opts false false 0 0 DEVPTS_DEFAULT_MODE DEVPTS_DEFAULT_PTMX_MODE false 0) false ∅.

Definition devpts_fill_super (fsi_ok inode_ok root_ok : bool) : pts_fs_info + bool :=
  if negb fsi_ok then inr false
  else if negb inode_ok then inr true
  else if root_ok then inl new_pts_fs_info else inr true.

(** [devpts_kill_sb]: [None] is the NULL pointer [s_fs_info]. *)
Definition devpts_kill_sb (w : world) (sb : Z) (has_info : bool) : option world :=
  if has_info then Some (World (pty_count w) (devpts_mnt w) (delete sb (sbs w))) else None.

(** [compare_init_pts_sb] and the super block [sget] answers with: the one the
    test accepts, else the new one [fresh]. *)
Definition compare_init_pts_sb (w : world) (s : Z) : bool :=
  match devpts_mnt w with Some m => m =? s | None => false end.

Definition sget (w : world) (test : option (Z -> bool)) (fresh : Z) : Z :=
  match test with
  | None => fresh
  | Some f => match list_find (fun s => f s = true) (elements (dom (sbs w))) with
              | Some (_, s) => s
              | None => fresh
              end
  end.

(** The answers during a mount. *)
Record mount_env := Menv {
  init_ns : bool; sget_ok : bool; fresh_sb : Z;
  fsi_ok : bool; inode_ok : bool; root_ok : bool; dentry_ok : bool; inode2_ok : bool
}.

Inductive mounted := Mounted (w : world) (sb : Z) | Failed (w : world) (err : Z) | Oopsed.

Definition devpts_mount (w : world) (e : mount_env) (data : option (list Z)) (o0 : pts_mount_opts) : mounted :=
  let '(opts, error) := parse_mount_options data PARSE_MOUNT o0 in
  if c_true error then Failed w error
  else if negb (init_ns e) && negb (newinstance opts) then Failed w (- EINVAL)
  else if negb (sget_ok e) then Failed w (- ENOMEM)
  else
    let s := sget w (if newinstance opts then None else Some (compare_init_pts_sb w)) (fresh_sb e) in
    let filled :=
      match sbs w !! s with
      | Some f => inl f
      | None => devpts_fill_super (fsi_ok e) (inode_ok e) (root_ok e)
      end in
    match filled with
    | inr has_info =>
        match devpts_kill_sb w s has_info with Some w' => Failed w' (- ENOMEM) | None => Oopsed end
    | inl f =>
        let '(f', error) := mknod_ptmx (set_opts f opts) (dentry_ok e) (inode2_ok e) in
        if c_true error then
          match devpts_kill_sb (put w s f') s true with Some w' => Failed w' error | None => Oopsed end
        else Mounted (put w s f') s
    end.

(** ** Terminals *)

(** [devpts_new_index] from the label retry; each element of [env] is one round of the retry loop:
    whether [ida_pre_get] succeeded and the error of [ida_get_new], if any.
    [ida_new] is the id the allocator picks.  [None]: the answers ran out. *)
Context (ida_new : gset Z -> Z).

Fixpoint new_index_retry (w : world) (sb : Z) (f : pts_fs_info) (env : list (bool * option Z)) : option (world * Z) :=
  match env with
  | [] => None
  | (pre_ok, err) :: env' =>
      if negb pre_ok then Some (w, - ENOMEM)
      else if pty_limit - (if newinstance (mount_opts f) then pty_reserve else 0) <=? pty_count w then Some (w, - ENOSPC)
      else
        match err with
        | Some ida_ret => if ida_ret =? - EAGAIN then new_index_retry w sb f env' else Some (w, - EIO)
        | None =>
            let index := ida_new (allocated_ptys f) in
            if max (mount_opts f) <=? index then Some (w, - ENOSPC)
            else
              Some (World (s32 (pty_count w + 1)) (devpts_mnt w)
                      (<[sb := Fsi ({[index]} ∪ allocated_ptys f) (mount_opts f) (ptmx_dentry f) (root f)]> (sbs w)),
                    index)
        end
  end.

(** The instance is NULL when the caller has none. *)
Definition devpts_new_index (w : world) (sb : Z) (fsi : option pts_fs_info) (env : list (bool * option Z)) : option (world * Z) :=
  match fsi with
  | None => Some (w, - ENODEV)
  | Some f => new_index_retry w sb f env
  end.

Definition devpts_kill_index (w : world) (sb : Z) (f : pts_fs_info) (idx : Z) : world :=
  World (s32 (pty_count w - 1)) (devpts_mnt w)
    (<[sb := Fsi (allocated_ptys f ∖ {[idx]}) (mount_opts f) (ptmx_dentry f) (root f)]> (sbs w)).

Definition pty_name (index : Z) : list Z := dec index.

(** [devpts_pty_new] with the answers of [new_inode] and [d_alloc_name]. *)
Definition devpts_pty_new (fsi : option pts_fs_info) (device : dev_t) (index priv fsuid fsgid : Z) (inode_ok dentry_ok : bool)
  : option pts_fs_info * (inode + Z) :=
  match fsi with
  | None => (None, inr (- ENODEV))
  | Some f =>
    if negb inode_ok then (Some f, inr (- ENOMEM))
    else
    let o := mount_opts f in
    let i := Inode (index + 3) (if setuid o then uid o else fsuid) (if setgid o then gid o else fsgid)
               (Z.lor S_IFCHR (mode o)) device priv in
    if dentry_ok then
      (Some (Fsi (allocated_ptys f) o (ptmx_dentry f) (<[pty_name index := i]> (root f))), inl i)
    else (Some f, inr (- ENOMEM))
  end.

(** [devpts_get_priv] of the inode under a name; [None] is [BUG_ON]. *)
Definition devpts_get_priv (f : pts_fs_info) (name : list Z) (i : inode) : option Z :=
  if dev_eqb (i_rdev i) (MKDEV TTYAUX_MAJOR PTMX_MINOR) then None
  else match root f !! name with Some i' => Some (i_private i') | None => Some 0 end.

(** [pts_sb_from_inode] of an inode in super block [i_sb]; [None] is NULL. *)
Definition pts_sb_from_inode (w : world) (i_sb s_magic : Z) : option Z :=
  if multi && (s_magic =? DEVPTS_SUPER_MAGIC) then Some i_sb else devpts_mnt w.

(** [devpts_pty_kill] in the instance of [pts_sb_from_inode].  [None] is a
    crash: the super block is NULL and [sb->s_root] is read, the node is ptmx
    ([BUG_ON]), or the inode has no name left and [d_delete] gets NULL. *)
Definition devpts_pty_kill (fsi : option pts_fs_info) (name : list Z) (i : inode) : option pts_fs_info :=
  f ← fsi;
  if dev_eqb (i_rdev i) (MKDEV TTYAUX_MAJOR PTMX_MINOR) then None
  else
    match root f !! name with
    | None => None
    | Some _ => Some (Fsi (allocated_ptys f) (mount_opts f) (ptmx_dentry f) (delete name (root f)))
    end.

End Parser.

(** ** The option parser *)

(** What the code relies on: the kernel's matcher recognises the formats of
    the table [tokens], and numbers printed in decimal or octal are read
    back. *)
Record matcher_ok (match_token : list Z -> token) (match_int match_octal : list Z -> option Z) : Prop := {
  mk_uid n : 0 <= n -> match_token (str "uid=" ++ dec n) = Opt_uid (dec n);
  mk_gid n : 0 <= n -> match_token (str "gid=" ++ dec n) = Opt_gid (dec n);
  mk_mode n : match_token (str "mode=" ++ oct03 n) = Opt_mode (oct03 n);
  mk_ptmx n : match_token (str "ptmxmode=" ++ oct03 n) = Opt_ptmxmode (oct03 n);
  mk_max n : 0 <= n -> match_token (str "max=" ++ dec n) = Opt_max (dec n);
  mk_int n : 0 <= n < 2 ^ 31 -> match_int (dec n) = Some n;
  mk_octal n : 0 <= n <= S_IALLUGO -> match_octal (oct03 n) = Some n
}.

(** Options as a successful parse leaves them. *)
Record opts_ok (multi : bool) (o : pts_mount_opts) : Prop := {
  ok_mode : 0 <= mode o <= S_IALLUGO;
  ok_ptmx : 0 <= ptmxmode o <= S_IALLUGO;
  ok_max : 0 <= max o <= NR_UNIX98_PTY_MAX;
  ok_single : multi = false -> ptmxmode o = DEVPTS_DEFAULT_PTMX_MODE /\ max o = NR_UNIX98_PTY_MAX;
  ok_uid : setuid o = false -> uid o = 0;
  ok_gid : setgid o = false -> gid o = 0
}.

Definition no_comma (p : list Z) : Prop := Forall (fun c => c <> 44) p.

Lemma strsep_piece p rest acc :
  no_comma p -> strsep (p ++ 44 :: rest) acc = (acc ++ p) :: strsep rest [].
Proof.
  intros Hp. revert acc. induction Hp as [|c p Hc _ IH]; intros acc; cbn [app strsep].
  - by rewrite app_nil_r.
  - rewrite (proj2 (Z.eqb_neq c 44) Hc), IH, <- app_assoc. done.
Qed.

Lemma strsep_last p acc : no_comma p -> strsep p acc = [acc ++ p].
Proof.
  intros Hp. revert acc. induction Hp as [|c p Hc _ IH]; intros acc; cbn [strsep].
  - by rewrite app_nil_r.
  - rewrite (proj2 (Z.eqb_neq c 44) Hc), IH, <- app_assoc. done.
Qed.

Lemma strsep_pieces ps acc :
  Forall no_comma ps -> no_comma acc -> strsep (acc ++ flat_map (fun p => 44 :: p) ps) [] = acc :: ps.
Proof.
  intros Hps. revert acc. induction Hps as [|p ps Hp _ IH]; intros acc Ha; cbn [flat_map].
  - rewrite app_nil_r. by apply strsep_last.
  - cbn [app]. rewrite strsep_piece by done. cbn [app]. f_equal. by apply IH.
Qed.

Lemma digits_no_comma fuel n : 0 <= n -> no_comma (digits fuel n).
Proof.
  revert n. induction fuel as [|fuel IH]; intros n Hn; cbn [digits]; [constructor|].
  destruct (Z.ltb_spec n 10); [repeat constructor; lia|]. apply Forall_app; split.
  - apply IH. apply Z.div_pos; lia.
  - repeat constructor. pose proof (Z.mod_pos_bound n 10). lia.
Qed.

Lemma dec_no_comma n : 0 <= n -> no_comma (dec n).
Proof. intros. unfold dec. destruct (Z.ltb_spec n 0); [lia|]. by apply digits_no_comma. Qed.

Lemma octal_no_comma fuel n : no_comma (octal fuel n).
Proof.
  revert n. induction fuel as [|fuel IH]; intros n; cbn [octal]; [constructor|].
  apply Forall_app; split; [apply IH|]. repeat constructor. pose proof (Z.mod_pos_bound n 8). lia.
Qed.

Lemma oct03_no_comma n : no_comma (oct03 n).
Proof. unfold oct03. destruct (n <? 512); apply octal_no_comma. Qed.

Lemma no_comma_app p q : no_comma p -> no_comma q -> no_comma (p ++ q).
Proof. intros. by apply Forall_app. Qed.

(** The pieces [devpts_show_options] prints. *)
Definition shown (multi : bool) (from_kuid from_kgid : Z -> Z) (o : pts_mount_opts) : list (list Z) :=
  (if setuid o then [str "uid=" ++ dec (from_kuid (uid o))] else []) ++
  (if setgid o then [str "gid=" ++ dec (from_kgid (gid o))] else []) ++
  [str "mode=" ++ oct03 (mode o)] ++
  (if multi then
     [str "ptmxmode=" ++ oct03 (ptmxmode o)] ++
     (if max o <? NR_UNIX98_PTY_MAX then [str "max=" ++ dec (max o)] else [])
   else []).

Lemma show_pieces multi fu fg o :
  devpts_show_options multi fu fg o = flat_map (fun p => 44 :: p) (shown multi fu fg o).
Proof.
  unfold devpts_show_options, shown.
  destruct (setuid o), (setgid o), multi, (max o <? NR_UNIX98_PTY_MAX); cbn -[dec oct03];
    rewrite ?app_nil_r, <- ?app_assoc; reflexivity.
Qed.

Lemma land_ugo n : 0 <= n <= S_IALLUGO -> Z.land n S_IALLUGO = n.
Proof.
  intros Hn. unfold S_IALLUGO in *. change 4095 with (Z.ones 12). rewrite Z.land_ones by lia.
  apply Z.mod_small. lia.
Qed.

Lemma land_ugo_range n : 0 <= Z.land n S_IALLUGO <= S_IALLUGO.
Proof.
  unfold S_IALLUGO. change 4095 with (Z.ones 12) at 1 2. rewrite Z.land_ones by lia.
  pose proof (Z.mod_pos_bound n (2 ^ 12)). lia.
Qed.

Lemma pieces_step multi mt mi mo ku kg op p rest o o' :
  p <> [] -> parse_option multi mt mi mo ku kg op p o = Some o' ->
  parse_pieces multi mt mi mo ku kg op (p :: rest) o = parse_pieces multi mt mi mo ku kg op rest o'.
Proof. intros Hp Ho. destruct p; [done|]. cbn [parse_pieces]. by rewrite Ho. Qed.

Section Roundtrip.
Context (multi : bool) (match_token : list Z -> token) (match_int match_octal : list Z -> option Z).
Context (make_kuid make_kgid : Z -> option Z) (from_kuid from_kgid : Z -> Z).
Context (Hm : matcher_ok match_token match_int match_octal).

#[local] Abbreviation pieces := (parse_pieces multi match_token match_int match_octal make_kuid make_kgid).

Lemma parse_shown op o o0 :
  opts_ok multi o ->
  (setuid o = true -> 0 <= from_kuid (uid o) < 2 ^ 31 /\ make_kuid (from_kuid (uid o)) = Some (uid o)) ->
  (setgid o = true -> 0 <= from_kgid (gid o) < 2 ^ 31 /\ make_kgid (from_kgid (gid o)) = Some (gid o)) ->
  default_opts op o0 = default_opts op o -> newinstance (default_opts op o) = newinstance o ->
  pieces op (shown multi from_kuid from_kgid o) (default_opts op o0) = (o, 0).
Proof.
  intros [Hmo Hpt Hmx Hsi Hu Hg] Huid Hgid -> Hni. cbn in Hni. unfold shown. destruct Hm as [M1 M2 M3 M4 M5 M6 M7].
  set (o1 := if setuid o then Opts true false (uid o) 0 DEVPTS_DEFAULT_MODE DEVPTS_DEFAULT_PTMX_MODE (newinstance o) NR_UNIX98_PTY_MAX
             else default_opts op o).
  assert (forall rest, pieces op ((if setuid o then [str "uid=" ++ dec (from_kuid (uid o))] else []) ++ rest) (default_opts op o)
                       = pieces op rest o1) as ->.
  { intros rest. subst o1. destruct (setuid o); [|done]. destruct (Huid eq_refl) as [Hr Hk].
    apply pieces_step; [done|]. unfold parse_option. rewrite M1, M6 by lia. cbn. rewrite Hk. cbn. by rewrite Hni. }
  set (o2 := Opts (setuid o) (setgid o) (uid o) (gid o) DEVPTS_DEFAULT_MODE DEVPTS_DEFAULT_PTMX_MODE (newinstance o) NR_UNIX98_PTY_MAX).
  assert (forall rest, pieces op ((if setgid o then [str "gid=" ++ dec (from_kgid (gid o))] else []) ++ rest) o1
                       = pieces op rest o2) as ->.
  { intros rest. subst o1 o2. destruct (setgid o) eqn:Eg; destruct (setuid o) eqn:Eu.
    - destruct (Hgid eq_refl) as [Hr Hk]. apply pieces_step; [done|]. unfold parse_option. rewrite M2, M6 by lia. cbn. by rewrite Hk.
    - destruct (Hgid eq_refl) as [Hr Hk]. apply pieces_step; [done|]. unfold parse_option. rewrite M2, M6 by lia. cbn. rewrite Hk. cbn.
      by rewrite Hu, Hni by done.
    - cbn [app]. by rewrite Hg by done.
    - cbn [app]. unfold default_opts at 1. rewrite Hu, Hg by done. by rewrite Hni. }
  cbn [app]. rewrite (pieces_step _ _ _ _ _ _ op _ _ _ (Opts (setuid o) (setgid o) (uid o) (gid o) (mode o) DEVPTS_DEFAULT_PTMX_MODE (newinstance o) NR_UNIX98_PTY_MAX));
    [|done|unfold parse_option; rewrite M3, M7 by done; cbn -[Z.land]; by rewrite land_ugo].
  destruct multi.
  - cbn [app]. rewrite (pieces_step _ _ _ _ _ _ op _ _ _ (Opts (setuid o) (setgid o) (uid o) (gid o) (mode o) (ptmxmode o) (newinstance o) NR_UNIX98_PTY_MAX));
      [|done|unfold parse_option; rewrite M4, M7 by done; cbn -[Z.land]; by rewrite land_ugo].
    destruct (Z.ltb_spec (max o) NR_UNIX98_PTY_MAX) as [L|L].
    + rewrite (pieces_step _ _ _ _ _ _ op _ _ _ o); [done|done|]. unfold parse_option, NR_UNIX98_PTY_MAX in *.
      rewrite M5, M6 by lia. cbn -[Z.ltb]. destruct (Z.ltb_spec (max o) 0); [lia|].
      destruct (Z.ltb_spec 1048576 (max o)); [lia|]. by destruct o.
    + cbn. replace NR_UNIX98_PTY_MAX with (max o) by lia. by destruct o.
  - destruct (Hsi eq_refl) as [Hp Hx]. cbn. rewrite <- Hp, <- Hx. by destruct o.
Qed.

Lemma shown_no_comma o :
  opts_ok multi o -> (setuid o = true -> 0 <= from_kuid (uid o)) -> (setgid o = true -> 0 <= from_kgid (gid o)) ->
  Forall no_comma (shown multi from_kuid from_kgid o).
Proof.
  intros [Hmo Hpt Hmx _ _ _] Hu Hg. unfold shown.
  assert (forall s, no_comma (str s) -> forall n, 0 <= n -> no_comma (str s ++ dec n)) as Hd
    by (intros; apply no_comma_app; [done|by apply dec_no_comma]).
  assert (forall s, no_comma (str s) -> forall n, no_comma (str s ++ oct03 n)) as Ho
    by (intros; apply no_comma_app; [done|apply oct03_no_comma]).
  assert (forall s, forallb (fun c => negb (c =? 44)) (str s) = true -> no_comma (str s)) as Hs.
  { intros s H. apply Forall_forall. intros x Hx. rewrite forallb_forall in H.
    specialize (H x (proj1 (list_elem_of_In _ _) Hx)). zbool. done. }
  assert (forall p, no_comma p -> Forall no_comma [p]) as H1 by (intros; by constructor).
  repeat apply Forall_app_2.
  - destruct (setuid o); [|constructor]. apply H1, Hd; [by apply Hs|auto].
  - destruct (setgid o); [|constructor]. apply H1, Hd; [by apply Hs|auto].
  - apply H1, Ho. by apply Hs.
  - destruct multi; [|constructor]. apply Forall_app_2; [apply H1, Ho; by apply Hs|].
    destruct (max o <? _); [|constructor]. apply H1, Hd; [by apply Hs|lia].
Qed.

(** C8: Remounting a devpts instance with the options its mount shows leaves
    the options unchanged, when they are valid ([opts_ok]) and the user and
    group, if set, are below 2^31: [parse_mount_options] reads back what
    [devpts_show_options] prints, in both configurations. *)
Theorem devpts_options_roundtrip o :
  opts_ok multi o ->
  (setuid o = true -> 0 <= from_kuid (uid o) < 2 ^ 31 /\ make_kuid (from_kuid (uid o)) = Some (uid o)) ->
  (setgid o = true -> 0 <= from_kgid (gid o) < 2 ^ 31 /\ make_kgid (from_kgid (gid o)) = Some (gid o)) ->
  parse_mount_options multi match_token match_int match_octal make_kuid make_kgid
    (Some (devpts_show_options multi from_kuid from_kgid o)) PARSE_REMOUNT o = (o, 0).
Proof.
  intros Ho Hu Hg. unfold parse_mount_options. rewrite show_pieces.
  change (flat_map _ _) with ([] ++ flat_map (fun p => 44 :: p) (shown multi from_kuid from_kgid o)).
  rewrite strsep_pieces; [|apply shown_no_comma; [done|intros H; apply (Hu H)|intros H; apply (Hg H)]|constructor].
  cbn [parse_pieces]. by apply parse_shown.
Qed.

End Roundtrip.

(** A matcher for the table [tokens], to run the parser on concrete data. *)
Fixpoint strip (prefix s : list Z) : option (list Z) :=
  match prefix, s with
  | [], _ => Some s
  | p :: ps, c :: cs => if p =? c then strip ps cs else None
  | _, _ => None
  end.

Definition table_match (s : list Z) : token :=
  match strip (str "uid=") s with Some a => Opt_uid a | None =>
  match strip (str "gid=") s with Some a => Opt_gid a | None =>
  match strip (str "mode=") s with Some a => Opt_mode a | None =>
  match strip (str "ptmxmode=") s with Some a => Opt_ptmxmode a | None =>
  match strip (str "max=") s with Some a => Opt_max a | None =>
  match strip (str "newinstance") s with Some [] => Opt_newinstance | _ => Opt_err end end end end end end.

Definition number (base : Z) (s : list Z) : option Z :=
  if forallb (fun c => (48 <=? c) && (c <? 48 + base)) s
  then Some (fold_left (fun a c => a * base + (c - 48)) s 0) else None.

Lemma strip_app p s : strip p (p ++ s) = Some s.
Proof. induction p as [|c p IH]; cbn; [by destruct s|]. by rewrite Z.eqb_refl. Qed.

Lemma number_snoc base s v c :
  number base s = Some v -> 0 <= c < base -> number base (s ++ [48 + c]) = Some (v * base + c).
Proof.
  unfold number. intros Hs Hc. rewrite forallb_app, fold_left_app. cbn [forallb fold_left].
  destruct (forallb _ s); [|done]. injection Hs as ->.
  rewrite (proj2 (Z.leb_le 48 _)), (proj2 (Z.ltb_lt (48 + c) _)) by lia. cbn. do 2 f_equal. lia.
Qed.

Lemma number_digits fuel n :
  0 <= n < 10 ^ Z.of_nat (S fuel) -> number 10 (digits (S fuel) n) = Some n.
Proof.
  revert n. induction fuel as [|fuel IH]; intros n Hn; cbn [digits].
  - destruct (Z.ltb_spec n 10); [|cbn in Hn; lia]. apply (number_snoc 10 [] 0 n); [done|lia].
  - destruct (Z.ltb_spec n 10); [apply (number_snoc 10 [] 0 n); [done|lia]|].
    rewrite Nat2Z.inj_succ, Z.pow_succ_r in Hn by lia.
    rewrite (number_snoc 10 _ (n / 10)).
    + f_equal. rewrite Z.mul_comm. symmetry. apply Z.div_mod. lia.
    + apply (IH (n / 10)). split; [apply Z.div_pos; lia|apply Z.div_lt_upper_bound; lia].
    + apply Z.mod_pos_bound. lia.
Qed.

Lemma number_octal fuel n : 0 <= n -> number 8 (octal fuel n) = Some (n mod 8 ^ Z.of_nat fuel).
Proof.
  revert n. induction fuel as [|fuel IH]; intros n Hn; cbn [octal]; [by rewrite Z.mod_1_r|].
  rewrite (number_snoc 8 _ _ _ (IH (n / 8) ltac:(apply Z.div_pos; lia))) by (apply Z.mod_pos_bound; lia).
  f_equal. rewrite Nat2Z.inj_succ, Z.pow_succ_r by lia. rewrite Z.rem_mul_r by lia. lia.
Qed.

Lemma table_ok : matcher_ok table_match (number 10) (number 8).
Proof.
  split; intros; try reflexivity.
  - unfold dec. destruct (Z.ltb_spec n 0); [lia|]. apply number_digits. cbn. lia.
  - unfold oct03, S_IALLUGO in *. destruct (Z.ltb_spec n 512);
      rewrite number_octal by lia; f_equal; apply Z.mod_small; cbn; lia.
Qed.

Lemma devpts_options_roundtrip_witness :
  let o := Opts true false 1000 0 438 0 true 512 in
  parse_mount_options true table_match (number 10) (number 8) Some Some
    (Some (devpts_show_options true (fun u => u) (fun g => g) o)) PARSE_REMOUNT o = (o, 0).
Proof.
  cbn zeta. apply (devpts_options_roundtrip true table_match (number 10) (number 8) Some Some
    (fun u => u) (fun g => g) table_ok).
  - split; cbn; unfold S_IALLUGO, NR_UNIX98_PTY_MAX; try lia; done.
  - intros _. cbn. split; [lia|reflexivity].
  - done.
Defined.

(** ** Bounds of the options *)
Section Bounds.
Context (multi : bool) (match_token : list Z -> token) (match_int match_octal : list Z -> option Z).
Context (make_kuid make_kgid : Z -> option Z).

Lemma parse_option_ok op p o o' :
  opts_ok multi o -> parse_option multi match_token match_int match_octal make_kuid make_kgid op p o = Some o' ->
  opts_ok multi o' /\ (op = PARSE_REMOUNT -> newinstance o' = newinstance o).
Proof.
  intros [Hmo Hpt Hmx Hsi Hu Hg] Hp. unfold parse_option in Hp.
  destruct (match_token p) as [arg|arg|arg|arg| |arg|].
  - destruct (match_int arg) as [n|]; [|done]. cbn in Hp. destruct (make_kuid n); [|done].
    injection Hp as <-. split; [by split|done].
  - destruct (match_int arg) as [n|]; [|done]. cbn in Hp. destruct (make_kgid n); [|done].
    injection Hp as <-. split; [by split|done].
  - destruct (match_octal arg) as [n|]; [|done]. injection Hp as <-.
    split; [|done]. split; try done. apply land_ugo_range.
  - destruct multi; [|done]. destruct (match_octal arg) as [n|]; [|done]. injection Hp as <-.
    split; [|done]. split; try done. apply land_ugo_range.
  - destruct multi; [|done]. destruct op; injection Hp as <-; (split; [by split|done]).
  - destruct multi; [|done]. destruct (match_int arg) as [n|]; [|done]. cbn -[Z.ltb] in Hp.
    destruct (Z.ltb_spec n 0), (Z.ltb_spec NR_UNIX98_PTY_MAX n); cbn in Hp; try done.
    injection Hp as <-. split; [|done]. by split; cbn.
  - done.
Qed.

(** Whatever string is mounted or remounted with, and also when the parse
    fails half-way, the options in force stay in range (modes within 07777,
    [max] within 0..NR_UNIX98_PTY_MAX, defaults in the single-instance
    configuration), and a remount never changes [newinstance]. *)
Theorem devpts_options_in_range data op o :
  let '(o', err) := parse_mount_options multi match_token match_int match_octal make_kuid make_kgid data op o in
  opts_ok multi o' /\ (err = 0 \/ err = - EINVAL) /\ (op = PARSE_REMOUNT -> newinstance o' = newinstance o).
Proof.
  assert (opts_ok multi (default_opts op o)) as Hd.
  { split; cbn; unfold S_IALLUGO, DEVPTS_DEFAULT_MODE, DEVPTS_DEFAULT_PTMX_MODE, NR_UNIX98_PTY_MAX; done || lia. }
  assert (forall ps o1, opts_ok multi o1 ->
    let '(o', err) := parse_pieces multi match_token match_int match_octal make_kuid make_kgid op ps o1 in
    opts_ok multi o' /\ (err = 0 \/ err = - EINVAL) /\ (op = PARSE_REMOUNT -> newinstance o' = newinstance o1)) as Hp.
  { induction ps as [|[|c p] ps IH]; intros o1 H1; cbn [parse_pieces]; [auto|by apply IH|].
    destruct (parse_option _ _ _ _ _ _ op (c :: p) o1) as [o2|] eqn:E; [|auto].
    destruct (parse_option_ok _ _ _ _ H1 E) as [H2 Hn]. specialize (IH o2 H2).
    destruct (parse_pieces _ _ _ _ _ _ op ps o2) as [o' err]. destruct IH as (? & ? & Hn').
    split; [done|]. split; [done|]. intros Hop. rewrite Hn', Hn by done. done. }
  unfold parse_mount_options. destruct data as [s|].
  - specialize (Hp (strsep s []) _ Hd). destruct (parse_pieces _ _ _ _ _ _ op _ _) as [o' err].
    destruct Hp as (? & ? & Hn). split; [done|]. split; [done|]. intros Hop. rewrite Hn by done. by subst op.
  - split; [done|]. split; [by left|]. by intros ->.
Qed.

End Bounds.

(** ** Terminal indexes *)
Definition ptys (f : pts_fs_info) : Z := Z.of_nat (size (allocated_ptys f)).
Definition total_ptys (m : gmap Z pts_fs_info) : Z := map_fold (fun _ f n => ptys f + n) 0 m.

Lemma total_ptys_put m sb f f' :
  m !! sb = Some f -> total_ptys (<[sb := f']> m) = total_ptys m - ptys f + ptys f'.
Proof.
  intros Hm. unfold total_ptys.
  rewrite (map_fold_delete_L (fun _ f n => ptys f + n) 0 sb f m); [|intros; lia|done].
  rewrite <- insert_delete_eq, map_fold_insert_L; [lia|intros; lia|apply lookup_delete_eq].
Qed.

Lemma total_ptys_nonneg m : 0 <= total_ptys m.
Proof.
  unfold total_ptys. apply (map_fold_weak_ind (fun r _ => 0 <= r)); [lia|].
  intros. unfold ptys. lia.
Qed.

Section Indexes.
Context (ida_new : gset Z -> Z).
(** The id allocator hands out an id that is not in use. *)
Context (ida_fresh : forall s, (ida_new s ∉ s) /\ 0 <= ida_new s).

Record counts (w : world) : Prop := {
  c_total : pty_count w = total_ptys (sbs w);
  c_limit : 0 <= pty_count w <= pty_limit
}.

(** Opening and closing terminals in any instance. *)
Inductive pty_step : world -> world -> Prop :=
| pty_open w sb f env w' ret :
    sbs w !! sb = Some f -> devpts_new_index ida_new w sb (Some f) env = Some (w', ret) -> pty_step w w'
| pty_close w sb f idx :
    sbs w !! sb = Some f -> idx ∈ allocated_ptys f -> pty_step w (devpts_kill_index w sb f idx).

Lemma new_index_spec w sb f env w' ret :
  counts w -> sbs w !! sb = Some f -> devpts_new_index ida_new w sb (Some f) env = Some (w', ret) ->
  (w' = w /\ ret < 0) \/
  ((ret ∉ allocated_ptys f) /\ 0 <= ret < max (mount_opts f) /\
   pty_count w < pty_limit - (if newinstance (mount_opts f) then pty_reserve else 0) /\
   pty_count w' = pty_count w + 1 /\
   sbs w' = <[sb := Fsi ({[ret]} ∪ allocated_ptys f) (mount_opts f) (ptmx_dentry f) (root f)]> (sbs w)).
Proof.
  intros [Ht Hl] Hf. cbn [devpts_new_index]. induction env as [|[pre err] env IH]; intros Hn; cbn [new_index_retry] in Hn; [done|].
  destruct pre; cbn [negb] in Hn; [|injection Hn as <- <-; by left].
  destruct (Z.leb_spec (pty_limit - (if newinstance (mount_opts f) then pty_reserve else 0)) (pty_count w));
    [injection Hn as <- <-; by left|].
  destruct err as [e|]; [destruct (e =? - EAGAIN); [by apply IH|injection Hn as <- <-; by left]|].
  destruct (ida_fresh (allocated_ptys f)) as [Hfr Hpos].
  destruct (Z.leb_spec (max (mount_opts f)) (ida_new (allocated_ptys f))); [injection Hn as <- <-; by left|].
  injection Hn as <- <-. right. split; [done|]. split; [lia|]. split; [lia|]. cbn.
  unfold pty_limit in *. rewrite s32_small by (destruct (newinstance _); unfold pty_reserve in *; lia). done.
Qed.

Lemma new_index_ends w sb f env :
  Exists (fun r => snd r <> Some (- EAGAIN)) env -> is_Some (devpts_new_index ida_new w sb (Some f) env).
Proof.
  intros He. cbn [devpts_new_index]. induction env as [|[pre err] env IH]; [by apply Exists_nil in He|].
  cbn [new_index_retry]. destruct pre; [|done]. cbn [negb].
  destruct (pty_limit - (if newinstance (mount_opts f) then pty_reserve else 0) <=? pty_count w); [done|].
  destruct err as [e|]; [|by destruct (max (mount_opts f) <=? ida_new (allocated_ptys f))].
  destruct (Z.eqb_spec e (- EAGAIN)) as [->|]; [|done].
  apply IH. apply Exists_cons in He as [He|He]; [by destruct He|done].
Qed.

Lemma pty_step_counts : preserves pty_step counts.
Proof.
  intros w w' Hc Hs. destruct Hs as [w sb f env w' ret Hf Hn|w sb f idx Hf Hi].
  - destruct (new_index_spec w sb f env w' ret Hc Hf Hn) as [[-> _]|(Hfr & Hr & Hlt & Hcnt & Hsb)]; [done|].
    destruct Hc as [Ht Hl]. split.
    + rewrite Hcnt, Hsb, (total_ptys_put _ _ f) by done. unfold ptys. cbn [allocated_ptys].
      rewrite size_union, size_singleton by set_solver. lia.
    + rewrite Hcnt. unfold pty_reserve in *. destruct (newinstance _); lia.
  - destruct Hc as [Ht Hl].
    assert (0 < size (allocated_ptys f))%nat as Hsz.
    { destruct (decide (size (allocated_ptys f) = 0)%nat) as [E|]; [|lia].
      apply size_empty_inv in E. set_solver. }
    assert (size (allocated_ptys f ∖ {[idx]}) = size (allocated_ptys f) - 1)%nat as Hd.
    { rewrite size_difference, size_singleton by set_solver. done. }
    pose proof (total_ptys_put (sbs w) sb f
      (Fsi (allocated_ptys f ∖ {[idx]}) (mount_opts f) (ptmx_dentry f) (root f)) Hf) as Hp.
    unfold ptys in Hp. cbn [allocated_ptys] in Hp. rewrite Hd in Hp.
    pose proof (total_ptys_nonneg (<[sb := Fsi (allocated_ptys f ∖ {[idx]}) (mount_opts f) (ptmx_dentry f) (root f)]> (sbs w))).
    unfold devpts_kill_index, pty_limit in *. split; cbn [pty_count sbs]; rewrite s32_small by lia; unfold pty_limit; lia.
Qed.

(** C10: Whatever terminals were opened and closed in whatever instances, the
    next [devpts_new_index] either changes nothing and returns an error, or
    returns an index that is free in the instance and below its [max], and
    counts it; the global count is always the number of allocated indexes of
    all instances and never exceeds [pty_limit] ([pty_limit - pty_reserve]
    for private instances); and the retry loop ends as soon as one round does
    not answer [-EAGAIN]. *)
Theorem devpts_index_allocation w0 w sb f env :
  pty_count w0 = 0 -> total_ptys (sbs w0) = 0 -> star pty_step w0 w ->
  sbs w !! sb = Some f -> Exists (fun r => snd r <> Some (- EAGAIN)) env ->
  pty_count w = total_ptys (sbs w) /\ 0 <= pty_count w <= pty_limit /\
  exists w' ret, devpts_new_index ida_new w sb (Some f) env = Some (w', ret) /\
    ((w' = w /\ ret < 0) \/
     ((ret ∉ allocated_ptys f) /\ 0 <= ret < max (mount_opts f) /\
      pty_count w' <= pty_limit - (if newinstance (mount_opts f) then pty_reserve else 0) /\
      exists f', sbs w' !! sb = Some f' /\ allocated_ptys f' = {[ret]} ∪ allocated_ptys f)).
Proof.
  intros H0 Ht0 Hstar Hf Henv.
  assert (counts w) as Hc.
  { eapply star_invariant; [apply pty_step_counts| |exact Hstar]. split; [lia|]. unfold pty_limit. lia. }
  split; [apply Hc|]. split; [apply Hc|].
  assert (is_Some (devpts_new_index ida_new w sb (Some f) env)) as [[w' ret] Hn] by (by apply new_index_ends).
  exists w', ret. split; [done|].
  destruct (new_index_spec w sb f env w' ret Hc Hf Hn) as [H|(Hfr & Hr & Hlt & Hcnt & Hsb)]; [by left|right].
  split; [done|]. split; [done|]. split; [lia|]. rewrite Hsb. eexists. split; [apply lookup_insert_eq|done].
Qed.

End Indexes.

(** An allocator: the number above all ids in use. *)
Definition above (s : gset Z) : Z := foldr (fun i m => Z.max (i + 1) m) 0 (elements s).

Lemma above_fresh s : (above s ∉ s) /\ 0 <= above s.
Proof.
  assert (forall l, 0 <= foldr (fun i m => Z.max (i + 1) m) 0 l /\
                    forall x, x ∈ l -> x < foldr (fun i m => Z.max (i + 1) m) 0 l) as H.
  { induction l as [|i l [IH1 IH2]]; cbn; [split; [lia|]; intros x Hx; by apply elem_of_nil in Hx|].
    split; [lia|]. intros x Hx. apply elem_of_cons in Hx as [->|Hx]; [lia|]. specialize (IH2 x Hx). lia. }
  unfold above. destruct (H (elements s)) as [H1 H2]. split; [|done].
  intros Hin. apply elem_of_elements in Hin. specialize (H2 _ Hin). lia.
Qed.

Definition demo_fsi : pts_fs_info :=
  Fsi ∅ (Opts false false 0 0 DEVPTS_DEFAULT_MODE 0 true 16) true ∅.
Definition demo_world : world := World 0 None {[ 7 := demo_fsi ]}.

Lemma devpts_index_allocation_witness :
  exists w' ret, devpts_new_index above demo_world 7 (Some demo_fsi) [(true, Some (- EAGAIN)); (true, None)] = Some (w', ret) /\
    (w' = demo_world /\ ret < 0 \/ (ret ∉ allocated_ptys demo_fsi) /\ 0 <= ret < 16).
Proof.
  destruct (devpts_index_allocation above above_fresh demo_world demo_world 7 demo_fsi
    [(true, Some (- EAGAIN)); (true, None)]) as (_ & _ & w' & ret & H & Hr).
  - reflexivity.
  - vm_compute. reflexivity.
  - constructor.
  - reflexivity.
  - apply Exists_cons_tl. by apply Exists_cons_hd.
  - exists w', ret. split; [exact H|]. destruct Hr as [Hr|(Hr1 & Hr2 & _)]; [by left|by right].
Defined.

(** ** Terminal nodes *)
Lemma pty_name_digit index : 0 <= index -> exists c rest, pty_name index = c :: rest /\ 48 <= c <= 57.
Proof.
  intros Hi. unfold pty_name, dec. destruct (Z.ltb_spec index 0); [lia|].
  assert (forall fuel n, 0 <= n -> exists c rest, digits (S fuel) n = c :: rest /\ 48 <= c <= 57) as Hd.
  { induction fuel as [|fuel IH]; intros n Hn; cbn [digits].
    - destruct (Z.ltb_spec n 10); [exists (48 + n), []; split; [done|lia]|].
      pose proof (Z.mod_pos_bound n 10). exists (48 + n mod 10), []. split; [done|lia].
    - destruct (Z.ltb_spec n 10); [exists (48 + n), []; split; [done|lia]|].
      destruct (IH (n / 10)) as (c & rest & E & Hc); [apply Z.div_pos; lia|].
      change (digits (S fuel) (n / 10)) with
        (if n / 10 <? 10 then [48 + n / 10] else digits fuel (n / 10 / 10) ++ [48 + n / 10 mod 10]) in E.
      rewrite E. by eexists _, _. }
  apply (Hd 19%nat). lia.
Qed.

(** [devpts_pty_new] puts a node under the decimal name of the index,
    which fits the 12-byte buffer and is never the name of the ptmx node;
    [devpts_get_priv] then answers with the private data, [devpts_pty_kill]
    takes the node away again and leaves the rest of the directory as it was,
    after which [devpts_get_priv] answers NULL. *)
Theorem devpts_pty_new_kill f device index priv fsuid fsgid :
  0 <= index < 2 ^ 31 -> device <> MKDEV TTYAUX_MAJOR PTMX_MINOR -> root f !! pty_name index = None ->
  exists f1 i, devpts_pty_new (Some f) device index priv fsuid fsgid true true = (Some f1, inl i) /\
    zlen (pty_name index) + 1 <= 12 /\ pty_name index <> ptmx_name /\
    devpts_get_priv f1 (pty_name index) i = Some priv /\
    devpts_pty_kill (Some f1) (pty_name index) i = Some f /\
    devpts_get_priv f (pty_name index) i = Some 0.
Proof.
  intros Hi Hd Hn.
  assert (dev_eqb device (MKDEV TTYAUX_MAJOR PTMX_MINOR) = false) as Hdev.
  { destruct (dev_eqb _ _) eqn:E; [|done]. by apply dev_eqb_eq in E. }
  do 2 eexists. split; [reflexivity|]. split; [|split; [|split; [|split]]].
  - pose proof (dec_len index 9 ltac:(cbn; lia)). unfold pty_name. lia.
  - destruct (pty_name_digit index) as (c & rest & -> & Hc); [lia|]. intros H.
    assert (c = 112) by (by injection H). lia.
  - unfold devpts_get_priv. cbn [i_rdev]. rewrite Hdev. cbn. by rewrite lookup_insert_eq.
  - unfold devpts_pty_kill. cbn. rewrite Hdev, lookup_insert_eq. cbn. rewrite delete_insert_id by done. by destruct f.
  - unfold devpts_get_priv. cbn [i_rdev]. rewrite Hdev. by rewrite Hn.
Qed.

Lemma devpts_pty_new_kill_witness :
  exists f1 i, devpts_pty_new (Some demo_fsi) (136, 5) 5 4242 1000 1000 true true = (Some f1, inl i) /\
    devpts_get_priv f1 (pty_name 5) i = Some 4242.
Proof.
  destruct (devpts_pty_new_kill demo_fsi (136, 5) 5 4242 1000 1000) as (f1 & i & H1 & _ & _ & H2 & _);
    [lia|discriminate|reflexivity|]. by exists f1, i.
Defined.

(** ** Mounting *)

(** Nothing in the file sets [devpts_mnt], so [compare_init_pts_sb] never
    accepts a super block: every mount, also one without newinstance, gets a
    super block of its own, where the comment promises the instance of the
    initial mount. *)
Theorem devpts_mounts_never_shared multi mt mi mo ku kg w e data o0 w' s :
  devpts_mnt w = None ->
  devpts_mount multi mt mi mo ku kg w e data o0 = Mounted w' s -> s = fresh_sb e /\ devpts_mnt w' = None.
Proof.
  intros Hm. unfold devpts_mount. destruct (parse_mount_options _ _ _ _ _ _ data PARSE_MOUNT o0) as [opts err].
  destruct (c_true err); [done|]. destruct (negb (init_ns e) && negb (newinstance opts)); [done|].
  destruct (negb (sget_ok e)); [done|].
  assert (sget w (if newinstance opts then None else Some (compare_init_pts_sb w)) (fresh_sb e) = fresh_sb e) as ->.
  { unfold sget, compare_init_pts_sb. rewrite Hm. destruct (newinstance opts); [done|].
    destruct (list_find _ _) as [[k s0]|] eqn:E; [|done]. by apply list_find_Some in E as (_ & ? & _). }
  intros H. repeat (case_match; try done); simplify_eq; done.
Qed.

Lemma devpts_mounts_never_shared_witness :
  let e := Menv true true 42 true true true true true in
  exists w', devpts_mount true table_match (number 10) (number 8) Some Some demo_world e None
               (mount_opts demo_fsi) = Mounted w' 42 /\ devpts_mnt w' = None.
Proof.
  cbn zeta. eexists. split; [reflexivity|].
  eapply (devpts_mounts_never_shared true table_match (number 10) (number 8) Some Some demo_world
    (Menv true true 42 true true true true true) None (mount_opts demo_fsi) _ 42); reflexivity.
Defined.

(** When [new_pts_fs_info] cannot allocate the instance, the mount's error
    path calls [devpts_kill_sb] on a super block without [s_fs_info], which
    dereferences the NULL pointer. *)
Theorem devpts_mount_null_deref multi mt mi mo ku kg w e o0 :
  devpts_mnt w = None -> init_ns e = true -> sget_ok e = true -> fsi_ok e = false ->
  sbs w !! fresh_sb e = None ->
  devpts_mount multi mt mi mo ku kg w e None o0 = Oopsed.
Proof.
  intros Hm Hi Hs Hf Hn. unfold devpts_mount. cbn [parse_mount_options default_opts newinstance c_true Z.eqb negb].
  rewrite Hi, Hs. cbn [andb negb].
  assert (sget w (Some (compare_init_pts_sb w)) (fresh_sb e) = fresh_sb e) as ->.
  { unfold sget, compare_init_pts_sb. rewrite Hm.
    destruct (list_find _ _) as [[k s0]|] eqn:E; [|done]. by apply list_find_Some in E as (_ & ? & _). }
  rewrite Hn. unfold devpts_fill_super. by rewrite Hf.
Qed.

Lemma devpts_mount_null_deref_witness :
  devpts_mount true table_match (number 10) (number 8) Some Some demo_world
    (Menv true true 42 false true true true true) None (mount_opts demo_fsi) = Oopsed.
Proof. apply devpts_mount_null_deref; reflexivity. Defined.
