(* ===== verification/DevptsLife.v ===== *)
(** * fs/inode_orig.c: the life of the devpts instances

    Instances are mounted and unmounted while the callers of the pty interface
    take references to them ([devpts_get_ref]), reserve indexes, make and
    remove nodes and drop their references ([devpts_put_ref]).  A super block
    is freed when its last active reference is dropped, so the question is
    whether any operation can meet a freed one, and what is left behind.  The
    reference count is the kernel's: [s_active], which [sget] and
    [deactivate_super] keep, appears as the state it is. *)
From stdpp Require Import strings gmap sets.
From S2P Require Import Prelude Kernel Devpts.
Local Open Scope Z_scope.

#[global] Instance inode_eq_dec : EqDecision inode.
Proof. solve_decision. Defined.

(** The file system's data and [s_active] of every live super block. *)
Record fs := Fs { wd : world; s_active : gmap Z Z }.

(** A caller of the interface: nothing, a reference to the instance of a
    super block, also an index in it, also a node. *)
Inductive client :=
| Idle
| HasRef (sb : Z)
| HasIndex (sb idx : Z)
| Open (sb idx : Z) (ino : inode).

Inductive action :=
| AGetRef (i_sb s_magic : Z)
| ANewIndex (env : list (bool * option Z))
| APtyNew (device : dev_t) (priv fsuid fsgid : Z) (inode_ok dentry_ok : bool)
| APtyKill
| AKillIndex
| APutRef.

Section Life.
Context (multi : bool).
Context (match_token : list Z -> token) (match_int match_octal : list Z -> option Z).
Context (make_kuid make_kgid : Z -> option Z) (ida_new : gset Z -> Z).

#[local] Abbreviation mount := (devpts_mount multi match_token match_int match_octal make_kuid make_kgid).
#[local] Abbreviation remount := (devpts_remount multi match_token match_int match_octal make_kuid make_kgid).

(** ** References.  [None] is an access to a freed super block. *)

(** [devpts_get_ref] through an inode of super block [i_sb]; the result is
    the super block of the instance, [None] for NULL. *)
Definition devpts_get_ref (p : fs) (i_sb s_magic : Z) : option (fs * option Z) :=
  match pts_sb_from_inode multi (wd p) i_sb s_magic with
  | None => Some (p, None)
  | Some sb =>
      n ← s_active p !! sb;
      match sbs (wd p) !! sb with
      | None => Some (p, None)
      | Some _ => Some (Fs (wd p) (<[sb := s32 (n + 1)]> (s_active p)), Some sb)
      end
  end.

(** [deactivate_super] drops a reference and kills the super block with the
    last one. *)
Definition deactivate_super (p : fs) (sb : Z) : option fs :=
  n ← s_active p !! sb;
  if n =? 1 then
    w ← devpts_kill_sb (wd p) sb (bool_decide (is_Some (sbs (wd p) !! sb)));
    Some (Fs w (delete sb (s_active p)))
  else Some (Fs (wd p) (<[sb := s32 (n - 1)]> (s_active p))).

Definition devpts_put_ref (p : fs) (sb : Z) : option fs := deactivate_super p sb.

(** A mount: [sget] answers with a reference to the super block. *)
Definition mount_fs (p : fs) (e : mount_env) (data : option (list Z)) (o0 : pts_mount_opts) : option (fs * (Z + Z)) :=
  match mount (wd p) e data o0 with
  | Mounted w sb => Some (Fs w (<[sb := s32 (default 0 (s_active p !! sb) + 1)]> (s_active p)), inl sb)
  | Failed w err => Some (Fs w (s_active p), inr err)
  | Oopsed => None
  end.

Definition remount_fs (p : fs) (sb : Z) (data : option (list Z)) : option (fs * Z) :=
  f ← sbs (wd p) !! sb;
  let '(f', err) := remount f data in
  Some (Fs (put (wd p) sb f') (s_active p), err).

(** ** The calls of a client *)
Definition client_do (a : action) (c : client) (p : fs) : option (fs * client) :=
  match c, a with
  | Idle, AGetRef i_sb s_magic =>
      '(p', r) ← devpts_get_ref p i_sb s_magic;
      Some (p', match r with Some sb => HasRef sb | None => Idle end)
  | HasRef sb, ANewIndex env =>
      f ← sbs (wd p) !! sb;
      '(w, ret) ← devpts_new_index ida_new (wd p) sb (Some f) env;
      Some (Fs w (s_active p), if ret <? 0 then HasRef sb else HasIndex sb ret)
  | HasIndex sb idx, APtyNew device priv fsuid fsgid inode_ok dentry_ok =>
      f ← sbs (wd p) !! sb;
      match devpts_pty_new (Some f) device idx priv fsuid fsgid inode_ok dentry_ok with
      | (Some f', inl ino) => Some (Fs (put (wd p) sb f') (s_active p), Open sb idx ino)
      | (Some f', inr _) => Some (Fs (put (wd p) sb f') (s_active p), HasIndex sb idx)
      | (None, _) => None
      end
  | Open sb idx ino, APtyKill =>
      s ← pts_sb_from_inode multi (wd p) sb DEVPTS_SUPER_MAGIC;
      f' ← devpts_pty_kill (sbs (wd p) !! s) (pty_name idx) ino;
      Some (Fs (put (wd p) s f') (s_active p), HasIndex sb idx)
  | HasIndex sb idx, AKillIndex =>
      f ← sbs (wd p) !! sb;
      Some (Fs (devpts_kill_index (wd p) sb f idx) (s_active p), HasRef sb)
  | HasRef sb, APutRef => p' ← devpts_put_ref p sb; Some (p', Idle)
  | _, _ => None
  end.

(** The system: the file system, the mounted super blocks, the clients. *)
Record sys := Sys { pts : fs; mounts : gset Z; clients : list client }.

(** What the callers respect: a devpts inode is used while its super block
    is mounted, a slave's device number is not ptmx's, and the retry loop of
    the allocator has a round that does not answer [-EAGAIN]. *)
Definition legal (m : gset Z) (c : client) (a : action) : Prop :=
  match c, a with
  | Idle, AGetRef i_sb s_magic => s_magic = DEVPTS_SUPER_MAGIC -> i_sb ∈ m
  | HasRef _, ANewIndex env => Exists (fun r => snd r <> Some (- EAGAIN)) env
  | HasIndex _ _, APtyNew device _ _ _ _ _ => device <> MKDEV TTYAUX_MAJOR PTMX_MINOR
  | HasRef _, APutRef | HasIndex _ _, AKillIndex | Open _ _ _, APtyKill => True
  | _, _ => False
  end.

(** One step of the system.  A mount that cannot allocate the instance is
    left out ([fsi_ok]): its error path crashes, see
    [Devpts.devpts_mount_null_deref]. *)
Inductive life_step : sys -> sys -> Prop :=
| life_mount s e data o0 p r :
    fsi_ok e = true -> s_active (pts s) !! fresh_sb e = None ->
    mount_fs (pts s) e data o0 = Some (p, r) ->
    life_step s (Sys p (match r with inl sb => {[sb]} ∪ mounts s | inr _ => mounts s end) (clients s))
| life_remount s sb data p err :
    sb ∈ mounts s -> remount_fs (pts s) sb data = Some (p, err) ->
    life_step s (Sys p (mounts s) (clients s))
| life_umount s sb p :
    sb ∈ mounts s -> deactivate_super (pts s) sb = Some p ->
    life_step s (Sys p (mounts s ∖ {[sb]}) (clients s))
| life_client s i c a p c' :
    clients s !! i = Some c -> legal (mounts s) c a -> client_do a c (pts s) = Some (p, c') ->
    life_step s (Sys p (mounts s) (<[i := c']> (clients s))).

End Life.

(** ** What the clients hold *)
Definition b2z (b : bool) : Z := if b then 1 else 0.

Definition ref_of (c : client) : option Z :=
  match c with Idle => None | HasRef sb | HasIndex sb _ | Open sb _ _ => Some sb end.
Definition index_of (c : client) : option (Z * Z) :=
  match c with HasIndex sb idx | Open sb idx _ => Some (sb, idx) | _ => None end.
Definition node_of (c : client) : option (Z * Z * inode) :=
  match c with Open sb idx ino => Some (sb, idx, ino) | _ => None end.

Definition holds (sb : Z) (c : client) : Z := b2z (bool_decide (ref_of c = Some sb)).
Definition owns (sb idx : Z) (c : client) : Z := b2z (bool_decide (index_of c = Some (sb, idx))).
Definition opens (sb idx : Z) (ino : inode) (c : client) : Z :=
  b2z (bool_decide (node_of c = Some (sb, idx, ino))).
Definition indexed (c : client) : Z := match index_of c with Some _ => 1 | None => 0 end.

Definition refs (m : gset Z) (cs : list client) (sb : Z) : Z :=
  b2z (bool_decide (sb ∈ m)) + sum_of (holds sb) cs.
Definition ids (w : world) (sb : Z) : gset Z :=
  match sbs w !! sb with Some f => allocated_ptys f | None => ∅ end.
Definition nodes (w : world) (sb : Z) : gmap (list Z) inode :=
  match sbs w !! sb with Some f => root f | None => ∅ end.
Definition in_range (idx : Z) : Prop := 0 <= idx < NR_UNIX98_PTY_MAX.

(** ** The invariant *)

(** The counts: [s_active] is the number of references, and a super block
    exists exactly while there is one. *)
Record counted (p : fs) (m : gset Z) (cs : list client) : Prop := {
  ct_active sb : s_active p !! sb = (if decide (refs m cs sb = 0) then None else Some (refs m cs sb));
  ct_sbs sb : is_Some (sbs (wd p) !! sb) <-> refs m cs sb <> 0;
  ct_few : zlen cs < 2 ^ 31 - 1
}.

(** The contents: an index is allocated, and a node is in the directory, once
    for the one client that holds it. *)
Record content (multi : bool) (w : world) (cs : list client) : Prop := {
  cn_mnt : devpts_mnt w = None;
  cn_ids sb idx : sum_of (owns sb idx) cs = b2z (bool_decide (idx ∈ ids w sb));
  cn_nodes sb idx ino : in_range idx ->
    sum_of (opens sb idx ino) cs = b2z (bool_decide (nodes w sb !! pty_name idx = Some ino));
  cn_names sb name : is_Some (nodes w sb !! name) ->
    name = ptmx_name \/ exists idx, in_range idx /\ name = pty_name idx;
  cn_range sb idx : idx ∈ ids w sb -> in_range idx;
  cn_opts sb f : sbs w !! sb = Some f -> opts_ok multi (mount_opts f);
  cn_rdev i sb idx ino : cs !! i = Some (Open sb idx ino) -> i_rdev ino <> MKDEV TTYAUX_MAJOR PTMX_MINOR;
  cn_count : pty_count w = sum_of indexed cs;
  cn_counts : counts w
}.

(** ** Lemmas *)
Lemma b2z_nonneg b : 0 <= b2z b.
Proof. destruct b; cbn; lia. Qed.

Lemma holds_nonneg sb c : 0 <= holds sb c.
Proof. apply b2z_nonneg. Qed.

Lemma owns_holds sb idx c : owns sb idx c <= holds sb c.
Proof. unfold owns, holds. destruct c; cbn; repeat case_bool_decide; cbn; simplify_eq; lia. Qed.

Lemma opens_owns sb idx ino c : opens sb idx ino c <= owns sb idx c.
Proof. unfold opens, owns. destruct c; cbn; repeat case_bool_decide; cbn; simplify_eq; lia. Qed.

Lemma opens_none sb idx ino c : node_of c = None -> opens sb idx ino c = 0.
Proof. unfold opens. by intros ->. Qed.

Lemma pty_name_inj i j : in_range i -> in_range j -> pty_name i = pty_name j -> i = j.
Proof.
  unfold in_range, pty_name, dec, NR_UNIX98_PTY_MAX. intros Hi Hj.
  destruct (Z.ltb_spec i 0), (Z.ltb_spec j 0); [lia..|]. intros E.
  apply (f_equal (number 10)) in E. rewrite !number_digits in E by (cbn; lia). by injection E.
Qed.

Lemma pty_name_not_ptmx i : in_range i -> pty_name i <> ptmx_name.
Proof.
  intros [Hi _]. destruct (pty_name_digit i Hi) as (c & rest & -> & Hc). intros H.
  assert (c = 112) by (by injection H). lia.
Qed.

Lemma ids_put w sb f cnt sb0 :
  ids (World cnt (devpts_mnt w) (<[sb := f]> (sbs w))) sb0 = if decide (sb = sb0) then allocated_ptys f else ids w sb0.
Proof. unfold ids. cbn. destruct (decide (sb = sb0)) as [->|]; by simplify_map_eq. Qed.

Lemma nodes_put w sb f cnt sb0 :
  nodes (World cnt (devpts_mnt w) (<[sb := f]> (sbs w))) sb0 = if decide (sb = sb0) then root f else nodes w sb0.
Proof. unfold nodes. cbn. destruct (decide (sb = sb0)) as [->|]; by simplify_map_eq. Qed.

Lemma ids_at w sb f : sbs w !! sb = Some f -> ids w sb = allocated_ptys f.
Proof. unfold ids. by intros ->. Qed.

Lemma nodes_at w sb f : sbs w !! sb = Some f -> nodes w sb = root f.
Proof. unfold nodes. by intros ->. Qed.

Section Contents.
Context (multi : bool).

(** A client moves and keeps its index and node. *)
Lemma content_swap w cs i c c' :
  content multi w cs -> cs !! i = Some c -> index_of c' = index_of c -> node_of c' = node_of c ->
  content multi w (<[i := c']> cs).
Proof.
  intros [Hm Hi Hn Hna Hr Ho Hd Hc Hk] Hl Ei En. split; try done.
  - intros sb idx. rewrite (sum_of_insert _ _ _ _ _ Hl), <- Hi. unfold owns. rewrite Ei. lia.
  - intros sb idx ino Hx. rewrite (sum_of_insert _ _ _ _ _ Hl), <- Hn by done. unfold opens. rewrite En. lia.
  - intros j sb idx ino [(-> & E & _)|[_ Hj]]%list_lookup_insert_Some; [|by eapply Hd].
    subst c'. destruct c; cbn in En; simplify_eq. by eapply Hd.
  - rewrite (sum_of_insert _ _ _ _ _ Hl), <- Hc. unfold indexed. rewrite Ei. lia.
Qed.

(** A client moves and changes the instance [f] of [sb] to [f']. *)
Lemma content_put w sb f f' cs i c c' cnt :
  content multi w cs -> sbs w !! sb = Some f -> cs !! i = Some c -> opts_ok multi (mount_opts f') ->
  (forall sb0 idx, owns sb0 idx c' - owns sb0 idx c =
     if decide (sb = sb0) then b2z (bool_decide (idx ∈ allocated_ptys f')) - b2z (bool_decide (idx ∈ allocated_ptys f)) else 0) ->
  (forall sb0 idx ino, in_range idx -> opens sb0 idx ino c' - opens sb0 idx ino c =
     if decide (sb = sb0) then b2z (bool_decide (root f' !! pty_name idx = Some ino))
                               - b2z (bool_decide (root f !! pty_name idx = Some ino)) else 0) ->
  (forall name, is_Some (root f' !! name) ->
     is_Some (root f !! name) \/ name = ptmx_name \/ exists idx, in_range idx /\ name = pty_name idx) ->
  (forall idx, idx ∈ allocated_ptys f' -> idx ∈ allocated_ptys f \/ in_range idx) ->
  (forall sb idx ino, c' = Open sb idx ino -> i_rdev ino <> MKDEV TTYAUX_MAJOR PTMX_MINOR) ->
  cnt = pty_count w - indexed c + indexed c' ->
  counts (World cnt (devpts_mnt w) (<[sb := f']> (sbs w))) ->
  content multi (World cnt (devpts_mnt w) (<[sb := f']> (sbs w))) (<[i := c']> cs).
Proof.
  intros [Hm Hi Hn Hna Hr Ho Hd Hc _] Hf Hl Hopts Hown Hopen Hnames Hrange Hrdev -> Hk. split; try done.
  - intros sb0 idx. rewrite (sum_of_insert _ _ _ _ _ Hl), ids_put, Hi. specialize (Hown sb0 idx).
    destruct (decide (sb = sb0)) as [<-|]; [|lia]. rewrite (ids_at _ _ _ Hf) in *. lia.
  - intros sb0 idx ino Hx. rewrite (sum_of_insert _ _ _ _ _ Hl), nodes_put, Hn by done. specialize (Hopen sb0 idx ino Hx).
    destruct (decide (sb = sb0)) as [<-|]; [|lia]. rewrite (nodes_at _ _ _ Hf) in *. lia.
  - intros sb0 name. rewrite nodes_put. destruct (decide (sb = sb0)) as [<-|]; [|apply Hna].
    intros H. destruct (Hnames name H) as [H'|H']; [|done]. apply (Hna sb). by rewrite (nodes_at _ _ _ Hf).
  - intros sb0 idx. rewrite ids_put. destruct (decide (sb = sb0)) as [<-|]; [|apply Hr].
    intros H. destruct (Hrange idx H) as [H'|H']; [|done]. apply (Hr sb). by rewrite (ids_at _ _ _ Hf).
  - intros sb0 f0. cbn. intros [(<- & <-)|[_ H]]%lookup_insert_Some; [done|by eapply Ho].
  - intros j sb0 idx ino [(-> & E & _)|[_ Hj]]%list_lookup_insert_Some; [|by eapply Hd].
    by eapply Hrdev.
  - cbn. rewrite (sum_of_insert _ _ _ _ _ Hl), <- Hc. done.
Qed.

(** A change of an instance that keeps indexes and terminal nodes: mount,
    remount. *)
Lemma content_same w sb f' cs :
  content multi w cs -> opts_ok multi (mount_opts f') -> allocated_ptys f' = ids w sb ->
  (forall name, name <> ptmx_name -> root f' !! name = nodes w sb !! name) ->
  counts (put w sb f') -> content multi (put w sb f') cs.
Proof.
  intros [Hm Hi Hn Hna Hr Ho Hd Hc _] Hopts Hids Hnodes Hk. unfold put in *. split; try done.
  - intros sb0 idx. rewrite ids_put, Hi. destruct (decide (sb = sb0)) as [<-|]; [by rewrite Hids|done].
  - intros sb0 idx ino Hx. rewrite nodes_put, Hn by done. destruct (decide (sb = sb0)) as [<-|]; [|done].
    by rewrite Hnodes by (by apply pty_name_not_ptmx).
  - intros sb0 name. rewrite nodes_put. destruct (decide (sb = sb0)) as [<-|]; [|apply Hna].
    destruct (decide (name = ptmx_name)); [by left|]. rewrite Hnodes by done. apply Hna.
  - intros sb0 idx. rewrite ids_put. destruct (decide (sb = sb0)) as [<-|]; [|apply Hr]. rewrite Hids. apply Hr.
  - intros sb0 f0. cbn. intros [(<- & <-)|[_ H]]%lookup_insert_Some; [done|by eapply Ho].
Qed.

(** Nobody holds [sb]: it has no index and no terminal node. *)
Lemma content_unused w cs sb :
  content multi w cs -> sum_of (holds sb) cs = 0 ->
  ids w sb = ∅ /\ forall name, is_Some (nodes w sb !! name) -> name = ptmx_name.
Proof.
  intros Hc Hh. assert (forall idx, sum_of (owns sb idx) cs = 0) as Ho.
  { intros idx. pose proof (sum_of_mono (owns sb idx) (holds sb) cs (owns_holds sb idx)).
    pose proof (sum_of_nonneg (owns sb idx) cs ltac:(intros; apply b2z_nonneg)). lia. }
  split.
  - apply set_eq. intros idx. rewrite elem_of_empty. pose proof (cn_ids _ _ _ Hc sb idx) as E.
    rewrite Ho in E. case_bool_decide; cbn in E; [lia|done].
  - intros name [ino Hn]. destruct (cn_names _ _ _ Hc sb name) as [?|(idx & Hx & ->)]; [by eexists|done|].
    pose proof (cn_nodes _ _ _ Hc sb idx ino Hx) as E. rewrite bool_decide_eq_true_2 in E by done.
    pose proof (sum_of_mono (opens sb idx ino) (owns sb idx) cs (opens_owns sb idx ino)). rewrite Ho in *. cbn in E. lia.
Qed.

Lemma total_ptys_delete m sb f : m !! sb = Some f -> total_ptys (delete sb m) = total_ptys m - ptys f.
Proof.
  intros Hm. unfold total_ptys.
  rewrite (map_fold_delete_L (fun _ f n => ptys f + n) 0 sb f m); [lia|intros; lia|done].
Qed.

Lemma content_kill w cs sb f :
  content multi w cs -> sbs w !! sb = Some f -> sum_of (holds sb) cs = 0 ->
  content multi (World (pty_count w) (devpts_mnt w) (delete sb (sbs w))) cs.
Proof.
  intros Hc Hf Hh. destruct (content_unused w cs sb Hc Hh) as [Hids Hnd]. destruct Hc as [Hm Hi Hn Hna Hr Ho Hd Hc [Ht Hl]].
  set (w' := World _ _ _).
  assert (forall sb0, ids w' sb0 = ids w sb0) as Ei.
  { intros sb0. destruct (decide (sb0 = sb)) as [->|]; unfold ids at 1; cbn; simplify_map_eq; done. }
  assert (forall sb0 name, nodes w' sb0 !! name = if decide (sb0 = sb) then None else nodes w sb0 !! name) as En.
  { intros sb0 name. destruct (decide (sb0 = sb)) as [->|]; unfold nodes at 1; cbn; simplify_map_eq; done. }
  split; try done.
  - intros. by rewrite Ei.
  - intros sb0 idx ino Hx. rewrite En. destruct (decide (sb0 = sb)) as [->|]; [|by apply Hn].
    rewrite Hn by done. destruct (nodes w sb !! pty_name idx) as [x|] eqn:E; [|done].
    by destruct (pty_name_not_ptmx idx Hx); apply Hnd; eexists.
  - intros sb0 name. rewrite En. destruct (decide (sb0 = sb)); [by intros []|apply Hna].
  - intros sb0 idx. rewrite Ei. apply Hr.
  - intros sb0 f0. cbn. intros [_ H]%lookup_delete_Some. by eapply Ho.
  - split; [|done]. cbn. rewrite (total_ptys_delete _ _ f) by done. rewrite (ids_at _ _ _ Hf) in Hids.
    unfold ptys. rewrite Hids, size_empty. lia.
Qed.

End Contents.

Section Counts.

Lemma refs_range m cs sb : 0 <= refs m cs sb <= 1 + zlen cs.
Proof.
  unfold refs. pose proof (sum_of_nonneg (holds sb) cs (holds_nonneg sb)).
  pose proof (sum_of_zlen (holds sb) cs ltac:(intros; unfold holds; case_bool_decide; cbn; lia)).
  case_bool_decide; cbn; lia.
Qed.

Lemma refs_mounted m cs sb : sb ∈ m -> 0 < refs m cs sb.
Proof.
  intros H. unfold refs. rewrite bool_decide_eq_true_2 by done.
  pose proof (sum_of_nonneg (holds sb) cs (holds_nonneg sb)). cbn. lia.
Qed.

Lemma refs_held m cs i c sb : cs !! i = Some c -> ref_of c = Some sb -> 0 < refs m cs sb.
Proof.
  intros Hi Hr. unfold refs. pose proof (sum_of_bound (holds sb) cs i c (holds_nonneg sb) Hi) as Hb.
  unfold holds in Hb at 2. rewrite bool_decide_eq_true_2 in Hb by done.
  pose proof (b2z_nonneg (bool_decide (sb ∈ m))). cbn in Hb. lia.
Qed.

Lemma refs_insert m cs i c c' sb :
  cs !! i = Some c -> refs m (<[i := c']> cs) sb = refs m cs sb - holds sb c + holds sb c'.
Proof. intros Hi. unfold refs. rewrite (sum_of_insert _ _ _ _ _ Hi). lia. Qed.

Lemma refs_add m cs sb sb0 :
  sb ∉ m -> refs ({[sb]} ∪ m) cs sb0 = refs m cs sb0 + (if decide (sb0 = sb) then 1 else 0).
Proof.
  intros Hm. unfold refs. destruct (decide (sb0 = sb)) as [->|Hn].
  - rewrite bool_decide_eq_true_2, bool_decide_eq_false_2 by set_solver. cbn. lia.
  - rewrite (bool_decide_ext (sb0 ∈ {[sb]} ∪ m) (sb0 ∈ m)) by set_solver. lia.
Qed.

Lemma refs_remove m cs sb sb0 :
  sb ∈ m -> refs (m ∖ {[sb]}) cs sb0 = refs m cs sb0 - (if decide (sb0 = sb) then 1 else 0).
Proof.
  intros Hm. unfold refs. destruct (decide (sb0 = sb)) as [->|Hn].
  - rewrite bool_decide_eq_false_2, bool_decide_eq_true_2 by set_solver. cbn. lia.
  - rewrite (bool_decide_ext (sb0 ∈ m ∖ {[sb]}) (sb0 ∈ m)) by set_solver. lia.
Qed.

Lemma counted_live p m cs sb : counted p m cs -> 0 < refs m cs sb ->
  s_active p !! sb = Some (refs m cs sb) /\ exists f, sbs (wd p) !! sb = Some f.
Proof.
  intros [Ha Hs _] H. rewrite Ha, decide_False by lia. split; [done|]. apply Hs. lia.
Qed.

(** The file system changes within the instances it has, a client keeps its
    reference. *)
Lemma counted_same p m cs w cs' :
  counted p m cs -> (forall sb, is_Some (sbs w !! sb) <-> is_Some (sbs (wd p) !! sb)) ->
  length cs' = length cs -> (forall sb, refs m cs' sb = refs m cs sb) ->
  counted (Fs w (s_active p)) m cs'.
Proof.
  intros [Ha Hs Hf] Hw Hl Hr. split; cbn; [|intros sb; rewrite Hw|unfold zlen in *; by rewrite Hl]; intros; rewrite ?Hr; auto.
Qed.

Lemma is_Some_put (m : gmap Z pts_fs_info) sb f f' sb0 :
  m !! sb = Some f -> is_Some (<[sb := f']> m !! sb0) <-> is_Some (m !! sb0).
Proof. intros Hf. destruct (decide (sb = sb0)) as [<-|]; simplify_map_eq; [by split; eexists|done]. Qed.

(** One reference less: the super block survives, or was the last. *)
Lemma counted_drop p m cs m' cs' sb :
  counted p m cs -> 0 < refs m cs sb -> length cs' = length cs ->
  (forall sb0, refs m' cs' sb0 = refs m cs sb0 - (if decide (sb0 = sb) then 1 else 0)) ->
  exists p', deactivate_super p sb = Some p' /\ counted p' m' cs' /\
    (wd p' = wd p \/ refs m' cs' sb = 0 /\ wd p' = World (pty_count (wd p)) (devpts_mnt (wd p)) (delete sb (sbs (wd p)))).
Proof.
  intros Hc Hp Hl Hr. destruct (counted_live _ _ _ _ Hc Hp) as [Hact [f Hf]]. pose proof Hc as [Ha Hs Hfew].
  unfold deactivate_super. rewrite Hact. cbn -[Z.sub Z.pow]. pose proof (refs_range m cs sb) as Hrg.
  assert (zlen cs' = zlen cs) as Hz by (unfold zlen; by rewrite Hl).
  destruct (Z.eqb_spec (refs m cs sb) 1) as [E1|E1].
  - rewrite bool_decide_eq_true_2 by (by eexists). cbn. eexists. split; [done|]. cbn.
    split; [|right; split; [rewrite Hr, decide_True by done; lia|done]]. split; cbn; [| |by rewrite Hz].
    + intros sb0. rewrite Hr. destruct (decide (sb0 = sb)) as [->|]; simplify_map_eq; [by rewrite decide_True by lia|].
      by rewrite Z.sub_0_r.
    + intros sb0. rewrite Hr. destruct (decide (sb0 = sb)) as [->|]; simplify_map_eq; [split; [by intros []|lia]|].
      rewrite Z.sub_0_r. apply Hs.
  - eexists. split; [done|]. cbn -[Z.sub Z.pow]. split; [|by left]. split; cbn -[Z.sub Z.pow]; [| |by rewrite Hz].
    + intros sb0. rewrite Hr. destruct (decide (sb0 = sb)) as [->|]; simplify_map_eq.
      * rewrite decide_False by lia. by rewrite s32_small by lia.
      * by rewrite Z.sub_0_r.
    + intros sb0. rewrite Hr. destruct (decide (sb0 = sb)) as [->|]; [|rewrite Z.sub_0_r; apply Hs].
      rewrite Hs. split; intros; lia.
Qed.

(** One reference more, to a live or to a new super block. *)
Lemma counted_take p m cs m' cs' w sb :
  counted p m cs -> length cs' = length cs ->
  (forall sb0, refs m' cs' sb0 = refs m cs sb0 + (if decide (sb0 = sb) then 1 else 0)) ->
  (forall sb0, is_Some (sbs w !! sb0) <-> sb0 = sb \/ is_Some (sbs (wd p) !! sb0)) ->
  counted (Fs w (<[sb := s32 (default 0 (s_active p !! sb) + 1)]> (s_active p))) m' cs'.
Proof.
  intros [Ha Hs Hfew] Hl Hr Hw. pose proof (refs_range m cs sb) as Hrg.
  assert (zlen cs' = zlen cs) as Hz by (unfold zlen; by rewrite Hl).
  assert (default 0 (s_active p !! sb) = refs m cs sb) as -> by (rewrite Ha; destruct (decide _); cbn; lia).
  split; cbn -[Z.pow]; [| |by rewrite Hz].
  - intros sb0. rewrite Hr. destruct (decide (sb0 = sb)) as [->|]; simplify_map_eq.
    + pose proof (refs_range m' cs' sb) as Hrg'. rewrite Hr, decide_True in Hrg' by done.
      rewrite decide_False by lia. by rewrite s32_small by lia.
    + by rewrite Z.add_0_r.
  - intros sb0. rewrite Hr, Hw, Hs. destruct (decide (sb0 = sb)) as [->|].
    + pose proof (refs_range m cs sb). split; [lia|by left].
    + rewrite Z.add_0_r. naive_solver.
Qed.

End Counts.

Record life_inv (multi : bool) (p : fs) (m : gset Z) (cs : list client) : Prop := {
  li_counted : counted p m cs;
  li_content : content multi (wd p) cs
}.

Section Mounting.
Context (multi : bool).
Context (match_token : list Z -> token) (match_int match_octal : list Z -> option Z).
Context (make_kuid make_kgid : Z -> option Z).

#[local] Abbreviation mount := (devpts_mount multi match_token match_int match_octal make_kuid make_kgid).
#[local] Abbreviation mount_fs := (mount_fs multi match_token match_int match_octal make_kuid make_kgid).
#[local] Abbreviation remount_fs := (remount_fs multi match_token match_int match_octal make_kuid make_kgid).

(** *** Mounting *)
Lemma mknod_ptmx_keeps f a b :
  let '(f', err) := mknod_ptmx make_kuid make_kgid f a b in
  allocated_ptys f' = allocated_ptys f /\ mount_opts f' = mount_opts f /\
  forall name, name <> ptmx_name -> root f' !! name = root f !! name.
Proof.
  unfold mknod_ptmx. repeat case_match; simplify_eq; cbn; (split; [done|]; split; [done|]); try done.
  intros name Hn. by rewrite lookup_insert_ne.
Qed.

Lemma mount_spec w e data o0 :
  devpts_mnt w = None -> fsi_ok e = true -> sbs w !! fresh_sb e = None ->
  match mount w e data o0 with
  | Mounted w' s => s = fresh_sb e /\ exists f, w' = put w s f /\ allocated_ptys f = ∅ /\ opts_ok multi (mount_opts f) /\
      forall name, name <> ptmx_name -> root f !! name = None
  | Failed w' _ => w' = w
  | Oopsed => False
  end.
Proof.
  intros Hm Hok Hnew. assert (forall f, World (pty_count w) (devpts_mnt w) (delete (fresh_sb e) (<[fresh_sb e := f]> (sbs w))) = w) as Hdel.
  { intros f. destruct w. cbn in *. by rewrite delete_insert_id. }
  assert (World (pty_count w) (devpts_mnt w) (delete (fresh_sb e) (sbs w)) = w) as Hdel0.
  { destruct w. cbn in *. by rewrite delete_id. }
  unfold devpts_mount. pose proof (devpts_options_in_range multi match_token match_int match_octal make_kuid make_kgid data PARSE_MOUNT o0) as Ho.
  destruct (parse_mount_options _ _ _ _ _ _ data PARSE_MOUNT o0) as [opts err]. destruct Ho as [Ho _].
  destruct (c_true err); [done|]. destruct (negb (init_ns e) && _); [done|]. destruct (negb (sget_ok e)); [done|].
  assert (sget w (if newinstance opts then None else Some (compare_init_pts_sb w)) (fresh_sb e) = fresh_sb e) as ->.
  { unfold sget, compare_init_pts_sb. rewrite Hm. destruct (newinstance opts); [done|].
    destruct (list_find _ _) as [[k s0]|] eqn:E; [|done]. by apply list_find_Some in E as (_ & ? & _). }
  rewrite Hnew. unfold devpts_fill_super. rewrite Hok. cbn [negb].
  destruct (inode_ok e); cbn [negb]; [|by cbn]. destruct (root_ok e); [|by cbn].
  pose proof (mknod_ptmx_keeps (set_opts new_pts_fs_info opts) (dentry_ok e) (inode2_ok e)) as Hk.
  destruct (mknod_ptmx _ _ _ _ _) as [f' err']. destruct Hk as (Ka & Ko & Kr).
  destruct (c_true err'); cbn; [by rewrite Hdel|]. split; [done|]. exists f'. split; [done|]. rewrite Ka, Ko. split; [done|]. split; [done|].
  intros name Hn. by rewrite Kr.
Qed.

Lemma inv_mount p m cs e data o0 p' r :
  life_inv multi p m cs -> fsi_ok e = true -> s_active p !! fresh_sb e = None -> mount_fs p e data o0 = Some (p', r) ->
  life_inv multi p' (match r with inl sb => {[sb]} ∪ m | inr _ => m end) cs.
Proof.
  intros [Hct Hcn] Hok Hnew Hm.
  assert (refs m cs (fresh_sb e) = 0) as Hz.
  { pose proof (ct_active _ _ _ Hct (fresh_sb e)) as Ha. rewrite Hnew in Ha. by destruct (decide _). }
  assert (sbs (wd p) !! fresh_sb e = None) as Hs.
  { apply eq_None_not_Some. rewrite (ct_sbs _ _ _ Hct). lia. }
  unfold DevptsLife.mount_fs in Hm. pose proof (mount_spec (wd p) e data o0 (cn_mnt _ _ _ Hcn) Hok Hs) as Hsp.
  destruct (mount (wd p) e data o0) as [w' s|w' err|]; [| |done].
  - destruct Hsp as (-> & f & -> & Hal & Ho & Hr). injection Hm as <- <-.
    assert (fresh_sb e ∉ m) as Hnm by (intros H; pose proof (refs_mounted m cs _ H); lia).
    split.
    + eapply counted_take; [done|done|intros; by apply refs_add|]. intros sb0. cbn.
      destruct (decide (fresh_sb e = sb0)) as [<-|]; simplify_map_eq; naive_solver.
    + cbn. apply content_same; [done|done| | |].
      * rewrite Hal. unfold ids. by rewrite Hs.
      * intros name Hn. rewrite Hr by done. unfold nodes. by rewrite Hs.
      * destruct (cn_counts _ _ _ Hcn) as [Ht Hl]. split; [|done]. cbn. rewrite Ht. unfold total_ptys.
        rewrite map_fold_insert_L by (done || (intros; lia)). unfold ptys. rewrite Hal, size_empty. lia.
  - subst w'. injection Hm as <- <-. by destruct p.
Qed.

Lemma inv_remount p m cs sb data p' err :
  life_inv multi p m cs -> remount_fs p sb data = Some (p', err) -> life_inv multi p' m cs.
Proof.
  intros [Hct Hcn] Hr. unfold DevptsLife.remount_fs in Hr. destruct (sbs (wd p) !! sb) as [f|] eqn:Hf; [|done]. cbn in Hr.
  unfold devpts_remount in Hr. pose proof (devpts_options_in_range multi match_token match_int match_octal make_kuid make_kgid data PARSE_REMOUNT (mount_opts f)) as Ho.
  destruct (parse_mount_options _ _ _ _ _ _ data PARSE_REMOUNT (mount_opts f)) as [o er]. destruct Ho as [Ho _]. injection Hr as <- <-.
  set (f' := update_ptmx_mode multi (set_opts f o)).
  assert (allocated_ptys f' = allocated_ptys f /\ mount_opts f' = o /\
          forall name, name <> ptmx_name -> root f' !! name = root f !! name) as (Ka & Ko & Kr).
  { unfold f', update_ptmx_mode. case_match; cbn; (split; [done|]; split; [done|]); [|done].
    intros name Hn. by rewrite lookup_alter_ne. }
  split.
  - eapply counted_same; [done| |done|done]. intros sb0. cbn. by apply (is_Some_put _ _ f).
  - cbn. apply content_same; [done|by rewrite Ko|by rewrite Ka, (ids_at _ _ _ Hf)| |].
    + intros name Hn. by rewrite Kr, (nodes_at _ _ _ Hf).
    + destruct (cn_counts _ _ _ Hcn) as [Ht Hl]. split; [|done]. cbn. rewrite (total_ptys_put _ _ f) by done.
      unfold ptys. rewrite Ka. lia.
Qed.

End Mounting.

Section Calls.
Context (multi : bool) (ida_new : gset Z -> Z).
Context (ida_fresh : forall s, (ida_new s ∉ s) /\ 0 <= ida_new s).

#[local] Abbreviation client_do := (client_do multi ida_new).

(** *** Dropping a reference: unmount and [devpts_put_ref] *)
Lemma inv_drop p m cs m' cs' sb :
  life_inv multi p m cs -> 0 < refs m cs sb -> length cs' = length cs -> content multi (wd p) cs' ->
  (forall sb0, refs m' cs' sb0 = refs m cs sb0 - (if decide (sb0 = sb) then 1 else 0)) ->
  exists p', deactivate_super p sb = Some p' /\ life_inv multi p' m' cs'.
Proof.
  intros [Hct _] Hp Hl Hcn Hr. destruct (counted_live _ _ _ _ Hct Hp) as [_ [f Hf]].
  destruct (counted_drop p m cs m' cs' sb Hct Hp Hl Hr) as (p' & -> & Hct' & Hw).
  exists p'. split; [done|]. split; [done|]. destruct Hw as [->|[Hz ->]]; [done|].
  apply (content_kill _ _ _ _ f); [done|done|]. unfold refs in Hz.
  pose proof (sum_of_nonneg (holds sb) cs' (holds_nonneg sb)). pose proof (b2z_nonneg (bool_decide (sb ∈ m'))). lia.
Qed.

(** *** The calls of a client *)

(** Multiplicities of what a client holds. *)
Ltac mult := unfold owns, opens; cbn [index_of node_of]; repeat case_bool_decide; repeat case_decide; simplify_eq; cbn [b2z]; try lia; try set_solver.

(** A call that changes instance [f] of a client that holds [sb] and keeps it. *)
Lemma inv_put p m cs sb f f' cnt i c c' :
  life_inv multi p m cs -> cs !! i = Some c -> sbs (wd p) !! sb = Some f -> ref_of c' = ref_of c ->
  content multi (World cnt (devpts_mnt (wd p)) (<[sb := f']> (sbs (wd p)))) (<[i := c']> cs) ->
  life_inv multi (Fs (World cnt (devpts_mnt (wd p)) (<[sb := f']> (sbs (wd p)))) (s_active p)) m (<[i := c']> cs).
Proof.
  intros [Hct Hcn] Hi Hf Hr Hc. split; [|done]. eapply counted_same; [done| |apply length_insert|].
  - intros sb0. by apply (is_Some_put _ _ f).
  - intros sb0. rewrite (refs_insert _ _ _ _ _ _ Hi). unfold holds. rewrite Hr. lia.
Qed.

(** The client's instance is live. *)
Lemma inv_held p m cs i c sb :
  life_inv multi p m cs -> cs !! i = Some c -> ref_of c = Some sb -> exists f, sbs (wd p) !! sb = Some f.
Proof.
  intros [Hct _] Hi Hr. pose proof (refs_held m cs i c sb Hi Hr). by destruct (counted_live _ _ _ _ Hct H).
Qed.

(** The client's index is allocated and in range, its node is there. *)
Lemma inv_owned p m cs i c sb idx f :
  life_inv multi p m cs -> cs !! i = Some c -> index_of c = Some (sb, idx) -> sbs (wd p) !! sb = Some f ->
  idx ∈ allocated_ptys f /\ in_range idx /\
  forall ino, root f !! pty_name idx = Some ino -> 0 < sum_of (opens sb idx ino) cs.
Proof.
  intros [_ Hcn] Hi Hx Hf. pose proof (sum_of_bound (owns sb idx) cs i c ltac:(intros; apply b2z_nonneg) Hi) as Hb.
  unfold owns in Hb at 2. rewrite bool_decide_eq_true_2, (cn_ids _ _ _ Hcn) in Hb by done.
  case_bool_decide as Hin; cbn in Hb; [|lia]. rewrite (ids_at _ _ _ Hf) in Hin. split; [done|].
  assert (in_range idx) as Hr by (apply (cn_range _ _ _ Hcn sb); by rewrite (ids_at _ _ _ Hf)). split; [done|].
  intros ino Hn. rewrite (cn_nodes _ _ _ Hcn) by done. rewrite (nodes_at _ _ _ Hf), bool_decide_eq_true_2 by done. cbn. lia.
Qed.

Lemma inv_get_ref p m cs i i_sb s_magic :
  life_inv multi p m cs -> cs !! i = Some Idle -> (s_magic = DEVPTS_SUPER_MAGIC -> i_sb ∈ m) ->
  exists p' c', client_do (AGetRef i_sb s_magic) Idle p = Some (p', c') /\ life_inv multi p' m (<[i := c']> cs).
Proof.
  intros Hinv Hi Hl. pose proof Hinv as [Hct Hcn]. cbn. unfold devpts_get_ref, pts_sb_from_inode.
  rewrite (cn_mnt _ _ _ Hcn). destruct (multi && (s_magic =? DEVPTS_SUPER_MAGIC)) eqn:Em; cbn -[Z.add s32].
  - zbool. pose proof (refs_mounted m cs i_sb (Hl ltac:(done))) as Hp.
    destruct (counted_live _ _ _ _ Hct Hp) as [Ha [f Hf]]. rewrite Ha. cbn -[Z.add s32]. rewrite Hf. cbn -[Z.add s32].
    do 2 eexists. split; [done|]. split; cbn -[Z.add s32].
    + assert (refs m cs i_sb = default 0 (s_active p !! i_sb)) as -> by (by rewrite Ha).
      eapply counted_take; [done|apply length_insert| |].
      * intros sb0. rewrite (refs_insert _ _ _ _ _ _ Hi). unfold holds; cbn [ref_of].
        repeat case_bool_decide; case_decide; simplify_eq; cbn; lia.
      * intros sb0. split; [by right|]. intros [->|?]; [by eexists|done].
    + by eapply content_swap.
  - do 2 eexists. split; [done|]. by rewrite list_insert_id.
Qed.

Lemma inv_put_ref p m cs i sb :
  life_inv multi p m cs -> cs !! i = Some (HasRef sb) ->
  exists p', client_do APutRef (HasRef sb) p = Some (p', Idle) /\ life_inv multi p' m (<[i := Idle]> cs).
Proof.
  intros Hinv Hi. destruct (inv_drop p m cs m (<[i := Idle]> cs) sb Hinv) as (p' & Hd & Hinv').
  - by eapply refs_held.
  - apply length_insert.
  - eapply content_swap; [apply Hinv|done..].
  - intros sb0. rewrite (refs_insert _ _ _ _ _ _ Hi). unfold holds; cbn [ref_of].
    repeat case_bool_decide; case_decide; simplify_eq; cbn; lia.
  - exists p'. cbn. unfold devpts_put_ref. by rewrite Hd.
Qed.

Lemma inv_new_index p m cs i sb env :
  life_inv multi p m cs -> cs !! i = Some (HasRef sb) -> Exists (fun r => snd r <> Some (- EAGAIN)) env ->
  exists p' c', client_do (ANewIndex env) (HasRef sb) p = Some (p', c') /\ life_inv multi p' m (<[i := c']> cs).
Proof.
  intros Hinv Hi He. pose proof Hinv as [Hct Hcn]. destruct (inv_held p m cs i _ sb Hinv Hi eq_refl) as [f Hf].
  destruct (new_index_ends ida_new (wd p) sb f env He) as [[w ret] Hn].
  unfold DevptsLife.client_do. rewrite Hf. cbn [mbind option_bind]. rewrite Hn. cbn [mbind option_bind].
  do 2 eexists. split; [done|].
  destruct (new_index_spec ida_new ida_fresh _ _ _ _ _ _ (cn_counts _ _ _ Hcn) Hf Hn) as [[-> Hneg]|(Hfr & Hr & Hlt & Hcnt & Hsb)].
  - rewrite (proj2 (Z.ltb_lt ret 0)) by done. rewrite list_insert_id by done. by destruct p.
  - rewrite (proj2 (Z.ltb_ge ret 0)) by lia.
    assert (counts w) as Hk by (eapply (pty_step_counts ida_new ida_fresh); [apply Hcn|by eapply pty_open]).
    assert (devpts_mnt w = devpts_mnt (wd p)) as Hmnt.
    { clear -Hn. cbn [devpts_new_index] in Hn. induction env as [|[pre er] env IH]; [done|]. cbn [new_index_retry] in Hn.
      repeat (case_match; try done); simplify_eq; try done; auto. }
    destruct w as [cnt mnt sbs']; cbn in *; subst.
    eapply inv_put; [done|done|done|done|]. pose proof (cn_opts _ _ _ Hcn _ _ Hf) as Ho.
    eapply content_put; try done; cbn.
    + intros sb0 idx. mult.
    + intros sb0 idx' ino _. rewrite !opens_none by done. case_decide; lia.
    + intros name H. by left.
    + intros idx [->%elem_of_singleton|?]%elem_of_union; [|by left]. right. pose proof (ok_max _ _ Ho). split; lia.
    + lia.
Qed.

Lemma inv_kill_index p m cs i sb idx :
  life_inv multi p m cs -> cs !! i = Some (HasIndex sb idx) ->
  exists p', client_do AKillIndex (HasIndex sb idx) p = Some (p', HasRef sb) /\ life_inv multi p' m (<[i := HasRef sb]> cs).
Proof.
  intros Hinv Hi. pose proof Hinv as [Hct Hcn]. destruct (inv_held p m cs i _ sb Hinv Hi eq_refl) as [f Hf].
  destruct (inv_owned p m cs i _ sb idx f Hinv Hi eq_refl Hf) as (Hin & Hx & _).
  cbn. rewrite Hf. cbn. eexists. split; [done|]. unfold devpts_kill_index.
  assert (counts (devpts_kill_index (wd p) sb f idx)) as Hk
    by (eapply (pty_step_counts ida_new ida_fresh); [apply Hcn|by apply pty_close]).
  eapply inv_put; [done|done|done|done|]. pose proof (cn_opts _ _ _ Hcn _ _ Hf) as Ho.
  eapply content_put; try done; cbn -[s32].
  - intros sb0 idx0. mult.
  - intros sb0 idx0 ino _. rewrite !opens_none by done. case_decide; lia.
  - intros name H. by left.
  - intros idx0 H. left. set_solver.
  - destruct (cn_counts _ _ _ Hcn) as [Ht Hl]. pose proof (sum_of_bound indexed cs i _ ltac:(intros []; cbn; lia) Hi) as Hb.
    rewrite <- (cn_count _ _ _ Hcn) in Hb. cbn in Hb. rewrite s32_small; unfold pty_limit in *; lia.
Qed.

(** A client with an index and no node: the directory has no such name. *)
Lemma inv_no_node p m cs i sb idx f :
  life_inv multi p m cs -> cs !! i = Some (HasIndex sb idx) -> sbs (wd p) !! sb = Some f -> root f !! pty_name idx = None.
Proof.
  intros Hinv Hi Hf. destruct (inv_owned p m cs i _ sb idx f Hinv Hi eq_refl Hf) as (_ & _ & Hn).
  destruct (root f !! pty_name idx) as [ino|] eqn:E; [|done].
  destruct (sum_of_pos _ _ (Hn ino eq_refl)) as (j & c & Hj & Hc).
  unfold opens in Hc. case_bool_decide as Hc'; [|cbn in Hc; lia]. destruct c; cbn in Hc'; simplify_eq.
  pose proof (sum_of_two (owns sb idx) cs i j _ _ ltac:(intros; apply b2z_nonneg) Hi Hj ltac:(congruence)) as H2.
  rewrite (cn_ids _ _ _ (li_content _ _ _ _ Hinv)) in H2. unfold owns in H2.
  rewrite !(bool_decide_eq_true_2 (index_of _ = _)) in H2 by done. case_bool_decide; cbn in H2; lia.
Qed.

Lemma inv_pty_new p m cs i sb idx device priv fsuid fsgid iok dok :
  life_inv multi p m cs -> cs !! i = Some (HasIndex sb idx) -> device <> MKDEV TTYAUX_MAJOR PTMX_MINOR ->
  exists p' c', client_do (APtyNew device priv fsuid fsgid iok dok) (HasIndex sb idx) p = Some (p', c') /\
    life_inv multi p' m (<[i := c']> cs).
Proof.
  intros Hinv Hi Hd. pose proof Hinv as [Hct Hcn]. destruct (inv_held p m cs i _ sb Hinv Hi eq_refl) as [f Hf].
  destruct (inv_owned p m cs i _ sb idx f Hinv Hi eq_refl Hf) as (Hin & Hx & _).
  pose proof (inv_no_node p m cs i sb idx f Hinv Hi Hf) as Hno. pose proof (cn_opts _ _ _ Hcn _ _ Hf) as Ho.
  assert (put (wd p) sb f = wd p) as Hput by (unfold put; destruct (wd p); cbn in *; by rewrite insert_id).
  unfold DevptsLife.client_do, devpts_pty_new. rewrite Hf. cbn [mbind option_bind].
  destruct iok; cbn [negb]; [destruct dok|]; do 2 eexists; (split; [done|]);
    try by rewrite Hput, list_insert_id; [destruct p|done].
  unfold put. eapply inv_put; [done|done|done|done|]. eapply content_put; try done; cbn.
  - intros sb0 idx0. mult.
  - intros sb0 idx0 ino Hx0. destruct (decide (idx0 = idx)) as [->|Hne].
    + rewrite lookup_insert_eq, Hno. mult.
    + rewrite lookup_insert_ne by (intros E; by apply pty_name_inj in E). mult.
  - intros name [ino [(<- & _)|[_ H]]%lookup_insert_Some]; [|left; by eexists]. right. right. by exists idx.
  - intros idx0 H. by left.
  - intros sb0 idx0 ino [= <- <- <-]. done.
  - lia.
  - destruct (cn_counts _ _ _ Hcn) as [Ht Hl]. split; [|done]. cbn. rewrite (total_ptys_put _ _ f) by done. unfold ptys. cbn. lia.
Qed.

Lemma inv_pty_kill p m cs i sb idx ino :
  multi = true -> life_inv multi p m cs -> cs !! i = Some (Open sb idx ino) ->
  exists p', client_do APtyKill (Open sb idx ino) p = Some (p', HasIndex sb idx) /\ life_inv multi p' m (<[i := HasIndex sb idx]> cs).
Proof.
  intros Hmu Hinv Hi. pose proof Hinv as [Hct Hcn]. destruct (inv_held p m cs i _ sb Hinv Hi eq_refl) as [f Hf].
  destruct (inv_owned p m cs i _ sb idx f Hinv Hi eq_refl Hf) as (Hin & Hx & _). pose proof (cn_opts _ _ _ Hcn _ _ Hf) as Ho.
  assert (root f !! pty_name idx = Some ino) as Hnode.
  { pose proof (sum_of_bound (opens sb idx ino) cs i _ ltac:(intros; apply b2z_nonneg) Hi) as Hb.
    rewrite (cn_nodes _ _ _ Hcn), (nodes_at _ _ _ Hf) in Hb by done. unfold opens in Hb.
    rewrite bool_decide_eq_true_2 in Hb by done. case_bool_decide; [done|cbn in Hb; lia]. }
  assert (dev_eqb (i_rdev ino) (MKDEV TTYAUX_MAJOR PTMX_MINOR) = false) as Hrd.
  { destruct (dev_eqb _ _) eqn:E; [|done]. apply dev_eqb_eq in E. by destruct (cn_rdev _ _ _ Hcn _ _ _ _ Hi). }
  assert (pts_sb_from_inode multi (wd p) sb DEVPTS_SUPER_MAGIC = Some sb) as Hsb by (unfold pts_sb_from_inode; by rewrite Hmu, Z.eqb_refl).
  unfold DevptsLife.client_do. rewrite Hsb. cbn [mbind option_bind].
  unfold devpts_pty_kill. rewrite Hf. cbn [mbind option_bind]. rewrite Hrd, Hnode. cbn [mbind option_bind].
  eexists. split; [done|]. unfold put. eapply inv_put; [done|done|done|done|]. eapply content_put; try done; cbn.
  - intros sb0 idx0. mult.
  - intros sb0 idx0 ino0 Hx0. destruct (decide (idx0 = idx)) as [->|Hne].
    + rewrite lookup_delete_eq, Hnode. mult.
    + rewrite lookup_delete_ne by (intros E; by apply pty_name_inj in E). mult.
  - intros name [ino0 [_ H]%lookup_delete_Some]. left. by eexists.
  - intros idx0 H. by left.
  - lia.
  - destruct (cn_counts _ _ _ Hcn) as [Ht Hl]. split; [|done]. cbn. rewrite (total_ptys_put _ _ f) by done. unfold ptys. cbn. lia.
Qed.

(** A legal call of a client succeeds and keeps the invariant. *)
Lemma inv_client p m cs i c a :
  multi = true -> life_inv multi p m cs -> cs !! i = Some c -> legal m c a ->
  exists p' c', client_do a c p = Some (p', c') /\ life_inv multi p' m (<[i := c']> cs).
Proof.
  intros Hmu Hinv Hi Hl. destruct c as [|sb|sb idx|sb idx ino], a; try done; cbn [legal] in Hl.
  - by apply inv_get_ref.
  - by apply inv_new_index.
  - destruct (inv_put_ref p m cs i sb Hinv Hi) as (p' & H); by eauto.
  - by apply inv_pty_new.
  - destruct (inv_kill_index p m cs i sb idx Hinv Hi) as (p' & H); by eauto.
  - destruct (inv_pty_kill p m cs i sb idx ino Hmu Hinv Hi) as (p' & H); by eauto.
Qed.

Lemma inv_umount p m cs sb :
  life_inv multi p m cs -> sb ∈ m -> exists p', deactivate_super p sb = Some p' /\ life_inv multi p' (m ∖ {[sb]}) cs.
Proof.
  intros Hinv Hs. apply (inv_drop p m cs); [done|by apply refs_mounted|done|apply Hinv|].
  intros sb0. by apply refs_remove.
Qed.

End Calls.

Lemma life_inv_init multi n :
  Z.of_nat n < 2 ^ 31 - 1 -> life_inv multi (Fs (World 0 None ∅) ∅) ∅ (replicate n Idle).
Proof.
  intros Hn. assert (forall f, f Idle = 0 -> sum_of f (replicate n Idle) = 0) as Hz.
  { intros f Hf. clear Hn. unfold sum_of. induction n as [|n IH]; cbn; lia. }
  split.
  - assert (forall sb, refs ∅ (replicate n Idle) sb = 0) as Hr.
    { intros sb. unfold refs. rewrite bool_decide_eq_false_2 by set_solver. by rewrite Hz. }
    split; intros; rewrite ?Hr; [done| |unfold zlen; by rewrite length_replicate]. split; [by intros []|done].
  - split; try done; cbn; intros.
    + by rewrite Hz.
    + by rewrite Hz.
    + unfold nodes in H; cbn in H. by destruct H.
    + apply lookup_replicate in H as [? _]. done.
    + by rewrite Hz.
Qed.

Lemma life_inv_step match_token match_int match_octal make_kuid make_kgid ida_new s s' :
  (forall s, (ida_new s ∉ s) /\ 0 <= ida_new s) ->
  life_inv true (pts s) (mounts s) (clients s) -> 
  life_step true match_token match_int match_octal make_kuid make_kgid ida_new s s' -> life_inv true (pts s') (mounts s') (clients s').
Proof.
  intros Hfresh Hinv Hs. destruct Hs as [s e data o0 p r Hok Hnew Hm|s sb data p err Hin Hr|s sb p Hin Hd|s i c a p c' Hi Hl Hd]; cbn.
  - by eapply inv_mount.
  - by eapply inv_remount.
  - destruct (inv_umount true _ _ _ _ Hinv Hin) as (p' & Hd' & Hinv'). by simplify_eq.
  - destruct (inv_client true ida_new Hfresh _ _ _ _ _ _ eq_refl Hinv Hi Hl) as (p' & c'' & Hd' & Hinv'). by simplify_eq.
Qed.


(** ** What the life of the instances guarantees *)
Definition life_init (n : nat) : sys := Sys (Fs (World 0 None ∅) ∅) ∅ (replicate n Idle).

Section Lifetime.
Context (match_token : list Z -> token) (match_int match_octal : list Z -> option Z).
Context (make_kuid make_kgid : Z -> option Z) (ida_new : gset Z -> Z).
Context (ida_fresh : forall s, (ida_new s ∉ s) /\ 0 <= ida_new s).

#[local] Abbreviation step := (life_step true match_token match_int match_octal make_kuid make_kgid ida_new).

Lemma sum_of_owner (P : client -> bool) cs :
  sum_of (fun c => b2z (P c)) cs <> 0 <-> exists i c, cs !! i = Some c /\ P c = true.
Proof.
  assert (forall c, 0 <= b2z (P c)) as Hp by (intros; apply b2z_nonneg). split.
  - intros H. pose proof (sum_of_nonneg (fun c => b2z (P c)) cs Hp).
    destruct (sum_of_pos (fun c => b2z (P c)) cs) as (i & c & Hi & Hc); [lia|].
    exists i, c. split; [done|]. destruct (P c); [done|cbn in Hc; lia].
  - intros (i & c & Hi & Hc). pose proof (sum_of_bound (fun c => b2z (P c)) cs i c Hp Hi) as Hb. cbn in Hb. rewrite Hc in Hb. cbn in Hb. lia.
Qed.

Lemma inv_index_owner p m cs sb f idx :
  life_inv true p m cs -> sbs (wd p) !! sb = Some f ->
  idx ∈ allocated_ptys f <-> exists i c, cs !! i = Some c /\ index_of c = Some (sb, idx).
Proof.
  intros [_ Hcn] Hf. pose proof (cn_ids _ _ _ Hcn sb idx) as E. rewrite (ids_at _ _ _ Hf) in E.
  transitivity (sum_of (owns sb idx) cs <> 0); [rewrite E; case_bool_decide; cbn; split; done || lia|].
  unfold owns. rewrite sum_of_owner. by setoid_rewrite bool_decide_eq_true.
Qed.

Lemma inv_node_owner p m cs sb f name ino :
  life_inv true p m cs -> sbs (wd p) !! sb = Some f -> name <> ptmx_name ->
  root f !! name = Some ino <-> exists i idx, cs !! i = Some (Open sb idx ino) /\ name = pty_name idx.
Proof.
  intros Hinv Hf Hn. pose proof Hinv as [_ Hcn].
  assert (forall idx, in_range idx -> root f !! pty_name idx = Some ino <-> exists i, cs !! i = Some (Open sb idx ino)) as H.
  { intros idx Hx. pose proof (cn_nodes _ _ _ Hcn sb idx ino Hx) as E. rewrite (nodes_at _ _ _ Hf) in E.
    transitivity (sum_of (opens sb idx ino) cs <> 0); [rewrite E; case_bool_decide; cbn; split; done || lia|].
    unfold opens. rewrite sum_of_owner. setoid_rewrite bool_decide_eq_true. split.
    - intros (i & c & Hi & Hc). exists i. destruct c; cbn in Hc; by simplify_eq.
    - intros (i & Hi). by exists i, (Open sb idx ino). }
  split.
  - intros Hr. destruct (cn_names _ _ _ Hcn sb name) as [?|(idx & Hx & ->)]; [rewrite (nodes_at _ _ _ Hf); by eexists|done|].
    apply H in Hr as (i & Hi); [|done]. by exists i, idx.
  - intros (i & idx & Hi & ->). destruct (inv_owned true p m cs i _ sb idx f Hinv Hi eq_refl Hf) as (_ & Hx & _).
    apply H; [done|by exists i].
Qed.

(** C9: With multiple instances configured: however mounts, remounts, unmounts and the calls of any number of
    callers interleave, no legal call and no unmount ever touches a freed
    instance or fails half-way; an instance exists exactly while it is mounted
    or some caller has a reference, so the last [devpts_put_ref] or unmount
    frees it; its allocated indexes are those the callers hold, each held by
    one of them, and its directory has, besides ptmx, exactly the nodes of the
    open ones; [pty_count] counts them all. *)
Theorem devpts_lifetime n s :
  Z.of_nat n < 2 ^ 31 - 1 -> star step (life_init n) s ->
  (forall i c a, clients s !! i = Some c -> legal (mounts s) c a -> is_Some (client_do true ida_new a c (pts s))) /\
  (forall sb, sb ∈ mounts s -> is_Some (deactivate_super (pts s) sb)) /\
  (forall sb, is_Some (sbs (wd (pts s)) !! sb) <->
     sb ∈ mounts s \/ exists i c, clients s !! i = Some c /\ ref_of c = Some sb) /\
  (forall sb f, sbs (wd (pts s)) !! sb = Some f ->
     (forall idx, idx ∈ allocated_ptys f <-> exists i c, clients s !! i = Some c /\ index_of c = Some (sb, idx)) /\
     (forall name ino, name <> ptmx_name ->
        root f !! name = Some ino <-> exists i idx, clients s !! i = Some (Open sb idx ino) /\ name = pty_name idx)) /\
  (forall i j ci cj sb idx, clients s !! i = Some ci -> clients s !! j = Some cj ->
     index_of ci = Some (sb, idx) -> index_of cj = Some (sb, idx) -> i = j) /\
  pty_count (wd (pts s)) = sum_of indexed (clients s).
Proof.
  intros Hn Hstar.
  assert (life_inv true (pts s) (mounts s) (clients s)) as Hinv.
  { apply (star_invariant step (fun s => life_inv true (pts s) (mounts s) (clients s)) (life_init n) s); [|by apply life_inv_init|exact Hstar].
    intros s1 s2 H1 H2. by eapply life_inv_step. }
  split; [|split; [|split; [|split; [|split]]]].
  - intros i c a Hi Hl. destruct (inv_client true ida_new ida_fresh _ _ _ _ _ _ eq_refl Hinv Hi Hl) as (p' & c' & -> & _). by eexists.
  - intros sb Hin. destruct (inv_umount true _ _ _ _ Hinv Hin) as (p' & -> & _). by eexists.
  - intros sb. rewrite (ct_sbs _ _ _ (li_counted _ _ _ _ Hinv)). split.
    + intros H. destruct (decide (sb ∈ mounts s)); [by left|right]. unfold refs in H.
      rewrite bool_decide_eq_false_2 in H by done. unfold holds in H. cbn [b2z] in H. rewrite Z.add_0_l, sum_of_owner in H.
      by setoid_rewrite bool_decide_eq_true in H.
    + intros [H|(i & c & Hi & Hc)]; [pose proof (refs_mounted _ (clients s) _ H)|pose proof (refs_held (mounts s) _ _ _ _ Hi Hc)]; lia.
  - intros sb f Hf. split; intros; [by eapply inv_index_owner|by eapply inv_node_owner].
  - intros i j ci cj sb idx Hi Hj Ei Ej. destruct (decide (i = j)) as [|Hne]; [done|].
    pose proof (sum_of_two (owns sb idx) _ i j _ _ ltac:(intros; apply b2z_nonneg) Hi Hj Hne) as H2.
    rewrite (cn_ids _ _ _ (li_content _ _ _ _ Hinv)) in H2. unfold owns in H2.
    rewrite !(bool_decide_eq_true_2 (index_of _ = _)) in H2 by done. case_bool_decide; cbn in H2; lia.
  - apply (cn_count _ _ _ (li_content _ _ _ _ Hinv)).
Qed.

End Lifetime.

(** Two callers: one opens a terminal in a mounted instance, the instance is
    unmounted under it, and the terminal can still be closed. *)
Definition demo_env (sb : Z) : mount_env := Menv true true sb true true true true true.
Definition demo_step := life_step true table_match (number 10) (number 8) Some Some above.

Lemma demo_open : exists s, star demo_step (life_init 2) s /\
  mounts s = ∅ /\ exists ino, clients s !! 0%nat = Some (Open 42 0 ino).
Proof.
  eexists. split.
  - eapply star_more; [eapply star_more; [eapply star_more; [eapply star_more; [eapply star_more; [apply star_here|]|]|]|]|].
    + eapply (life_mount _ _ _ _ _ _ _ _ (demo_env 42) None (Opts false false 0 0 0 0 false 0)); reflexivity.
    + eapply (life_client _ _ _ _ _ _ _ _ 0 Idle (AGetRef 42 DEVPTS_SUPER_MAGIC)); [reflexivity|intros _; set_solver|reflexivity].
    + eapply (life_client _ _ _ _ _ _ _ _ 0 (HasRef 42) (ANewIndex [(true, None)]));
        [reflexivity|by apply Exists_cons_hd|vm_compute; reflexivity].
    + eapply (life_client _ _ _ _ _ _ _ _ 0 (HasIndex 42 0) (APtyNew (136, 0) 77 1000 1000 true true));
        [reflexivity|discriminate|vm_compute; reflexivity].
    + eapply (life_umount _ _ _ _ _ _ _ _ 42); [set_solver|vm_compute; reflexivity].
  - split; [vm_compute; reflexivity|]. eexists. reflexivity.
Qed.

Lemma devpts_lifetime_witness : exists s ino, star demo_step (life_init 2) s /\
  mounts s = ∅ /\ is_Some (client_do true above APtyKill (Open 42 0 ino) (pts s)) /\ is_Some (sbs (wd (pts s)) !! 42).
Proof.
  destruct demo_open as (s & Hs & Hm & ino & Hi). exists s, ino. split; [exact Hs|]. split; [exact Hm|].
  destruct (devpts_lifetime table_match (number 10) (number 8) Some Some above above_fresh 2 s) as (H1 & _ & H3 & _);
    [lia|exact Hs|].
  split; [apply (H1 0%nat _ APtyKill Hi); exact I|]. apply H3. right. exists 0%nat, (Open 42 0 ino). by split.
Defined.

(** Without CONFIG_DEVPTS_MULTIPLE_INSTANCES the instance is looked up in
    [devpts_mnt], which the file never sets: no reference is ever given, so
    no terminal can be opened, and [devpts_pty_kill] would read through the
    NULL super block. *)
Theorem devpts_single_instance_unusable p sb i_sb s_magic env device index priv fsuid fsgid a b name ino :
  devpts_mnt (wd p) = None ->
  devpts_get_ref false p i_sb s_magic = Some (p, None) /\
  devpts_new_index above (wd p) sb None env = Some (wd p, - ENODEV) /\
  devpts_pty_new None device index priv fsuid fsgid a b = (None, inr (- ENODEV)) /\
  devpts_pty_kill (s ← pts_sb_from_inode false (wd p) i_sb s_magic; sbs (wd p) !! s) name ino = None.
Proof. intros Hm. unfold devpts_get_ref, pts_sb_from_inode. cbn [andb]. by rewrite Hm. Qed.
