(* ===== verification/Pci.v ===== *)
(** * pci/my_pci2.c, pci/any.c, pci/my_pci.c, net/my_8139.c: drivers for the RTL8139

    The character device of my_pci2.c, a window on the card's registers; the
    probe, remove, load and unload routines of my_pci2.c and any.c, and those
    of my_pci.c and my_8139.c as far as these two files are complete. *)
From stdpp Require Import strings.
From S2P Require Import Prelude Kernel.
Local Open Scope Z_scope.

(** ** pci/my_pci2.c: the register window *)
Definition PCI_MAJOR : Z := 80.

(** [regs_len] bytes of registers; [io] is what the card answers to a read of
    an offset. *)
Record mydev := Mydev { regs_len : Z; ioaddr : Z }.

(** The offsets [memcpy_fromio] and [memcpy_toio] touch. *)
Definition window (f_pos count : Z) : list Z := seqZ f_pos count.

Section Registers.
Context (io : Z -> Z).

(** The return value, the new position and the bytes for the user;
    [alloc_ok] and [left] are the answers of [kzalloc] and [copy_to_user]. *)
Definition my_read (dev : mydev) (count f_pos : Z) (alloc_ok : bool) (left : Z) : Z * Z * list Z :=
  if regs_len dev <=? u64 f_pos then (0, f_pos, [])
  else
    let count := Z.min count (u64 (regs_len dev - f_pos)) in
    if count =? 0 then (0, f_pos, [])
    else if negb alloc_ok then (- ENOMEM, f_pos, [])
    else
      let kbuf := map io (window f_pos count) in
      if c_true left then (- EFAULT, f_pos, take (Z.to_nat (count - left)) kbuf)
      else (s64 count, s64 (f_pos + count), kbuf).

(** The same for a write; the last component is the stores to the card. *)
Definition my_write (dev : mydev) (ubuf : list Z) (f_pos : Z) (alloc_ok : bool) (left : Z) : Z * Z * list (Z * Z) :=
  if regs_len dev <=? u64 f_pos then (0, f_pos, [])
  else
    let count := Z.min (zlen ubuf) (u64 (regs_len dev - f_pos)) in
    if count =? 0 then (0, f_pos, [])
    else if negb alloc_ok then (- ENOMEM, f_pos, [])
    else if c_true left then (- EFAULT, f_pos, [])
    else (s64 count, s64 (f_pos + count), zip (window f_pos count) (from_user ubuf count 0)).

(** pci/my_pci.c, the first version of these two handlers: they copy between
    the user and the mapped registers without a buffer.  [copy_from_user]
    pads with zeros what it could not read, here in the registers. *)
Definition my_read1 (dev : mydev) (count f_pos left : Z) : Z * Z * list Z :=
  if regs_len dev <=? u64 f_pos then (0, f_pos, [])
  else
    let count := Z.min count (u64 (regs_len dev - f_pos)) in
    if count <=? 0 then (0, f_pos, [])
    else
      let bytes := map io (window f_pos count) in
      if c_true left then (- EFAULT, f_pos, take (Z.to_nat (count - left)) bytes)
      else (s64 count, s64 (f_pos + count), bytes).

Definition my_write1 (dev : mydev) (ubuf : list Z) (f_pos left : Z) : Z * Z * list (Z * Z) :=
  if regs_len dev <=? u64 f_pos then (0, f_pos, [])
  else
    let count := Z.min (zlen ubuf) (u64 (regs_len dev - f_pos)) in
    if count <=? 0 then (0, f_pos, [])
    else
      let stores := zip (window f_pos count) (from_user ubuf count left) in
      if c_true left then (- EFAULT, f_pos, stores)
      else (s64 count, s64 (f_pos + count), stores).

End Registers.

Definition my_llseek (dev : mydev) (f_pos offset origin : Z) : Z * Z :=
  let offset :=
    match origin with
    | 1 => s64 (offset + f_pos)
    | 2 => s64 (offset + regs_len dev)
    | _ => offset
    end in
  if (offset <? 0) || (regs_len dev <=? u64 offset) then (f_pos, - EINVAL)
  else (offset, offset).

(** ** pci/my_pci2.c: probe and remove *)

(** The BARs of the card: whether BAR 0 is a port and BAR 1 a memory
    resource. *)
Record pcidev := Pcidev { pdev : Z; slot : Z; bar0_pio : bool; bar1_mmio : bool }.

(** The label err_out: the mapping [map], the flag [disable_dev_on_err]. *)
Definition err_out (p : pcidev) (dev map : Z) (disable : bool) (rc : Z) : prog (Z * Z) :=
  let! _ <- (if map =? 0 then Ret tt else do! pci_iounmap (pdev p) map ;; Ret tt) ;;
  do! pci_release_regions (pdev p) ;;
  let! _ <- (if disable then do! pci_disable_device (pdev p) ;; Ret tt else Ret tt) ;;
  Ret (rc, 0).

(** From the registration of the cdev: the code runs into err_out. *)
Definition probe_cdev (p : pcidev) (dev map : Z) : prog (Z * Z) :=
  do! cdev_init dev ;;
  do! cdev_add dev (MKDEV PCI_MAJOR (slot p)) 1 ;;
  err_out p dev map true 0.

(** The label retry with [use_io] set; [disable] is the flag so far. *)
Definition probe_pio (p : pcidev) (dev : Z) (disable : bool) : prog (Z * Z) :=
  if negb (bar0_pio p) then err_out p dev 0 disable (- ENODEV)
  else
    call! rc <- pci_request_regions (pdev p) ;;
    if c_true rc then err_out p dev 0 disable rc
    else
      do! pci_set_master (pdev p) ;;
      call! map <- pci_iomap (pdev p) 0 ;;
      if map =? 0 then err_out p dev 0 true (- EIO) else probe_cdev p dev map.

(** The label retry with [use_io] clear: when the memory BAR cannot be mapped
    the code sets [use_io] and retries once with the port BAR.  The last
    component is [use_io] afterwards. *)
Definition probe_mmio (p : pcidev) (dev : Z) : prog (Z * Z * bool) :=
  let keep (r : prog (Z * Z)) (use_io : bool) := let! x <- r ;; Ret (x, use_io) in
  if negb (bar1_mmio p) then keep (err_out p dev 0 false (- ENODEV)) false
  else
    call! rc <- pci_request_regions (pdev p) ;;
    if c_true rc then keep (err_out p dev 0 false rc) false
    else
      do! pci_set_master (pdev p) ;;
      call! map <- pci_iomap (pdev p) 1 ;;
      if map =? 0 then do! pci_release_regions (pdev p) ;; keep (probe_pio p dev true) true
      else keep (probe_cdev p dev map) false.

(** The probe once the structure is allocated. *)
Definition probe_allocated (use_io : bool) (p : pcidev) (dev : Z) : prog (Z * Z * bool) :=
  if dev =? 0 then Ret (- ENOMEM, 0, use_io)
  else
    call! rc <- pci_enable_device (pdev p) ;;
    if c_true rc then do! kfree dev ;; Ret (rc, 0, use_io)
    else if use_io then let! x <- probe_pio p dev false ;; Ret (x, true)
    else probe_mmio p dev.

(** The return value, the driver data of the card ([0]: NULL), and the module
    parameter [use_io], which the probe may change for the cards that follow. *)
Definition my_probe (use_io : bool) (p : pcidev) : prog (Z * Z * bool) :=
  call! dev <- kzalloc "struct mydev" 1 ;;
  probe_allocated use_io p dev.

Definition my_remove (p : pcidev) (drvdata map : Z) : prog unit :=
  if drvdata =? 0 then Oops "cdev_del of NULL driver data"
  else
    do! cdev_del drvdata ;;
    let! _ <- (if map =? 0 then Ret tt else do! pci_iounmap (pdev p) map ;; Ret tt) ;;
    do! pci_release_regions (pdev p) ;;
    do! pci_disable_device (pdev p) ;;
    do! kfree drvdata ;;
    Ret tt.

Definition my_init : prog (Z * unit) :=
  call! rc <- driver_register "8139D driver" ;; Ret (rc, tt).

Definition my_exit (_ : unit) : prog unit :=
  do! driver_unregister "8139D driver" ;; Ret tt.

(** The cards the bus hands to the driver, one after the other. *)
Fixpoint probe_cards (use_io : bool) (cards : list pcidev) : prog (list Z * bool) :=
  match cards with
  | [] => Ret ([], use_io)
  | p :: rest =>
      let! (rc, _, use_io') <- my_probe use_io p ;;
      let! (rcs, use_io'') <- probe_cards use_io' rest ;;
      Ret (rc :: rcs, use_io'')
  end.

(** pci/my_pci.c: the routines of its driver only print; its module is
    loaded like the others. *)
Definition my_pci_init : prog (Z * unit) := my_init.
Definition my_pci_exit : unit -> prog unit := my_exit.

(** net/my_8139.c: the probe from the test of its allocation on, the removal and
    the registration are the text of my_pci2.c.  The call that should make
    [dev] is unfinished in the file. *)
Definition my_8139_probe_allocated : bool -> pcidev -> Z -> prog (Z * Z * bool) := probe_allocated.
Definition my_8139_remove : pcidev -> Z -> Z -> prog unit := my_remove.
Definition my_8139_init : prog (Z * unit) := my_init.
Definition my_8139_exit : unit -> prog unit := my_exit.

(** ** pci/any.c *)

(** [struct pci_test], the private part of the net device at [ndev]. *)
Record pci_test := PciTest { ndev : Z; cds_dev : dev_t; iomem_start : Z }.

(** The card: its BARs 0 and 1 and whether it is an RTL8139. *)
Record anydev := Anydev { adev : Z; is_8139 : bool; pio_start : Z; pio_len : Z; mmio_start : Z; mmio_len : Z }.

(** [girlf]; [None] is NULL driver data. *)
Definition girlf (pf_class : Z) (d : anydev) (pt : option pci_test) : prog unit :=
  if is_8139 d then
    match pt with
    | None => Oops "pt->cds of NULL driver data"
    | Some pt =>
        do! device_destroy pf_class (cds_dev pt) ;;
        do! cdev_del (ndev pt) ;;
        do! unregister_chrdev_region (cds_dev pt) 1 ;;
        do! iounmap (iomem_start pt) ;;
        do! pci_disable_device (adev d) ;;
        do! release_region (pio_start d) (pio_len d) ;;
        do! release_mem_region (mmio_start d) (mmio_len d) ;;
        do! free_netdev (ndev pt) ;;
        Ret tt
    end
  else Ret tt.

(** The loop that allocates a device number, trying the next minor until it
    succeeds; [None]: the fuel is used up. *)
Fixpoint alloc_loop (fuel : nat) (minor : Z) : prog (option dev_t) :=
  match fuel with
  | O => Ret None
  | S fuel' =>
      call! r <- alloc_chrdev_region minor 1 ;;
      if r <? 0 then alloc_loop fuel' (minor + 1) else Ret (Some (MKDEV r minor))
  end.

(** [girlp]: the return value and the driver data; a failure calls [girlf]. *)
Definition fail (pf_class : Z) (d : anydev) (pt : option pci_test) (rc : Z) : prog (option (Z * option pci_test)) :=
  let! _ <- girlf pf_class d pt ;; Ret (Some (rc, None)).

Definition girlp (fuel : nat) (pf_class : Z) (d : anydev) : prog (option (Z * option pci_test)) :=
  if negb (is_8139 d) then Ret (Some (0, None))
  else
    call! n <- alloc_etherdev 1 ;;
    if n =? 0 then fail pf_class d None (- ENOMEM)
    else
      let pt := PciTest n (0, 0) 0 in
      call! rc <- register_netdev n ;;
      if c_true rc then fail pf_class d (Some pt) (-1)
      else
        call! rc <- pci_enable_device (adev d) ;;
        if c_true rc then fail pf_class d (Some pt) (-1)
        else
          call! io_resource <- request_region (pio_start d) (pio_len d) ;;
          if io_resource =? 0 then fail pf_class d (Some pt) (-1)
          else
            call! mem_resource <- request_mem_region (mmio_start d) (mmio_len d) ;;
            if mem_resource =? 0 then fail pf_class d (Some pt) (-1)
            else
              call! map <- ioremap (mmio_start d) (mmio_len d) ;;
              if map =? 0 then fail pf_class d (Some pt) (-1)
              else
                do! cdev_init n ;;
                let! devno <- alloc_loop fuel 0 ;;
                match devno with
                | None => Ret None
                | Some devno =>
                    let pt := PciTest n devno map in
                    call! rc <- cdev_add n devno 1 ;;
                    if c_true rc then fail pf_class d (Some pt) (-1)
                    else
                      do! device_create pf_class devno ;;
                      Ret (Some (0, Some pt))
                end.

(** [co] and [cre]: the open handler keeps the structure and prints the
    resources, which a probe that has succeeded has set. *)
Definition co (pt : pci_test) : Z * pci_test := (0, pt).
Definition cre : Z := 0.

(** [cr], the read of the mapped memory: the length, or the end of file. *)
Definition cr (buffer_len len offer left : Z) : Z * Z * list Z :=
  let target_len := s32 (if u64 (buffer_len - offer) <? len then buffer_len - offer else len) in
  if buffer_len <=? offer then (0, offer, [])
  else if c_true left then (-1, offer, [])
  else (target_len, offer + target_len, window offer target_len).

(** [igp] and [rgp]. *)
Definition igp : prog (Z * Z) :=
  call! pf_class <- class_create "pf_class" ;;
  if IS_ERR pf_class then Ret (pf_class, pf_class)
  else call! rc <- driver_register "maxpain" ;; Ret (rc, pf_class).

Definition rgp (pf_class : Z) : prog unit :=
  do! class_destroy pf_class ;;
  do! driver_unregister "maxpain" ;;
  Ret tt.

(** ** Lemmas and properties *)
Lemma window_range f_pos count x : 0 <= count -> x ∈ window f_pos count -> f_pos <= x < f_pos + count.
Proof. intros Hc Hx. unfold window in Hx. apply elem_of_seqZ in Hx. lia. Qed.

Lemma window_len f_pos count : 0 <= count -> zlen (window f_pos count) = count.
Proof. intros. unfold zlen, window. rewrite length_seqZ. lia. Qed.

(** C37: The register window of my_pci2.c is never left: whatever the position
    (any [loff_t]) and the count, a read returns the registers of a range
    inside [0, regs_len), a write stores exactly the user's bytes into such a
    range, register by register from the position on, both advance the
    position by what they return and take all that is asked for and there, at
    or beyond the end they return 0, and a seek accepts only positions inside. *)
Theorem pci2_stays_in_window io dev count ubuf f_pos offset origin :
  0 <= regs_len dev < 2 ^ 63 -> 0 <= count < 2 ^ 63 -> zlen ubuf < 2 ^ 63 -> - 2 ^ 63 <= f_pos < 2 ^ 63 ->
  offset < 2 ^ 63 ->
  (let '(ret, pos, bytes) := my_read io dev count f_pos true 0 in
   pos = f_pos + ret /\ bytes = map io (window f_pos ret) /\ 0 <= ret <= count /\
   (0 < ret -> 0 <= f_pos /\ f_pos + ret <= regs_len dev) /\
   (0 <= f_pos < regs_len dev -> ret = Z.min count (regs_len dev - f_pos))) /\
  (let '(ret, pos, stores) := my_write dev ubuf f_pos true 0 in
   pos = f_pos + ret /\ map fst stores = window f_pos ret /\ map snd stores = sl ubuf 0 ret /\
   Forall (fun s => 0 <= fst s < regs_len dev) stores /\
   (0 <= f_pos < regs_len dev -> ret = Z.min (zlen ubuf) (regs_len dev - f_pos))) /\
  (let '(pos, ret) := my_llseek dev f_pos offset origin in
   (ret = - EINVAL /\ pos = f_pos) \/ (ret = pos /\ 0 <= pos < regs_len dev)).
Proof.
  intros Hr Hc Hu Hp Ho. pose proof (zlen_nonneg ubuf).
  assert (f_pos < 0 -> u64 f_pos = f_pos + 2 ^ 64) as Hneg.
  { intros. unfold u64, wrapu. rewrite <- (Z_mod_plus_full _ 1 (2 ^ 64)), Z.mod_small; lia. }
  assert (0 <= f_pos -> u64 f_pos = f_pos) as Hpos by (intros; apply u64_small; lia).
  split; [|split].
  - unfold my_read. destruct (Z.leb_spec (regs_len dev) (u64 f_pos)) as [L|L].
    { split; [lia|]. split; [done|]. split; [lia|]. split; [lia|]. intros. rewrite Hpos in L; lia. }
    assert (0 <= f_pos) by (destruct (Z.lt_ge_cases f_pos 0); [rewrite Hneg in L; lia|done]).
    rewrite Hpos in L by done. rewrite u64_small by lia. set (n := Z.min count _).
    destruct (Z.eqb_spec n 0) as [E|E]; cbn.
    { split; [lia|]. split; [done|]. split; [lia|]. split; lia. }
    rewrite !s64_small by lia. split; [done|]. split; [done|]. split; [lia|]. split; lia.
  - unfold my_write. destruct (Z.leb_spec (regs_len dev) (u64 f_pos)) as [L|L].
    { repeat (split; [done || lia|]). intros. rewrite Hpos in L; lia. }
    assert (0 <= f_pos) by (destruct (Z.lt_ge_cases f_pos 0); [rewrite Hneg in L; lia|done]).
    rewrite Hpos in L by done. rewrite u64_small by lia. set (n := Z.min (zlen ubuf) _).
    destruct (Z.eqb_spec n 0) as [E|E]; cbn -[from_user]; [repeat (split; [done || lia|]); lia|].
    rewrite !s64_small by lia. rewrite from_user_full by lia.
    assert (length (window f_pos n) = length (sl ubuf 0 n)) as Hl.
    { pose proof (window_len f_pos n ltac:(lia)). pose proof (zlen_sl ubuf 0 n). unfold zlen in *. lia. }
    split; [done|]. split; [by rewrite fst_zip by lia|]. split; [by rewrite snd_zip by lia|]. split; [|done].
    apply Forall_forall. intros [x v] Hx. cbn. apply elem_of_zip_l in Hx.
    apply window_range in Hx; lia.
  - unfold my_llseek. set (o1 := match origin with 1 => _ | _ => _ end).
    destruct (Z.ltb_spec o1 0); [by left|]. cbn [orb].
    destruct (Z.leb_spec (regs_len dev) (u64 o1)) as [L|L]; [by left|right].
    assert (o1 < 2 ^ 63).
    { subst o1. pose proof (s64_range (offset + f_pos)). pose proof (s64_range (offset + regs_len dev)).
      destruct origin as [|[[]|[]|]|]; lia. }
    rewrite u64_small in L by lia. split; [done|lia].
Qed.

Lemma pci2_stays_in_window_witness :
  let '(ret, pos, bytes) := my_read (fun x => x) (Mydev 256 4096) 64 250 true 0 in
  pos = 250 + ret /\ bytes = map (fun x => x) (window 250 ret) /\ 0 <= ret <= 64.
Proof.
  destruct (pci2_stays_in_window (fun x => x) (Mydev 256 4096) 64 [1; 2] 250 5 1) as (H & _ & _);
    [first [cbn; lia | reflexivity]..|]. destruct (my_read _ _ _ _ _ _) as [[ret pos] bytes]. destruct H as (H1 & H2 & H3 & _). done.
Defined.

(** What a probe of my_pci2.c may still hold: the cdev and the structure, and
    the enabled device. *)
Definition leftover (p : pcidev) (base held : list res) : Prop :=
  exists X, held = X ++ base /\
    Forall (fun r => match r with RCdev _ | RMem _ => True | RPciEnabled d => d = pdev p | _ => False end) X.

(** A probe of my_pci2.c never leaves the card bound: in every run,
    also when every call succeeded and it returns 0, it has fallen into
    err_out, which unmaps the registers, releases the regions and clears the
    driver data; the structure (and in some runs the enabled device) is never
    given back. *)
Theorem pci2_probe_never_binds use_io p t base :
  clean base ->
  safe answers (my_probe use_io p) t base (fun '(rc, drvdata, _) _ held =>
    drvdata = 0 /\ (rc = 0 -> exists dev, held = RCdev dev :: RMem dev :: base) /\ leftover p base held).
Proof.
  intros Hc.
  assert (forall X, Forall (fun r => match r with RCdev _ | RMem _ => True | RPciEnabled d => d = pdev p | _ => False end) X ->
    leftover p base (X ++ base)) as Hlo by (intros X HX; by exists X).
  unfold my_probe, probe_allocated, probe_mmio, probe_pio, probe_cdev, err_out. krun; try done.
  all: split; [done|]. all: split.
  all: try (intros; exfalso; unfold ENOMEM, ENODEV, EIO in *; zbool; lia || done).
  all: try (intros; by eexists).
  all: first [ apply (Hlo []); constructor | eapply (Hlo [_]) ; repeat constructor
             | eapply (Hlo [_; _]); repeat constructor | eapply (Hlo [_; _; _]); repeat constructor ].
Qed.

Lemma pci2_probe_never_binds_witness :
  exists dev t, run good_oracle [] [] (my_probe false (Pcidev 9 3 true true)) = Fin (0, 0, false) t [RCdev dev; RMem dev].
Proof.
  destruct (safe_run answers good_oracle _ [] [] _ good_oracle_conforming
    (pci2_probe_never_binds false (Pcidev 9 3 true true) [] [] ltac:(constructor)))
    as ([[rc drvdata] u] & t & h & Hr & Hd & Hh & _).
  assert (rc = 0 /\ u = false) as [-> ->] by (vm_compute in Hr; split; congruence). destruct (Hh eq_refl) as (dev & ->).
  exists dev, t. rewrite Hr, Hd. reflexivity.
Defined.

(** Because the driver data of my_pci2.c is NULL after a successful probe,
    unbinding the card ([my_remove]) dereferences NULL. *)
Theorem pci2_remove_faults use_io slot :
  exists t held, run good_oracle [] []
    (let! (rc, drvdata, _) <- my_probe use_io (Pcidev 9 slot true true) ;;
     if c_true rc then Ret tt else my_remove (Pcidev 9 slot true true) drvdata 4096) =
    Fault "cdev_del of NULL driver data" t held.
Proof. destruct use_io; do 2 eexists; vm_compute; reflexivity. Qed.

(** A probe only ever sets [use_io], and does so only after the memory BAR
    could not be mapped; with it set, a card without a port BAR is refused. *)
Lemma probe_use_io use_io p t base :
  clean base ->
  safe answers (my_probe use_io p) t base (fun '(rc, _, use_io') t' held =>
    (use_io = true -> use_io' = true /\ (bar0_pio p = false -> rc < 0)) /\
    (exists X, held = X ++ base /\ clean X) /\
    (use_io = false -> use_io' = true -> (pci_iomap (pdev p) 1, 0) ∈ t')).
Proof.
  intros Hc. unfold my_probe, probe_allocated, probe_mmio, probe_pio, probe_cdev, err_out. krun; try done.
  all: split; [intros Hu; first [discriminate Hu | split; [exact Hu|intros Hb; first [discriminate Hb | unfold ENOMEM, ENODEV, EIO, errno_or in *; zbool; lia]]]
              |split; [|intros Hu Hu'; first [congruence | zbool; subst; rewrite !elem_of_app, !list_elem_of_singleton; by auto 20]]].
  all: first [(exists []; split; [done|constructor]) | (eexists [_]; split; [reflexivity|by repeat constructor])
    | (eexists [_; _]; split; [reflexivity|by repeat constructor])
    | (eexists [_; _; _]; split; [reflexivity|by repeat constructor])].
Qed.

(** What a driver for several cards holds is clean again. *)
Lemma clean_app X base : clean X -> clean base -> clean (X ++ base).
Proof. intros. by apply Forall_app. Qed.

Lemma probe_cards_refused cards t base :
  clean base ->
  safe answers (probe_cards true cards) t base (fun '(rcs, use_io) _ _ =>
    use_io = true /\ Forall2 (fun p rc => bar0_pio p = false -> rc < 0) cards rcs).
Proof.
  revert t base. induction cards as [|p cards IH]; intros t base Hc; cbn [probe_cards]; [by apply safe_ret|].
  apply safe_bind. eapply safe_mono; [by apply probe_use_io|].
  intros [[rc drv] use_io] t' h' (Hu & (X & -> & HX) & _). destruct (Hu eq_refl) as [-> Hrc].
  apply safe_bind. eapply safe_mono; [apply IH; by apply clean_app|]. intros [rcs u] t2 h2 [-> Hf]. apply safe_ret.
  split; [done|]. by constructor.
Qed.

(** The fallback of the probe is one for all cards: as soon as the memory
    BAR of one card cannot be mapped the module parameter [use_io] is set
    for good, so that every card probed after it is driven through its port BAR,
    and refused when it has none, however well its memory BAR would do. *)
Theorem pci_fallback_is_global p cards o t base rc drv tr h :
  conforming o -> clean base ->
  run o t base (my_probe false p) = Fin (rc, drv, true) tr h ->
  (pci_iomap (pdev p) 1, 0) ∈ tr /\
  exists rcs tr' h', run o tr h (probe_cards true cards) = Fin (rcs, true) tr' h' /\
    Forall2 (fun p rc => bar0_pio p = false -> rc < 0) cards rcs.
Proof.
  intros Ho Hc Hr.
  destruct (safe_run _ o _ t base _ Ho (probe_use_io false p t base Hc)) as ([[rc0 drv0] u0] & t0 & h0 & Hr0 & Hq).
  rewrite Hr in Hr0. injection Hr0 as <- <- <- <- <-. destruct Hq as (_ & (X & -> & HX) & Hm).
  split; [by apply Hm|].
  destruct (safe_run _ o _ tr (X ++ base) _ Ho (probe_cards_refused cards tr (X ++ base) ltac:(by apply clean_app)))
    as ([rcs u] & tr' & h' & Hr' & -> & Hf).
  by exists rcs, tr', h'.
Qed.

(** The first memory mapping fails, everything else succeeds. *)
Definition no_mmio : oracle := fun t h c => match c with pci_iomap d bar => if (d =? 1) && (bar =? 1) then 0 else good_oracle t h c | _ => good_oracle t h c end.

Lemma no_mmio_conforming : conforming no_mmio.
Proof.
  intros t h c. destruct c; try apply good_oracle_conforming. cbn -[top]. destruct ((d =? 1) && (bar =? 1)); [by left|].
  apply (good_oracle_conforming t h (pci_iomap d bar)).
Qed.

Lemma pci_fallback_is_global_witness :
  exists tr h rcs tr' h', run no_mmio [] [] (my_probe false (Pcidev 1 3 true true)) = Fin (0, 0, true) tr h /\
    run no_mmio tr h (probe_cards true [Pcidev 2 4 false true]) = Fin (rcs, true) tr' h' /\
    Forall2 (fun p rc => bar0_pio p = false -> rc < 0) [Pcidev 2 4 false true] rcs.
Proof.
  destruct (run no_mmio [] [] (my_probe false (Pcidev 1 3 true true))) as [x tr h| |] eqn:E; [|by vm_compute in E..].
  assert (x = (0, 0, true)) as -> by (vm_compute in E; congruence).
  destruct (pci_fallback_is_global (Pcidev 1 3 true true) [Pcidev 2 4 false true] no_mmio [] [] 0 0 tr h
    no_mmio_conforming ltac:(constructor) E) as (_ & rcs & tr' & h' & Hr & Hf).
  exists tr, h, rcs, tr', h'. split; [reflexivity|]. split; [exact Hr|exact Hf].
Defined.

#[global] Instance my_pci2_balanced : Balanced my_init my_exit.
Proof. kbalanced my_init my_exit. Qed.

(** *** any.c *)
Definition card : anydev := Anydev 9 true 57344 256 4026531840 4096.

(** Every failure of the probe of any.c goes through [girlf], which gives
    back what was never taken: without a net device it dereferences NULL, and
    in every other case (registration, enabling, regions, mapping, cdev) its
    first or a later release is of a resource the driver does not hold. *)
Theorem any_failed_probe_misuses :
  (exists t held, run (failing_oracle 0 0) [] [] (girlp 1 7 card) = Fault "pt->cds of NULL driver data" t held) /\
  Forall (fun k => exists c t held, run (failing_oracle k (-1)) [] [] (girlp 1 7 card) = Misuse c t held)
    [1; 2; 8]%nat /\
  Forall (fun k => exists c t held, run (failing_oracle k 0) [] [] (girlp 1 7 card) = Misuse c t held)
    [3; 4; 5]%nat.
Proof. repeat split; repeat constructor; repeat eexists; vm_compute; reflexivity. Qed.

(** The loop of any.c that looks for a device number never ends while the
    kernel has none: however many rounds it is given, it is still looking,
    and has asked once per round. *)
Theorem any_alloc_loops_forever fuel minor o t h :
  (forall t' h' m, o t' h' (alloc_chrdev_region m 1) = - EBUSY) ->
  exists t', run o t h (alloc_loop fuel minor) = Fin None (t ++ t') h /\ length t' = fuel.
Proof.
  intros Ho. revert minor t. induction fuel as [|fuel IH]; intros minor t; cbn [alloc_loop run].
  - exists []. by rewrite app_nil_r.
  - rewrite Ho. change (settle (alloc_chrdev_region minor 1) (- EBUSY) h) with (Some h).
    cbn beta iota. change (- EBUSY <? 0) with true. cbn beta iota. destruct (IH (minor + 1) (t ++ [(alloc_chrdev_region minor 1, - EBUSY)])) as (t' & Hr & Hl).
    exists ((alloc_chrdev_region minor 1, - EBUSY) :: t'). rewrite Hr, <- app_assoc. cbn. split; [done|lia].
Qed.

Lemma any_alloc_loops_forever_witness :
  exists t', run (fun _ _ _ => - EBUSY) [] [] (alloc_loop 1000 0) = Fin None ([] ++ t') [] /\ length t' = 1000%nat.
Proof. apply any_alloc_loops_forever. reflexivity. Defined.

(** The read of any.c stays inside the mapped memory at every position
    and is cut at its end. *)
Theorem any_read_in_window buffer_len len offer :
  0 < buffer_len < 2 ^ 31 -> 0 <= len < 2 ^ 31 -> 0 <= offer < 2 ^ 62 ->
  let '(ret, pos, bytes) := cr buffer_len len offer 0 in
  ret = Z.min len (Z.max 0 (buffer_len - offer)) /\ pos = offer + ret /\
  Forall (fun x => 0 <= x < buffer_len) bytes.
Proof.
  intros Hb Hl Ho. unfold cr. destruct (Z.leb_spec buffer_len offer) as [L|L].
  - split; [lia|]. split; [lia|done].
  - rewrite u64_small by lia. destruct (Z.ltb_spec (buffer_len - offer) len); cbn; rewrite s32_small by lia;
      (split; [lia|]; split; [done|]); apply Forall_forall; intros x Hx; apply window_range in Hx; lia.
Qed.

Lemma any_read_in_window_witness :
  let '(ret, pos, bytes) := cr 4096 100 4090 0 in
  ret = 6 /\ pos = 4090 + ret /\ Forall (fun x => 0 <= x < 4096) bytes.
Proof. apply (any_read_in_window 4096 100 4090); lia. Defined.

(** The two versions of the register window.  While there is memory the handlers of my_pci.c
    and my_pci2.c read the same bytes with the same result, and write the
    same stores when the user's buffer can be read; when it cannot, my_pci2.c
    leaves the card alone and my_pci.c stores to every register of the range,
    zeros where the copy stopped. *)
Theorem pci_versions_agree io dev count ubuf f_pos left :
  0 <= count -> 0 <= regs_len dev < 2 ^ 64 -> 0 <= f_pos < 2 ^ 63 ->
  my_read1 io dev count f_pos left = my_read io dev count f_pos true left /\
  my_write1 dev ubuf f_pos 0 = my_write dev ubuf f_pos true 0 /\
  (f_pos < regs_len dev -> 0 < left <= Z.min (zlen ubuf) (regs_len dev - f_pos) ->
   my_write dev ubuf f_pos true left = (- EFAULT, f_pos, []) /\
   exists stores, my_write1 dev ubuf f_pos left = (- EFAULT, f_pos, stores) /\
     map fst stores = window f_pos (Z.min (zlen ubuf) (regs_len dev - f_pos)) /\
     Forall (fun '(_, v) => v = 0) (drop (Z.to_nat (Z.min (zlen ubuf) (regs_len dev - f_pos) - left)) stores)).
Proof.
  intros Hc Hr Hp. pose proof (zlen_nonneg ubuf).
  pose proof (wrapu_range 64 (regs_len dev - f_pos) ltac:(lia)) as Hu. fold (u64 (regs_len dev - f_pos)) in Hu.
  split; [|split].
  - unfold my_read1, my_read. destruct (_ <=? _); [done|]. cbn [negb]. set (n := Z.min count _).
    destruct (Z.leb_spec n 0), (Z.eqb_spec n 0); try lia; done.
  - unfold my_write1, my_write. destruct (_ <=? _); [done|]. cbn [negb]. set (n := Z.min (zlen ubuf) _).
    destruct (Z.leb_spec n 0), (Z.eqb_spec n 0); try lia; done.
  - intros Hlt Hl. unfold my_write1, my_write, c_true.
    rewrite (u64_small f_pos), (u64_small (regs_len dev - f_pos)) by lia.
    rewrite (proj2 (Z.leb_gt (regs_len dev) f_pos)) by lia. cbn [negb].
    set (n := Z.min (zlen ubuf) (regs_len dev - f_pos)) in *.
    rewrite (proj2 (Z.eqb_neq n 0)), (proj2 (Z.eqb_neq left 0)), (proj2 (Z.leb_gt n 0)) by lia. cbn [negb].
    split; [done|]. eexists. split; [reflexivity|].
    assert (length (window f_pos n) = length (from_user ubuf n left)) as Hlen.
    { pose proof (window_len f_pos n ltac:(lia)). pose proof (zlen_from_user ubuf n left ltac:(lia) ltac:(lia)).
      unfold zlen in *. lia. }
    split; [apply fst_zip; lia|].
    rewrite (zip_with_drop (@pair Z Z) (Z.to_nat (n - left)) (window f_pos n) (from_user ubuf n left)).
    apply Forall_forall. intros [x v] Hx. apply elem_of_zip_r in Hx. unfold from_user in Hx.
    rewrite drop_app_ge in Hx by (rewrite length_take; lia). revert v Hx. apply Forall_forall.
    apply Forall_drop, Forall_replicate. done.
Qed.

Lemma pci_versions_agree_witness :
  my_read1 (fun x => x) (Mydev 256 4096) 8 250 0 = my_read (fun x => x) (Mydev 256 4096) 8 250 true 0 /\
  my_write (Mydev 256 4096) [1; 2; 3] 8 true 2 = (- EFAULT, 8, []) /\
  exists stores, my_write1 (Mydev 256 4096) [1; 2; 3] 8 2 = (- EFAULT, 8, stores) /\ map fst stores = [8; 9; 10].
Proof.
  split; [apply (pci_versions_agree (fun x => x) (Mydev 256 4096) 8 [] 250 0); cbn; lia|].
  destruct (pci_versions_agree (fun x => x) (Mydev 256 4096) 0 [1; 2; 3] 8 2) as (_ & _ & H); cbn; [lia..|].
  destruct H as (-> & stores & Hs & Hm & _); [cbn; lia|unfold zlen; cbn; lia|]. split; [done|].
  exists stores. split; [exact Hs|exact Hm].
Defined.
