(* ===== verification/Journal.v ===== *)
(** * fs/journal and fs/jbd2: a page cache on a journal

    The address space operations of the journalled file systems: the walk over
    the buffers of a page ([walk_page_buffers]), the two functions it is used
    with, [writepage], [write_begin] and [write_end], and [fsync]; the mount
    that opens the journal is in [FsLife].  The routines are programs over the
    kernel calls; the buffer heads of a page are data of the model, their ring
    a list whose last buffer points back to the first.

    [walk_spec] is what a walk is meant to do, by recursion on the buffers;
    [perform_write] is the way the VFS calls [write_begin] and [write_end]. *)
From stdpp Require Import strings.
From S2P Require Import Prelude Kernel.
Local Open Scope Z_scope.

Definition PAGE_CACHE_SIZE : Z := 4096.
Definition BLOCKSIZE : Z := 1024.    (* s_blocksize of the mount *)

(** A buffer head: its address, its block on the device and its state bits. *)
Record buffer_head := Bh {
  b_addr : Z; b_blocknr : Z; b_mapped : bool; b_freed : bool; b_uptodate : bool; b_dirty : bool
}.

Record page := Page { p_addr : Z; p_checked : bool; p_uptodate : bool; page_buffers : list buffer_head }.

Definition page_has_buffers (p : page) : bool :=
  match page_buffers p with [] => false | _ => true end.

Definition set_buffers (p : page) (bs : list buffer_head) : page :=
  Page (p_addr p) (p_checked p) (p_uptodate p) bs.
Definition set_checked (p : page) (c : bool) : page :=
  Page (p_addr p) c (p_uptodate p) (page_buffers p).
Definition set_page_uptodate (p : page) : page :=
  Page (p_addr p) (p_checked p) true (page_buffers p).

(** [example_get_block]: every block of every file is mapped to block 0. *)
Definition example_get_block (iblock : Z) (b : buffer_head) : buffer_head * Z :=
  (Bh (b_addr b) 0 true (b_freed b) (b_uptodate b) (b_dirty b), 0).

(** ** The walk *)
Section Walk.
Context (fn : buffer_head -> prog (buffer_head * Z)).
Context (blocksize from to : Z).

(** The loop, at the buffer [i] of the ring; [None]: out of fuel.  [partial]
    is [None] when the caller passes NULL. *)
Fixpoint walk_loop (fuel i : nat) (block_start ret : Z) (bufs : list buffer_head)
    (partial : option bool) : prog (option (Z * list buffer_head * option bool)) :=
  if (ret =? 0) && (negb (Nat.eqb i 0) || (block_start =? 0)) then
    match fuel with
    | O => Ret None
    | S fuel' =>
        match bufs !! i with
        | None => Oops "b_this_page"
        | Some b =>
            let next := if Nat.eqb (S i) (length bufs) then O else S i in
            let block_end := u32 (block_start + blocksize) in
            if (block_end <=? from) || (to <=? block_start) then
              walk_loop fuel' next block_end ret bufs (option_map (fun p => p || negb (b_uptodate b)) partial)
            else
              let! (b', err) <- fn b ;;
              walk_loop fuel' next block_end (if ret =? 0 then err else ret) (<[i := b']> bufs) partial
        end
    end
  else Ret (Some (ret, bufs, partial)).

(** What a walk is for: [fn] on the buffers that overlap [from, to), in
    order, up to the first error; the others are looked at for [partial]. *)
Fixpoint walk_spec (start : Z) (bufs : list buffer_head) (partial : option bool)
    : prog (Z * list buffer_head * option bool) :=
  match bufs with
  | [] => Ret (0, [], partial)
  | b :: rest =>
      if (start + blocksize <=? from) || (to <=? start) then
        let! (r, rest', p) <- walk_spec (start + blocksize) rest (option_map (fun p => p || negb (b_uptodate b)) partial) ;;
        Ret (r, b :: rest', p)
      else
        let! (b', err) <- fn b ;;
        if c_true err then Ret (err, b' :: rest, partial)
        else
          let! (r, rest', p) <- walk_spec (start + blocksize) rest partial ;;
          Ret (r, b' :: rest', p)
  end.

End Walk.

(** [walk_page_buffers]: one turn around the ring is fuel enough. *)
Definition walk_page_buffers (bufs : list buffer_head) (blocksize from to : Z) (partial : option bool)
    (fn : buffer_head -> prog (buffer_head * Z)) : prog (Z * list buffer_head * option bool) :=
  match bufs with
  | [] => Oops "head->b_size"
  | _ =>
      let! x <- walk_loop fn blocksize from to (length bufs) 0 0 0 bufs partial ;;
      match x with Some y => Ret y | None => Oops "endless walk" end
  end.

(** The functions of fs/journal print the credits of the handle first. *)
Definition write_end_fn (handle : Z) (b : buffer_head) : prog (buffer_head * Z) :=
  if handle =? 0 then Oops "handle->h_buffer_credits"
  else if negb (b_mapped b) || b_freed b then Ret (b, 0)
  else
    call! ret <- journal_dirty_metadata handle (b_addr b) ;;
    Ret (Bh (b_addr b) (b_blocknr b) (b_mapped b) (b_freed b) true (b_dirty b), ret).

Definition do_journal_get_write_access (handle : Z) (b : buffer_head) : prog (buffer_head * Z) :=
  if handle =? 0 then Oops "handle->h_buffer_credits"
  else if negb (b_mapped b) || b_freed b then Ret (b, 0)
  else
    call! ret <- journal_get_write_access handle (b_addr b) ;;
    Ret (Bh (b_addr b) (b_blocknr b) (b_mapped b) (b_freed b) (b_uptodate b) false, ret).

(** Those of fs/jbd2 do not. *)
Definition jbd2_write_end_fn (handle : Z) (b : buffer_head) : prog (buffer_head * Z) :=
  if negb (b_mapped b) || b_freed b then Ret (b, 0)
  else
    call! ret <- journal_dirty_metadata handle (b_addr b) ;;
    Ret (Bh (b_addr b) (b_blocknr b) (b_mapped b) (b_freed b) true (b_dirty b), ret).

Definition jbd2_get_write_access (handle : Z) (b : buffer_head) : prog (buffer_head * Z) :=
  if negb (b_mapped b) || b_freed b then Ret (b, 0)
  else
    call! ret <- journal_get_write_access handle (b_addr b) ;;
    Ret (Bh (b_addr b) (b_blocknr b) (b_mapped b) (b_freed b) (b_uptodate b) false, ret).

(** ** The address space operations

    [example_journal] is the journal of the mount, [prepare] the buffers a
    page has after a successful [__block_write_begin] (which maps them with
    [example_get_block]), [pages] the page cache. *)
Section Operations.
Context (example_journal : Z) (prepare : page -> list buffer_head) (pages : Z -> page).

(** [example_journalled_writepage]: the return value and the page. *)
Definition writepage_with (credits : Z) (access end_fn : Z -> buffer_head -> prog (buffer_head * Z))
    (p : page) : prog (Z * page) :=
  if page_has_buffers p && negb (p_checked p) then
    call! ret <- block_write_full_page (p_addr p) ;; Ret (ret, p)
  else
    call! current <- journal_current_handle ;;
    if c_true current then Ret (0, p)
    else
      call! aborted <- kquery "is_journal_aborted" example_journal ;;
      if c_true aborted then Ret (- EROFS, p)
      else
        call! handle <- journal_start example_journal credits ;;
        if IS_ERR handle then Ret (handle, p)
        else
          let p1 := set_checked p false in
          call! ret <- block_write_begin (p_addr p) ;;
          if c_true ret then do! journal_stop handle ;; Ret (0, p1)
          else
            let! (ret, bs, _) <- walk_page_buffers (prepare p1) BLOCKSIZE 0 PAGE_CACHE_SIZE None (access handle) ;;
            let! (err, bs', _) <- walk_page_buffers bs BLOCKSIZE 0 PAGE_CACHE_SIZE None (end_fn handle) ;;
            let ret := if ret =? 0 then err else ret in
            do! unlock_page (p_addr p) ;;
            call! err <- journal_stop handle ;;
            Ret (if ret =? 0 then err else ret, set_buffers p1 bs').

Definition example_journalled_writepage : page -> prog (Z * page) :=
  writepage_with 4 do_journal_get_write_access write_end_fn.

Definition jbd2_writepage : page -> prog (Z * page) :=
  writepage_with 1 jbd2_get_write_access jbd2_write_end_fn.

Definition example_journalled_write_begin (pos : Z) : prog (Z * page) :=
  call! pg <- grab_cache_page_write_begin (Z.shiftr pos 12) ;;
  if pg =? 0 then Ret (- ENOMEM, pages pg)
  else
    call! current <- journal_current_handle ;;
    if c_true current then Ret (0, pages pg)
    else
      call! aborted <- kquery "is_journal_aborted" example_journal ;;
      if c_true aborted then Ret (- EROFS, pages pg)
      else
        call! handle <- journal_start example_journal 4 ;;
        if IS_ERR handle then Ret (handle, pages pg)
        else
          call! ret <- block_write_begin pg ;;
          if c_true ret then do! journal_stop handle ;; Ret (0, pages pg)
          else
            let! (ret, bs, _) <- walk_page_buffers (prepare (pages pg)) BLOCKSIZE 0 PAGE_CACHE_SIZE None
                                    (do_journal_get_write_access handle) ;;
            Ret (ret, set_buffers (pages pg) bs).

(** [example_journalled_write_end]: the return value, the page, [i_size]. *)
Definition example_journalled_write_end (pos len copied i_size : Z) (p : page) : prog (Z * page * Z) :=
  call! current <- journal_current_handle ;;
  let from := u32 (Z.land pos (PAGE_CACHE_SIZE - 1)) in
  let copied' := if (copied <? len) && negb (p_uptodate p) then 0 else copied in
  let! _ <- (if copied <? len then do! kquery "page_zero_new_buffers" (p_addr p) ;; Ret tt else Ret tt) ;;
  let to := if copied <? len then u32 (from + copied') else u32 (from + len) in
  let! (ret, bs, partial) <- walk_page_buffers (page_buffers p) BLOCKSIZE from to (Some false) (write_end_fn current) ;;
  let p1 := set_buffers p bs in
  let p2 := match partial with Some true => p1 | _ => set_page_uptodate p1 end in
  let i_size' := if i_size <? pos + copied' then pos + copied' else i_size in
  call! ret2 <- journal_stop current ;;
  let ret := if ret =? 0 then ret2 else ret in
  do! unlock_page (p_addr p) ;;
  do! page_cache_release (p_addr p) ;;
  Ret (if c_true ret then ret else s32 copied', p2, i_size').

(** [example_journalled_write_end111], which the table of operations does not
    name: the whole page is walked, and the page goes to
    [generic_write_end] after it was unlocked. *)
Definition example_journalled_write_end111 (pos len copied : Z) (p : page) : prog (Z * page) :=
  call! new_handle <- journal_current_handle ;;
  let! (err, bs, _) <- walk_page_buffers (page_buffers p) BLOCKSIZE 0 PAGE_CACHE_SIZE None (write_end_fn new_handle) ;;
  do! unlock_page (p_addr p) ;;
  do! journal_stop new_handle ;;
  call! ret <- generic_write_end (p_addr p) ;;
  Ret (ret, set_buffers p bs).

Definition example_journalled_set_page_dirty (p : page) : prog (Z * page) :=
  call! ret <- kquery "__set_page_dirty_nobuffers" (p_addr p) ;;
  Ret (ret, set_checked p true).

Definition example_releasepage (p : page) : prog Z :=
  if negb (page_has_buffers p) then Ret 0
  else call! ret <- kquery "journal_try_to_free_buffers" (p_addr p) ;; Ret ret.

(** [example_journal_sync_file]. *)
Definition example_journal_sync_file (inode : Z) : prog Z :=
  call! ret <- kquery "filemap_write_and_wait_range" inode ;;
  if c_true ret then Ret ret
  else
    call! ret <- journal_force_commit example_journal ;;
    call! err <- kquery "blkdev_issue_flush" inode ;;
    Ret (if ret =? 0 then err else ret).

(** One page of a buffered write, as the VFS performs it: [write_end] follows
    every [write_begin] that returned 0; [copied] of the [len] bytes reached
    the page. *)
Definition perform_write (pos len copied i_size : Z) : prog (Z * page * Z) :=
  let! (status, p) <- example_journalled_write_begin pos ;;
  if c_true status then Ret (status, p, i_size)
  else example_journalled_write_end pos len copied i_size p.

End Operations.

(** ** Lemmas *)
Definition at_ring (done rest : list buffer_head) : nat :=
  match rest with [] => O | _ => length done end.

Lemma walk_loop_spec fn bs from to rest done fuel partial :
  0 < bs -> (zlen done + zlen rest) * bs < 2 ^ 32 -> (length rest <= fuel)%nat ->
  (done <> [] \/ rest <> []) ->
  peq (walk_loop fn bs from to fuel (at_ring done rest) (zlen done * bs) 0 (done ++ rest) partial)
      (let! (r, rest', p) <- walk_spec fn bs from to (zlen done * bs) rest partial ;;
       Ret (Some (r, done ++ rest', p))).
Proof.
  intros Hbs. revert done fuel partial. induction rest as [|b rest IH]; intros done fuel partial Hb Hfuel Hne.
  { assert (zlen done * bs <> 0).
    { destruct done; [by destruct Hne|]. unfold zlen. cbn [length]. nia. }
    cbn [at_ring walk_spec bind]. destruct fuel; cbn; by rewrite (proj2 (Z.eqb_neq _ 0)). }
  destruct fuel as [|fuel]; [cbn in Hfuel; lia|].
  assert (negb (Nat.eqb (length done) 0) || (zlen done * bs =? 0) = true) as Hguard by (by destruct done).
  assert ((done ++ b :: rest) !! length done = Some b) as Hb' by (by apply list_lookup_middle).
  assert (zlen (done ++ [b]) = zlen done + 1) as Hz by (rewrite zlen_app; done).
  assert (zlen (b :: rest) = 1 + zlen rest) as Hr by (unfold zlen; cbn [length]; lia).
  pose proof (zlen_nonneg rest). pose proof (zlen_nonneg done).
  assert (u32 (zlen done * bs + bs) = zlen (done ++ [b]) * bs) as Hend.
  { rewrite Hz. unfold u32. rewrite wrapu_small; [ring|nia]. }
  assert ((if Nat.eqb (S (length done)) (length (done ++ b :: rest)) then O else S (length done)) =
          at_ring (done ++ [b]) rest) as Hnext.
  { rewrite !length_app. destruct rest; cbn [at_ring length]; rewrite ?length_app; cbn [length];
      match goal with |- context [Nat.eqb ?x ?y] => destruct (Nat.eqb_spec x y) end; lia. }
  assert (zlen done * bs + bs = zlen (done ++ [b]) * bs) as Hend' by (rewrite Hz; ring).
  cbn [walk_loop walk_spec]. change (at_ring done (b :: rest)) with (length done).
  rewrite Z.eqb_refl, Hguard, Hb', Hnext, Hend, Hend'. cbn [andb].
  destruct ((zlen (done ++ [b]) * bs <=? from) || (to <=? zlen done * bs)).
  - replace (done ++ b :: rest) with ((done ++ [b]) ++ rest) by (by rewrite <- app_assoc).
    rewrite IH; [|rewrite Hz; lia|cbn in Hfuel; lia|left; by destruct done].
    rewrite bind_assoc. f_equiv. intros [[r rest'] p]. cbn. by rewrite <- app_assoc.
  - rewrite bind_assoc. f_equiv. intros [b' err].
    rewrite insert_app_r_alt, Nat.sub_diag by lia. cbn [insert list_insert].
    unfold c_true. destruct (Z.eqb_spec err 0) as [->|He]; cbn [negb].
    + replace (done ++ b' :: rest) with ((done ++ [b']) ++ rest) by (by rewrite <- app_assoc).
      replace (at_ring (done ++ [b]) rest) with (at_ring (done ++ [b']) rest)
        by (destruct rest; cbn; rewrite ?length_app; done).
      replace (zlen (done ++ [b])) with (zlen (done ++ [b'])) by (by rewrite !zlen_app).
      rewrite IH; [|rewrite zlen_app; change (zlen [b']) with 1; lia|cbn in Hfuel; lia|left; by destruct done].
      rewrite bind_assoc. f_equiv. intros [[r rest'] p]. cbn. by rewrite <- app_assoc.
    + destruct fuel; cbn; rewrite (proj2 (Z.eqb_neq err 0) He); done.
Qed.

Lemma walk_page_buffers_spec bufs bs from to partial fn :
  bufs <> [] -> 0 < bs -> zlen bufs * bs < 2 ^ 32 ->
  peq (walk_page_buffers bufs bs from to partial fn) (walk_spec fn bs from to 0 bufs partial).
Proof.
  intros Hne Hbs Hb. destruct bufs as [|b bufs]; [done|].
  pose proof (walk_loop_spec fn bs from to (b :: bufs) [] (length (b :: bufs)) partial
    Hbs Hb ltac:(lia) ltac:(by right)) as H.
  change (zlen [] * bs) with 0 in H. change (at_ring [] (b :: bufs)) with O in H. cbn [app] in H.
  unfold walk_page_buffers. rewrite H, bind_assoc.
  transitivity (let! x <- walk_spec fn bs from to 0 (b :: bufs) partial ;; Ret x).
  - f_equiv. by intros [[r l] p].
  - generalize (walk_spec fn bs from to 0 (b :: bufs) partial). clear.
    induction p as [a|c k IH|w]; cbn; by constructor.
Qed.

(** The outcome of a walk whose function relates a buffer to its new state
    and its error by [R]. *)
Section Walked.
Context (R : buffer_head -> buffer_head -> Z -> Prop) (bs from to : Z).

Definition outside (start : Z) : bool := (start + bs <=? from) || (to <=? start).

Inductive walked : Z -> list buffer_head -> option bool -> Z -> list buffer_head -> option bool -> Prop :=
| walked_end start p : walked start [] p 0 [] p
| walked_skip start b rest p r rest' p' :
    outside start = true ->
    walked (start + bs) rest (option_map (fun q => q || negb (b_uptodate b)) p) r rest' p' ->
    walked start (b :: rest) p r (b :: rest') p'
| walked_err start b b' e rest p :
    outside start = false -> R b b' e -> e <> 0 -> walked start (b :: rest) p e (b' :: rest) p
| walked_go start b b' rest p r rest' p' :
    outside start = false -> R b b' 0 -> walked (start + bs) rest p r rest' p' ->
    walked start (b :: rest) p r (b' :: rest') p'.

(** The walk of a function that keeps the resources [h] and makes at most
    [cost] calls that [m] counts. *)
Lemma safe_walk_spec ok fn (m : trace -> Z) cost h :
  0 <= cost ->
  (forall b t, safe ok (fn b) t h (fun '(b', e) t' h' => h' = h /\ R b b' e /\ m t <= m t' <= m t + cost)) ->
  forall bufs start partial t,
    safe ok (walk_spec fn bs from to start bufs partial) t h (fun '(r, bufs', p) t' h' =>
      h' = h /\ walked start bufs partial r bufs' p /\ m t <= m t' <= m t + cost * zlen bufs).
Proof.
  intros Hc Hfn bufs. induction bufs as [|b rest IH]; intros start partial t; cbn [walk_spec].
  { split; [done|]. split; [constructor|]. change (zlen (@nil buffer_head)) with 0. lia. }
  assert (zlen (b :: rest) = 1 + zlen rest) as Hz by (unfold zlen; cbn [length]; lia).
  pose proof (zlen_nonneg rest).
  fold (outside start). destruct (outside start) eqn:E; apply safe_bind.
  - eapply safe_mono; [apply IH|]. intros [[r rest'] p] t' h' (-> & Hw & Hm). cbn.
    split; [done|]. split; [by constructor|nia].
  - eapply safe_mono; [apply Hfn|]. intros [b' err] t' h' (-> & HR & Hm). unfold c_true.
    destruct (Z.eqb_spec err 0) as [->|He]; cbn [negb].
    + apply safe_bind. eapply safe_mono; [apply IH|]. intros [[r rest'] p] t'' h'' (-> & Hw & Hm'). cbn.
      split; [done|]. split; [by eapply walked_go|nia].
    + cbn. split; [done|]. split; [by constructor|nia].
Qed.

Lemma safe_walk ok fn (m : trace -> Z) cost h bufs partial t Q :
  (forall b t, safe ok (fn b) t h (fun '(b', e) t' h' => h' = h /\ R b b' e /\ m t <= m t' <= m t + cost)) ->
  0 <= cost -> bufs <> [] -> 0 < bs -> zlen bufs * bs < 2 ^ 32 ->
  (forall r bufs' p t', walked 0 bufs partial r bufs' p -> m t <= m t' <= m t + cost * zlen bufs -> Q (r, bufs', p) t' h) ->
  safe ok (walk_page_buffers bufs bs from to partial fn) t h Q.
Proof.
  intros Hfn Hc Hne Hbs Hb HQ. eapply safe_peq; [by apply walk_page_buffers_spec|].
  eapply safe_mono; [by apply (safe_walk_spec ok fn m cost)|].
  intros [[r bufs'] p] t' h' (-> & Hw & Hm). by apply HQ.
Qed.

Lemma walked_length start bufs p r bufs' p' : walked start bufs p r bufs' p' -> length bufs' = length bufs.
Proof. induction 1; cbn; lia. Qed.

Lemma walked_ret start bufs p r bufs' p' :
  walked start bufs p r bufs' p' -> r = 0 \/ exists b b', R b b' r.
Proof. induction 1; eauto. Qed.

End Walked.

(** The calls of a run that take a credit of the handle. *)
Definition is_dirtying (x : kcall * Z) : bool :=
  match fst x with journal_dirty_metadata _ _ => true | _ => false end.
Definition dirtied (t : trace) : Z := zlen (List.filter is_dirtying t).

Lemma dirtied_snoc t c r :
  dirtied (t ++ [(c, r)]) = dirtied t + (if is_dirtying (c, r) then 1 else 0).
Proof.
  unfold dirtied. rewrite List.filter_app, zlen_app. f_equal. cbn. by destruct (is_dirtying (c, r)).
Qed.

(** The kernel of a run in which the page can be prepared. *)
Definition started (held : list res) (c : kcall) (r : Z) : Prop :=
  answers held c r /\
  match c with
  | kquery what _ => what = "is_journal_aborted"%string -> r = 0
  | journal_start _ _ | grab_cache_page_write_begin _ => 0 < r
  | block_write_begin _ => r = 0
  | _ => True
  end.

(** The same, with write access to every buffer. *)
Definition healthy (held : list res) (c : kcall) (r : Z) : Prop :=
  started held c r /\ match c with journal_get_write_access _ _ => r = 0 | _ => True end.

(** What the two functions do to a buffer. *)
Definition errno (e : Z) : Prop := -4095 <= e <= 0.
Definition access_rel (P : Z -> Prop) (b b' : buffer_head) (e : Z) : Prop :=
  b_mapped b' = b_mapped b /\ b_freed b' = b_freed b /\ b_uptodate b' = b_uptodate b /\ P e.
Definition end_rel (b b' : buffer_head) (e : Z) : Prop :=
  b_mapped b' = b_mapped b /\ b_freed b' = b_freed b /\ errno e /\
  (b_mapped b = true -> b_freed b = false -> b_uptodate b' = true).

(** The credits the transactions of a run have asked for. *)
Definition credits (t : trace) : Z :=
  foldr (fun x n => match fst x with journal_start _ k => k + n | _ => n end) 0 t.

Lemma credits_app t t' : credits (t ++ t') = credits t + credits t'.
Proof. unfold credits. induction t as [|[[] r] t IH]; cbn in *; rewrite ?IH; lia. Qed.

Lemma credits_snoc t c r :
  credits (t ++ [(c, r)]) = credits t + match c with journal_start _ k => k | _ => 0 end.
Proof. rewrite credits_app. f_equal. destruct c; cbn; lia. Qed.

(** The credits taken and not asked for: the measure of the walks below. *)
Definition overdraft (t : trace) : Z := dirtied t - credits t.

Lemma overdraft_snoc t c r :
  overdraft (t ++ [(c, r)]) = overdraft t +
    match c with journal_dirty_metadata _ _ => 1 | journal_start _ k => - k | _ => 0 end.
Proof. unfold overdraft. rewrite dirtied_snoc, credits_snoc. destruct c; cbn; lia. Qed.

Lemma end_fn_safe ok handle b t h :
  (forall held c r, ok held c r -> answers held c r) -> handle <> 0 ->
  safe ok (write_end_fn handle b) t h (fun '(b', e) t' h' =>
    h' = h /\ end_rel b b' e /\ overdraft t <= overdraft t' <= overdraft t + 1).
Proof.
  intros Hok Hh. unfold write_end_fn, end_rel, errno. rewrite (proj2 (Z.eqb_neq handle 0) Hh).
  destruct (b_mapped b) eqn:Em, (b_freed b) eqn:Ef; cbn [negb orb]; try (cbn; naive_solver lia).
  apply safe_call. intros r Hr%Hok. cbn in Hr. unfold settle. cbn. rewrite overdraft_snoc. cbn.
  destruct Hr; naive_solver lia.
Qed.

Lemma access_fn_safe ok (P : Z -> Prop) handle b t h :
  (forall held p q r, ok held (journal_get_write_access p q) r -> P r) -> P 0 -> handle <> 0 ->
  safe ok (do_journal_get_write_access handle b) t h (fun '(b', e) t' h' =>
    h' = h /\ access_rel P b b' e /\ overdraft t <= overdraft t' <= overdraft t + 0).
Proof.
  intros Hok HP Hh. unfold do_journal_get_write_access, access_rel. rewrite (proj2 (Z.eqb_neq handle 0) Hh).
  destruct (b_mapped b) eqn:Em, (b_freed b) eqn:Ef; cbn [negb orb]; try (cbn; naive_solver lia).
  apply safe_call. intros r Hr%Hok. unfold settle. cbn. rewrite overdraft_snoc. cbn. naive_solver lia.
Qed.

(** One call of a routine under [started] or [healthy]. *)
Ltac jcall :=
  let r := fresh "r" in let Hr := fresh "Hr" in
  apply safe_call; intros r Hr; unfold healthy, started in Hr;
  cbn [answers errno_or current_handle] in Hr; kred.

Lemma handle_ok r : 0 < r -> IS_ERR r = false.
Proof. intros. unfold IS_ERR. rewrite (proj2 (Z.leb_gt r (-1))) by lia. apply andb_false_r. Qed.

Lemma access_walk ok (P : Z -> Prop) handle bufs partial from to t h Q :
  (forall held p q r, ok held (journal_get_write_access p q) r -> P r) -> P 0 -> handle <> 0 ->
  length bufs = 4%nat ->
  (forall r bufs' p t', walked (access_rel P) BLOCKSIZE from to 0 bufs partial r bufs' p ->
     overdraft t' = overdraft t -> Q (r, bufs', p) t' h) ->
  safe ok (walk_page_buffers bufs BLOCKSIZE from to partial (do_journal_get_write_access handle)) t h Q.
Proof.
  intros Hok HP Hh Hl HQ. assert (zlen bufs = 4) as Hz by (unfold zlen; lia).
  apply (safe_walk (access_rel P) BLOCKSIZE from to ok _ overdraft 0); try (unfold BLOCKSIZE; lia).
  - intros b t'. by apply access_fn_safe.
  - by intros ->.
  - intros r bufs' p t' Hw Hm. apply HQ; [done|lia].
Qed.

Lemma end_walk ok handle bufs partial from to t h Q :
  (forall held c r, ok held c r -> answers held c r) -> handle <> 0 -> length bufs = 4%nat ->
  (forall r bufs' p t', walked end_rel BLOCKSIZE from to 0 bufs partial r bufs' p ->
     overdraft t' <= overdraft t + 4 -> Q (r, bufs', p) t' h) ->
  safe ok (walk_page_buffers bufs BLOCKSIZE from to partial (write_end_fn handle)) t h Q.
Proof.
  intros Hok Hh Hl HQ. assert (zlen bufs = 4) as Hz by (unfold zlen; lia).
  apply (safe_walk end_rel BLOCKSIZE from to ok _ overdraft 1); try (unfold BLOCKSIZE; lia).
  - intros b t'. by apply end_fn_safe.
  - by intros ->.
  - intros r bufs' p t' Hw Hm. apply HQ; [done|lia].
Qed.

Lemma writepage_safe j prepare p t base :
  current_handle base = 0 -> length (prepare (set_checked p false)) = 4%nat ->
  safe started (example_journalled_writepage j prepare p) t (RPageLock (p_addr p) :: base)
    (fun '(ret, p') t' h' => h' = base /\ errno ret /\ overdraft t' <= overdraft t).
Proof.
  intros Hb Hlen. unfold example_journalled_writepage, writepage_with, errno.
  destruct (page_has_buffers p && negb (p_checked p)).
  { jcall. apply safe_ret. rewrite overdraft_snoc. unfold errno_or in *. split; [done|]. cbn. lia. }
  jcall. destruct Hr as [Hr _]. rewrite Hb in Hr. subst r. cbn [negb Z.eqb].
  jcall. destruct Hr as [_ Hr]. rewrite (Hr eq_refl). cbn [negb Z.eqb].
  jcall. destruct Hr0 as [_ Hr0]. pose proof (handle_ok r0 Hr0) as Hok. kred.
  jcall. destruct Hr1 as [_ ->]. cbn [negb Z.eqb].
  apply safe_bind, (access_walk _ errno); [|unfold errno; lia|lia|done|].
  { intros held q1 q2 r1 [[?|?] _]; unfold errno; lia. }
  intros ret bs q t1 Hw Ht1. apply safe_bind, end_walk; [by intros ? ? ? [? _]|lia| |].
  { by rewrite (walked_length _ _ _ _ _ _ _ _ _ _ Hw). }
  intros err bs' q' t2 Hw' Ht2. jcall. jcall. destruct Hr2 as [Hr2 _]. apply safe_ret.
  rewrite !overdraft_snoc in *. split; [done|].
  assert (errno ret) by (destruct (walked_ret _ _ _ _ _ _ _ _ _ _ Hw) as [->|(? & ? & _ & _ & _ & ?)]; unfold errno in *; lia).
  assert (errno err) by (destruct (walked_ret _ _ _ _ _ _ _ _ _ _ Hw') as [->|(? & ? & _ & _ & ? & _)]; unfold errno in *; lia).
  unfold errno, errno_or in *.
  destruct (Z.eqb_spec ret 0), (Z.eqb_spec err 0); repeat (rewrite (proj2 (Z.eqb_neq _ 0)) by done); cbn; lia.
Qed.

(** [write_begin] when the page can be prepared: page and handle are held. *)
Lemma write_begin_safe j prepare pages pos t base Q :
  current_handle base = 0 -> (forall pg, length (prepare pg) = 4%nat) ->
  (forall pg h bs t', 0 < h -> overdraft t' = overdraft t - 4 ->
     walked (access_rel (eq 0)) BLOCKSIZE 0 PAGE_CACHE_SIZE 0 (prepare (pages pg)) None 0 bs None ->
     Q (0, set_buffers (pages pg) bs) t' (RHandle h :: RPageLock pg :: RPageRef pg :: base)) ->
  safe healthy (example_journalled_write_begin j prepare pages pos) t base Q.
Proof.
  intros Hb Hlen HQ. unfold example_journalled_write_begin.
  jcall. destruct Hr as [[_ Hr] _]. rewrite (proj2 (Z.eqb_neq r 0)) by lia. kred.
  jcall. destruct Hr0 as [[Hr0 _] _]. rewrite Hb in Hr0. subst r0. cbn [negb Z.eqb].
  jcall. destruct Hr0 as [[_ Hr0] _]. rewrite (Hr0 eq_refl). cbn [negb Z.eqb].
  jcall. destruct Hr1 as [[_ Hr1] _]. pose proof (handle_ok r1 Hr1) as Hok. kred.
  jcall. destruct Hr2 as [[_ ->] _]. cbn [negb Z.eqb].
  apply safe_bind, (access_walk _ (eq 0)); [|done|lia|done|].
  { by intros held q1 q2 r2 [_ ->]. }
  intros ret bs q t1 Hw Ht1. apply safe_ret.
  assert (ret = 0) as -> by (destruct (walked_ret _ _ _ _ _ _ _ _ _ _ Hw) as [?|(? & ? & _ & _ & _ & ?)]; congruence).
  assert (q = None) as ->.
  { clear -Hw. remember None as q0 in Hw at 1. induction Hw; subst; cbn in *; auto. }
  apply HQ; [done| |done]. rewrite !overdraft_snoc in Ht1. lia.
Qed.

(** All buffers are usable after the preparation, and access keeps it. *)
Definition usable (b : buffer_head) : Prop := b_mapped b = true /\ b_freed b = false.

Lemma access_usable P bs from to start bufs p r bufs' p' :
  walked (access_rel P) bs from to start bufs p r bufs' p' -> Forall usable bufs -> Forall usable bufs'.
Proof.
  induction 1 as [| |? ? ? ? ? ? ? HR|? ? ? ? ? ? ? ? ? HR]; intros Hu; inversion Hu; subst; constructor; auto;
    destruct HR as (E1 & E2 & _); unfold usable in *; rewrite E1, E2; done.
Qed.

(** A walk that succeeds leaves [partial] clear exactly when every buffer of
    the page is up to date. *)
Lemma end_walk_partial bs from to start bufs p r bufs' p' :
  walked end_rel bs from to start bufs p r bufs' p' -> r = 0 -> Forall usable bufs ->
  forall q, p = Some q ->
  exists q', p' = Some q' /\ (q' = false <-> q = false /\ Forall (fun b => b_uptodate b = true) bufs').
Proof.
  induction 1 as [|start b rest p r rest' p' _ Hw IH|start b b' e rest p _ HR He|start b b' rest p r rest' p' _ HR Hw IH];
    intros Hr Hu q Hq; [| |done|].
  - exists q. split; [done|]. split; [|naive_solver]. intros ->. by split; [|constructor].
  - inversion Hu; subst. edestruct IH as (q' & -> & Hq'); [done|done|reflexivity|].
    exists q'. split; [done|]. rewrite Hq', Forall_cons. destruct q, (b_uptodate b); cbn; naive_solver.
  - inversion Hu as [|? ? [Hm Hf] ?]; subst. edestruct IH as (q' & -> & Hq'); [done|done|reflexivity|].
    exists q'. split; [done|]. rewrite Hq', Forall_cons. destruct HR as (_ & _ & _ & Hup).
    rewrite (Hup Hm Hf). naive_solver.
Qed.

Lemma end_walk_inside bs from to start bufs p r bufs' p' :
  walked end_rel bs from to start bufs p r bufs' p' -> r = 0 -> Forall usable bufs ->
  forall k b, bufs' !! k = Some b -> outside bs from to (start + Z.of_nat k * bs) = false -> b_uptodate b = true.
Proof.
  induction 1 as [|start b rest p r rest' p' Ho Hw IH|start b b' e rest p _ HR He|start b b' rest p r rest' p' Ho HR Hw IH];
    intros Hr Hu k c Hk Hin; [done| |done|]; inversion Hu as [|? ? [Hm Hf] Hu']; subst; destruct k as [|k]; cbn in Hk.
  - replace (start + Z.of_nat 0 * bs) with start in Hin by lia. congruence.
  - apply (IH eq_refl Hu' k c Hk). rewrite <- Hin. f_equal. lia.
  - injection Hk as <-. destruct HR as (_ & _ & _ & Hup). auto.
  - apply (IH eq_refl Hu' k c Hk). rewrite <- Hin. f_equal. lia.
Qed.

(** The bytes [write_end] counts as written. *)
Definition counted (p : page) (len copied : Z) : Z :=
  if (copied <? len) && negb (p_uptodate p) then 0 else copied.

Lemma zero_new_buffers_safe copied len pg t h (Q : unit -> trace -> list res -> Prop) :
  (forall t', overdraft t' = overdraft t -> Q tt t' h) ->
  safe healthy (if copied <? len then do! kquery "page_zero_new_buffers" pg ;; Ret tt else Ret tt) t h Q.
Proof.
  intros HQ. destruct (copied <? len); [jcall|]; apply safe_ret, HQ; [|done].
  rewrite overdraft_snoc. cbn. lia.
Qed.

Lemma from_of_pos pos : 0 <= pos -> u32 (Z.land pos (PAGE_CACHE_SIZE - 1)) = pos mod PAGE_CACHE_SIZE.
Proof.
  intros. pose proof (Z.mod_pos_bound pos PAGE_CACHE_SIZE ltac:(done)).
  change (PAGE_CACHE_SIZE - 1) with (Z.ones 12). rewrite Z.land_ones by lia. unfold u32.
  change (2 ^ 12) with PAGE_CACHE_SIZE. rewrite wrapu_small; unfold PAGE_CACHE_SIZE in *; lia.
Qed.

Lemma write_end_safe pos len copied i_size p h t base :
  0 < h -> length (page_buffers p) = 4%nat -> Forall usable (page_buffers p) ->
  0 <= pos -> 0 <= copied <= len -> pos mod PAGE_CACHE_SIZE + len <= PAGE_CACHE_SIZE ->
  safe healthy (example_journalled_write_end pos len copied i_size p) t
    (RHandle h :: RPageLock (p_addr p) :: RPageRef (p_addr p) :: base)
    (fun '(ret, p', i_size') t' h' =>
       h' = base /\ overdraft t' <= overdraft t + 4 /\
       (ret = counted p len copied \/ -4095 <= ret < 0) /\
       i_size' = Z.max i_size (pos + counted p len copied) /\ p_addr p' = p_addr p /\
       (0 <= ret ->
          (p_uptodate p' = true <-> p_uptodate p = true \/ Forall (fun b => b_uptodate b = true) (page_buffers p')) /\
          forall k b, page_buffers p' !! k = Some b ->
            outside BLOCKSIZE (pos mod PAGE_CACHE_SIZE) (pos mod PAGE_CACHE_SIZE + counted p len copied)
              (Z.of_nat k * BLOCKSIZE) = false -> b_uptodate b = true)).
Proof.
  intros Hh Hlen Hus Hpos Hcp Hin. unfold example_journalled_write_end. fold (counted p len copied).
  assert (0 <= counted p len copied <= len) as Hc.
  { unfold counted. destruct ((copied <? len) && negb (p_uptodate p)); lia. }
  pose proof (Z.mod_pos_bound pos PAGE_CACHE_SIZE ltac:(done)).
  rewrite from_of_pos by done. set (from := pos mod PAGE_CACHE_SIZE) in *.
  assert ((if copied <? len then u32 (from + counted p len copied) else u32 (from + len)) = from + counted p len copied) as Hto.
  { unfold PAGE_CACHE_SIZE, u32 in *. destruct (Z.ltb_spec copied len) as [L|L].
    - rewrite wrapu_small; lia.
    - unfold counted. rewrite (proj2 (Z.ltb_ge _ _) L). cbn. rewrite wrapu_small; lia. }
  rewrite Hto. jcall. destruct Hr as [[Hr _] _]. cbn [current_handle] in Hr. subst r.
  apply safe_bind, zero_new_buffers_safe. intros t1 Ht1. rewrite overdraft_snoc in Ht1.
  apply safe_bind, end_walk; [by intros ? ? ? [[? _] _]|lia|done|].
  intros ret bs q t2 Hw Ht2. jcall. jcall. jcall. destruct Hr as [[Hr _] _]. apply safe_ret.
  rewrite !overdraft_snoc. split; [done|]. split; [lia|].
  assert (errno ret) as He by (destruct (walked_ret _ _ _ _ _ _ _ _ _ _ Hw) as [->|(? & ? & _ & _ & ? & _)]; unfold errno in *; lia).
  assert (s32 (counted p len copied) = counted p len copied) as Hs.
  { unfold s32. apply wraps_small; unfold PAGE_CACHE_SIZE in *; lia. }
  rewrite Hs. unfold errno, errno_or in *. split.
  { destruct (Z.eqb_spec ret 0) as [->|], (Z.eqb_spec r 0) as [->|]; cbn [negb];
      rewrite ?(proj2 (Z.eqb_neq ret 0)) by done; cbn [negb]; lia. }
  split; [destruct (Z.ltb_spec i_size (pos + counted p len copied)); lia|].
  split; [by destruct q as [[]|]|]. intros Hret.
  assert (ret = 0) as ->.
  { destruct (Z.eqb_spec ret 0); [done|]. rewrite (proj2 (Z.eqb_neq ret 0)) in Hret by done. cbn in Hret. lia. }
  destruct (end_walk_partial _ _ _ _ _ _ _ _ _ Hw eq_refl Hus false eq_refl) as (q' & -> & Hq').
  split.
  - destruct q'; cbn; [|intuition]. split; [by left|]. intros [?|Hall]; [done|].
    assert (true = false) by (by apply Hq'). done.
  - intros k b Hk Hout. apply (end_walk_inside _ _ _ _ _ _ _ _ _ Hw eq_refl Hus k b); [by destruct q'|done].
Qed.

Lemma good_started : obeys started good_oracle.
Proof.
  intros t held c. split; [apply good_oracle_conforming|]. pose proof (top_nonneg held).
  destruct c; cbn; try done; lia.
Qed.

Lemma good_healthy : obeys healthy good_oracle.
Proof. intros t held c. split; [apply good_started|]. by destruct c. Qed.

(** ** Properties *)

(** C12: The loop of [walk_page_buffers] around the ring of buffers ends, and
    does what a walk is for: with every kernel, it makes the calls, gives the
    result, the buffers and the [partial] flag of the recursive [walk_spec]
    (the function on the buffers that overlap the range, in order, up to the
    first error; [partial] for a skipped buffer that is not up to date). *)
Theorem journal_walk_equiv bufs blocksize from to partial fn o t h :
  bufs <> [] -> 0 < blocksize -> zlen bufs * blocksize < 2 ^ 32 ->
  run o t h (walk_page_buffers bufs blocksize from to partial fn) =
  run o t h (walk_spec fn blocksize from to 0 bufs partial).
Proof. intros Hne Hbs Hb. by rewrite walk_page_buffers_spec. Qed.

(** C36: When the page can be prepared, [writepage] of fs/journal ends with the
    page unlocked and its handle stopped, returns 0 or an error, and dirties
    no more buffers in the transaction than it asked credits for. *)
Theorem journal_writepage_safe j prepare p base o :
  current_handle base = 0 -> length (prepare (set_checked p false)) = 4%nat -> obeys started o ->
  exists ret p' t', run o [] (RPageLock (p_addr p) :: base) (example_journalled_writepage j prepare p) =
    Fin (ret, p') t' base /\ errno ret /\ dirtied t' <= credits t'.
Proof.
  intros Hb Hl Ho. destruct (safe_run _ o _ [] _ _ Ho (writepage_safe j prepare p [] base Hb Hl))
    as ([ret p'] & t' & h' & Hrun & -> & He & Hd).
  exists ret, p', t'. split; [done|]. split; [done|]. change (overdraft []) with 0 in Hd. unfold overdraft in Hd. lia.
Qed.

(** C11: A buffered write through [write_begin] and [write_end] of fs/journal
    whose preparation succeeds ([healthy]: the page and the handle are got,
    the blocks are mapped and read and the journal gives write access to
    them; what happens otherwise is [journal_exits_keep_page] and
    [journal_prepare_error_oops]), with whatever the later calls answer,
    gives back the handle, the page lock and the page, returns the number of
    bytes that count as written or an error, and extends [i_size] to the end
    of them.  When it succeeds the written buffers are up to date, the page
    is marked so exactly when all its buffers are (or it was before), and the
    transaction had the credits. *)
Theorem journal_write_cycle j prepare pages pos len copied i_size base o :
  current_handle base = 0 ->
  (forall pg, length (prepare pg) = 4%nat /\ Forall usable (prepare pg)) -> (forall a, p_addr (pages a) = a) ->
  0 <= pos -> 0 <= copied <= len -> pos mod PAGE_CACHE_SIZE + len <= PAGE_CACHE_SIZE -> obeys healthy o ->
  exists ret p t', run o [] base (perform_write j prepare pages pos len copied i_size) =
      Fin (ret, p, Z.max i_size (pos + counted (pages (p_addr p)) len copied)) t' base /\
    (ret = counted (pages (p_addr p)) len copied \/ -4095 <= ret < 0) /\ dirtied t' <= credits t' /\
    (0 <= ret ->
       (p_uptodate p = true <->
          p_uptodate (pages (p_addr p)) = true \/ Forall (fun b => b_uptodate b = true) (page_buffers p)) /\
       forall k b, page_buffers p !! k = Some b ->
         outside BLOCKSIZE (pos mod PAGE_CACHE_SIZE) (pos mod PAGE_CACHE_SIZE + counted (pages (p_addr p)) len copied)
           (Z.of_nat k * BLOCKSIZE) = false -> b_uptodate b = true).
Proof.
  intros Hb Hprep Haddr Hpos Hcp Hin Ho.
  assert (safe healthy (perform_write j prepare pages pos len copied i_size) [] base
    (fun '(ret, p, sz) t' h' => h' = base /\ sz = Z.max i_size (pos + counted (pages (p_addr p)) len copied) /\
       (ret = counted (pages (p_addr p)) len copied \/ -4095 <= ret < 0) /\ dirtied t' <= credits t' /\
       (0 <= ret ->
         (p_uptodate p = true <->
            p_uptodate (pages (p_addr p)) = true \/ Forall (fun b => b_uptodate b = true) (page_buffers p)) /\
         forall k b, page_buffers p !! k = Some b ->
           outside BLOCKSIZE (pos mod PAGE_CACHE_SIZE) (pos mod PAGE_CACHE_SIZE + counted (pages (p_addr p)) len copied)
             (Z.of_nat k * BLOCKSIZE) = false -> b_uptodate b = true))) as Hs.
  { apply safe_bind, write_begin_safe; [done|intros pg; apply Hprep|].
    intros pg h bs t' Hh Ht Hw. cbn [c_true Z.eqb negb].
    rewrite <- (Haddr pg) at 2 3. change (p_addr (pages pg)) with (p_addr (set_buffers (pages pg) bs)).
    eapply safe_mono; [apply write_end_safe; try done|].
    - cbn. by rewrite (walked_length _ _ _ _ _ _ _ _ _ _ Hw), (proj1 (Hprep _)).
    - cbn. eapply access_usable; [done|apply Hprep].
    - intros [[ret p'] sz] t'' h'' (-> & Hd & Hret & -> & Ha & Hup). cbn [p_addr set_buffers] in Ha.
      rewrite Haddr in Ha. subst pg. change (overdraft []) with 0 in Ht. unfold overdraft in *.
      split; [done|]. split; [done|]. split; [done|]. split; [lia|done]. }
  destruct (safe_run _ o _ [] _ _ Ho Hs) as ([[ret p] sz] & t' & h' & Hrun & -> & -> & Hret & Hd & Hup).
  by exists ret, p, t'.
Qed.

(** A page cache whose pages get four mapped buffers, the last one up to
    date, when they are prepared. *)
Definition demo_bufs : list buffer_head :=
  [Bh 1 0 true false false true; Bh 2 0 true false false false; Bh 3 0 true false false false; Bh 4 0 true false true false].
Definition demo_prepare (_ : page) : list buffer_head := demo_bufs.
Definition demo_pages (a : Z) : page := Page a false false [].

Lemma journal_walk_equiv_witness :
  run good_oracle [] [] (walk_page_buffers demo_bufs BLOCKSIZE 1500 2100 (Some false) (write_end_fn 9)) =
  Fin (0, [Bh 1 0 true false false true; Bh 2 0 true false true false; Bh 3 0 true false true false; Bh 4 0 true false true false], Some true)
    [(journal_dirty_metadata 9 2, 0); (journal_dirty_metadata 9 3, 0)] [].
Proof. rewrite (journal_walk_equiv demo_bufs BLOCKSIZE 1500 2100 (Some false) (write_end_fn 9)) by done. reflexivity. Defined.

Lemma journal_writepage_safe_witness :
  exists ret p' t', run good_oracle [] [RPageLock 5] (example_journalled_writepage 8 demo_prepare (demo_pages 5)) =
    Fin (ret, p') t' [] /\ errno ret /\ dirtied t' <= credits t'.
Proof. exact (journal_writepage_safe 8 demo_prepare (demo_pages 5) [] good_oracle eq_refl eq_refl good_started). Defined.

Lemma journal_write_cycle_witness :
  exists p t', run good_oracle [] [] (perform_write 8 demo_prepare demo_pages 8192 100 100 0) = Fin (100, p, 8292) t' [].
Proof.
  destruct (journal_write_cycle 8 demo_prepare demo_pages 8192 100 100 0 [] good_oracle eq_refl) as (ret & p & t' & H & _).
  - intros pg. split; [reflexivity|]. repeat constructor.
  - reflexivity.
  - lia.
  - lia.
  - vm_compute. discriminate.
  - exact good_healthy.
  - vm_compute in H. injection H as <- <- <-. eexists _, _. vm_compute. reflexivity.
Defined.

(** A walk of [write_end_fn] over any part of a page without a handle. *)
Lemma null_walk bufs from n partial o t h :
  length bufs = 4%nat -> 0 <= from -> 0 < n -> from + n <= PAGE_CACHE_SIZE ->
  run o t h (walk_page_buffers bufs BLOCKSIZE from (from + n) partial (write_end_fn 0)) =
  Fault "handle->h_buffer_credits" t h.
Proof.
  intros Hl Hf Hn Hp. unfold PAGE_CACHE_SIZE in Hp.
  rewrite walk_page_buffers_spec; [|by intros ->|done|unfold zlen; rewrite Hl; done].
  unfold BLOCKSIZE. destruct bufs as [|b1 [|b2 [|b3 [|b4 [|]]]]]; try done. clear Hl.
  cbn [walk_spec]. set (x1 := 0 + 1024). set (x2 := x1 + 1024). set (x3 := x2 + 1024). set (x4 := x3 + 1024).
  assert (x1 = 1024 /\ x2 = 2048 /\ x3 = 3072 /\ x4 = 4096) as (-> & -> & -> & ->) by (subst x1 x2 x3 x4; lia).
  repeat match goal with
  | |- context [(?a <=? from) || (from + n <=? ?b)] =>
      destruct (Z.leb_spec a from), (Z.leb_spec (from + n) b); try lia; cbn [orb];
      [repeat apply run_bind_fault|repeat apply run_bind_fault; reflexivity]
  end.
  rewrite (proj2 (Z.leb_gt 4096 from)), (proj2 (Z.leb_gt (from + n) 3072)) by lia. reflexivity.
Qed.

(** One call of a run. *)
Ltac rcall := cbn [run bind]; unfold settle; cbn [releases acquires drops drop_all give_back_all app run bind c_true negb Z.eqb].

(** [write_begin] of fs/journal returns 0 when [__block_write_begin]
    failed (any error, on a journal that is not aborted), with the handle
    already stopped: the write goes on, and [write_end] dereferences the NULL
    handle of the task. *)
Theorem journal_prepare_error_oops j prepare pages pos len i_size e o t base :
  current_handle base = 0 -> obeys answers o -> e <> 0 ->
  (forall t h i, 0 < o t h (grab_cache_page_write_begin i)) ->
  (forall t h x, o t h (kquery "is_journal_aborted" x) = 0) -> (forall t h x n, 0 < o t h (journal_start x n)) ->
  (forall t h p, o t h (block_write_begin p) = e) -> (forall a, length (page_buffers (pages a)) = 4%nat) ->
  0 <= pos -> 0 < len -> pos mod PAGE_CACHE_SIZE + len <= PAGE_CACHE_SIZE ->
  exists t' pg, run o t base (perform_write j prepare pages pos len len i_size) =
    Fault "handle->h_buffer_credits" t' (RPageLock pg :: RPageRef pg :: base).
Proof.
  intros Hb Ho He Hgrab Habort Hstart Hprep Hbufs Hpos Hlen Hin.
  assert (forall t h, o t h journal_current_handle = current_handle h) as Hcur by (intros t0 h0; apply (Ho t0 h0 journal_current_handle)).
  assert (c_true e = true) as Hce by (unfold c_true; by rewrite (proj2 (Z.eqb_neq e 0) He)).
  unfold perform_write, example_journalled_write_begin, settle. rcall.
  pose proof (Hgrab t base (Z.shiftr pos 12)) as Hpg. set (pg := o t base _) in *.
  rewrite (proj2 (Z.eqb_neq pg 0)) by lia. rcall. rewrite Hcur. cbn [current_handle]. rewrite Hb. rcall.
  rewrite Habort. rcall. set (t1 := _ ++ [(journal_current_handle, 0)]).
  match goal with |- context [o ?t2 ?h2 (journal_start j 4)] =>
    pose proof (Hstart t2 h2 j 4) as Hh; set (hd := o t2 h2 (journal_start j 4)) in * end.
  rewrite (handle_ok hd Hh). rcall. rewrite (handle_ok hd Hh). rcall. rewrite Hprep, Hce. rcall.
  rewrite give_back_head. match goal with |- context [run o ?T _ (example_journalled_write_end _ _ _ _ _)] => generalize T end.
  intros T. unfold example_journalled_write_end. rcall. rewrite Hcur. cbn [current_handle]. rewrite Hb, Z.ltb_irrefl. rcall.
  rewrite from_of_pos by done. pose proof (Z.mod_pos_bound pos PAGE_CACHE_SIZE ltac:(done)).
  replace (u32 (pos mod PAGE_CACHE_SIZE + len)) with (pos mod PAGE_CACHE_SIZE + len)
    by (unfold u32, PAGE_CACHE_SIZE in *; rewrite wrapu_small; lia).
  do 2 eexists. apply run_bind_fault, null_walk; [by apply Hbufs|lia..].
Qed.

(** A kernel in which preparing a page fails with [-EIO]. *)
Definition io_error : oracle := fun t h c =>
  match c with block_write_begin _ => - EIO | _ => good_oracle t h c end.

Lemma io_error_conforming : conforming io_error.
Proof.
  intros t h c. pose proof (good_oracle_conforming t h c) as H. destruct c; try exact H. left. done.
Qed.

Lemma journal_prepare_error_oops_witness :
  exists t' pg, run io_error [] [] (perform_write 8 demo_prepare (fun a => Page a false false demo_bufs) 8192 100 100 0) =
    Fault "handle->h_buffer_credits" t' [RPageLock pg; RPageRef pg].
Proof.
  apply (journal_prepare_error_oops 8 demo_prepare (fun a => Page a false false demo_bufs) 8192 100 0 (- EIO) io_error [] []);
    try done; try exact io_error_conforming; intros; cbn -[top]; pose proof (top_nonneg h); lia.
Defined.

(** The early exits of fs/journal keep what they hold: [writepage]
    returns with the page locked when the task runs a handle, when the
    journal is aborted, when no handle can be started and when the page
    cannot be prepared (the last with success), and [write_begin] that fails
    keeps the page it locked and, when a buffer cannot be journalled, the
    handle too. *)
Theorem journal_exits_keep_page :
  run good_oracle [] [RPageLock 5; RHandle 7] (example_journalled_writepage 8 demo_prepare (demo_pages 5)) =
    Fin (0, demo_pages 5) [(journal_current_handle, 7)] [RPageLock 5; RHandle 7] /\
  (exists t', run (failing_oracle 1 1) [] [RPageLock 5] (example_journalled_writepage 8 demo_prepare (demo_pages 5)) =
    Fin (- EROFS, demo_pages 5) t' [RPageLock 5]) /\
  (exists t', run (failing_oracle 2 (- ENOMEM)) [] [RPageLock 5] (example_journalled_writepage 8 demo_prepare (demo_pages 5)) =
    Fin (- ENOMEM, demo_pages 5) t' [RPageLock 5]) /\
  (exists t', run io_error [] [RPageLock 5] (example_journalled_writepage 8 demo_prepare (demo_pages 5)) =
    Fin (0, demo_pages 5) t' [RPageLock 5]) /\
  (exists p t' pg, run (failing_oracle 3 (- ENOMEM)) [] [] (perform_write 8 demo_prepare demo_pages 0 100 100 0) =
    Fin (- ENOMEM, p, 0) t' [RPageLock pg; RPageRef pg]) /\
  (exists h p t' pg, run (failing_oracle 5 (- EIO)) [] [] (perform_write 8 demo_prepare demo_pages 0 100 100 0) =
    Fin (- EIO, p, 0) t' [RHandle h; RPageLock pg; RPageRef pg]).
Proof. repeat split; repeat eexists; vm_compute; reflexivity. Qed.

(** [writepage] of fs/jbd2 asks for one credit and dirties the four
    buffers of the page in it. *)
Theorem jbd2_exceeds_credits :
  exists p' t', run good_oracle [] [RPageLock 5] (jbd2_writepage 8 demo_prepare (demo_pages 5)) = Fin (0, p') t' [] /\
    credits t' = 1 /\ dirtied t' = 4.
Proof. do 2 eexists. split; [vm_compute; reflexivity|]. split; reflexivity. Qed.

(** The other version of [write_end], which nothing uses, hands
    [generic_write_end] a page it has unlocked. *)
Theorem journal_write_end111_unlocks_twice :
  exists t, run good_oracle [] [RHandle 7; RPageLock 5; RPageRef 5]
      (example_journalled_write_end111 0 100 100 (Page 5 false false demo_bufs)) =
    Misuse (generic_write_end 5) t [RPageRef 5].
Proof. eexists. vm_compute. reflexivity. Qed.
