(* ===== verification/FsRead.v ===== *)
(** * Files of three bytes: fs/min_read/file.c and fs/sb_bread/read.c

    Both file systems have one file of size 3 and a [read] of their own:
    min_read serves the constant 123, sb_bread the first bytes of block 0 of
    the device.  fs/block_page_read/read.c is in [BioRead]. *)
From stdpp Require Import strings.
From S2P Require Import Prelude Kernel.
Local Open Scope Z_scope.

(** What a read returns, the position it leaves, and the bytes that reached
    the user ([left] of them did not: the answer of [copy_to_user], which
    the code ignores). *)
Record transfer := Transfer { ret : Z; pos : Z; delivered : list Z }.

(** [copy_to_user] of [len] bytes of [src]; [None]: beyond [src]. *)
Definition to_user (src : list Z) (len left : Z) : option (list Z) :=
  bytes ← rd src 0 len; Some (take (Z.to_nat (len - left)) bytes).

(** [real_len] and the minimum; all in [size_t]. *)
Definition clamp (len pp : Z) : Z :=
  let real_len := u64 (3 - pp) in if real_len <? len then real_len else len.

(** ** fs/min_read/file.c *)
Module MinRead.

(** String constants have a terminating NUL. *)
Definition text (s : string) : list Z := str s ++ [0].

Definition example_read (len pp left : Z) : option transfer :=
  if 3 <? pp then Some (Transfer 0 pp [])
  else
    let len := clamp len pp in
    bytes ← (if pp =? 0 then to_user (text "123") len left
             else if pp =? 1 then to_user (text "23") len left
             else if pp =? 2 then to_user (text "3") len left
             else Some []);
    Some (Transfer (s64 len) (s64 (pp + len)) bytes).
End MinRead.

(** ** fs/sb_bread/read.c *)
Module SbBread.

(** The copy from [buffer]: whatever the position, it starts at its first
    byte. *)
Definition read_tail (buffer : list Z) (len pp left : Z) : option transfer :=
  if 3 <? pp then Some (Transfer 0 pp [])
  else
    let len := clamp len pp in
    bytes ← (if (pp =? 0) || (pp =? 1) || (pp =? 2) then to_user buffer len left else Some []);
    Some (Transfer (s64 len) (s64 (pp + len)) bytes).

(** [b_data]: the 4096 bytes from the data of the buffer of block 0 on; the
    block itself is 1024 bytes long. *)
Definition example_read (sb : Z) (b_data : list Z) (len pp left : Z) : prog (option transfer) :=
  call! bh <- sb_bread sb 0 1024 ;;
  if bh =? 0 then Oops "bh->b_data of NULL bh"
  else
    match rd b_data 0 4096 with
    | None => Oops "memcpy past the page of the buffer"
    | Some buffer => Ret (read_tail buffer len pp left)
    end.
End SbBread.

(** ** A program that reads a file piece by piece *)
Fixpoint read_pieces (read : Z -> Z -> option transfer) (lens : list Z) (pp : Z) (got : list Z) : option (Z * list Z) :=
  match lens with
  | [] => Some (pp, got)
  | len :: rest => t ← read len pp; read_pieces read rest (pos t) (got ++ delivered t)
  end.

(** ** Lemmas *)
Definition zsum (l : list Z) : Z := foldr Z.add 0 l.

Lemma zsum_nonneg l : Forall (fun x => 0 <= x) l -> 0 <= zsum l.
Proof. unfold zsum. induction 1; cbn [foldr]; lia. Qed.

Lemma clamp_spec len pp : 0 <= len -> 0 <= pp <= 3 -> clamp len pp = Z.min len (3 - pp).
Proof.
  intros Hl Hp. unfold clamp. rewrite u64_small by lia. destruct (Z.ltb_spec (3 - pp) len); lia.
Qed.

(** One read of min_read within the file: the bytes from the position on. *)
Lemma min_read_step len pp :
  0 <= len < 2 ^ 63 -> 0 <= pp <= 3 ->
  MinRead.example_read len pp 0 =
  Some (Transfer (Z.min len (3 - pp)) (Z.min (pp + len) 3) (sl (str "123") pp (Z.min len (3 - pp)))).
Proof.
  intros Hl Hp. unfold MinRead.example_read. rewrite (proj2 (Z.ltb_ge 3 pp)) by lia.
  rewrite clamp_spec by lia. set (n := Z.min len (3 - pp)).
  assert (0 <= n <= 3 - pp) as Hn by lia. assert (n = 0 \/ n = 1 \/ n = 2 \/ n = 3) as Hc by lia.
  replace (Z.min (pp + len) 3) with (pp + n) by lia. rewrite !s64_small by lia. clearbody n. clear Hl len.
  assert (pp = 0 \/ pp = 1 \/ pp = 2 \/ pp = 3) as [->|[->|[->| ->]]] by lia;
    destruct Hc as [->|[->|[->| ->]]]; try lia; reflexivity.
Qed.

Lemma sl_split (l : list Z) a n m : 0 <= a -> 0 <= n -> 0 <= m -> sl l a n ++ sl l (a + n) m = sl l a (n + m).
Proof. intros. by rewrite sl_app. Qed.

(** ** Properties *)

(** However a program cuts its reads, min_read delivers the file: reads
    of any sizes from position 0 give the first bytes of 123, in order and
    once, and stop at the end of the file. *)
Theorem min_read_pieces lens :
  Forall (fun len => 0 <= len < 2 ^ 63) lens ->
  read_pieces (fun len pp => MinRead.example_read len pp 0) lens 0 [] =
  Some (Z.min (zsum lens) 3, sl (str "123") 0 (Z.min (zsum lens) 3)).
Proof.
  intros Hl.
  assert (forall pp, 0 <= pp <= 3 ->
    read_pieces (fun len pp => MinRead.example_read len pp 0) lens pp (sl (str "123") 0 pp) =
    Some (Z.min (pp + zsum lens) 3, sl (str "123") 0 (Z.min (pp + zsum lens) 3))) as H; [|by apply (H 0)].
  induction Hl as [|len lens Hlen Hl IH]; intros pp Hp; cbn [read_pieces zsum foldr].
  - by rewrite Z.add_0_r, Z.min_l by lia.
  - assert (0 <= zsum lens) by (apply zsum_nonneg; eapply Forall_impl; [exact Hl|cbn; lia]).
    rewrite min_read_step by lia. cbn [mbind option_bind pos delivered].
    assert (sl (str "123") 0 pp ++ sl (str "123") pp (Z.min len (3 - pp)) = sl (str "123") 0 (Z.min (pp + len) 3)) as ->.
    { pose proof (sl_split (str "123") 0 pp (Z.min len (3 - pp)) ltac:(lia) ltac:(lia) ltac:(lia)) as E.
      rewrite Z.add_0_l in E. rewrite E. f_equal. lia. }
    rewrite IH by lia. change (foldr Z.add 0 lens) with (zsum lens).
    replace (Z.min (Z.min (pp + len) 3 + zsum lens) 3) with (Z.min (pp + (len + zsum lens)) 3) by lia. done.
Qed.

Lemma min_read_pieces_witness :
  read_pieces (fun len pp => MinRead.example_read len pp 0) [1; 0; 1; 4096] 0 [] = Some (3, str "123").
Proof. rewrite (min_read_pieces [1; 0; 1; 4096]); [reflexivity|repeat constructor; lia]. Defined.

(** A read of sb_bread inside the file starts at the first byte of the
    device, not at the position: only a file read in one piece is right. *)
Lemma sb_tail_step buffer len pp :
  0 <= len < 2 ^ 63 -> 0 <= pp <= 3 -> zlen buffer = 4096 ->
  SbBread.read_tail buffer len pp 0 =
  Some (Transfer (Z.min len (3 - pp)) (Z.min (pp + len) 3) (sl buffer 0 (Z.min len (3 - pp)))).
Proof.
  intros Hl Hp Hb. unfold SbBread.read_tail. rewrite (proj2 (Z.ltb_ge 3 pp)) by lia.
  rewrite clamp_spec by lia. set (n := Z.min len (3 - pp)). replace (Z.min (pp + len) 3) with (pp + n) by lia.
  rewrite !s64_small by lia. unfold to_user. rewrite rd_ok by lia. cbn [mbind option_bind].
  destruct (Z.eqb_spec pp 0), (Z.eqb_spec pp 1), (Z.eqb_spec pp 2); cbn [orb];
    try (rewrite Z.sub_0_r, take_ge; [done|]; pose proof (zlen_sl buffer 0 n ltac:(lia) ltac:(lia) ltac:(lia)) as E;
         unfold zlen in E; lia).
  assert (n = 0) as -> by lia. done.
Qed.

(** One read of at least three bytes of sb_bread delivers the first three
    bytes of the device; a program that reads byte by byte gets the first
    byte three times.  Every read keeps the buffer it has read from. *)
Theorem sb_bread_ignores_position o sb b_data len t held :
  conforming o -> (forall t h, o t h (sb_bread sb 0 1024) <> 0) -> zlen b_data = 4096 -> 3 <= len < 2 ^ 63 ->
  (exists t' bh, run o t held (SbBread.example_read sb b_data len 0 0) =
     Fin (Some (Transfer 3 3 (sl b_data 0 3))) t' (RBuffer bh :: held)) /\
  read_pieces (fun n pp => SbBread.read_tail b_data n pp 0) [1; 1; 1] 0 [] =
    Some (3, sl b_data 0 1 ++ sl b_data 0 1 ++ sl b_data 0 1).
Proof.
  intros Ho Hbh Hb Hl. split.
  - unfold SbBread.example_read. cbn [run]. unfold settle. cbn [releases acquires drops give_back_all drop_all].
    rewrite (proj2 (Z.eqb_neq _ 0) (Hbh t held)). rewrite rd_ok by lia. cbn [run].
    rewrite sl_full by done. rewrite sb_tail_step by lia. replace (Z.min len (3 - 0)) with 3 by lia.
    replace (Z.min (0 + len) 3) with 3 by lia. by do 2 eexists.
  - cbn [read_pieces]. rewrite sb_tail_step by lia. cbn [mbind option_bind pos delivered].
    rewrite sb_tail_step by lia. cbn [mbind option_bind pos delivered].
    rewrite sb_tail_step by lia. cbn [mbind option_bind pos delivered]. by rewrite <- app_assoc.
Qed.

Definition demo_block : list Z := str "ABC" ++ replicate 4093 0.

Lemma sb_bread_ignores_position_witness :
  (exists t' bh, run good_oracle [] [] (SbBread.example_read 1 demo_block 10 0 0) =
     Fin (Some (Transfer 3 3 (str "ABC"))) t' [RBuffer bh]) /\
  read_pieces (fun n pp => SbBread.read_tail demo_block n pp 0) [1; 1; 1] 0 [] = Some (3, str "AAA").
Proof.
  apply (sb_bread_ignores_position good_oracle 1 demo_block 10 [] [] good_oracle_conforming); [|reflexivity|lia].
  intros t h H. pose proof (top_nonneg h). cbn in H. lia.
Defined.

(** A device whose block 0 cannot be read makes the read dereference NULL. *)
Theorem sb_bread_io_error sb b_data len pp left t held :
  run (fun _ _ _ => 0) t held (SbBread.example_read sb b_data len pp left) =
  Fault "bh->b_data of NULL bh" (t ++ [(sb_bread sb 0 1024, 0)]) held.
Proof. reflexivity. Qed.

(** A negative position (which the kernel keeps away from [read]) is not
    refused: up to [3 - pos] bytes are reported as read, none is copied. *)
Theorem min_read_negative_position len pp left :
  - 2 ^ 62 < pp < 0 -> 0 <= len < 2 ^ 62 ->
  exists t, MinRead.example_read len pp left = Some t /\ ret t = Z.min len (3 - pp) /\ delivered t = [].
Proof.
  intros Hp Hl. unfold MinRead.example_read. rewrite (proj2 (Z.ltb_ge 3 pp)) by lia.
  do 3 (rewrite (proj2 (Z.eqb_neq pp _)) by lia). cbn [mbind option_bind]. eexists. split; [done|].
  cbn [ret delivered]. split; [|done]. unfold clamp. rewrite u64_small by lia.
  destruct (Z.ltb_spec (3 - pp) len); rewrite s64_small by lia; lia.
Qed.

Lemma min_read_negative_position_witness :
  exists t, MinRead.example_read 5 (-1) 0 = Some t /\ ret t = 4 /\ delivered t = [].
Proof. apply (min_read_negative_position 5 (-1) 0); lia. Defined.
