(* ===== verification/BioRead.v ===== *)
(** * fs/block_page_read/read.c: a read that waits for its own bio

    The read handler allocates a page, submits a bio that reads the first
    page of the device into it, sleeps until the completion handler has copied
    the page to the static [buffer], and serves the user from there.  Page,
    bio and buffer are static variables without a lock: readers are threads,
    [example_end_io] is an interrupt, and [act] is one step of one of them.
    The copy to the user is the one of [FsRead.SbBread]. *)
From stdpp Require Import gmap strings.
From S2P Require Import Prelude FsRead.
Local Open Scope Z_scope.

(** Program points of [example_read]: before [alloc_page]; before the test of
    [private_bio]; before the allocation and submission of the bio; before
    [prepare_to_wait]; in [schedule] (already woken or not); after
    [finish_wait]. *)
Inductive pc :=
| Start (len pp : Z) | Test (len pp : Z) | Submit (len pp : Z) | Prepare (len pp : Z)
| Sleep (len pp : Z) (woken : bool) | Tail (len pp : Z) | Done (t : transfer).

(** [inflight]: the bios submitted and not completed, each with the page it
    reads into; [pages]: the contents of the pages; a page or a bio is named
    by a number. *)
Record sys := Sys {
  private_page : nat; private_bio : option nat; buffer : list Z;
  pages : gmap nat (list Z); inflight : list (nat * nat); threads : list pc; fresh : nat
}.

Definition set_thread (s : sys) (i : nat) (p : pc) : sys :=
  Sys (private_page s) (private_bio s) (buffer s) (pages s) (inflight s) (<[i := p]> (threads s)) (fresh s).

Inductive action :=
| Spawn (len pp : Z)                     (* a call of read *)
| Go (i : nat) (garbage : list Z)        (* a step of thread [i] *)
| EndIo (j : nat) (uptodate : bool).     (* the device completes bio [j] *)

(** [schedule] returns when the completion has woken the thread. *)
Definition wake (p : pc) : pc := match p with Sleep len pp _ => Sleep len pp true | _ => p end.

(** [example_read], one step; [garbage] is what a new page holds. *)
Definition read_step (s : sys) (i : nat) (garbage : list Z) (p : pc) : option sys :=
  match p with
  | Start len pp =>
      Some (set_thread (Sys (fresh s) (private_bio s) (buffer s) (<[fresh s := garbage]> (pages s))
                            (inflight s) (threads s) (S (fresh s))) i (Test len pp))
  | Test len pp =>
      Some (set_thread s i (match private_bio s with None => Submit len pp | Some _ => Tail len pp end))
  | Submit len pp =>
      Some (set_thread (Sys (private_page s) (Some (fresh s)) (buffer s) (pages s)
                            ((fresh s, private_page s) :: inflight s) (threads s) (S (fresh s))) i (Prepare len pp))
  | Prepare len pp => Some (set_thread s i (Sleep len pp false))
  | Sleep len pp woken => if woken then Some (set_thread s i (Tail len pp)) else None
  | Tail len pp => t ← SbBread.read_tail (buffer s) len pp 0; Some (set_thread s i (Done t))
  | Done _ => None
  end.

(** [example_end_io] and [show_content], after the device has filled the page
    of the bio with the first 4096 bytes of [disk]; a failed bio is dropped
    without a word. *)
Definition example_end_io (disk : list Z) (s : sys) (j : nat) (uptodate : bool) : option sys :=
  match inflight s !! j with
  | None => None
  | Some (_, page) =>
      let rest := delete j (inflight s) in
      if negb uptodate then
        Some (Sys (private_page s) (private_bio s) (buffer s) (pages s) rest (threads s) (fresh s))
      else
        let pages' := <[page := disk]> (pages s) in
        Some (Sys (private_page s) None (default [] (pages' !! private_page s)) pages' rest
                  (wake <$> threads s) (fresh s))
  end.

Definition act (disk : list Z) (s : sys) (a : action) : option sys :=
  match a with
  | Spawn len pp => Some (Sys (private_page s) (private_bio s) (buffer s) (pages s) (inflight s)
                              (threads s ++ [Start len pp]) (fresh s))
  | Go i garbage => p ← threads s !! i; read_step s i garbage p
  | EndIo j uptodate => example_end_io disk s j uptodate
  end.

Fixpoint acts (disk : list Z) (s : sys) (l : list action) : option sys :=
  match l with [] => Some s | a :: l' => s' ← act disk s a; acts disk s' l' end.

(** The module after loading: static variables are zero. *)
Definition loaded : sys := Sys 0 None (replicate 4096 0) ∅ [] [] 1.

Definition finished (p : pc) : bool := match p with Done _ => true | _ => false end.

(** One reader at a time, and a device without errors. *)
Definition serial (s : sys) (a : action) : bool :=
  match a with
  | Spawn len pp => forallb finished (threads s) && (0 <=? len) && (len <? 2 ^ 63) && (0 <=? pp) && (pp <=? 3)
  | EndIo _ uptodate => uptodate
  | Go _ _ => true
  end.

Definition serial_step (disk : list Z) (s s' : sys) : Prop := exists a, serial s a = true /\ act disk s a = Some s'.

(** Any step at all. *)
Definition any_step (disk : list Z) (s s' : sys) : Prop := exists a, act disk s a = Some s'.

(** ** Lemmas *)











Lemma acts_serial disk s l s' :
  acts disk s l = Some s' -> Forall (fun a => if a is Spawn _ _ then False else if a is EndIo _ false then False else True) l ->
  star (serial_step disk) s s'.
Proof.
  intros H Hl. assert (forall s0, star (serial_step disk) s0 s -> star (serial_step disk) s0 s') as Hgen; [|apply Hgen; constructor].
  revert s H. induction Hl as [|a l Ha _ IH]; intros s H s0 Hs; [by injection H as <-|].
  cbn [acts] in H. destruct (act disk s a) as [s1|] eqn:E; [|done]. apply (IH s1); [exact H|].
  econstructor; [exact Hs|]. exists a. split; [|done]. by destruct a as [| |j []].
Qed.

(** One reader, started on the fresh module. *)
Lemma acts_first disk len pp l s :
  0 <= len < 2 ^ 63 -> 0 <= pp <= 3 -> acts disk loaded (Spawn len pp :: l) = Some s ->
  Forall (fun a => if a is Spawn _ _ then False else if a is EndIo _ false then False else True) l ->
  star (serial_step disk) loaded s.
Proof.
  intros Hl Hp H Hf. cbn [acts act mbind option_bind] in H.
  eapply star_trans; [|eapply acts_serial; [exact H|exact Hf]].
  econstructor; [constructor|]. exists (Spawn len pp). split; [|reflexivity]. cbn.
  rewrite !andb_true_iff, !Z.leb_le, Z.ltb_lt. lia.
Qed.

(** ** Properties *)




Definition demo_disk : list Z := replicate 4096 65.



(** A bio that completes before its reader has called [prepare_to_wait]
    wakes nobody: the reader sleeps although nothing is in flight, and no
    step of a thread or of the device is possible any more. *)
Theorem block_read_lost_wakeup disk len pp :
  0 <= len < 2 ^ 63 -> 0 <= pp <= 3 ->
  exists s, star (serial_step disk) loaded s /\ threads s = [Sleep len pp false] /\
    (forall i garbage, act disk s (Go i garbage) = None) /\ (forall j u, act disk s (EndIo j u) = None).
Proof.
  intros Hl Hp.
  destruct (acts disk loaded [Spawn len pp; Go 0 []; Go 0 []; Go 0 []; EndIo 0 true; Go 0 []]) as [s|] eqn:E;
    [|vm_compute in E; discriminate].
  exists s. split; [eapply acts_first; [exact Hl|exact Hp|exact E|by repeat constructor]|].
  vm_compute in E. injection E as <-. split; [done|]. split; [by intros [|[|i]] g|by intros [|j] u].
Qed.

Lemma block_read_lost_wakeup_witness :
  exists s, star (serial_step demo_disk) loaded s /\ threads s = [Sleep 3 0 false] /\
    (forall i garbage, act demo_disk s (Go i garbage) = None) /\ (forall j u, act demo_disk s (EndIo j u) = None).
Proof. apply (block_read_lost_wakeup demo_disk 3 0); lia. Defined.

(** Nothing in flight and [private_bio] set: the state after an I/O error. *)
Definition wedged (b : nat) (buf : list Z) (s : sys) : Prop :=
  private_bio s = Some b /\ inflight s = [] /\ buffer s = buf /\
  Forall (fun p => if p is Submit _ _ then False else True) (threads s).

(** One failed bio ends all reading: [private_bio] stays set, so no bio is
    submitted any more by anybody, [buffer] never changes again, and the
    reader of the failed bio is never woken. *)
Theorem block_read_error_wedges disk b buf s s' i len pp :
  wedged b buf s -> threads s !! i = Some (Sleep len pp false) ->
  star (any_step disk) s s' ->
  wedged b buf s' /\ threads s' !! i = Some (Sleep len pp false).
Proof.
  intros Hw Ht Hr. apply (star_invariant (any_step disk) (fun s => wedged b buf s /\ threads s !! i = Some (Sleep len pp false)) s s');
    [|done|exact Hr].
  clear. intros s s' [(Hb & Hin & Hbuf & Hf) Ht] [a Ha]. destruct a as [l q|k garbage|j u]; cbn [act] in Ha.
  - injection Ha as <-. split; [|by apply lookup_app_l_Some]. repeat split; try done. cbn. apply Forall_app. by split; [|constructor].
  - destruct (threads s !! k) as [p|] eqn:Hk; [|done]. cbn [mbind option_bind] in Ha.
    pose proof (Forall_lookup_1 _ _ _ _ Hf Hk) as Hp.
    assert (k <> i \/ p = Sleep len pp false) as Hki by (destruct (decide (k = i)) as [->|]; [right; congruence|by left]).
    destruct p as [l q|l q|l q|l q|l q w|l q|t]; cbn [read_step] in Ha; try done;
      try (destruct w; [|done]); try (destruct (SbBread.read_tail _ _ _ _); [|done]; cbn [mbind option_bind] in Ha);
      injection Ha as <-; (destruct Hki as [Hki|[=]]);
      (split; [|cbn; by rewrite list_lookup_insert_ne]); (repeat split; try done); cbn;
      apply Forall_insert; try done; by rewrite Hb.
  - unfold example_end_io in Ha. by rewrite Hin in Ha.
Qed.

Definition error_state : sys := Sys 1 (Some 2%nat) (replicate 4096 0) {[1%nat := []]} [] [Sleep 3 0 false] 3.

Lemma block_read_error_wedges_witness :
  acts demo_disk loaded [Spawn 3 0; Go 0 []; Go 0 []; Go 0 []; Go 0 []; EndIo 0 false] = Some error_state /\
  forall s', star (any_step demo_disk) error_state s' ->
    wedged 2 (replicate 4096 0) s' /\ threads s' !! 0%nat = Some (Sleep 3 0 false).
Proof.
  split; [vm_compute; reflexivity|].
  intros s' Hr. apply (block_read_error_wedges demo_disk 2 _ error_state); [|reflexivity|exact Hr].
  split; [done|]. split; [done|]. split; [done|]. by repeat constructor.
Defined.

(** A second reader replaces [private_page] before the bio of the first has
    completed: the first delivers what the new page happened to hold. *)
Theorem block_read_overlap disk garbage :
  zlen garbage = 4096 ->
  exists s, acts disk loaded [Spawn 3 0; Go 0 []; Go 0 []; Go 0 []; Go 0 []; Spawn 3 0; Go 1 garbage;
                              EndIo 0 true; Go 0 []; Go 0 []] = Some s /\
    threads s !! 0%nat = Some (Done (Transfer 3 3 (sl garbage 0 3))).
Proof.
  intros Hg.
  assert (exists s, acts disk loaded [Spawn 3 0; Go 0 []; Go 0 []; Go 0 []; Go 0 []; Spawn 3 0; Go 1 garbage;
                              EndIo 0 true; Go 0 []] = Some s /\ buffer s = garbage /\
    threads s = [Tail 3 0; Test 3 0]) as (s & E & Hb & Ht) by (eexists; split; [vm_compute; reflexivity|by split]).
  assert (forall l1 l2 s0, acts disk s0 (l1 ++ l2) = s1 ← acts disk s0 l1; acts disk s1 l2) as Happ.
  { intros l1 l2. induction l1 as [|a l1 IH]; intros s0; [done|]. cbn. destruct (act disk s0 a); cbn; [apply IH|done]. }
  pose proof (Happ [Spawn 3 0; Go 0 []; Go 0 []; Go 0 []; Go 0 []; Spawn 3 0; Go 1 garbage; EndIo 0 true; Go 0 []]
    [Go 0 []] loaded) as H. rewrite E in H. cbn [app mbind option_bind] in H. rewrite H.
  cbn [acts act]. rewrite Ht. cbn [lookup list_lookup mbind option_bind read_step]. rewrite Hb, sb_tail_step by lia.
  cbn [mbind option_bind]. eexists. split; [reflexivity|]. cbn [threads set_thread]. by rewrite Ht.
Qed.

Lemma block_read_overlap_witness :
  exists s, acts demo_disk loaded [Spawn 3 0; Go 0 []; Go 0 []; Go 0 []; Go 0 []; Spawn 3 0; Go 1 (replicate 4096 66);
                              EndIo 0 true; Go 0 []; Go 0 []] = Some s /\
    threads s !! 0%nat = Some (Done (Transfer 3 3 [66; 66; 66])).
Proof. apply (block_read_overlap demo_disk (replicate 4096 66)). reflexivity. Defined.
