(* ===== verification/FsPage.v ===== *)
(** * The readpage routines of the teaching file systems

    [readpage] gets a locked page of the page cache and has to fill it, mark
    it up to date and unlock it, at once (fs/bread, fs/submit_bh_readpage; the
    latter's routine is also in fs/buffer_read) or when the I/O completes
    (fs/page_cache_read).  The mapping functions of fs/get_block (the same
    file as in fs/write_page) hand the page to the kernel with a [get_block]
    of their own.  The reads served from the page cache are all of the first
    page of the device. *)
From stdpp Require Import gmap strings.
From S2P Require Import Prelude Kernel.
Local Open Scope Z_scope.

Definition PAGE_SIZE : Z := 4096.

(** A page: its address, PG_uptodate, its bytes.  PG_locked is the resource
    [RPageLock]. *)
Record page := Page { p_addr : Z; uptodate : bool; contents : list Z }.

(** ** fs/bread/address_mapping.c *)
Module Bread.

(** [b_data]: the bytes from the data of the buffer of block 0 on. *)
Definition example_readpage (sb : Z) (b_data : list Z) (p : page) : prog (Z * page) :=
  do! kmap (p_addr p) ;;
  call! bh <- sb_bread sb 0 1024 ;;
  if bh =? 0 then Oops "bh->b_data of NULL bh"
  else
    match rd b_data 0 PAGE_SIZE with
    | None => Oops "memcpy past the page of the buffer"
    | Some bytes =>
        do! kunmap (p_addr p) ;;
        do! unlock_page (p_addr p) ;;
        Ret (0, Page (p_addr p) true bytes)
    end.
End Bread.

(** ** fs/submit_bh_readpage/address_mapping.c *)
Module SubmitBh.

(** [submit_bh] reads [b_size] bytes of the device, the block size of the
    file system, to the start of the page; the answer of the query is whether
    the I/O succeeded.  The reference of [get_bh] is dropped by
    [end_buffer_read_sync]. *)
Definition example_readpage (s_blocksize : Z) (disk : list Z) (p : page) : prog (Z * page) :=
  call! bh <- alloc_page_buffers (p_addr p) PAGE_SIZE ;;
  if bh =? 0 then Ret (0, p)
  else
    call! ok <- kquery "submit_bh" s_blocksize ;;
    let bytes := if c_true ok then upd (contents p) 0 (sl disk 0 s_blocksize) else contents p in
    do! unlock_page (p_addr p) ;;
    Ret (0, Page (p_addr p) true bytes).
End SubmitBh.

(** ** fs/get_block/address_mapping.c *)
Module GetBlock.

Record buffer_head := Bh { b_blocknr : Z; b_mapped : bool; b_size : Z }.

(** [map_bh] to block 0, then twice the size the kernel had asked for. *)
Definition example_get_block (iblock : Z) (bh_result : buffer_head) : Z * buffer_head :=
  (0, Bh 0 true (u64 (2 * b_size bh_result))).

(** [example_write_begin] and [example_write_end] pass on the kernel's
    result; the second component is whether they log an error: the
    comparison of [ret], an [int], with the unsigned [len] is unsigned. *)
Definition example_write_begin (kernel_ret : Z) : Z * bool := (kernel_ret, kernel_ret <? 0).
Definition example_write_end (kernel_ret len : Z) : Z * bool := (kernel_ret, u32 kernel_ret <? len).
End GetBlock.

(** ** fs/page_cache_read/address_mapping.c

    All calls share the pointer [private_bio], and nothing protects it.  A
    call of [example_readpage] is a thread whose program point is kept under
    its page (the kernel locks a page before it calls); the completion
    handler of a bio is a thread of its own, its program point the [stage]
    of the bio.  The device works between the two. *)
Module PageCacheRead.

(** A page of the cache: locked, up to date, its bytes. *)
Record cpage := Cpage { locked : bool; valid : bool; bytes : list Z }.

(** The next statement of a call: the test (line 37), [bio_alloc] (39), the
    device and the sector (41, 42), [bio_add_page] (43), the handler (44),
    [submit_bio] (46). *)
Inductive rpc := RTest | RAlloc | RTarget | RPage | RHandler | RSubmit.

(** A bio is filled, in flight, or in its handler, which is about to test
    BIO_UPTODATE (22), to set PG_uptodate (26), to unlock the page (27) or to
    clear [private_bio] (31); [EOver]: the handler has returned, or there
    was none. *)
Inductive stage := Filling | InFlight | ETest (up : bool) | EUptodate | EUnlock | EClear | EOver.

#[global] Instance stage_eq_dec : EqDecision stage.
Proof. solve_decision. Defined.

(** [bi_target]: device and sector are set; [bi_page]: the page of the only
    [bio_vec]; [bi_end_io]: the handler is set. *)
Record bio := Bio { bi_target : bool; bi_page : option Z; bi_end_io : bool; bi_stage : stage }.

Record sys := Sys { private_bio : option Z; bios : gmap Z bio; calls : gmap Z rpc; cache : gmap Z cpage }.

Inductive outcome := Next (s : sys) | Crash (why : string).

Definition set_private (s : sys) (b : option Z) : sys := Sys b (bios s) (calls s) (cache s).
Definition set_bio (s : sys) (b : Z) (x : bio) : sys := Sys (private_bio s) (<[b := x]> (bios s)) (calls s) (cache s).
Definition bio_put (s : sys) (b : Z) : sys := Sys (private_bio s) (delete b (bios s)) (calls s) (cache s).
Definition goto (s : sys) (p : Z) (pc : rpc) : sys := Sys (private_bio s) (bios s) (<[p := pc]> (calls s)) (cache s).
Definition return_ (s : sys) (p : Z) : sys := Sys (private_bio s) (bios s) (delete p (calls s)) (cache s).
Definition set_page (s : sys) (p : Z) (c : cpage) : sys := Sys (private_bio s) (bios s) (calls s) (<[p := c]> (cache s)).

(** An access through [private_bio]. *)
Definition through (s : sys) (k : Z -> bio -> outcome) : outcome :=
  match private_bio s with
  | None => Crash "private_bio is NULL"
  | Some b => match bios s !! b with Some x => k b x | None => Crash "private_bio is freed" end
  end.

(** One statement of the call for page [p].  [bio_alloc] with GFP_KERNEL waits
    for memory and does not fail; its answer is [fresh].  The bio has room
    for one page: to a full one [bio_add_page] adds nothing. *)
Definition example_readpage (s : sys) (p : Z) (pc : rpc) (fresh : Z) : outcome :=
  match pc with
  | RTest => Next (match private_bio s with None => goto s p RAlloc | Some _ => return_ s p end)
  | RAlloc => Next (goto (set_private (set_bio s fresh (Bio false None false Filling)) (Some fresh)) p RTarget)
  | RTarget => through s (fun b x => Next (goto (set_bio s b (Bio true (bi_page x) (bi_end_io x) (bi_stage x))) p RPage))
  | RPage => through s (fun b x =>
      let vec := match bi_page x with Some q => Some q | None => Some p end in
      Next (goto (set_bio s b (Bio (bi_target x) vec (bi_end_io x) (bi_stage x))) p RHandler))
  | RHandler => through s (fun b x => Next (goto (set_bio s b (Bio (bi_target x) (bi_page x) true (bi_stage x))) p RSubmit))
  | RSubmit => through s (fun b x =>
      match bi_stage x, bi_target x, bi_page x with
      | Filling, true, Some _ => Next (return_ (set_bio s b (Bio true (bi_page x) (bi_end_io x) InFlight)) p)
      | _, _, _ => Crash "submit_bio of a bio that is in flight or not ready"
      end)
  end.

Definition at_stage (x : bio) (st : stage) : bio := Bio (bi_target x) (bi_page x) (bi_end_io x) st.

(** One statement of the handler of bio [b], whose page is [p]. *)
Definition example_end_io (s : sys) (b : Z) (x : bio) (p : Z) (c : cpage) : option outcome :=
  match bi_stage x with
  | ETest up => Some (Next (set_bio s b (at_stage x (if up then EUptodate else EOver))))
  | EUptodate => Some (Next (set_bio (set_page s p (Cpage (locked c) true (bytes c))) b (at_stage x EUnlock)))
  | EUnlock =>
      Some (if locked c then Next (set_bio (set_page s p (Cpage false (valid c) (bytes c))) b (at_stage x EClear))
            else Crash "unlock_page of an unlocked page")
  | EClear => Some (Next (bio_put (set_private s None) b))
  | _ => None
  end.

(** The device ends a bio: it has read its first page to the page of the
    bio, or failed and left any bytes there. *)
Definition device (disk : list Z) (s : sys) (b : Z) (x : bio) (p : Z) (c : cpage) (fault : option (list Z)) : sys :=
  let data := match fault with None => disk | Some junk => junk end in
  let up := match fault with None => true | Some _ => false end in
  set_bio (set_page s p (Cpage (locked c) (valid c) data)) b (at_stage x (if bi_end_io x then ETest up else EOver)).

(** [ReadPage p]: the kernel has locked page [p], which is not up to date,
    and calls [example_readpage]. *)
Inductive action := ReadPage (p : Z) | Call (p fresh : Z) | Device (b : Z) (fault : option (list Z)) | EndIo (b : Z).

Definition act (disk : list Z) (s : sys) (a : action) : option outcome :=
  match a with
  | ReadPage p =>
      c ← cache s !! p;
      if locked c || valid c then None else Some (Next (goto (set_page s p (Cpage true false (bytes c))) p RTest))
  | Call p fresh =>
      pc ← calls s !! p;
      match bios s !! fresh with None => Some (example_readpage s p pc fresh) | Some _ => None end
  | Device b fault =>
      x ← bios s !! b; p ← bi_page x; c ← cache s !! p;
      match bi_stage x with InFlight => Some (Next (device disk s b x p c fault)) | _ => None end
  | EndIo b => x ← bios s !! b; p ← bi_page x; c ← cache s !! p; example_end_io s b x p c
  end.

Definition step (disk : list Z) (s s' : sys) : Prop := exists a, act disk s a = Some (Next s').

(** The calls come one after the other; devices and handlers come at any time. *)
Definition serial (s : sys) (a : action) : Prop := match a with ReadPage _ => calls s = ∅ | _ => True end.
Definition serial_step (disk : list Z) (s s' : sys) : Prop := exists a, serial s a /\ act disk s a = Some (Next s').

Fixpoint acts (disk : list Z) (s : sys) (l : list action) : option outcome :=
  match l with
  | [] => Some (Next s)
  | a :: l' => match act disk s a with Some (Next s') => acts disk s' l' | r => r end
  end.

(** A cache of unlocked pages with any contents. *)
Definition fresh_cache (pages : gmap Z (list Z)) : sys := Sys None ∅ ∅ (Cpage false false <$> pages).

(** A page that is locked, not up to date, and nobody's business any more. *)
Definition abandoned (s : sys) (p : Z) : Prop :=
  (exists c, cache s !! p = Some c /\ locked c = true /\ valid c = false) /\ calls s !! p = None /\
  forall b x, bios s !! b = Some x -> bi_page x = Some p -> bi_stage x = EOver.

End PageCacheRead.

(** ** Properties of the routines that finish at once *)


Definition demo_page : page := Page 7 false (replicate 4096 1).


(** [readpage] of fs/bread fills the page from the buffer and unlocks it; the
    buffer stays referenced. *)
Theorem bread_readpage_outcome o sb b_data p t base :
  conforming o -> (forall t h, o t h (sb_bread sb 0 1024) <> 0) -> zlen b_data = 4096 ->
  exists t' bh, run o t (RPageLock (p_addr p) :: base) (Bread.example_readpage sb b_data p) =
    Fin (0, Page (p_addr p) true b_data) t' (RBuffer bh :: base).
Proof.
  intros Ho Hbh Hb. unfold Bread.example_readpage. cbn [run]. unfold settle.
  cbn [releases acquires drops give_back_all drop_all app run]. unfold settle.
  cbn [releases acquires drops give_back_all drop_all]. rewrite (proj2 (Z.eqb_neq _ 0) (Hbh _ _)).
  rewrite rd_ok by (unfold PAGE_SIZE; lia). rewrite sl_full by done. cbn [app run]. unfold settle.
  cbn [releases acquires drops drop_all give_back_all give_back res_eqb app]. rewrite !Z.eqb_refl. cbn [run]. unfold settle.
  cbn [releases acquires drops drop_all give_back_all give_back res_eqb app]. rewrite !Z.eqb_refl. cbn [run].
  by do 2 eexists.
Qed.

Lemma bread_readpage_outcome_witness :
  exists t' bh, run good_oracle [] [RPageLock 7] (Bread.example_readpage 1 (replicate 4096 2) demo_page) =
    Fin (0, Page 7 true (replicate 4096 2)) t' [RBuffer bh].
Proof.
  apply (bread_readpage_outcome good_oracle 1 (replicate 4096 2) demo_page [] [] good_oracle_conforming); [|reflexivity].
  intros t h H. pose proof (top_nonneg h). cbn in H. lia.
Defined.

(** [get_block] of fs/get_block maps every block of every file to block 0 of
    the device, so all files share one block; and a failed write is not
    logged where a short one is. *)
Theorem get_block_aliases iblock iblock' bh ret len :
  0 <= GetBlock.b_size bh < 2 ^ 63 -> -4095 <= ret < 0 -> 0 <= len < 2 ^ 31 ->
  GetBlock.example_get_block iblock bh = GetBlock.example_get_block iblock' bh /\
  GetBlock.b_size (snd (GetBlock.example_get_block iblock bh)) = 2 * GetBlock.b_size bh /\
  snd (GetBlock.example_write_end ret len) = false /\ (forall n, 0 <= n < len -> snd (GetBlock.example_write_end n len) = true).
Proof.
  intros Hs Hr Hl. split; [done|]. cbn. split; [apply u64_small; lia|].
  assert (u32 ret = 2 ^ 32 + ret) as ->.
  { unfold u32, wrapu. symmetry. apply (Z.mod_unique_pos _ _ (-1)); lia. }
  split; [apply Z.ltb_ge; lia|]. intros n Hn. rewrite u32_small by lia. apply Z.ltb_lt. lia.
Qed.

(** ** Properties of fs/page_cache_read *)
Module PageCacheFacts.
Import PageCacheRead.

(** The bio of the call for page [p] that has come to [pc]. *)
Definition filled (p : Z) (pc : rpc) : bio :=
  match pc with
  | RTarget => Bio false None false Filling
  | RPage => Bio true None false Filling
  | RHandler => Bio true (Some p) false Filling
  | _ => Bio true (Some p) true Filling
  end.

(** A call that has a bio. *)
Definition filling (pc : rpc) : Prop := pc <> RTest /\ pc <> RAlloc.

Definition call_ok (s : sys) (p : Z) (pc : rpc) : Prop :=
  (exists c, cache s !! p = Some c /\ locked c = true /\ valid c = false) /\
  (pc = RAlloc -> private_bio s = None) /\
  (filling pc -> exists b, private_bio s = Some b /\ bios s = {[b := filled p pc]}).

(** The page of a bio that has been submitted. *)
Definition stage_ok (disk : list Z) (st : stage) (c : cpage) : Prop :=
  match st with
  | Filling => False
  | InFlight | ETest false | EOver => locked c = true /\ valid c = false
  | ETest true | EUptodate => locked c = true /\ valid c = false /\ bytes c = disk
  | EUnlock => locked c = true /\ valid c = true /\ bytes c = disk
  | EClear => locked c = false /\ valid c = true /\ bytes c = disk
  end.

Definition bio_ok (disk : list Z) (s : sys) (x : bio) : Prop :=
  (bi_stage x = Filling -> exists p pc, calls s = {[p := pc]} /\ filling pc /\ x = filled p pc) /\
  (bi_stage x <> Filling -> bi_end_io x = true /\ exists p c,
     bi_page x = Some p /\ cache s !! p = Some c /\ calls s !! p = None /\ stage_ok disk (bi_stage x) c).

Definition unlocking (s : sys) (p : Z) : Prop :=
  exists b x, bios s !! b = Some x /\ bi_page x = Some p /\ bi_stage x = EUnlock.

(** What serial calls keep: at most one call, at most one bio, which
    [private_bio] points to, and valid pages hold the device's bytes. *)
Record inv (disk : list Z) (s : sys) : Prop := {
  inv_calls : calls s = ∅ \/ exists p pc, calls s = {[p := pc]} /\ call_ok s p pc;
  inv_bios : match private_bio s with
             | None => bios s = ∅
             | Some b => exists x, bios s = {[b := x]} /\ bio_ok disk s x
             end;
  inv_pages : forall p c, cache s !! p = Some c -> valid c = true ->
              bytes c = disk /\ (locked c = true -> unlocking s p)
}.

Lemma inv_fresh disk pages : inv disk (fresh_cache pages).
Proof.
  split; cbn; [by left|done|]. intros p c Hc Hva. rewrite lookup_fmap in Hc.
  destruct (pages !! p); cbn in Hc; [|done]. by injection Hc as <-.
Qed.

(** The only bio. *)
Lemma inv_bio disk s b x : inv disk s -> bios s !! b = Some x ->
  private_bio s = Some b /\ bios s = {[b := x]} /\ bio_ok disk s x.
Proof.
  intros [_ Hb _] Hx. destruct (private_bio s) as [b'|]; [|by rewrite Hb, lookup_empty in Hx].
  destruct Hb as (x' & Hb & Hok). rewrite Hb in Hx. by apply lookup_singleton_Some in Hx as [-> ->].
Qed.

Lemma inv_call disk s p pc : inv disk s -> calls s !! p = Some pc -> calls s = {[p := pc]} /\ call_ok s p pc.
Proof.
  intros [[Hc|(p' & pc' & Hc & Hok)] _ _] Hp; rewrite Hc in Hp; [by rewrite lookup_empty in Hp|].
  by apply lookup_singleton_Some in Hp as [-> ->].
Qed.

Lemma inv_read_page disk s p c :
  inv disk s -> calls s = ∅ -> cache s !! p = Some c -> locked c = false -> valid c = false ->
  inv disk (goto (set_page s p (Cpage true false (bytes c))) p RTest).
Proof.
  intros [_ Hb Hp] Hcalls Hc Hl Hv.
  split; cbn [calls private_bio bios cache goto set_page].
  - right. exists p, RTest. rewrite Hcalls. split; [done|]. split; [|split; [done|by intros [? _]]].
    cbn. rewrite lookup_insert_eq. by eexists.
  - destruct (private_bio s) as [b|]; [|done]. destruct Hb as (x & Hb & Hf & Hs). exists x. split; [done|].
    split; cbn [calls cache goto set_page].
    + intros Hx. destruct (Hf Hx) as (q & pc & Hq & _). rewrite Hcalls in Hq. exfalso.
      apply (f_equal (lookup q)) in Hq. by rewrite lookup_empty, lookup_singleton_eq in Hq.
    + intros Hx. destruct (Hs Hx) as (He & q & c' & Hq & Hc' & _ & Hst). split; [done|]. exists q, c'.
      assert (p <> q) as Hpq.
      { intros <-. rewrite Hc in Hc'. injection Hc' as <-. destruct (bi_stage x) as [| |[]| | | |]; cbn in Hst; try done;
          destruct Hst as (? & ? & ?) || destruct Hst; congruence. }
      rewrite Hcalls, !lookup_insert_ne by done. done.
  - intros q c' Hq Hvq. destruct (decide (p = q)) as [<-|Hpq]; [rewrite lookup_insert_eq in Hq; by injection Hq as <-|].
    rewrite lookup_insert_ne in Hq by done. by apply (Hp q).
Qed.

(** A bio that is being filled has nothing to do with a page that is being unlocked. *)
Lemma filled_not_unlocking s b p pc q : bios s = {[b := filled p pc]} -> unlocking s q -> False.
Proof.
  intros Hb (b' & x & Hx & _ & Hst). rewrite Hb in Hx. apply lookup_singleton_Some in Hx as [_ <-]. by destruct pc.
Qed.

(** The next statement of a call that is filling the bio of [private_bio]. *)
Lemma inv_filling disk s p pc pc' b :
  inv disk s -> calls s = {[p := pc]} -> filling pc' -> private_bio s = Some b -> bios s = {[b := filled p pc]} ->
  (exists c, cache s !! p = Some c /\ locked c = true /\ valid c = false) ->
  inv disk (goto (set_bio s b (filled p pc')) p pc').
Proof.
  intros [_ _ Hp] Hc Hf Hb Hx Hpage. split; cbn [calls private_bio bios cache goto set_bio].
  - right. exists p, pc'. rewrite Hc, insert_singleton_eq. split; [done|]. split; [exact Hpage|].
    split; [by intros ->; destruct Hf|]. intros _. exists b. cbn. by rewrite Hx, insert_singleton_eq.
  - rewrite Hb. exists (filled p pc'). rewrite Hx, insert_singleton_eq. split; [done|]. split; cbn.
    + intros _. exists p, pc'. by rewrite Hc, insert_singleton_eq.
    + intros H. exfalso. apply H. by destruct pc'.
  - intros q c Hq Hv. destruct (Hp q c Hq Hv) as [Hd Hl]. split; [done|]. intros Hlk.
    destruct (filled_not_unlocking s b p pc q Hx (Hl Hlk)).
Qed.

Lemma inv_test disk s p fresh :
  inv disk s -> calls s = {[p := RTest]} -> call_ok s p RTest ->
  exists s', example_readpage s p RTest fresh = Next s' /\ inv disk s'.
Proof.
  intros [_ Hb Hp] Hc (Hpage & _ & _). eexists. split; [reflexivity|]. destruct (private_bio s) as [b|] eqn:Epb.
  - destruct Hb as (x & Hb & Hf & Hs). split; cbn [return_ calls private_bio bios cache].
    + left. by rewrite Hc, delete_singleton_eq.
    + rewrite Epb. exists x. split; [done|]. split; cbn [return_ calls cache].
      * intros Hx. destruct (Hf Hx) as (q & pc & Hq & Hfl & _). rewrite Hc in Hq. exfalso.
        apply (f_equal (lookup q)) in Hq. rewrite lookup_singleton_eq in Hq.
        apply lookup_singleton_Some in Hq as [_ <-]. by destruct Hfl.
      * intros Hx. destruct (Hs Hx) as (He & q & c & Hq & Hqc & _ & Hst). split; [done|]. exists q, c.
        by rewrite Hc, delete_singleton_eq.
    + exact Hp.
  - split; cbn [goto calls private_bio bios cache].
    + right. exists p, RAlloc. rewrite Hc, insert_singleton_eq. split; [done|]. split; [exact Hpage|].
      split; [done|]. by intros [_ ?].
    + by rewrite Epb.
    + exact Hp.
Qed.

(** Every statement of a serial call is defined and keeps the invariant. *)
Lemma inv_example_readpage disk s p pc fresh :
  inv disk s -> calls s !! p = Some pc -> bios s !! fresh = None ->
  exists s', example_readpage s p pc fresh = Next s' /\ inv disk s'.
Proof.
  intros Hi Hpc Hfresh. destruct (inv_call disk s p pc Hi Hpc) as [Hc Hok].
  destruct pc; [by apply inv_test| |
    (destruct Hok as (Hpage & _ & Hf); destruct (Hf ltac:(by split)) as (b & Hb & Hx);
     cbn [example_readpage]; unfold through; rewrite Hb, Hx, lookup_singleton_eq; cbn [filled bi_page bi_target bi_end_io bi_stage];
     eexists; split; [reflexivity|])..].
  - destruct Hok as (Hpage & Hn & _). specialize (Hn eq_refl). pose proof (inv_bios _ _ Hi) as Hb. rewrite Hn in Hb.
    eexists. split; [reflexivity|]. split; cbn [calls private_bio bios cache goto set_private set_bio].
    + right. exists p, RTarget. rewrite Hc, insert_singleton_eq. split; [done|]. split; [exact Hpage|]. split; [done|].
      intros _. exists fresh. cbn. by rewrite Hb.
    + exists (filled p RTarget). rewrite Hb. split; [done|]. split; cbn; [|done]. intros _. exists p, RTarget.
      by rewrite Hc, insert_singleton_eq.
    + intros q c Hq Hv. destruct (inv_pages _ _ Hi q c Hq Hv) as [Hd Hl]. split; [done|]. intros Hlk.
      destruct (Hl Hlk) as (b & x & Hbx & _). by rewrite Hb, lookup_empty in Hbx.
  - by apply (inv_filling disk s p RTarget RPage).
  - by apply (inv_filling disk s p RPage RHandler).
  - by apply (inv_filling disk s p RHandler RSubmit).
  - destruct Hpage as (c & Hpc' & Hl & Hv). split; cbn [calls private_bio bios cache return_ set_bio].
    + left. by rewrite Hc, delete_singleton_eq.
    + rewrite Hb. eexists. rewrite Hx, insert_singleton_eq. split; [reflexivity|]. split; cbn; [done|]. intros _.
      split; [done|]. exists p, c. by rewrite Hc, delete_singleton_eq.
    + intros q c' Hq Hvq. destruct (inv_pages _ _ Hi q c' Hq Hvq) as [Hd Hlq]. split; [done|]. intros Hlk.
      destruct (filled_not_unlocking s b p RSubmit q Hx (Hlq Hlk)).
Qed.

(** A bio moves to its next stage, with its page. *)
Lemma inv_stage disk s b x p c c' st :
  inv disk s -> bios s !! b = Some x -> bi_page x = Some p -> cache s !! p = Some c ->
  bi_stage x <> Filling -> stage_ok disk st c' -> (forall q, unlocking s q -> q = p) ->
  inv disk (set_bio (set_page s p c') b (at_stage x st)).
Proof.
  intros Hi Hx Hp Hc Hst Hok Hu. destruct (inv_bio disk s b x Hi Hx) as (Hb & Hbios & _ & Hs).
  destruct (Hs Hst) as (He & p' & c0 & Hp' & _ & Hn & _). rewrite Hp in Hp'. injection Hp' as <-.
  assert (st <> Filling) as Hne by (by intros ->).
  split; cbn [calls private_bio bios cache set_bio set_page].
  - destruct (inv_calls _ _ Hi) as [H|(q & pc & Hq & (c1 & Hc1 & Hl1) & Hr & Hf)]; [by left|right]. exists q, pc. split; [done|].
    split; [|split; [exact Hr|]].
    + exists c1. cbn. rewrite lookup_insert_ne; [done|]. intros ->. by rewrite Hq, lookup_singleton_eq in Hn.
    + intros Hfl. destruct (Hf Hfl) as (b' & Hb' & Hbs). rewrite Hbios in Hbs.
      apply (f_equal (lookup b)) in Hbs. rewrite lookup_singleton_eq in Hbs. symmetry in Hbs.
      apply lookup_singleton_Some in Hbs as [_ <-]. exfalso. apply Hst. by destruct pc.
  - rewrite Hb. exists (at_stage x st). rewrite Hbios, insert_singleton_eq. split; [done|]. split; cbn; [done|].
    intros _. split; [done|]. exists p, c'. by rewrite lookup_insert_eq.
  - intros q c1 Hq Hv. destruct (decide (p = q)) as [<-|Hpq].
    + rewrite lookup_insert_eq in Hq. injection Hq as <-. unfold unlocking. cbn [bios set_bio set_page].
      destruct st as [| |[]| | | |]; cbn in Hok; try done; destruct Hok as (Hl & Hv' & Hd) || destruct Hok as [Hl Hv']; try congruence.
      * split; [done|]. intros _. exists b, (at_stage x EUnlock). by rewrite lookup_insert_eq.
      * split; [done|]. intros Hlk. congruence.
    + rewrite lookup_insert_ne in Hq by done. destruct (inv_pages _ _ Hi q c1 Hq Hv) as [Hd Hl]. split; [done|].
      intros Hlk. by destruct Hpq; rewrite (Hu q (Hl Hlk)).
Qed.

Lemma unlocking_page disk s b x p q :
  inv disk s -> bios s !! b = Some x -> bi_page x = Some p -> unlocking s q -> q = p.
Proof.
  intros Hi Hx Hp (b' & x' & Hx' & Hp' & _). destruct (inv_bio disk s b x Hi Hx) as (_ & Hb & _).
  rewrite Hb in Hx'. apply lookup_singleton_Some in Hx' as [_ <-]. congruence.
Qed.

(** The page of a submitted bio, by its stage. *)
Lemma inv_stage_ok disk s b x p c :
  inv disk s -> bios s !! b = Some x -> bi_page x = Some p -> cache s !! p = Some c -> bi_stage x <> Filling ->
  bi_end_io x = true /\ stage_ok disk (bi_stage x) c.
Proof.
  intros Hi Hx Hp Hc Hst. destruct (inv_bio disk s b x Hi Hx) as (_ & _ & _ & Hs).
  destruct (Hs Hst) as (He & p' & c' & Hp' & Hc' & _ & Hok). split; [done|]. by simplify_eq.
Qed.

Lemma set_page_id s p c : cache s !! p = Some c -> set_page s p c = s.
Proof. intros H. unfold set_page. rewrite insert_id by done. by destruct s. Qed.

Lemma inv_device disk s b x p c fault :
  inv disk s -> bios s !! b = Some x -> bi_page x = Some p -> cache s !! p = Some c -> bi_stage x = InFlight ->
  inv disk (device disk s b x p c fault).
Proof.
  intros Hi Hx Hp Hc Hst. assert (bi_stage x <> Filling) as Hne by congruence.
  destruct (inv_stage_ok disk s b x p c Hi Hx Hp Hc Hne) as [He Hok]. rewrite Hst in Hok. destruct Hok as [Hl Hv].
  unfold device. rewrite He.
  destruct fault; (apply (inv_stage disk s b x p c); [done..| |intros q; by apply (unlocking_page disk s b x)]); by cbn.
Qed.

(** Every statement of a handler is defined and keeps the invariant. *)
Lemma inv_example_end_io disk s b x p c r :
  inv disk s -> bios s !! b = Some x -> bi_page x = Some p -> cache s !! p = Some c ->
  example_end_io s b x p c = Some r -> exists s', r = Next s' /\ inv disk s'.
Proof.
  intros Hi Hx Hp Hc Hr. unfold example_end_io in Hr.
  assert (bi_stage x <> Filling) as Hne by (intros E; by rewrite E in Hr).
  destruct (inv_stage_ok disk s b x p c Hi Hx Hp Hc Hne) as [He Hok].
  pose proof (fun q => unlocking_page disk s b x p q Hi Hx Hp) as Hu.
  destruct (bi_stage x) as [| |up| | | |] eqn:Est; try done; try (injection Hr as <-).
  - eexists. split; [reflexivity|]. rewrite <- (set_page_id s p c Hc) at 1.
    apply (inv_stage disk s b x p c); [done..|by congruence|by destruct up|done].
  - destruct Hok as (Hl & Hv & Hd). eexists. split; [reflexivity|].
    apply (inv_stage disk s b x p c); [done..|by congruence| |done]. by cbn.
  - destruct Hok as (Hl & Hv & Hd). rewrite Hl in *. eexists. split; [reflexivity|].
    apply (inv_stage disk s b x p c); [done..|by congruence| |done]. by cbn.
  - destruct Hok as (Hl & Hv & Hd). eexists. split; [reflexivity|].
    destruct (inv_bio disk s b x Hi Hx) as (Hb & Hbios & _). split; cbn [calls private_bio bios cache bio_put set_private].
    + destruct (inv_calls _ _ Hi) as [H|(q & pc & Hq & Hpage & Hr & Hf)]; [by left|right]. exists q, pc. split; [done|].
      split; [exact Hpage|]. split; [done|]. intros Hfl. destruct (Hf Hfl) as (b' & Hb' & Hbs). rewrite Hbios in Hbs.
      apply (f_equal (lookup b)) in Hbs. rewrite lookup_singleton_eq in Hbs. symmetry in Hbs.
      apply lookup_singleton_Some in Hbs as [_ <-]. by destruct pc.
    + by rewrite Hbios, delete_singleton_eq.
    + intros q c1 Hq Hvq. destruct (inv_pages _ _ Hi q c1 Hq Hvq) as [Hd1 Hl1]. split; [done|]. intros Hlk.
      destruct (Hl1 Hlk) as (b' & x' & Hx' & _ & Hst). rewrite Hbios in Hx'.
      apply lookup_singleton_Some in Hx' as [_ <-]. congruence.
Qed.

(** Serial steps neither crash nor leave the invariant. *)
Lemma inv_act disk s a r :
  inv disk s -> serial s a -> act disk s a = Some r -> exists s', r = Next s' /\ inv disk s'.
Proof.
  intros Hi Hser Ha. destruct a as [p|p fresh|b fault|b]; cbn [act serial] in *.
  - destruct (cache s !! p) as [c|] eqn:Hc; [|done]. cbn [mbind option_bind] in Ha.
    destruct (locked c || valid c) eqn:Hlv; [done|]. apply orb_false_iff in Hlv as [Hl Hv]. injection Ha as <-.
    eexists. split; [reflexivity|]. by apply inv_read_page.
  - destruct (calls s !! p) as [pc|] eqn:Hp; [|done]. cbn [mbind option_bind] in Ha.
    destruct (bios s !! fresh) eqn:Hf; [done|]. injection Ha as <-.
    by apply inv_example_readpage.
  - destruct (bios s !! b) as [x|] eqn:Hx; [|done]. cbn [mbind option_bind] in Ha.
    destruct (bi_page x) as [p|] eqn:Hp; [|done]. cbn [mbind option_bind] in Ha.
    destruct (cache s !! p) as [c|] eqn:Hc; [|done]. cbn [mbind option_bind] in Ha.
    destruct (bi_stage x) eqn:Hst; try done. injection Ha as <-. eexists. split; [reflexivity|]. by apply inv_device.
  - destruct (bios s !! b) as [x|] eqn:Hx; [|done]. cbn [mbind option_bind] in Ha.
    destruct (bi_page x) as [p|] eqn:Hp; [|done]. cbn [mbind option_bind] in Ha.
    destruct (cache s !! p) as [c|] eqn:Hc; [|done]. cbn [mbind option_bind] in Ha.
    by apply (inv_example_end_io disk s b x p c).
Qed.

Lemma page_cache_inv disk pages s : star (serial_step disk) (fresh_cache pages) s -> inv disk s.
Proof.
  apply star_invariant; [|apply inv_fresh]. intros s1 s2 Hi (a & Hser & Ha).
  destruct (inv_act disk s1 a _ Hi Hser Ha) as (s' & [= ->] & Hi'). exact Hi'.
Qed.

(** The bio of a page does not come back to it. *)
Lemma abandoned_readpage s p q pc fresh s' :
  abandoned s p -> calls s !! q = Some pc -> example_readpage s q pc fresh = Next s' -> abandoned s' p.
Proof.
  intros (Hc & Hn & Hb) Hq Hs. assert (q <> p) as Hqp by congruence.
  assert (forall b x x', bios s !! b = Some x -> (bi_page x' = Some p -> bi_page x = Some p /\ bi_stage x' = bi_stage x) ->
    forall b0 x0, <[b := x']> (bios s) !! b0 = Some x0 -> bi_page x0 = Some p -> bi_stage x0 = EOver) as Hins.
  { intros b x x' Hx Hx' b0 x0 H0 Hp. destruct (decide (b = b0)) as [<-|Hne].
    - rewrite lookup_insert_eq in H0. injection H0 as <-. destruct (Hx' Hp) as [Hxp ->]. by apply (Hb b x).
    - rewrite lookup_insert_ne in H0 by done. by apply (Hb b0). }
  destruct pc; cbn [example_readpage] in Hs; unfold through in Hs;
    try (destruct (private_bio s) as [b|]; [|done]; destruct (bios s !! b) as [x|] eqn:Hx; [|done]);
    try (injection Hs as <-).
  - destruct (private_bio s); (split; [exact Hc|]; split; [|exact Hb]); cbn [calls return_ goto];
      by rewrite ?lookup_delete_ne, ?lookup_insert_ne.
  - split; [exact Hc|]. split; cbn [calls bios goto set_private set_bio]; [by rewrite lookup_insert_ne|].
    intros b0 x0 H0 Hp. destruct (decide (fresh = b0)) as [<-|Hne].
    + rewrite lookup_insert_eq in H0. by injection H0 as <-.
    + rewrite lookup_insert_ne in H0 by done. by apply (Hb b0).
  - split; [exact Hc|]. split; cbn [calls bios goto set_bio]; [by rewrite lookup_insert_ne|]. apply (Hins b x); [done|by intros H; split].
  - split; [exact Hc|]. split; cbn [calls bios goto set_bio]; [by rewrite lookup_insert_ne|]. apply (Hins b x); [done|].
    cbn. by destruct (bi_page x) as [q'|]; [|intros [= ?]].
  - split; [exact Hc|]. split; cbn [calls bios goto set_bio]; [by rewrite lookup_insert_ne|]. apply (Hins b x); [done|by intros H; split].
  - destruct (bi_stage x) eqn:Hst; try done. destruct (bi_target x), (bi_page x) eqn:Hpx; try done. injection Hs as <-.
    split; [exact Hc|]. split; cbn [calls bios return_ set_bio]; [by rewrite lookup_delete_ne|].
    intros b0 x0 H0 Hp. destruct (decide (b = b0)) as [<-|Hne].
    + rewrite lookup_insert_eq in H0. injection H0 as <-. cbn in Hp. specialize (Hb b x Hx ltac:(congruence)). congruence.
    + rewrite lookup_insert_ne in H0 by done. by apply (Hb b0).
Qed.

(** A change to a bio that is at work, and to its page. *)
Lemma abandoned_other s p q b x x' c' :
  abandoned s p -> bios s !! b = Some x -> bi_page x = Some q -> bi_stage x <> EOver -> bi_page x' = Some q ->
  abandoned (set_bio (set_page s q c') b x') p.
Proof.
  intros (Hc & Hn & Hb) Hx Hq Hst Hq'. assert (q <> p) as Hqp by (intros ->; by destruct Hst; apply (Hb b x)).
  destruct Hc as (c & Hc & Hlv). split; [exists c; cbn; by rewrite lookup_insert_ne|]. split; [exact Hn|].
  intros b0 x0 H0 Hp. cbn in H0. destruct (decide (b = b0)) as [<-|Hne].
  - rewrite lookup_insert_eq in H0. injection H0 as <-. congruence.
  - rewrite lookup_insert_ne in H0 by done. by apply (Hb b0).
Qed.

Lemma abandoned_end_io s b x q c p s' :
  abandoned s p -> bios s !! b = Some x -> bi_page x = Some q -> cache s !! q = Some c ->
  example_end_io s b x q c = Some (Next s') -> abandoned s' p.
Proof.
  intros Hab Hx Hq Hc Hs. unfold example_end_io in Hs. destruct (bi_stage x) eqn:Hst; try done.
  - injection Hs as <-. rewrite <- (set_page_id s q c Hc). apply (abandoned_other s p q b x); [done..|by rewrite Hst|done].
  - injection Hs as <-. apply (abandoned_other s p q b x); [done..|by rewrite Hst|done].
  - destruct (locked c); [|done]. injection Hs as <-. apply (abandoned_other s p q b x); [done..|by rewrite Hst|done].
  - injection Hs as <-. destruct Hab as (Hcp & Hn & Hb). split; [exact Hcp|]. split; [exact Hn|].
    intros b0 x0 H0. cbn in H0. apply lookup_delete_Some in H0 as [_ H0]. by apply (Hb b0).
Qed.

(** Nothing ever unlocks a page that no call and no bio at work has. *)
Lemma abandoned_forever disk p : preserves (step disk) (fun s => abandoned s p).
Proof.
  intros s s' Hab [a Ha]. destruct a as [q|q fresh|b fault|b]; cbn [act] in Ha.
  - destruct (cache s !! q) as [c|] eqn:Hq; [|done]. cbn [mbind option_bind] in Ha.
    destruct (locked c || valid c) eqn:Hlv; [done|]. injection Ha as <-. destruct Hab as ((c' & Hc & Hl & Hv) & Hn & Hb).
    assert (q <> p) as Hne by (intros ->; rewrite Hc in Hq; injection Hq as <-; by rewrite Hl in Hlv).
    split; [exists c'; cbn; by rewrite lookup_insert_ne|]. split; [cbn; by rewrite lookup_insert_ne|exact Hb].
  - destruct (calls s !! q) as [pc|] eqn:Hq; [|done]. cbn [mbind option_bind] in Ha.
    destruct (bios s !! fresh); [done|]. injection Ha as Ha. by apply (abandoned_readpage s p q pc fresh).
  - destruct (bios s !! b) as [x|] eqn:Hx; [|done]. cbn [mbind option_bind] in Ha.
    destruct (bi_page x) as [q|] eqn:Hq; [|done]. cbn [mbind option_bind] in Ha.
    destruct (cache s !! q) as [c|] eqn:Hc; [|done]. cbn [mbind option_bind] in Ha.
    destruct (bi_stage x) eqn:Hst; try done. injection Ha as <-. unfold device.
    apply (abandoned_other s p q b x); [done..|by rewrite Hst|done].
  - destruct (bios s !! b) as [x|] eqn:Hx; [|done]. cbn [mbind option_bind] in Ha.
    destruct (bi_page x) as [q|] eqn:Hq; [|done]. cbn [mbind option_bind] in Ha.
    destruct (cache s !! q) as [c|] eqn:Hc; [|done]. cbn [mbind option_bind] in Ha.
    by apply (abandoned_end_io s b x q c).
Qed.






Definition two_pages : gmap Z (list Z) := {[1 := [7]; 2 := [8]]}.

Lemma serial_acts_star disk s l s' :
  Forall (fun a => forall p, a <> ReadPage p) l -> acts disk s l = Some (Next s') -> star (serial_step disk) s s'.
Proof.
  intros Hl H. assert (forall s0, star (serial_step disk) s0 s -> star (serial_step disk) s0 s') as Hgen; [|apply Hgen; constructor].
  revert s H. induction Hl as [|a l Ha _ IH]; intros s H s0 Hs; [by injection H as <-|].
  cbn [acts] in H. destruct (act disk s a) as [[s1|]|] eqn:E; try done. apply (IH s1); [exact H|].
  econstructor; [exact Hs|]. exists a. split; [|exact E]. destruct a; [by destruct (Ha p)|done..].
Qed.


(** A page that is requested while [private_bio] is set, or whose bio fails,
    is lost: it stays locked and not up to date in every continuation, also
    with calls that overlap, so its readers wait for ever. *)
Theorem page_cache_loses_page disk pages s s1 s' p :
  star (serial_step disk) (fresh_cache pages) s ->
  (exists free, calls s !! p = Some RTest /\ private_bio s <> None /\ act disk s (Call p free) = Some (Next s1)) \/
  (exists b x, bios s !! b = Some x /\ bi_page x = Some p /\ bi_stage x = ETest false /\ act disk s (EndIo b) = Some (Next s1)) ->
  star (step disk) s1 s' ->
  exists c, cache s' !! p = Some c /\ locked c = true /\ valid c = false.
Proof.
  intros Hr Hcase Hs'. pose proof (page_cache_inv disk pages s Hr) as Hi.
  apply (star_invariant (step disk) (fun s => abandoned s p) s1 s' (abandoned_forever disk p)); [|exact Hs'].
  destruct Hcase as [(free & Hp & Hb & Ha)|(b & x & Hx & Hp & Hst & Ha)]; cbn [act] in Ha.
  - rewrite Hp in Ha. cbn [mbind option_bind] in Ha. destruct (bios s !! free); [done|].
    destruct (inv_call disk s p RTest Hi Hp) as [Hc (Hpage & _ & _)]. cbn [example_readpage] in Ha.
    destruct (private_bio s) as [b|] eqn:Epb; [|done]. injection Ha as <-.
    split; [exact Hpage|]. split; [cbn; by rewrite lookup_delete_eq|]. intros b' x Hx Hxp. exfalso.
    destruct (inv_bio disk s b' x Hi Hx) as (_ & _ & Hf & Hs).
    destruct (decide (bi_stage x = Filling)) as [E|E].
    + destruct (Hf E) as (q & pc & Hq & [Hfl _] & _). rewrite Hc in Hq. apply (f_equal (lookup p)) in Hq.
      rewrite lookup_singleton_eq in Hq. symmetry in Hq. by apply lookup_singleton_Some in Hq as [_ ->].
    + destruct (Hs E) as (_ & q & c & Hq & _ & Hn & _). congruence.
  - rewrite Hx in Ha. cbn [mbind option_bind] in Ha. rewrite Hp in Ha. cbn [mbind option_bind] in Ha.
    destruct (inv_bio disk s b x Hi Hx) as (_ & Hbios & _ & Hs). destruct (Hs ltac:(congruence)) as (_ & q & c & Hq & Hc & Hn & Hok).
    assert (q = p) as -> by congruence. rewrite Hst in Hok. rewrite Hc in Ha. cbn [mbind option_bind] in Ha.
    unfold example_end_io in Ha. rewrite Hst in Ha. injection Ha as <-.
    split; [by exists c|]. split; [exact Hn|]. intros b' x' Hx' _. cbn in Hx'. rewrite Hbios, insert_singleton_eq in Hx'.
    by apply lookup_singleton_Some in Hx' as [_ <-].
Qed.

Lemma page_cache_loses_page_witness :
  exists s c, acts [5] (fresh_cache two_pages) [ReadPage 1; Call 1 99; Call 1 10; Call 1 99; Call 1 99; Call 1 99; Call 1 99;
      ReadPage 2; Call 2 99; Device 10 None; EndIo 10; EndIo 10; EndIo 10; EndIo 10] = Some (Next s) /\
    cache s !! 2 = Some c /\ locked c = true /\ valid c = false.
Proof.
  set (d := [5]). set (c0 := fresh_cache two_pages).
  destruct (act d c0 (ReadPage 1)) as [[s1|]|] eqn:E1; [|vm_compute in E1; discriminate..].
  destruct (acts d s1 [Call 1 99; Call 1 10; Call 1 99; Call 1 99; Call 1 99; Call 1 99]) as [[s2|]|] eqn:E2;
    [|vm_compute in E1; injection E1 as <-; vm_compute in E2; discriminate..].
  destruct (act d s2 (ReadPage 2)) as [[s3|]|] eqn:E3;
    [|vm_compute in E1; injection E1 as <-; vm_compute in E2; injection E2 as <-; vm_compute in E3; discriminate..].
  destruct (act d s3 (Call 2 99)) as [[s4|]|] eqn:E4;
    [|vm_compute in E1; injection E1 as <-; vm_compute in E2; injection E2 as <-; vm_compute in E3; injection E3 as <-;
      vm_compute in E4; discriminate..].
  destruct (acts d s4 [Device 10 None; EndIo 10; EndIo 10; EndIo 10; EndIo 10]) as [[s5|]|] eqn:E5;
    [|vm_compute in E1; injection E1 as <-; vm_compute in E2; injection E2 as <-; vm_compute in E3; injection E3 as <-;
      vm_compute in E4; injection E4 as <-; vm_compute in E5; discriminate..].
  assert (star (serial_step d) c0 s3) as Hr.
  { eapply star_trans; [econstructor; [constructor|exists (ReadPage 1); split; [done|exact E1]]|].
    eapply star_trans; [eapply serial_acts_star; [|exact E2]; repeat constructor; discriminate|].
    econstructor; [constructor|]. exists (ReadPage 2). split; [|exact E3].
    vm_compute in E1. injection E1 as <-. vm_compute in E2. by injection E2 as <-. }
  assert (star (step d) s4 s5) as Hc.
  { clear -E5. revert s4 E5. generalize [Device 10 None; EndIo 10; EndIo 10; EndIo 10; EndIo 10]. intros l.
    induction l as [|a l IH]; intros s H; [injection H as <-; constructor|]. cbn [acts] in H.
    destruct (act d s a) as [[s'|]|] eqn:E; try done. eapply star_trans; [econstructor; [constructor|by exists a]|by apply IH]. }
  destruct (page_cache_loses_page d two_pages s3 s4 s5 2 Hr) as (c & H & Hlv); [left; exists 99|exact Hc|].
  - split; [|split; [|exact E4]]; vm_compute in E1; injection E1 as <-; vm_compute in E2; injection E2 as <-;
      vm_compute in E3; by injection E3 as <-.
  - exists s5, c. split; [|by split]. vm_compute in E1. injection E1 as <-. vm_compute in E2. injection E2 as <-.
    vm_compute in E3. injection E3 as <-. vm_compute in E4. injection E4 as <-. vm_compute in E5. injection E5 as <-.
    vm_compute. reflexivity.
Defined.

(** Calls that overlap share the bio: two of them that have passed the test
    submit one bio twice, and a call whose bio another one replaced can find
    the pointer NULL again when that bio ends. *)
Theorem page_cache_overlap_crashes :
  acts [5] (fresh_cache two_pages) [ReadPage 1; ReadPage 2; Call 1 99; Call 2 99; Call 1 10; Call 2 11;
    Call 1 99; Call 1 99; Call 1 99; Call 2 99; Call 2 99; Call 2 99; Call 1 99; Call 2 99] =
    Some (Crash "submit_bio of a bio that is in flight or not ready") /\
  acts [5] (fresh_cache two_pages) [ReadPage 1; ReadPage 2; Call 1 99; Call 2 99; Call 1 10; Call 1 99; Call 1 99;
    Call 1 99; Call 1 99; Device 10 None; EndIo 10; EndIo 10; EndIo 10; Call 2 11; EndIo 10; Call 2 99] =
    Some (Crash "private_bio is NULL").
Proof. vm_compute. done. Qed.
End PageCacheFacts.
