(* ===== verification/FakePata.v ===== *)
(** * platform/fake_pata.c: an ATA disk played by a kernel thread

    The module maps the registers of a fake disk and polls them from a thread:
    it compares them with a copy, reacts to what the host has written, writes
    its answer and updates the copy.  The thread's round is three steps
    ([scan], [serve], [copy]) between which the host can write registers;
    [step] is one step of host or thread.  A register block is the list of
    its [RES_MEM_LENGTH] bytes. *)
From stdpp Require Import strings.
From S2P Require Import Prelude Kernel.
Local Open Scope Z_scope.

Definition RES_MEM_LENGTH : Z := 32.

(** Register numbers and codes of <linux/ata.h>. *)
Definition ATA_REG_DATA : Z := 0.
Definition ATA_REG_CMD : Z := 7.
Definition ATA_REG_STATUS : Z := 7.
Definition ATA_DRDY : Z := 64.
Definition ATA_CMD_ID_ATA : Z := 236.

(** [Identify_Drive_Information]: nine serial numbers, then zeros. *)
Definition Identify_Drive_Information : list Z :=
  flat_map (fun d => str "FAKEDISK" ++ [d; 0]) [49; 50; 51; 52; 53; 54; 55; 56; 57] ++ replicate 422 0.

(** The registers and their copy, the control block and its copy, the two
    static variables. *)
Record disk := Disk {
  va : list Z; va_l : list Z; va_ctl : list Z; va_ctl_l : list Z; start_offset : Z; enable_read : bool
}.

Definition set_va (d : disk) (v : list Z) : disk :=
  Disk v (va_l d) (va_ctl d) (va_ctl_l d) (start_offset d) (enable_read d).
Definition set_read (d : disk) (off : Z) (en : bool) : disk :=
  Disk (va d) (va_l d) (va_ctl d) (va_ctl_l d) off en.

(** One register of a block. *)
Definition poke (regs : list Z) (i v : Z) : list Z := <[Z.to_nat i := u8 v]> regs.

(** [Identify_Drive_Information[start_offset++]] *)
Definition next_byte (off : Z) : option (Z * Z) :=
  match rd Identify_Drive_Information off 1 with
  | Some [b] => Some (b, s32 (off + 1))
  | _ => None
  end.

(** [read_things]: [None] is an access outside the array. *)
Definition read_things (d : disk) : option disk :=
  if enable_read d then
    '(b0, o1) ← next_byte (start_offset d);
    '(b1, o2) ← next_byte o1;
    '(b2, o3) ← next_byte o2;
    '(b3, o4) ← next_byte o3;
    let v := poke (va d) ATA_REG_STATUS 128 in
    let v := poke (poke (poke (poke v ATA_REG_DATA b0) 1 b1) 2 b2) 3 b3 in
    let v := poke v ATA_REG_STATUS 8 in
    let off := Z.rem (s32 (o4 + 1)) 512 in
    Some (set_read (set_va d v) off (if 40 <? off then false else enable_read d))
  else Some d.

Definition refresh_status (d : disk) : disk := set_va d (poke (va d) ATA_REG_STATUS ATA_DRDY).

(** What register [i] with the new value [v] means to the thread: an IDENTIFY
    command starts the transfer, everything else stops it. *)
Definition react (i v : Z) (off : Z) (en : bool) : Z * bool :=
  if (i =? ATA_REG_CMD) && (v =? ATA_CMD_ID_ATA) then (0, true) else (off, false).

(** The comparison loop of [thread_function], from register [i]. *)
Fixpoint scan_regs (i : Z) (old new : list Z) (off : Z) (en : bool) : Z * bool :=
  match old, new with
  | o :: old', n :: new' =>
      let '(off', en') := if o =? n then (off, en) else react i n off en in
      scan_regs (i + 1) old' new' off' en'
  | _, _ => (off, en)
  end.

Definition scan (d : disk) : disk :=
  let '(off, en) := scan_regs 0 (va_l d) (va d) (start_offset d) (enable_read d) in set_read d off en.

Definition serve (d : disk) : option disk :=
  if enable_read d then read_things d else Some (refresh_status d).

Definition copy (d : disk) : disk :=
  Disk (va d) (va d) (va_ctl d) (va_ctl d) (start_offset d) (enable_read d).

(** A round of [thread_function] that the host does not disturb. *)
Definition round (d : disk) : option disk := copy <$> serve (scan d).

(** The message about the device control register: the C string, with its
    terminating zero, written to an array of 32 characters. *)
Definition control_message (v : Z) : list Z :=
  (if c_true (Z.land v 2) then str "Enable Interupt" else str "Disable Interupt") ++
  (if c_true (Z.land v 4) then str ", software reset" else []) ++ [0].

(** ** The system: the host writes registers at any time *)
Inductive phase := Scan | Serve | Copy.
Inductive action := HostWrite (i v : Z) | HostControl (i v : Z) | Thread.

Definition act (s : phase * disk) (a : action) : option (phase * disk) :=
  let '(p, d) := s in
  match a with
  | HostWrite i v => Some (p, set_va d (poke (va d) i v))
  | HostControl i v => Some (p, Disk (va d) (va_l d) (poke (va_ctl d) i v) (va_ctl_l d) (start_offset d) (enable_read d))
  | Thread =>
      match p with
      | Scan => Some (Serve, scan d)
      | Serve => match serve d with Some d' => Some (Copy, d') | None => None end
      | Copy => Some (Scan, copy d)
      end
  end.

Definition step (s s' : phase * disk) : Prop := exists a, act s a = Some s'.

(** The registers as the module finds them when it is loaded. *)
Definition loaded (regs ctl : list Z) : phase * disk := (Scan, Disk regs regs ctl ctl 0 false).

(** ** Load and unload *)
Definition IO_MEM_START : Z := (768 + 1) * 1024 * 1024.
Definition CTL_MEM_START : Z := (768 + 3) * 1024 * 1024.
Definition resource_size : Z := 1024 * 1024 + 1.     (* end - start + 1 *)

(** [init_fake_device] *)
Definition init_fake_device : prog (Z * Z) :=
  call! base <- ioremap IO_MEM_START resource_size ;;
  call! alt_base <- ioremap CTL_MEM_START resource_size ;;
  Ret (base, alt_base).

(** [fake_pata_init]; the state is [tsk]. *)
Definition fake_pata_init : prog (Z * Z) :=
  call! last_phy_page <- kzalloc "page" 1 ;;
  call! last_ctl_phy_page <- kzalloc "page" 1 ;;
  let! (va, va_ctl) <- init_fake_device ;;
  if (last_phy_page =? 0) || (va =? 0) then Oops "memcpy(page_address(last_phy_page), va)"
  else if (last_ctl_phy_page =? 0) || (va_ctl =? 0) then Oops "memcpy(page_address(last_ctl_phy_page), va_ctl)"
  else
    call! tsk <- kquery "kthread_run" 0 ;;
    call! ret <- platform_device_register "pata_platform" (-1) ;;
    Ret (ret, tsk).

Definition fake_pata_exit (tsk : Z) : prog unit :=
  do! platform_device_unregister "pata_platform" (-1) ;;
  if negb (IS_ERR tsk) then do! kquery "kthread_stop" tsk ;; Ret tt else Ret tt.

(** ** Lemmas *)
Record inv (d : disk) : Prop := {
  inv_len : length (va d) = 32%nat;
  inv_off : exists k, start_offset d = 5 * k /\ 0 <= k <= 9;
  inv_read : enable_read d = true -> start_offset d <= 40
}.

Lemma next_byte_ok off :
  0 <= off < 512 -> exists b, next_byte off = Some (b, off + 1) /\ sl Identify_Drive_Information off 1 = [b].
Proof.
  intros Hoff. unfold next_byte. assert (zlen Identify_Drive_Information = 512) as Hz by reflexivity.
  rewrite rd_ok by lia. pose proof (zlen_sl Identify_Drive_Information off 1 ltac:(lia) ltac:(lia) ltac:(lia)) as Hl.
  destruct (sl Identify_Drive_Information off 1) as [|b [|]] eqn:E; unfold zlen in Hl; cbn in Hl; try lia.
  exists b. rewrite s32_small by lia. done.
Qed.

(** The bytes of four steps of the counter. *)
Lemma read_things_ok d k :
  start_offset d = 5 * k -> 0 <= k <= 8 -> enable_read d = true -> length (va d) = 32%nat ->
  exists d', read_things d = Some d' /\ length (va d') = 32%nat /\ va_l d' = va_l d /\
    sl (va d') 0 4 = map u8 (sl Identify_Drive_Information (5 * k) 4) /\ va d' !! 7%nat = Some 8 /\
    start_offset d' = 5 * (k + 1) /\ enable_read d' = (k <? 8).
Proof.
  intros Ho Hk He Hl. unfold read_things. rewrite He, Ho.
  destruct (next_byte_ok (5 * k) ltac:(lia)) as (b0 & E0 & S0). rewrite E0. cbn [mbind option_bind].
  destruct (next_byte_ok (5 * k + 1) ltac:(lia)) as (b1 & E1 & S1). rewrite E1. cbn [mbind option_bind].
  destruct (next_byte_ok (5 * k + 1 + 1) ltac:(lia)) as (b2 & E2 & S2). rewrite E2. cbn [mbind option_bind].
  destruct (next_byte_ok (5 * k + 1 + 1 + 1) ltac:(lia)) as (b3 & E3 & S3). rewrite E3. cbn [mbind option_bind].
  rewrite s32_small by lia. rewrite Z.rem_small by lia.
  eexists. split; [reflexivity|]. cbn [va set_read set_va va_l start_offset enable_read].
  unfold poke. rewrite !length_insert. split; [done|]. split; [done|]. split; [|split; [|split]].
  - replace 4 with (1 + (1 + (1 + 1))) at 2 by lia.
    rewrite (sl_app _ (5 * k)), (sl_app _ (5 * k + 1)), (sl_app _ (5 * k + 1 + 1)), S0, S1, S2, S3 by lia.
    destruct (va d) as [|x0 [|x1 [|x2 [|x3 [|x4 [|x5 [|x6 [|x7 l]]]]]]]]; try done.
  - destruct (va d) as [|x0 [|x1 [|x2 [|x3 [|x4 [|x5 [|x6 [|x7 l]]]]]]]]; try done.
  - lia.
  - destruct (Z.ltb_spec k 8), (Z.ltb_spec 40 (5 * k + 1 + 1 + 1 + 1 + 1)); done || lia.
Qed.

Lemma scan_regs_inv i old new off en :
  exists off' en', scan_regs i old new off en = (off', en') /\
    ((off', en') = (off, en) \/ (off', en') = (off, false) \/ off' = 0).
Proof.
  revert i new off en. induction old as [|o old IH]; intros i new off en; [cbn; eauto|].
  destruct new as [|n new]; [cbn; eauto|]. cbn [scan_regs].
  destruct (o =? n); [apply IH|]. unfold react.
  destruct ((i =? ATA_REG_CMD) && (n =? ATA_CMD_ID_ATA));
    edestruct IH as (off' & en' & -> & H); exists off', en'; (split; [done|]); naive_solver.
Qed.

Lemma scan_inv d : inv d -> inv (scan d).
Proof.
  intros [Hl Ho Hr]. unfold scan.
  destruct (scan_regs_inv 0 (va_l d) (va d) (start_offset d) (enable_read d)) as (off & en & -> & H).
  destruct H as [[= -> ->]|[[= -> ->]| ->]]; split; cbn; try done; try lia. exists 0. lia.
Qed.

Lemma serve_inv d : inv d -> exists d', serve d = Some d' /\ inv d'.
Proof.
  intros [Hl (k & Ho & Hk) Hr]. unfold serve. destruct (enable_read d) eqn:He.
  - specialize (Hr eq_refl). destruct (read_things_ok d k Ho ltac:(lia) He Hl) as (d' & -> & Hl' & _ & _ & _ & Ho' & He').
    exists d'. split; [done|]. split; [done|exists (k + 1); lia|]. rewrite He'. intros ?%Z.ltb_lt. lia.
  - eexists. split; [done|]. split; cbn [va refresh_status set_va start_offset enable_read]; [unfold poke; by rewrite length_insert|by exists k|congruence].
Qed.

Lemma act_inv s a : inv (snd s) -> exists s', act s a = Some s' /\ inv (snd s').
Proof.
  destruct s as [p d]. cbn [snd]. intros Hi. destruct a as [i v|i v|]; cbn [act].
  - eexists. split; [done|]. destruct Hi. split; cbn [va snd set_va start_offset enable_read]; [unfold poke; by rewrite length_insert|done..].
  - eexists. split; [done|]. destruct Hi. by split.
  - destruct p.
    + eexists. split; [done|]. by apply scan_inv.
    + destruct (serve_inv d Hi) as (d' & -> & Hi'). by eexists.
    + eexists. split; [done|]. destruct Hi. by split.
Qed.

Lemma loaded_inv regs ctl : length regs = 32%nat -> inv (snd (loaded regs ctl)).
Proof. intros Hl. split; cbn; [done|exists 0; lia|done]. Qed.

Lemma pata_reachable_inv regs ctl s : length regs = 32%nat -> star step (loaded regs ctl) s -> inv (snd s).
Proof.
  intros Hl. apply (star_invariant step (fun s => inv (snd s))); [|by apply loaded_inv].
  intros s1 s2 Hi [a Ha]. destruct (act_inv s1 a Hi) as (s' & Ha' & Hi'). congruence.
Qed.

(** The scan of registers that have not changed. *)
Lemma scan_same i l off en : scan_regs i l l off en = (off, en).
Proof. revert i. induction l as [|x l IH]; intros i; [done|]. cbn. by rewrite Z.eqb_refl. Qed.

Lemma scan_quiet d : va_l d = va d -> scan d = d.
Proof. intros H. unfold scan. rewrite H, scan_same. by destruct d. Qed.

Fixpoint rounds (n : nat) (d : disk) : option disk :=
  match n with O => Some d | S n' => '(d') ← rounds n' d; round d' end.

(** A round that continues a transfer. *)
Lemma round_transfer d k :
  scan d = set_read d (5 * k) true -> 0 <= k <= 8 -> length (va d) = 32%nat ->
  exists d', round d = Some d' /\ length (va d') = 32%nat /\ va_l d' = va d' /\
    sl (va d') 0 4 = map u8 (sl Identify_Drive_Information (5 * k) 4) /\ va d' !! 7%nat = Some 8 /\
    start_offset d' = 5 * (k + 1) /\ enable_read d' = (k <? 8).
Proof.
  intros Hs Hk Hl. unfold round, serve. rewrite Hs. cbn [enable_read set_read].
  destruct (read_things_ok (set_read d (5 * k) true) k eq_refl Hk eq_refl Hl) as (d' & -> & Hl' & _ & Hd & H7 & Ho & He).
  eexists. split; [reflexivity|]. done.
Qed.

Lemma scan_app i old old' new new' off en :
  length old = length new ->
  scan_regs i (old ++ old') (new ++ new') off en =
  let '(off1, en1) := scan_regs i old new off en in scan_regs (i + zlen old) old' new' off1 en1.
Proof.
  revert i new off en. induction old as [|o old IH]; intros i [|n new] off en Hl; try done.
  - cbn. by rewrite Z.add_0_r.
  - cbn [app scan_regs]. destruct (if o =? n then _ else _) as [off1 en1]. rewrite IH by (cbn in Hl; lia).
    replace (i + zlen (o :: old)) with (i + 1 + zlen old) by (unfold zlen; cbn [length]; lia). done.
Qed.

(** The host has written the IDENTIFY command, and nothing behind it. *)
Definition identify (d : disk) : Prop :=
  length (va d) = 32%nat /\ length (va_l d) = 32%nat /\ va d !! 7%nat = Some ATA_CMD_ID_ATA /\
  va_l d !! 7%nat <> Some ATA_CMD_ID_ATA /\ drop 8 (va d) = drop 8 (va_l d).

Lemma scan_identify d : identify d -> scan d = set_read d (5 * 0) true.
Proof.
  intros (Hl & Hl' & Hc & Hold & Hrest). unfold scan.
  destruct (lookup_lt_is_Some_2 (va_l d) 7 ltac:(lia)) as [x Hx].
  rewrite <- (take_drop_middle _ _ _ Hc), <- (take_drop_middle _ _ _ Hx), Hrest.
  rewrite scan_app by (rewrite !length_take; lia).
  destruct (scan_regs 0 _ _ _ _) as [off en].
  replace (0 + zlen (take 7 (va_l d))) with 7 by (unfold zlen; rewrite length_take; lia).
  cbn [scan_regs]. destruct (Z.eqb_spec x ATA_CMD_ID_ATA) as [->|_]; [done|].
  unfold react. rewrite !Z.eqb_refl. cbn [andb]. rewrite scan_same. by destruct d.
Qed.

Lemma rounds_identify d n :
  identify d -> (n <= 8)%nat ->
  exists d', rounds (S n) d = Some d' /\ length (va d') = 32%nat /\ va_l d' = va d' /\
    sl (va d') 0 4 = map u8 (sl Identify_Drive_Information (5 * Z.of_nat n) 4) /\ va d' !! 7%nat = Some 8 /\
    start_offset d' = 5 * (Z.of_nat n + 1) /\ enable_read d' = (Z.of_nat n <? 8).
Proof.
  intros Hid. induction n as [|n IH]; intros Hn.
  - change (rounds 1 d) with (round d). apply round_transfer; [by apply scan_identify|lia|apply Hid].
  - destruct IH as (d1 & E & Hl & Hq & _ & _ & Ho & He); [lia|].
    change (rounds (S (S n)) d) with (d'' ← rounds (S n) d; round d''). rewrite E. cbn [mbind option_bind].
    apply round_transfer; [|lia|done]. rewrite scan_quiet by done.
    rewrite (proj2 (Z.ltb_lt (Z.of_nat n) 8)) in He by lia. destruct d1; cbn in *. subst. unfold set_read. cbn.
    do 2 f_equal. lia.
Qed.

Lemma rounds_ready d : identify d -> exists d', rounds 10 d = Some d' /\ va d' !! 7%nat = Some ATA_DRDY.
Proof.
  intros Hid. destruct (rounds_identify d 8 Hid ltac:(lia)) as (d1 & E & Hl & Hq & _ & _ & _ & He).
  change (rounds 10 d) with (d'' ← rounds 9 d; round d''). rewrite E. cbn [mbind option_bind].
  unfold round, serve. rewrite scan_quiet by done. rewrite He. cbn.
  eexists. split; [reflexivity|]. cbn [va copy refresh_status set_va]. unfold poke.
  rewrite list_lookup_insert_eq; [done|change (7 < length (va d1))%nat; lia].
Qed.

(** ** Properties *)

(** C39: Whatever the host writes at any moment, the disk thread never reads
    outside the identify data, and its offset stays a multiple of 5 up to
    45. *)
Theorem fake_pata_safe regs ctl s :
  length regs = 32%nat -> star step (loaded regs ctl) s ->
  (forall a, act s a <> None) /\ exists k, start_offset (snd s) = 5 * k /\ 0 <= k <= 9.
Proof.
  intros Hl Hs. pose proof (pata_reachable_inv _ _ _ Hl Hs) as Hi. split.
  - intros a. destruct (act_inv s a Hi) as (s' & -> & _). done.
  - apply Hi.
Qed.

(** After an IDENTIFY command the next nine undisturbed rounds offer, with
    the status DRQ, four bytes of the identify data each, at the offsets 0,
    5, .. 40 (so every fifth byte is never offered), and the tenth reports a
    ready disk. *)
Theorem fake_pata_identify d :
  identify d ->
  (forall n, (n <= 8)%nat -> exists d', rounds (S n) d = Some d' /\
     sl (va d') 0 4 = map u8 (sl Identify_Drive_Information (5 * Z.of_nat n) 4) /\ va d' !! 7%nat = Some 8) /\
  exists d', rounds 10 d = Some d' /\ va d' !! 7%nat = Some ATA_DRDY.
Proof.
  intros Hid. split.
  - intros n Hn. destruct (rounds_identify d n Hid Hn) as (d' & E & _ & _ & Hs & H7 & _). by exists d'.
  - by apply rounds_ready.
Qed.

(** A register the host writes while the thread is between its comparison
    and the update of its copy is taken into the copy unseen: an IDENTIFY
    command written then is lost. *)
Theorem fake_pata_lost_command d i v :
  exists d', act (Copy, d) (HostWrite i v) = Some (Copy, d') /\
    scan (copy d') = copy d' /\ start_offset (copy d') = start_offset d /\ enable_read (copy d') = enable_read d.
Proof. eexists. split; [reflexivity|]. split; [by apply scan_quiet|done]. Qed.

(** The message about the control register fits its array of 32 characters
    except when the interrupt bit is clear and the reset bit is set: then the
    terminating zero is written behind it. *)
Theorem fake_pata_message_overflow v :
  32 < zlen (control_message v) <-> Z.land v 2 = 0 /\ Z.land v 4 <> 0.
Proof.
  unfold control_message, c_true. destruct (Z.eqb_spec (Z.land v 2) 0), (Z.eqb_spec (Z.land v 4) 0);
    match goal with |- 32 < zlen ?l <-> _ => let n := eval vm_compute in (zlen l) in change (zlen l) with n end; lia.
Qed.

(** A host that has just written the command to idle registers. *)
Definition demo_disk : disk :=
  Disk (<[7%nat := ATA_CMD_ID_ATA]> (replicate 32 0)) (replicate 32 0) (replicate 32 0) (replicate 32 0) 45 false.

Lemma demo_identify : identify demo_disk.
Proof. repeat split; done. Qed.

Lemma fake_pata_safe_witness :
  exists s, star step (loaded (replicate 32 0) (replicate 32 0)) s /\ act s Thread <> None /\ start_offset (snd s) = 0.
Proof.
  assert (star step (loaded (replicate 32 0) (replicate 32 0)) (Serve, scan (snd (loaded (replicate 32 0) (replicate 32 0))))) as Hs.
  { eapply star_more; [constructor|]. by exists Thread. }
  eexists. split; [exact Hs|]. split; [|reflexivity].
  apply (proj1 (fake_pata_safe (replicate 32 0) (replicate 32 0) _ eq_refl Hs)).
Defined.

Lemma fake_pata_identify_witness :
  exists d', rounds 2 demo_disk = Some d' /\ sl (va d') 0 4 = str "ISK1" /\ va d' !! 7%nat = Some 8.
Proof.
  destruct (fake_pata_identify demo_disk demo_identify) as [H _]. destruct (H 1%nat ltac:(lia)) as (d' & E & Hs & H7).
  exists d'. split; [exact E|]. split; [|exact H7]. rewrite Hs. reflexivity.
Defined.

(** Loading fake_pata.c writes through unchecked pages and mappings, and
    unloading it frees neither. *)
Theorem fake_pata_leaks :
  (exists t h, run (failing_oracle 0 0) [] [] fake_pata_init = Fault "memcpy(page_address(last_phy_page), va)" t h) /\
  (exists t, run good_oracle [] [] (load_cycles 1 fake_pata_init fake_pata_exit) =
     Fin tt t [RIoMap 16384; RIoMap 12288; RMem 8192; RMem 4096]).
Proof. split; repeat eexists; vm_compute; reflexivity. Qed.
