(* ===== verification/PataPlatform.v ===== *)
(** * The platform ATA drivers: pata_platform.c, fake_pata_driver.c, ide_platform.c

    Three drivers for an ATA interface described by a platform device: they
    look up the device's resources, map the two register blocks, fill in the
    table of register addresses and hand it to libata (or the IDE layer).
    The resource lookup is the kernel's: [get_resource] is a parameter. *)
From stdpp Require Import strings.
From S2P Require Import Prelude Kernel.
Local Open Scope Z_scope.

(** ** Resources (<linux/ioport.h>, <linux/interrupt.h>) *)
Definition IORESOURCE_IO : Z := 256.
Definition IORESOURCE_MEM : Z := 512.
Definition IORESOURCE_IRQ : Z := 1024.
Definition IORESOURCE_IRQ_SHAREABLE : Z := 16.
Definition IRQF_TRIGGER_MASK : Z := 15.
Definition IRQF_SHARED : Z := 128.

Record resource := Resource { r_start : Z; r_end : Z; r_flags : Z }.
Definition resource_size (r : resource) : Z := u64 (r_end r - r_start r + 1).

(** A platform device; [ioport_shift]: the platform data, if any. *)
Record pdev := Pdev { num_resources : Z; get_resource : Z -> Z -> option resource; ioport_shift : option Z }.

(** ** Registers (<linux/ata.h>) *)
Definition ATA_REG_DATA : Z := 0.
Definition ATA_REG_ERR : Z := 1.
Definition ATA_REG_NSECT : Z := 2.
Definition ATA_REG_LBAL : Z := 3.
Definition ATA_REG_LBAM : Z := 4.
Definition ATA_REG_LBAH : Z := 5.
Definition ATA_REG_DEVICE : Z := 6.
Definition ATA_REG_STATUS : Z := 7.
Definition ATA_REG_FEATURE : Z := ATA_REG_ERR.
Definition ATA_REG_CMD : Z := ATA_REG_STATUS.

(** [struct ata_ioports] *)
Record ioports := Ioports {
  cmd_addr : Z; data_addr : Z; error_addr : Z; feature_addr : Z; nsect_addr : Z; lbal_addr : Z;
  lbam_addr : Z; lbah_addr : Z; device_addr : Z; status_addr : Z; command_addr : Z;
  altstatus_addr : Z; ctl_addr : Z
}.

(** A pointer plus an [int] offset [reg << shift]. *)
Definition reg_addr (cmd reg shift : Z) : Z := u64 (cmd + s32 (Z.shiftl reg shift)).

Definition pata_platform_setup_port (io : ioports) (shift : Z) : ioports :=
  let at_ reg := reg_addr (cmd_addr io) reg shift in
  Ioports (cmd_addr io) (at_ ATA_REG_DATA) (at_ ATA_REG_ERR) (at_ ATA_REG_FEATURE) (at_ ATA_REG_NSECT)
    (at_ ATA_REG_LBAL) (at_ ATA_REG_LBAM) (at_ ATA_REG_LBAH) (at_ ATA_REG_DEVICE) (at_ ATA_REG_STATUS)
    (at_ ATA_REG_CMD) (altstatus_addr io) (ctl_addr io).

(** The fields of [struct ata_port] the probe sets, and the arguments of
    [ata_host_activate]. *)
Record ata_port := Port { pio_mask : Z; ap_flags : Z; ioaddr : ioports; a_irq : Z; a_irq_flags : Z }.

Definition ATA_FLAG_SLAVE_POSS : Z := 1.
Definition ATA_FLAG_PIO_POLLING : Z := 512.

(** The part of the probe that both drivers share: [irq], [irq_flags]. *)
Definition irq_of (irq_res : option resource) : Z * Z :=
  match irq_res with
  | Some r => if 0 <? r_start r then (s32 (r_start r), s32 (Z.land (r_flags r) IRQF_TRIGGER_MASK)) else (0, 0)
  | None => (0, 0)
  end.

(** [flags]: the flags libata gives a new port. *)
Definition port_flags (flags irq : Z) : Z :=
  let f := Z.lor flags ATA_FLAG_SLAVE_POSS in
  if irq =? 0 then Z.lor f ATA_FLAG_PIO_POLLING else f.

Definition no_ports (cmd ctl : Z) : ioports := Ioports cmd 0 0 0 0 0 0 0 0 0 0 ctl ctl.

(** [ap = host->ports[0]], through which the rest of the probe works. *)
Definition host_port {A} (host : Z) (k : prog A) : prog A :=
  if host =? 0 then Oops "host->ports[0] of NULL host" else k.

(** From the test of the two addresses to the end of the probe. *)
Definition wire_up (host flags mask cmd ctl irq irq_flags shift : Z) : prog (Z * option ata_port) :=
  if (cmd =? 0) || (ctl =? 0) then Ret (- ENOMEM, None)
  else
    let ap := Port mask (port_flags flags irq) (pata_platform_setup_port (no_ports cmd ctl) shift) irq irq_flags in
    call! ret <- ata_host_activate host irq irq_flags ;;
    Ret (ret, Some ap).

(** ** platform/pata_platform.c *)
Definition __pata_platform_probe (flags : Z) (io_res ctl_res : resource) (irq_res : option resource)
    (shift mask : Z) : prog (Z * option ata_port) :=
  let mmio := (r_flags io_res =? IORESOURCE_MEM) && (r_flags ctl_res =? IORESOURCE_MEM) in
  let '(irq, irq_flags) := irq_of irq_res in
  call! host <- ata_host_alloc 1 ;;
  if host =? 0 then Ret (- ENOMEM, None)
  else host_port host (if mmio then
    call! cmd <- devm_ioremap (r_start io_res) (resource_size io_res) ;;
    call! ctl <- devm_ioremap (r_start ctl_res) (resource_size ctl_res) ;;
    wire_up host flags mask cmd ctl irq irq_flags shift
  else
    call! cmd <- devm_ioport_map (r_start io_res) (resource_size io_res) ;;
    call! ctl <- devm_ioport_map (r_start ctl_res) (resource_size ctl_res) ;;
    wire_up host flags mask cmd ctl irq irq_flags shift).

(** The lookup of one base: an I/O resource, else a memory resource. *)
Definition base_resource (p : pdev) (n : Z) : option resource :=
  match get_resource p IORESOURCE_IO n with
  | Some r => Some r
  | None => get_resource p IORESOURCE_MEM n
  end.

Definition shift_of (p : pdev) : Z := match ioport_shift p with Some s => s | None => 0 end.

Definition pata_platform_probe (flags mask : Z) (p : pdev) : prog (Z * option ata_port) :=
  if negb (num_resources p =? 3) && negb (num_resources p =? 2) then Ret (- EINVAL, None)
  else match base_resource p 0 with
  | None => Ret (- EINVAL, None)
  | Some io_res =>
      match base_resource p 1 with
      | None => Ret (- EINVAL, None)
      | Some ctl_res =>
          __pata_platform_probe flags io_res ctl_res (get_resource p IORESOURCE_IRQ 0) (shift_of p) mask
      end
  end.

(** A device of the link, as far as [pata_platform_set_mode] touches it. *)
Record ata_device := Atadev { enabled : bool; pio_mode : Z; xfer_mode : Z; xfer_shift : Z; dflags : Z }.

Definition XFER_PIO_0 : Z := 8.
Definition ATA_SHIFT_PIO : Z := 0.
Definition ATA_DFLAG_PIO : Z := 4096.

Definition pata_platform_set_mode (link : list ata_device) : list ata_device * Z :=
  (map (fun d => if enabled d
                 then Atadev true XFER_PIO_0 XFER_PIO_0 ATA_SHIFT_PIO (Z.lor (dflags d) ATA_DFLAG_PIO)
                 else d) link, 0).

(** ** platform/fake_pata_driver.c: addresses in the kernel's linear mapping *)
Module Fake.

Definition __pata_platform_probe (PAGE_OFFSET flags : Z) (io_res ctl_res irq_res : option resource)
    (shift mask : Z) : prog (Z * option ata_port) :=
  match io_res, ctl_res with
  | Some io, Some ctl =>
      let '(irq, irq_flags) := irq_of irq_res in
      call! host <- ata_host_alloc 1 ;;
      if host =? 0 then Ret (- ENOMEM, None)
      else host_port host (wire_up host flags mask (u64 (r_start io + PAGE_OFFSET)) (u64 (r_start ctl + PAGE_OFFSET))
             irq irq_flags shift)
  | _, _ => Ret (- EINVAL, None)
  end.

Definition pata_platform_probe (PAGE_OFFSET flags mask : Z) (p : pdev) : prog (Z * option ata_port) :=
  match get_resource p IORESOURCE_MEM 0 with
  | None => Ret (- EINVAL, None)
  | Some io_res =>
      match get_resource p IORESOURCE_MEM 1 with
      | None => Ret (- EINVAL, None)
      | Some ctl_res =>
          __pata_platform_probe PAGE_OFFSET flags (Some io_res) (Some ctl_res)
            (get_resource p IORESOURCE_IRQ 0) (shift_of p) mask
      end
  end.
End Fake.

(** ** platform/ide_platform.c *)
Module Ide.

(** [struct ide_hw]: [io_ports_array] (whose entry 0 is [data_addr]), the
    control address, the interrupt. *)
Record ide_hw := Hw { io_ports_array : list Z; hw_ctl_addr : Z; hw_irq : Z }.

(** The loop from entry [i]; [n] entries are left. *)
Fixpoint fill_ports (n : nat) (port step : Z) : list Z :=
  match n with
  | O => []
  | S n' => port :: fill_ports n' (u64 (port + step)) step
  end.

Definition plat_ide_setup_ports (base ctrl shift irq : Z) : ide_hw :=
  let port := u64 base in
  let step := s32 (Z.shiftl 1 shift) in
  Hw (port :: fill_ports 7 (u64 (port + step)) step) (u64 ctrl) (s32 irq).

(** The flags of the port description, from <linux/ide.h>. *)
Section Probe.
Variables (IDE_HFLAG_NO_DMA IDE_HFLAG_MMIO : Z).

(** The two resource pairs the probe accepts; [true]: memory. *)
Definition bases (p : pdev) : option (bool * resource * resource) :=
  match get_resource p IORESOURCE_IO 0, get_resource p IORESOURCE_IO 1 with
  | Some b, Some a => Some (false, b, a)
  | _, _ =>
      match get_resource p IORESOURCE_MEM 0, get_resource p IORESOURCE_MEM 1 with
      | Some b, Some a => Some (true, b, a)
      | _, _ => None
      end
  end.

Definition map_base (mmio : bool) (r : resource) : kcall :=
  if mmio then devm_ioremap (r_start r) (resource_size r) else devm_ioport_map (r_start r) (resource_size r).

Definition plat_ide_probe (p : pdev) : prog (Z * option ide_hw) :=
  match bases p with
  | None => Ret (- ENOMEM, None)
  | Some (mmio, res_base, res_alt) =>
      match get_resource p IORESOURCE_IRQ 0 with
      | None => Ret (- EINVAL, None)
      | Some res_irq =>
          call! base <- map_base mmio res_base ;;
          call! alt_base <- map_base mmio res_alt ;;
          match ioport_shift p with
          | None => Oops "pdata->ioport_shift of NULL pdata"
          | Some shift =>
              let hw := plat_ide_setup_ports base alt_base shift (r_start res_irq) in
              let irq_flags := Z.land (r_flags res_irq) IRQF_TRIGGER_MASK in
              let irq_flags :=
                if c_true (Z.land (r_flags res_irq) IORESOURCE_IRQ_SHAREABLE)
                then Z.lor irq_flags IRQF_SHARED else irq_flags in
              let host_flags := if mmio then Z.lor IDE_HFLAG_NO_DMA IDE_HFLAG_MMIO else IDE_HFLAG_NO_DMA in
              call! ret <- ide_host_add irq_flags host_flags ;;
              Ret (ret, Some hw)
          end
      end
  end.
End Probe.
End Ide.

(** ** Lemmas *)
Lemma shiftl_reg reg shift : 0 <= reg <= 7 -> 0 <= shift <= 28 -> 0 <= Z.shiftl reg shift < 2 ^ 31.
Proof.
  intros Hr Hs. rewrite Z.shiftl_mul_pow2 by lia.
  assert (1 <= 2 ^ shift <= 2 ^ 28) by (split; [lia|apply Z.pow_le_mono_r; lia]). nia.
Qed.

Lemma reg_addr_linear cmd reg shift :
  0 <= reg <= 7 -> 0 <= shift <= 28 -> reg_addr cmd reg shift = u64 (cmd + reg * 2 ^ shift).
Proof.
  intros Hr Hs. unfold reg_addr. pose proof (shiftl_reg reg shift Hr Hs).
  rewrite s32_small by lia. by rewrite Z.shiftl_mul_pow2 by lia.
Qed.

Lemma fill_ports_lookup n port step i :
  (i < n)%nat -> Ide.fill_ports n (u64 port) step !! i = Some (u64 (port + Z.of_nat i * step)).
Proof.
  revert port i. induction n as [|n IH]; intros port i Hi; [lia|]. cbn [Ide.fill_ports].
  destruct i as [|i]; cbn [lookup list_lookup].
  - do 2 f_equal. lia.
  - rewrite u64_add_l. change (Ide.fill_ports n (u64 (port + step)) step !! i = Some (u64 (port + Z.of_nat (S i) * step))).
    rewrite IH by lia. do 2 f_equal. lia.
Qed.

(** The table of the IDE driver, entry by entry. *)
Lemma ide_port_lookup base ctrl shift irq i :
  0 <= shift <= 28 -> (i <= 7)%nat ->
  Ide.io_ports_array (Ide.plat_ide_setup_ports base ctrl shift irq) !! i =
  Some (reg_addr base (Z.of_nat i) shift).
Proof.
  intros Hs Hi. rewrite reg_addr_linear by lia. unfold Ide.plat_ide_setup_ports. cbn [Ide.io_ports_array].
  pose proof (shiftl_reg 1 shift ltac:(lia) Hs). rewrite s32_small by lia.
  rewrite Z.shiftl_mul_pow2, Z.mul_1_l by lia. rewrite u64_add_l.
  destruct i as [|i]; cbn [lookup list_lookup]; [by rewrite Z.mul_0_l, Z.add_0_r|].
  etrans; [apply (fill_ports_lookup 7 (base + 2 ^ shift) (2 ^ shift) i); lia|]. do 2 f_equal. lia.
Qed.

(** ** Properties *)

(** The loop of [plat_ide_setup_ports] and the assignments of
    [pata_platform_setup_port] give the same register addresses: entry [i] of
    the IDE table is the address libata uses for register [i], for every
    shift up to 28 (from 29 on [7 << shift] does not fit an [int]). *)
Theorem pata_ide_same_ports io ctrl shift irq :
  0 <= shift <= 28 ->
  let hw := Ide.plat_ide_setup_ports (cmd_addr io) ctrl shift irq in
  let p := pata_platform_setup_port io shift in
  Ide.io_ports_array hw =
    [data_addr p; error_addr p; nsect_addr p; lbal_addr p; lbam_addr p; lbah_addr p; device_addr p; status_addr p] /\
  feature_addr p = error_addr p /\ command_addr p = status_addr p.
Proof.
  intros Hs hw p. split; [|done].
  assert (forall i, (i <= 7)%nat -> Ide.io_ports_array hw !! i = Some (reg_addr (cmd_addr io) (Z.of_nat i) shift)) as Hi
    by (intros; by apply ide_port_lookup).
  assert (length (Ide.io_ports_array hw) = 8%nat) as Hl by done.
  destruct (Ide.io_ports_array hw) as [|a0 [|a1 [|a2 [|a3 [|a4 [|a5 [|a6 [|a7 [|]]]]]]]]]; try done.
  pose proof (Hi 0%nat ltac:(lia)) as [= ->]. pose proof (Hi 1%nat ltac:(lia)) as [= ->].
  pose proof (Hi 2%nat ltac:(lia)) as [= ->]. pose proof (Hi 3%nat ltac:(lia)) as [= ->].
  pose proof (Hi 4%nat ltac:(lia)) as [= ->]. pose proof (Hi 5%nat ltac:(lia)) as [= ->].
  pose proof (Hi 6%nat ltac:(lia)) as [= ->]. by pose proof (Hi 7%nat ltac:(lia)) as [= ->].
Qed.

Lemma pata_ide_same_ports_witness :
  Ide.io_ports_array (Ide.plat_ide_setup_ports 496 1014 2 14) = [496; 500; 504; 508; 512; 516; 520; 524] /\
  status_addr (pata_platform_setup_port (no_ports 496 1014) 2) = 524.
Proof.
  destruct (pata_ide_same_ports (no_ports 496 1014) 1014 2 14 ltac:(lia)) as [H _]. cbn [cmd_addr no_ports] in H.
  split; [rewrite H; vm_compute; reflexivity|vm_compute; reflexivity].
Defined.

(** What the probe of pata_platform.c accepts. *)
Definition valid_resources (p : pdev) : option (resource * resource) :=
  if (num_resources p =? 3) || (num_resources p =? 2) then
    match base_resource p 0, base_resource p 1 with
    | Some io, Some ctl => Some (io, ctl)
    | _, _ => None
    end
  else None.

Definition is_mmio (io ctl : resource) : bool :=
  (r_flags io =? IORESOURCE_MEM) && (r_flags ctl =? IORESOURCE_MEM).

Definition map_of (mmio : bool) (r : resource) : kcall :=
  if mmio then devm_ioremap (r_start r) (resource_size r) else devm_ioport_map (r_start r) (resource_size r).

(** The port handed to libata: both blocks mapped, the table computed from
    the first, polling exactly when there is no interrupt. *)
Record wired (flags mask shift cmd ctl : Z) (irq_res : option resource) (ap : ata_port) : Prop := {
  wired_mapped : 0 < cmd /\ 0 < ctl;
  wired_mask : pio_mask ap = mask;
  wired_ports : ioaddr ap = pata_platform_setup_port (no_ports cmd ctl) shift;
  wired_irq : (a_irq ap, a_irq_flags ap) = irq_of irq_res;
  wired_slave : Z.testbit (ap_flags ap) 0 = true;
  wired_polling : Z.testbit (ap_flags ap) 9 = (a_irq ap =? 0) || Z.testbit flags 9
}.

Lemma wire_up_safe host flags mask cmd ctl irq_res shift t held Q :
  0 <= cmd -> 0 <= ctl -> (forall t', Q (- ENOMEM, None) t' held) ->
  (forall t' ret ap, wired flags mask shift cmd ctl irq_res ap ->
     t' = t ++ [(ata_host_activate host (a_irq ap) (a_irq_flags ap), ret)] -> Q (ret, Some ap) t' held) ->
  safe answers (wire_up host flags mask cmd ctl (fst (irq_of irq_res)) (snd (irq_of irq_res)) shift) t held Q.
Proof.
  intros Hcmd Hctl Hn Hs. unfold wire_up. destruct ((cmd =? 0) || (ctl =? 0)) eqn:E.
  - by apply safe_ret.
  - apply orb_false_iff in E as [E1 E2]. zbool. apply safe_call. intros ret _. kred. apply safe_ret, Hs; [|done].
    split; cbn [pio_mask ioaddr a_irq a_irq_flags ap_flags]; try done; [lia|by destruct (irq_of irq_res)| |];
      unfold port_flags, ATA_FLAG_SLAVE_POSS, ATA_FLAG_PIO_POLLING; destruct (fst (irq_of irq_res) =? 0);
      rewrite !Z.lor_spec; cbn; rewrite ?orb_true_r, ?orb_false_r; done.
Qed.

(** The calls of the probe give back and take nothing. *)
Lemma settle_map mmio r x held : settle (map_of mmio r) x held = Some held.
Proof. by destruct mmio. Qed.

(** The end of the probe with both blocks mapped. *)
Lemma run_wire_up o t held host flags mask cmd ctl irq_res shift :
  0 < cmd -> 0 < ctl ->
  let activate := ata_host_activate host (fst (irq_of irq_res)) (snd (irq_of irq_res)) in
  exists ap, wired flags mask shift cmd ctl irq_res ap /\
    run o t held (wire_up host flags mask cmd ctl (fst (irq_of irq_res)) (snd (irq_of irq_res)) shift) =
    Fin (o t held activate, Some ap) (t ++ [(activate, o t held activate)]) held.
Proof.
  intros Hcmd Hctl. unfold wire_up. rewrite (proj2 (Z.eqb_neq cmd 0)), (proj2 (Z.eqb_neq ctl 0)) by lia. cbn [orb run].
  unfold settle. cbn [releases acquires drops give_back_all drop_all app].
  eexists. split; [|reflexivity]. split; cbn [pio_mask ioaddr a_irq a_irq_flags ap_flags]; try done;
    [by destruct (irq_of irq_res)|..]; unfold port_flags, ATA_FLAG_SLAVE_POSS, ATA_FLAG_PIO_POLLING;
    destruct (fst (irq_of irq_res) =? 0); rewrite !Z.lor_spec; cbn; rewrite ?orb_true_r, ?orb_false_r; done.
Qed.

Lemma run_probe o flags mask shift io ctl irq_res t held :
  conforming o ->
  let m := is_mmio io ctl in
  let host := o t held (ata_host_alloc 1) in
  let t1 := t ++ [(ata_host_alloc 1, host)] in
  let cmd := o t1 held (map_of m io) in
  let t2 := t1 ++ [(map_of m io, cmd)] in
  let ctl_a := o t2 held (map_of m ctl) in
  let t3 := t2 ++ [(map_of m ctl, ctl_a)] in
  let r := run o t held (__pata_platform_probe flags io ctl irq_res shift mask) in
  (host = 0 -> r = Fin (- ENOMEM, None) t1 held) /\
  (host <> 0 -> cmd = 0 \/ ctl_a = 0 -> r = Fin (- ENOMEM, None) t3 held) /\
  (host <> 0 -> cmd <> 0 -> ctl_a <> 0 ->
   let activate := ata_host_activate host (fst (irq_of irq_res)) (snd (irq_of irq_res)) in
   let ret := o t3 held activate in
   exists ap, wired flags mask shift cmd ctl_a irq_res ap /\ r = Fin (ret, Some ap) (t3 ++ [(activate, ret)]) held).
Proof.
  intros Ho. cbv zeta. unfold __pata_platform_probe. fold (is_mmio io ctl). rewrite (surjective_pairing (irq_of irq_res)).
  cbn [run]. unfold settle at 1 2 3. cbn [releases acquires drops give_back_all drop_all app].
  set (host := o t held (ata_host_alloc 1)). destruct (Z.eqb_spec host 0) as [E|E]; [cbn [run]; by split|].
  unfold host_port. rewrite (proj2 (Z.eqb_neq host 0) E).
  assert (forall k : Z -> Z -> prog (Z * option ata_port),
    (if is_mmio io ctl then call! cmd <- devm_ioremap (r_start io) (resource_size io) ;;
       call! ctl <- devm_ioremap (r_start ctl) (resource_size ctl) ;; k cmd ctl
     else call! cmd <- devm_ioport_map (r_start io) (resource_size io) ;;
       call! ctl <- devm_ioport_map (r_start ctl) (resource_size ctl) ;; k cmd ctl) =
    Call (map_of (is_mmio io ctl) io) (fun cmd => Call (map_of (is_mmio io ctl) ctl) (fun ctl => k cmd ctl))) as ->
    by (intros; unfold map_of; by destruct (is_mmio io ctl)).
  set (m := is_mmio io ctl). cbn [run]. rewrite settle_map. cbn [run]. rewrite settle_map.
  set (t1 := t ++ [(ata_host_alloc 1, host)]). set (cmd := o t1 held (map_of m io)).
  set (t2 := t1 ++ [(map_of m io, cmd)]). set (ctl_a := o t2 held (map_of m ctl)).
  assert (0 <= cmd /\ 0 <= ctl_a) as [Hcmd Hctl].
  { split; [pose proof (Ho t1 held (map_of m io)) as H|pose proof (Ho t2 held (map_of m ctl)) as H]; destruct m; exact H. }
  split; [done|]. split.
  - intros _ [H|H]; unfold wire_up; rewrite H, ?Z.eqb_refl, ?orb_true_r; done.
  - intros _ Hc Ha. apply run_wire_up; lia.
Qed.

(** C33: The probe of pata_platform.c on every device and every answer of the
    kernel.  It refuses a device without the two base resources (or with a
    wrong number of them) before it calls anything.  Otherwise it allocates a
    host: when there is none it returns -ENOMEM without using it.  It maps
    both blocks, as memory exactly when both resources are plain memory
    resources: when one cannot be mapped it returns -ENOMEM and activates
    nothing.  With both it activates the port described by [wired] and returns
    the answer of the activation.  It holds nothing itself afterwards. *)
Theorem pata_probe_outcomes o flags mask p t held :
  conforming o ->
  let r := run o t held (pata_platform_probe flags mask p) in
  match valid_resources p with
  | None => r = Fin (- EINVAL, None) t held
  | Some (io, ctl) =>
      let irq_res := get_resource p IORESOURCE_IRQ 0 in
      let m := is_mmio io ctl in
      let host := o t held (ata_host_alloc 1) in
      let t1 := t ++ [(ata_host_alloc 1, host)] in
      let cmd := o t1 held (map_of m io) in
      let t2 := t1 ++ [(map_of m io, cmd)] in
      let ctl_a := o t2 held (map_of m ctl) in
      let t3 := t2 ++ [(map_of m ctl, ctl_a)] in
      (host = 0 -> r = Fin (- ENOMEM, None) t1 held) /\
      (host <> 0 -> cmd = 0 \/ ctl_a = 0 -> r = Fin (- ENOMEM, None) t3 held) /\
      (host <> 0 -> cmd <> 0 -> ctl_a <> 0 ->
       let activate := ata_host_activate host (fst (irq_of irq_res)) (snd (irq_of irq_res)) in
       let ret := o t3 held activate in
       exists ap, wired flags mask (shift_of p) cmd ctl_a irq_res ap /\ r = Fin (ret, Some ap) (t3 ++ [(activate, ret)]) held)
  end.
Proof.
  intros Ho. unfold valid_resources, pata_platform_probe.
  rewrite <- negb_orb. destruct ((num_resources p =? 3) || (num_resources p =? 2)); cbn [negb]; [|done].
  destruct (base_resource p 0) as [io|]; [|done]. destruct (base_resource p 1) as [ctl|]; [|done].
  by apply run_probe.
Qed.

(** The device of fake_pata.c: two memory blocks and an interrupt. *)
Definition demo_pdev (info : option Z) : pdev :=
  Pdev 3 (fun ty n =>
    if ty =? IORESOURCE_MEM then
      if n =? 0 then Some (Resource 806354944 807403520 512)
      else if n =? 1 then Some (Resource 808452096 809500672 512) else None
    else if (ty =? IORESOURCE_IRQ) && (n =? 0) then Some (Resource 2 2 1024) else None) info.

Lemma pata_probe_outcomes_witness :
  exists ret ap t', run good_oracle [] [] (pata_platform_probe 0 1 (demo_pdev (Some 0))) = Fin (ret, Some ap) t' [] /\
    command_addr (ioaddr ap) = 4096 + 7 /\ a_irq ap = 2.
Proof.
  pose proof (pata_probe_outcomes good_oracle 0 1 (demo_pdev (Some 0)) [] [] good_oracle_conforming) as H.
  change (valid_resources (demo_pdev (Some 0))) with
    (Some (Resource 806354944 807403520 512, Resource 808452096 809500672 512)) in H. cbv beta iota zeta in H.
  destruct H as (_ & _ & H). destruct H as (ap & Hw & Hr); [vm_compute; discriminate..|].
  do 3 eexists. split; [exact Hr|]. split.
  - rewrite (wired_ports _ _ _ _ _ _ _ Hw). reflexivity.
  - pose proof (wired_irq _ _ _ _ _ _ _ Hw) as E. by injection E.
Defined.

(** The probe of fake_pata_driver.c maps nothing: its registers are where
    the kernel's linear mapping has the memory of the resources. *)
Theorem fake_probe_ports o PAGE_OFFSET flags mask p t held io ctl :
  conforming o -> get_resource p IORESOURCE_MEM 0 = Some io -> get_resource p IORESOURCE_MEM 1 = Some ctl ->
  0 <= shift_of p <= 28 ->
  exists ret ap t', run o t held (Fake.pata_platform_probe PAGE_OFFSET flags mask p) = Fin (ret, ap) t' held /\
    match ap with
    | None => ret = - ENOMEM
    | Some ap => command_addr (ioaddr ap) = u64 (r_start io + PAGE_OFFSET + 7 * 2 ^ shift_of p) /\
                 data_addr (ioaddr ap) = u64 (r_start io + PAGE_OFFSET) /\
                 altstatus_addr (ioaddr ap) = u64 (r_start ctl + PAGE_OFFSET)
    end.
Proof.
  intros Ho Hio Hctl Hs. unfold Fake.pata_platform_probe. rewrite Hio, Hctl. unfold Fake.__pata_platform_probe.
  rewrite (surjective_pairing (irq_of _)).
  destruct (safe_run answers o (call! host <- ata_host_alloc 1 ;;
      if host =? 0 then Ret (- ENOMEM, None)
      else host_port host (wire_up host flags mask (u64 (r_start io + PAGE_OFFSET)) (u64 (r_start ctl + PAGE_OFFSET))
             (fst (irq_of (get_resource p IORESOURCE_IRQ 0))) (snd (irq_of (get_resource p IORESOURCE_IRQ 0)))
             (shift_of p))) t held (fun '(ret, ap) t' held' => held' = held /\ match ap with
      | None => ret = - ENOMEM
      | Some ap => command_addr (ioaddr ap) = u64 (r_start io + PAGE_OFFSET + 7 * 2 ^ shift_of p) /\
                 data_addr (ioaddr ap) = u64 (r_start io + PAGE_OFFSET) /\
                 altstatus_addr (ioaddr ap) = u64 (r_start ctl + PAGE_OFFSET) end) Ho) as ([ret ap] & t' & h & Hr & -> & H);
    [|by exists ret, ap, t'].
  apply safe_call. intros host _. kred. unfold host_port. destruct (host =? 0); [by apply safe_ret|].
  apply wire_up_safe; [apply wrapu_range; lia|apply wrapu_range; lia|done|].
  intros t' ret ap Hw _. split; [done|]. rewrite (wired_ports _ _ _ _ _ _ _ Hw).
  cbn [pata_platform_setup_port command_addr data_addr altstatus_addr cmd_addr no_ports].
  unfold ATA_REG_CMD, ATA_REG_STATUS, ATA_REG_DATA. rewrite !reg_addr_linear by lia. rewrite !u64_add_l.
  repeat split; f_equal; lia.
Qed.

Lemma fake_probe_ports_witness :
  exists ret ap t', run good_oracle [] [] (Fake.pata_platform_probe (2 ^ 47) 0 1 (demo_pdev None)) = Fin (ret, ap) t' [] /\
    match ap with
    | None => ret = - ENOMEM
    | Some ap => command_addr (ioaddr ap) = u64 (806354944 + 2 ^ 47 + 7) /\
                 data_addr (ioaddr ap) = u64 (806354944 + 2 ^ 47) /\
                 altstatus_addr (ioaddr ap) = u64 (808452096 + 2 ^ 47)
    end.
Proof.
  apply (fake_probe_ports good_oracle (2 ^ 47) 0 1 (demo_pdev None) [] []
    (Resource 806354944 807403520 512) (Resource 808452096 809500672 512) good_oracle_conforming); [done|done|].
  vm_compute. by split.
Defined.

(** [pata_platform_set_mode] puts every enabled device into PIO mode 0 and
    leaves the others alone; doing it twice changes nothing more. *)
Theorem set_mode_spec link :
  let link' := fst (pata_platform_set_mode link) in
  Forall2 (fun d d' => enabled d' = enabled d /\
    if enabled d then pio_mode d' = XFER_PIO_0 /\ xfer_mode d' = XFER_PIO_0 /\ xfer_shift d' = ATA_SHIFT_PIO /\
                      forall n, Z.testbit (dflags d') n = (Z.testbit (dflags d) n || Z.testbit ATA_DFLAG_PIO n)
    else d' = d) link link' /\
  fst (pata_platform_set_mode link') = link'.
Proof.
  cbv zeta. unfold pata_platform_set_mode. cbn [fst]. split.
  - induction link as [|d link IH]; cbn [map]; constructor; [|done].
    destruct d as [[] pm xm xs fl]; cbn; [|done]. repeat split. intros n. apply Z.lor_spec.
  - rewrite map_map. apply map_ext. intros [[] pm xm xs fl]; cbn; [|done].
    by rewrite <- Z.lor_assoc, Z.lor_diag.
Qed.

(** ide_platform.c does not look at the answers of its mappings, nor at the
    platform data: with both mappings failing it still registers a host whose
    registers start at address 0, and a device without platform data (which
    pata_platform.c accepts) makes it dereference NULL. *)
Theorem ide_probe_unchecked nodma mmio :
  (exists hw t, run (fun t h c => if c is devm_ioremap _ _ then 0 else good_oracle t h c) [] []
                  (Ide.plat_ide_probe nodma mmio (demo_pdev (Some 0))) = Fin (0, Some hw) t [] /\
     Ide.io_ports_array hw = [0; 1; 2; 3; 4; 5; 6; 7] /\ Ide.hw_ctl_addr hw = 0) /\
  (exists w t, run good_oracle [] [] (Ide.plat_ide_probe nodma mmio (demo_pdev None)) = Fault w t []) /\
  (exists ap t, run good_oracle [] [] (pata_platform_probe 0 1 (demo_pdev None)) = Fin (0, Some ap) t []).
Proof.
  split; [|split]; do 2 eexists; try split; vm_compute; try reflexivity. by split.
Qed.

(** What [plat_ide_probe] does on every branch: refused without the bases
    (-ENOMEM) or the interrupt (-EINVAL) before any call; otherwise the host
    is added with the table of the mapped base, or the mapping calls end in
    the missing platform data. *)
Theorem ide_probe_outcomes nodma mmio_flag o p t held :
  conforming o ->
  match Ide.bases p, get_resource p IORESOURCE_IRQ 0 with
  | None, _ => run o t held (Ide.plat_ide_probe nodma mmio_flag p) = Fin (- ENOMEM, None) t held
  | Some _, None => run o t held (Ide.plat_ide_probe nodma mmio_flag p) = Fin (- EINVAL, None) t held
  | Some (m, b, a), Some irq =>
      let base := o t held (map_of m b) in
      let t1 := t ++ [(map_of m b, base)] in
      let alt := o t1 held (map_of m a) in
      let t2 := t1 ++ [(map_of m a, alt)] in
      match ioport_shift p with
      | None => exists w, run o t held (Ide.plat_ide_probe nodma mmio_flag p) = Fault w t2 held
      | Some shift => exists ret t',
          run o t held (Ide.plat_ide_probe nodma mmio_flag p) =
            Fin (ret, Some (Ide.plat_ide_setup_ports base alt shift (r_start irq))) t' held /\ -4095 <= ret <= 0
      end
  end.
Proof.
  intros Ho. unfold Ide.plat_ide_probe. destruct (Ide.bases p) as [[[m b] a]|]; [|done].
  destruct (get_resource p IORESOURCE_IRQ 0) as [irq|]; [|done]. cbv zeta.
  change (Ide.map_base m b) with (map_of m b). change (Ide.map_base m a) with (map_of m a).
  assert (forall r x h, settle (map_of m r) x h = Some h) as Hs by (intros; by destruct m).
  cbn [run]. rewrite Hs. cbn [run]. rewrite Hs. destruct (ioport_shift p) as [shift|]; cbn [run]; [|by eexists].
  unfold settle. cbn [releases acquires drops give_back_all drop_all app].
  match goal with |- context [o ?t' held (ide_host_add ?f ?g)] => pose proof (Ho t' held (ide_host_add f g)) as Hr end.
  cbn in Hr. do 2 eexists. split; [reflexivity|]. unfold errno_or in Hr. lia.
Qed.

Lemma ide_probe_outcomes_witness :
  exists ret t', run good_oracle [] [] (Ide.plat_ide_probe 1 2 (demo_pdev (Some 2))) =
    Fin (ret, Some (Ide.plat_ide_setup_ports 4096 4096 2 2)) t' [] /\ -4095 <= ret <= 0.
Proof.
  pose proof (ide_probe_outcomes 1 2 good_oracle (demo_pdev (Some 2)) [] [] good_oracle_conforming) as H.
  exact H.
Defined.
