(* ===== verification/PataHost.v ===== *)
(** * A driver and a disk together: pata_platform.c on the device of fake_pata.c

    fake_pata.c registers a platform device and plays its disk from a thread;
    pata_platform.c drives devices of that name.  Driver and thread map the
    same physical memory: a store to address [a] of the driver's mapping of
    the I/O block is a write to register [a - cmd_addr] of the disk, and a
    load reads the thread's copy of it.  What is shown is about one store and
    the loads after it at the addresses of the table the probe built. *)
From stdpp Require Import strings.
From S2P Require Import Prelude Kernel FakePata PataPlatform.
Local Open Scope Z_scope.

(** [fake_pata_device]: its resources and platform data. *)
Definition fake_pata_res (ty n : Z) : option resource :=
  if ty =? IORESOURCE_MEM then
    if n =? 0 then Some (Resource ((768 + 1) * 1024 * 1024) ((768 + 2) * 1024 * 1024) IORESOURCE_MEM)
    else if n =? 1 then Some (Resource ((768 + 3) * 1024 * 1024) ((768 + 4) * 1024 * 1024) IORESOURCE_MEM)
    else None
  else if (ty =? IORESOURCE_IRQ) && (n =? 0) then Some (Resource 2 2 IORESOURCE_IRQ) else None.

Definition fake_pata_device : pdev := Pdev 3 fake_pata_res (Some 0).

(** ** Lemmas *)
Lemma fake_pata_valid : valid_resources fake_pata_device =
  Some (Resource (769 * 1024 * 1024) (770 * 1024 * 1024) 512, Resource (771 * 1024 * 1024) (772 * 1024 * 1024) 512).
Proof. reflexivity. Qed.

(** The table of a port without shift: register [i] is at [cmd_addr + i]. *)
Definition unshifted (ports : ioports) : Prop :=
  0 <= cmd_addr ports /\ cmd_addr ports + RES_MEM_LENGTH <= 2 ^ 64 /\
  data_addr ports = cmd_addr ports /\ status_addr ports = cmd_addr ports + 7 /\
  command_addr ports = cmd_addr ports + 7.

Lemma setup_unshifted cmd ctl :
  0 <= cmd -> cmd + RES_MEM_LENGTH <= 2 ^ 64 -> unshifted (pata_platform_setup_port (no_ports cmd ctl) 0).
Proof.
  unfold RES_MEM_LENGTH. intros H0 H1. unfold unshifted, RES_MEM_LENGTH. cbn [pata_platform_setup_port cmd_addr data_addr status_addr command_addr no_ports].
  unfold PataPlatform.ATA_REG_CMD, PataPlatform.ATA_REG_STATUS, PataPlatform.ATA_REG_DATA.
  rewrite !reg_addr_linear by lia. rewrite !u64_small by lia. lia.
Qed.

(** A disk at rest: the thread has seen its registers and serves nothing. *)
Definition at_rest (d : disk) : Prop :=
  length (va d) = 32%nat /\ va_l d = va d /\ va d !! 7%nat <> Some ATA_CMD_ID_ATA.

Lemma command_is_identify d :
  at_rest d -> exists d', act (Scan, d) (HostWrite 7 ATA_CMD_ID_ATA) = Some (Scan, d') /\ identify d'.
Proof.
  intros (Hl & Hq & H7). eexists. split; [reflexivity|].
  unfold identify, poke. cbn [set_va va va_l]. change (Z.to_nat 7) with 7%nat. rewrite length_insert, Hq.
  change (u8 ATA_CMD_ID_ATA) with ATA_CMD_ID_ATA. split; [done|]. split; [done|].
  split; [by rewrite list_lookup_insert_eq by lia|]. split; [done|]. by rewrite drop_insert_lt by lia.
Qed.

Lemma word_of_slice l (a b c d : Z) : sl l 0 4 = [a; b; c; d] -> l !! 0%nat = Some a /\ l !! 1%nat = Some b.
Proof. destruct l as [|x [|y [|z [|w l]]]]; cbn; intros [=]; by subst. Qed.

(** The bytes of a round. *)
Lemma identify_slice n : (n <= 8)%nat -> exists a b c e,
  map u8 (sl Identify_Drive_Information (5 * Z.of_nat n) 4) = [a; b; c; e] /\
  Identify_Drive_Information !! (5 * n)%nat = Some a /\ Identify_Drive_Information !! (5 * n + 1)%nat = Some b.
Proof. intros Hn. do 9 (destruct n as [|n]; [do 4 eexists; repeat split|]). lia. Qed.

(** The table of a probe that succeeded on the fake device. *)
Lemma probe_unshifted o flags mask t held ret ap t' :
  conforming o -> run o t held (pata_platform_probe flags mask fake_pata_device) = Fin (ret, Some ap) t' held ->
  cmd_addr (ioaddr ap) + RES_MEM_LENGTH <= 2 ^ 64 -> unshifted (ioaddr ap).
Proof.
  intros Ho Hrun Hbound. set (io := Resource (769 * 1024 * 1024) (770 * 1024 * 1024) 512).
  set (ctl := Resource (771 * 1024 * 1024) (772 * 1024 * 1024) 512).
  change (pata_platform_probe flags mask fake_pata_device) with
    (__pata_platform_probe flags io ctl (Some (Resource 2 2 IORESOURCE_IRQ)) 0 mask) in Hrun.
  destruct (run_probe o flags mask 0 io ctl (Some (Resource 2 2 IORESOURCE_IRQ)) t held Ho) as (Hh & Hm & Hw).
  match type of Hh with ?h = 0 -> _ => destruct (decide (h = 0)) as [E|E] end.
  { rewrite (Hh E) in Hrun. discriminate. }
  match type of Hm with _ -> ?c = 0 \/ ?d = 0 -> _ =>
    destruct (decide (c = 0)) as [E1|E1]; [|destruct (decide (d = 0)) as [E2|E2]] end.
  - rewrite (Hm E (or_introl E1)) in Hrun. discriminate.
  - rewrite (Hm E (or_intror E2)) in Hrun. discriminate.
  - destruct (Hw E E1 E2) as (ap' & Hwd & Hr). rewrite Hr in Hrun. injection Hrun as _ -> _.
    rewrite (wired_ports _ _ _ _ _ _ _ Hwd) in Hbound |- *. destruct (wired_mapped _ _ _ _ _ _ _ Hwd).
    apply setup_unshifted; [lia|exact Hbound].
Qed.

(** ** Properties *)

(** C18: The table the probe of pata_platform.c builds for the device of
    fake_pata.c leads to the registers of its disk: the addresses are inside
    the I/O block, and an IDENTIFY command stored at the command address of a
    disk at rest makes the disk show, after each of the next nine rounds of
    its thread in which nobody else stores anything, DRQ at the status
    address and bytes [5 n] and [5 n + 1] of its identify data at the data
    address in round [n] (counted from 0): of every five bytes three never
    come to the data register.  After the tenth round the status is DRDY. *)
Theorem pata_driver_identifies_disk o flags mask t held ret ap t' d :
  conforming o -> at_rest d ->
  run o t held (pata_platform_probe flags mask fake_pata_device) = Fin (ret, Some ap) t' held ->
  cmd_addr (ioaddr ap) + RES_MEM_LENGTH <= 2 ^ 64 ->
  let io := ioaddr ap in
  let reg a := a - cmd_addr io in
  (forall a, a ∈ [command_addr io; status_addr io; data_addr io; data_addr io + 1] -> 0 <= reg a < RES_MEM_LENGTH) /\
  exists d0, act (Scan, d) (HostWrite (reg (command_addr io)) ATA_CMD_ID_ATA) = Some (Scan, d0) /\
    (forall n, (n <= 8)%nat -> exists d', rounds (S n) d0 = Some d' /\
       va d' !! Z.to_nat (reg (status_addr io)) = Some 8 /\
       va d' !! Z.to_nat (reg (data_addr io)) = Identify_Drive_Information !! (5 * n)%nat /\
       va d' !! Z.to_nat (reg (data_addr io + 1)) = Identify_Drive_Information !! (5 * n + 1)%nat) /\
    exists d', rounds 10 d0 = Some d' /\ va d' !! Z.to_nat (reg (status_addr io)) = Some ATA_DRDY.
Proof.
  intros Ho Hd Hrun Hbound io reg. destruct (probe_unshifted o flags mask t held ret ap t' Ho Hrun Hbound) as (H0 & _ & Hda & Hst & Hcm).
  subst reg. cbv beta. fold io in H0, Hda, Hst, Hcm. rewrite Hda, Hst, Hcm. split.
  { intros a Ha. unfold RES_MEM_LENGTH. rewrite !elem_of_cons, elem_of_nil in Ha. destruct Ha as [->|[->|[->|[->|[]]]]]; lia. }
  rewrite Z.add_simpl_l, Z.sub_diag, Z.add_simpl_l.
  destruct (command_is_identify d Hd) as (d0 & Hc & Hid). exists d0. split; [exact Hc|].
  split; [|apply (rounds_ready d0 Hid)]. intros n Hn. destruct (rounds_identify d0 n Hid Hn) as (d' & E & _ & _ & Hs & H7 & _).
  exists d'. split; [exact E|]. split; [exact H7|]. destruct (identify_slice n Hn) as (a & b & c & e & E4 & -> & ->).
  rewrite E4 in Hs. by apply word_of_slice in Hs.
Qed.

(** A disk at rest, freshly loaded. *)
Definition idle_disk : disk := snd (loaded (replicate 32 0) (replicate 32 0)).

Lemma pata_driver_identifies_disk_witness :
  exists ret ap t' d', run good_oracle [] [] (pata_platform_probe 0 1 fake_pata_device) = Fin (ret, Some ap) t' [] /\
    (d0 ← act (Scan, idle_disk) (HostWrite (command_addr (ioaddr ap) - cmd_addr (ioaddr ap)) ATA_CMD_ID_ATA); rounds 3 (snd d0)) = Some d' /\
    va d' !! Z.to_nat (data_addr (ioaddr ap) - cmd_addr (ioaddr ap)) = Some 70 /\
    va d' !! Z.to_nat (data_addr (ioaddr ap) + 1 - cmd_addr (ioaddr ap)) = Some 65.
Proof.
  assert (exists ret ap t', run good_oracle [] [] (pata_platform_probe 0 1 fake_pata_device) = Fin (ret, Some ap) t' [] /\
    cmd_addr (ioaddr ap) + RES_MEM_LENGTH <= 2 ^ 64) as (ret & ap & t' & Hr & Hb).
  { do 3 eexists. split; [vm_compute; reflexivity|vm_compute; discriminate]. }
  destruct (pata_driver_identifies_disk good_oracle 0 1 [] [] _ _ _ idle_disk good_oracle_conforming
    ltac:(repeat split; discriminate) Hr Hb) as (_ & d0 & Hact & H & _).
  destruct (H 2%nat ltac:(lia)) as (d' & E & _ & H1 & H2). exists ret, ap, t', d'.
  split; [exact Hr|]. rewrite Hact. cbn [mbind option_bind snd]. split; [exact E|].
  by rewrite H1, H2.
Defined.
