(* ===== verification/Devices.v ===== *)
(** * Platform devices and their drivers

    platform/skel_dev.c and platform/plat_dev.c register a platform device of
    the same name, with and without resources; skel_drv.c (Loaders.v) is the
    driver bound to both.  The data path of key_char_platform.c, whose device
    is that of fake_pata.c, is here as well. *)
From stdpp Require Import strings.
From S2P Require Import Prelude Kernel Loaders.
From S2P Require PataPlatform PataHost.
Local Open Scope Z_scope.

(** ** platform/skel_dev.c and platform/plat_dev.c *)

(** [my_resources] and [plat_dev]: what the driver looks up of them. *)
Definition skel_dev : pdev := Pdev 1 (Some 0xfebff800) (Some 0xe400) (Some 20).
Definition plat_dev : pdev := Pdev 1 None None None.

(** The device of fake_pata.c as key_char_platform.c looks it up. *)
Definition key_device (id : Z) : pdev :=
  let start ty := option_map PataPlatform.r_start (PataHost.fake_pata_res ty 0) in
  Pdev id (start PataPlatform.IORESOURCE_MEM) (start PataPlatform.IORESOURCE_IO) (start PataPlatform.IORESOURCE_IRQ).

(** ** platform/key_char_platform.c: read and write *)
Definition key_read (count : Z) : Z := s64 count.

(** [ioaddr] is the static pointer (0 before the probe), [regs] the bytes it
    points to, [from] the user's bytes.  [copy_from_user] does not fault in
    the kernel; a copy of at least one byte to NULL does, and so does the load
    of [from[0]] when the user's pointer is not mapped. *)
Definition key_write (ioaddr : Z) (regs from : list Z) (count : Z) : prog (Z * list Z) :=
  call! temp <- kzalloc "bytes" (u64 (count + 1)) ;;
  if (temp =? 0) && (0 <? count) then Oops "copy_from_user to NULL"
  else
    do! kquery "copy_from_user" count ;;
    if ioaddr =? 0 then do! kfree temp ;; Ret (s64 count, regs)
    else
      match from with
      | [] => Oops "from[0] of an unmapped address"
      | b :: _ => do! kfree temp ;; Ret (s64 count, upd regs 0 [b])
      end.

(** A sequence of writes. *)
Fixpoint key_writes (ioaddr : Z) (regs : list Z) (bufs : list (list Z)) : prog (list Z) :=
  match bufs with
  | [] => Ret regs
  | b :: rest => let! (_, regs) <- key_write ioaddr regs b (zlen b) ;; key_writes ioaddr regs rest
  end.

(** ** Lemmas *)

(** The contract of the calls where memory is never short. *)
Definition memory_granted (held : list res) (c : kcall) (r : Z) : Prop :=
  answers held c r /\ match c with kzalloc _ _ => r <> 0 | _ => True end.

Lemma key_write_safe ioaddr regs b from count t base :
  safe memory_granted (key_write ioaddr regs (b :: from) count) t base
    (fun '(ret, regs') _ h => ret = s64 count /\ h = base /\ regs' = if ioaddr =? 0 then regs else upd regs 0 [b]).
Proof.
  unfold key_write. krun.
  all: repeat match goal with H : memory_granted _ _ _ |- _ => destruct H as [? ?] end; zbool; try done.
Qed.

Lemma upd_first l (x : Z) : upd l 0 [x] = x :: drop 1 l.
Proof. done. Qed.

Lemma last_first (bufs : list (list Z)) :
  bufs <> [] -> Forall (fun b => b <> []) bufs -> exists y, take 1 (default [] (last bufs)) = [y].
Proof.
  intros Hn Hb. destruct (last bufs) as [b|] eqn:E; [|by apply last_None in E].
  apply last_Some in E as [l' ->]. apply Forall_app in Hb as [_ Hb]. inversion_clear Hb as [|? ? Hb' _].
  destruct b as [|y b]; [done|]. by exists y.
Qed.

Lemma key_writes_safe ioaddr regs bufs t base :
  ioaddr <> 0 -> 0 < zlen regs -> Forall (fun b => b <> []) bufs ->
  safe memory_granted (key_writes ioaddr regs bufs) t base
    (fun regs' _ h => h = base /\ regs' = upd regs 0 (take 1 (default [] (last bufs)))).
Proof.
  intros Ha Hr Hb. revert regs t Hr. induction Hb as [|b bufs Hb Hbs IH]; intros regs t Hr.
  { apply safe_ret. split; [done|]. unfold upd. cbn. by rewrite drop_0. }
  destruct b as [|x b]; [done|]. cbn [key_writes]. apply safe_bind.
  eapply safe_mono; [apply key_write_safe|]. intros [ret regs1] t1 h (_ & -> & ->).
  rewrite (proj2 (Z.eqb_neq _ _) Ha).
  eapply safe_mono; [apply IH; rewrite zlen_upd; unfold zlen in *; cbn in *; lia|].
  cbn. intros regs2 t2 h (-> & ->). split; [done|].
  destruct bufs as [|b' bufs]; [done|]. change (last ((x :: b) :: b' :: bufs)) with (last (b' :: bufs)).
  destruct (last_first (b' :: bufs) ltac:(done) Hbs) as [y ->]. by rewrite !upd_first.
Qed.

(** ** Properties *)

(** The write handler of key_char_platform.c.  While there is memory, a sequence of
    writes frees what it allocates and leaves the first byte of
    the last write in the first register, all others untouched; with none,
    a write of at least one byte crashes, since the allocation is not checked. *)
Theorem key_char_writes o t base ioaddr regs bufs :
  ioaddr <> 0 -> 0 < zlen regs -> Forall (fun b => b <> []) bufs ->
  (obeys memory_granted o ->
   exists t', run o t base (key_writes ioaddr regs bufs) =
     Fin (upd regs 0 (take 1 (default [] (last bufs)))) t' base) /\
  (forall from count, 0 < count -> o t base (kzalloc "bytes" (u64 (count + 1))) = 0 ->
   run o t base (key_write ioaddr regs from count) =
     Fault "copy_from_user to NULL" (t ++ [(kzalloc "bytes" (u64 (count + 1)), 0)]) base).
Proof.
  intros Ha Hr Hb. split.
  - intros Ho. destruct (safe_run _ o _ t base _ Ho (key_writes_safe ioaddr regs bufs t base Ha Hr Hb))
      as (regs' & t' & h & Hrun & -> & ->). by exists t'.
  - intros from count Hc Ho. unfold key_write. cbn [run]. rewrite Ho. cbn.
    by rewrite (proj2 (Z.ltb_lt 0 count) Hc).
Qed.

Lemma key_char_writes_witness :
  (exists t', run good_oracle [] [] (key_writes 4096 [0; 7] [[1; 2]; [3]]) = Fin [3; 7] t' []) /\
  run (failing_oracle 0 0) [] [] (key_write 4096 [0; 7] [1; 2] 2) =
    Fault "copy_from_user to NULL" [(kzalloc "bytes" 3, 0)] [].
Proof.
  split.
  - apply (key_char_writes good_oracle [] [] 4096 [0; 7] [[1; 2]; [3]]); [done|done|by repeat constructor|].
    intros t h c. split; [apply good_oracle_conforming|]. destruct c; try done.
    cbn. pose proof (top_nonneg h). lia.
  - apply (key_char_writes (failing_oracle 0 0) [] [] 4096 [0; 7] []); [done|done|by constructor|lia|reflexivity].
Defined.

(** The skeleton driver on the two devices of its name: with the resources of
    skel_dev.c it can be bound and unbound any number of times and
    gives everything back; on the device of plat_dev.c, which has none, the
    probe crashes at a NULL resource. *)
Theorem skel_devices o base c n :
  conforming o -> clean base ->
  (exists t, run o [] base (load_cycles n (skel_probe c skel_dev) (skel_remove c skel_dev)) = Fin tt t base) /\
  (o [] base (kzalloc "struct mydev" 1) <> 0 ->
   exists t h, run o [] base (skel_probe c plat_dev) = Fault "res->start of NULL res" t h).
Proof.
  intros Ho Hb. split.
  - destruct (safe_run answers o _ [] base _ Ho
      (load_cycles_safe n (skel_probe c skel_dev) (skel_remove c skel_dev) [] base Hb)) as ([] & t & h & Hr & ->).
    by exists t.
  - intros Hp. unfold skel_probe. cbn [run]. unfold settle. cbn [releases acquires drops give_back_all drop_all].
    rewrite (proj2 (Z.eqb_neq _ _) Hp). cbn. by eexists _, _.
Qed.

Lemma skel_devices_witness :
  exists t h, run good_oracle [] [] (skel_probe 7 plat_dev) = Fault "res->start of NULL res" t h.
Proof. apply (skel_devices good_oracle [] 7 0 good_oracle_conforming ltac:(constructor)). cbn. lia. Defined.

(** key_char_platform.c on the device of fake_pata.c: the static pointer is
    set, to the direct mapping of the I/O block. *)
Theorem key_probe_device PAGE_OFFSET c id :
  exists t h dev, run good_oracle [] [] (key_probe PAGE_OFFSET c (key_device id)) =
    Fin (0, Keydev dev 0 (u64 (769 * 1024 * 1024 + PAGE_OFFSET))) t h.
Proof. do 3 eexists. reflexivity. Qed.
