(* ===== verification/PlatBus.v ===== *)
(** * The driver skel_drv.c and the devices skel_dev.c and plat_dev.c on one bus

    Three modules that meet on the platform bus: platform/skel_drv.c registers
    the driver "nolan", platform/skel_dev.c and platform/plat_dev.c each
    register a device of that name and of the same number.  The modules are
    loaded and unloaded in any order; the bus probes the driver when both
    sides are there and removes it before one of them goes.  The bus is the
    kernel's: [bind_if_both] and [unbind] are when it calls the driver. *)
From stdpp Require Import sets strings.
From S2P Require Import Prelude Kernel Loaders Devices.
Local Open Scope Z_scope.

(** The two device modules. *)
Inductive devmod := SkelDev | PlatDev.
#[global] Instance devmod_eq_dec : EqDecision devmod.
Proof. solve_decision. Defined.

Definition device_of (m : devmod) : pdev := match m with SkelDev => skel_dev | PlatDev => plat_dev end.

(** [my_init] and [my_exit] of either. *)
Definition skel_dev_init : prog (Z * unit) := call! ret <- platform_device_register "nolan" 1 ;; Ret (ret, tt).
Definition skel_dev_exit (_ : unit) : prog unit := do! platform_device_unregister "nolan" 1 ;; Ret tt.
Definition plat_dev_init : prog (Z * unit) := call! ret <- platform_device_register "nolan" 1 ;; Ret (ret, tt).
Definition plat_dev_exit (_ : unit) : prog unit := do! platform_device_unregister "nolan" 1 ;; Ret tt.

Definition dev_init (m : devmod) : prog (Z * unit) := match m with SkelDev => skel_dev_init | PlatDev => plat_dev_init end.
Definition dev_exit (m : devmod) : unit -> prog unit := match m with SkelDev => skel_dev_exit | PlatDev => plat_dev_exit end.

(** The class of the loaded driver, the loaded device module, the driver data
    of the bound device, and how many loads of the driver have failed. *)
Record bus := Bus { b_class : option Z; b_dev : option devmod; b_data : option Z; b_failed : nat }.

Definition bind_if_both (b : bus) : prog bus :=
  match b_class b, b_dev b with
  | Some c, Some m =>
      let! (ret, dev) <- skel_probe c (device_of m) ;;
      Ret (Bus (Some c) (Some m) (if ret =? 0 then Some dev else None) (b_failed b))
  | _, _ => Ret b
  end.

Definition unbind (b : bus) : prog bus :=
  match b_class b, b_dev b, b_data b with
  | Some c, Some m, Some dev =>
      let! _ <- skel_remove c (device_of m) dev ;; Ret (Bus (Some c) (Some m) None (b_failed b))
  | _, _, _ => Ret b
  end.

Inductive busop := LoadDrv | UnloadDrv | LoadDev (m : devmod) | UnloadDev (m : devmod).

(** The module loader refuses what is loaded already, and what is not loaded
    cannot be unloaded. *)
Definition bus_do (op : busop) (b : bus) : prog bus :=
  match op with
  | LoadDrv =>
      match b_class b with
      | Some _ => Ret b
      | None =>
          let! (ret, c) <- skel_init ;;
          if ret =? 0 then bind_if_both (Bus (Some c) (b_dev b) None (b_failed b))
          else Ret (Bus None (b_dev b) None (S (b_failed b)))
      end
  | UnloadDrv =>
      let! b <- unbind b ;;
      match b_class b with
      | None => Ret b
      | Some c => let! _ <- skel_exit c ;; Ret (Bus None (b_dev b) None (b_failed b))
      end
  | LoadDev m =>
      if bool_decide (b_dev b = Some m) then Ret b
      else
        let! (ret, _) <- dev_init m ;;
        if ret =? 0 then bind_if_both (Bus (b_class b) (Some m) None (b_failed b)) else Ret b
  | UnloadDev m =>
      if bool_decide (b_dev b = Some m) then
        let! b <- unbind b ;;
        let! _ <- dev_exit m tt ;;
        Ret (Bus (b_class b) None None (b_failed b))
      else Ret b
  end.

Fixpoint bus_ops (ops : list busop) (b : bus) : prog bus :=
  match ops with
  | [] => Ret b
  | op :: rest => let! b' <- bus_do op b ;; bus_ops rest b'
  end.

Definition empty_bus : bus := Bus None None None 0.

(** A session, and everything unloaded at its end. *)
Definition unload_all : list busop := [UnloadDrv; UnloadDev SkelDev; UnloadDev PlatDev].
Definition bus_session (ops : list busop) : prog bus :=
  let! b <- bus_ops ops empty_bus ;; bus_ops unload_all b.

(** ** What the modules hold *)
Definition driver_res (b : bus) : list res :=
  match b_class b with Some c => [RDriver "nolan"; RClass c] | None => [] end.
Definition device_res (b : bus) : list res :=
  match b_dev b with Some _ => [RPdev "nolan" 1] | None => [] end.
Definition bound_to (dev : Z) : list res :=
  [RDevice (MKDEV 50 1); RCdev dev; RChrdev (MKDEV 50 1) 1; RMem dev].
Definition bound_res (b : bus) : list res :=
  match b_data b with Some dev => bound_to dev | None => [] end.

(** Only skel_dev.c's device is on the bus; a bound device has both sides,
    and a driver that failed to load has left at most its class. *)
Record bus_ok (base : list res) (b : bus) (h : list res) : Prop := {
  bo_dev : b_dev b <> Some PlatDev;
  bo_bound dev : b_data b = Some dev -> dev <> 0 /\ is_Some (b_class b) /\ b_dev b = Some SkelDev;
  bo_held : exists leaks, h ≡ₚ bound_res b ++ driver_res b ++ device_res b ++ map RClass leaks ++ base /\
    (length leaks <= b_failed b)%nat
}.

(** ** Lemmas *)
Lemma safe_probe c t h :
  safe answers (skel_probe c skel_dev) t h (fun '(ret, dev) _ h' =>
    if ret =? 0 then dev <> 0 /\ h' = bound_to dev ++ h else h' = h).
Proof.
  unfold skel_probe, skel_dev. cbn [mem_start io_start irq id]. krun; try done.
  - exfalso. unfold errno_or, IS_ERR in *. zbool. lia.
  - split; [by apply Z.eqb_neq|done].
Qed.

Lemma safe_remove c dev t h B :
  dev <> 0 -> h ≡ₚ bound_to dev ++ B ->
  safe answers (skel_remove c skel_dev dev) t h (fun _ _ h' => h' ≡ₚ B).
Proof.
  intros Hd Hh. unfold skel_remove, skel_dev. cbn [id].
  eapply safe_put; [done..|exact Hh|]. intros _ t1 h1 H1.
  eapply safe_put; [done..|exact H1|]. intros _ t2 h2 H2.
  eapply safe_put; [done..|exact H2|]. intros _ t3 h3 H3.
  eapply safe_put; [|done|done|exact H3|]; [cbn [releases]; by rewrite (proj2 (Z.eqb_neq dev 0) Hd)|].
  intros _ t4 h4 H4. by apply safe_ret.
Qed.

Lemma safe_bind_if_both base b t h :
  bus_ok base b h -> b_data b = None ->
  safe answers (bind_if_both b) t h (fun b' _ h' => bus_ok base b' h').
Proof.
  intros Hb Hn. destruct Hb as [Hd Hbd Hh]. destruct b as [[c|] [m|] data f]; cbn [b_data b_dev] in *; subst data;
    try by apply safe_ret; split.
  destruct m; [|done]. unfold bind_if_both. cbn [b_class b_dev device_of]. apply safe_bind.
  eapply safe_mono; [apply safe_probe|]. intros [ret dev] t' h'. destruct (ret =? 0).
  - intros [Hd0 ->]. apply safe_ret. split; [done|by intros ? [= ->]; split; [|split; [eexists|]]|].
    destruct Hh as (leaks & Hh & Hl). exists leaks. split; [|done]. cbn in *. by rewrite Hh.
  - intros ->. by apply safe_ret; split.
Qed.

Lemma safe_unbind base b t h :
  bus_ok base b h ->
  safe answers (unbind b) t h (fun b' _ h' => bus_ok base b' h' /\
    b_class b' = b_class b /\ b_dev b' = b_dev b /\ b_data b' = None).
Proof.
  intros [Hd Hbd Hh]. destruct b as [c m [dev|] f]; cbn [b_data b_dev b_class] in *.
  - destruct (Hbd dev eq_refl) as (Hd0 & [c' ->] & ->). unfold unbind. cbn [b_class b_dev b_data device_of].
    apply safe_bind. destruct Hh as (leaks & Hh & Hl). eapply safe_mono; [by eapply safe_remove|].
    intros ? t' h' Hh'; cbn beta in Hh'. apply safe_ret. split; [|done]. split; [done|done|]. by exists leaks.
  - assert (unbind (Bus c m None f) = Ret (Bus c m None f)) as -> by (unfold unbind; cbn; by destruct c, m).
    apply safe_ret. split; [|done]. split; done.
Qed.

Lemma safe_load_drv base b t h :
  bus_ok base b h -> b_class b = None ->
  safe answers skel_init t h (fun '(ret, c) _ h' => exists b', bus_ok base b' h' /\
    b' = if ret =? 0 then Bus (Some c) (b_dev b) None (b_failed b) else Bus None (b_dev b) None (S (b_failed b))).
Proof.
  intros [Hd Hbd (leaks & Hh & Hl)] Hc. assert (b_data b = None) as Hn.
  { destruct (b_data b) as [dev|] eqn:E; [|done]. destruct (Hbd dev eq_refl) as (_ & [c ?] & _). congruence. }
  destruct b as [cl m data f]. cbn [b_class b_dev b_data b_failed] in *. subst cl data. cbn in Hh. unfold skel_init.
  apply safe_call. intros r Hr. cbn [answers errno_or] in Hr. kred. destruct (IS_ERR r) eqn:E; kcbn.
  - assert (r <> 0) by (unfold IS_ERR in *; zbool; lia). apply safe_ret. rewrite (proj2 (Z.eqb_neq r 0)) by done.
    eexists. split; [|reflexivity]. split; [done|done|]. exists leaks. split; [done|cbn; lia].
  - apply safe_call. intros r1 _. kred. destruct (r1 =? 0) eqn:E1; kcbn; apply safe_ret; rewrite E1.
    + eexists. split; [|reflexivity]. split; [done|done|]. exists leaks. split; [cbn; by rewrite Hh|done].
    + eexists. split; [|reflexivity]. split; [done|done|]. exists (r :: leaks).
      split; [cbn; rewrite Hh; solve_Permutation|cbn; lia].
Qed.

Lemma safe_bus_do base op b t h :
  op <> LoadDev PlatDev -> bus_ok base b h ->
  safe answers (bus_do op b) t h (fun b' _ h' => bus_ok base b' h' /\
    (op = UnloadDrv -> b_class b' = None /\ b_dev b' = b_dev b) /\
    (op = UnloadDev SkelDev -> b_class b' = b_class b /\ b_dev b' = None)).
Proof.
  intros Hop Hb. destruct op as [| |m|m]; cbn [bus_do].
  - destruct (b_class b) as [c|] eqn:Hc; [by apply safe_ret|]. apply safe_bind.
    eapply safe_mono; [by eapply safe_load_drv|]. intros [ret c] t1 h1 (b1 & Hb1 & ->). destruct (ret =? 0).
    + eapply safe_mono; [by apply safe_bind_if_both|]. by intros b2 t2 h2 H2.
    + by apply safe_ret.
  - apply safe_bind. eapply safe_mono; [by apply safe_unbind|]. intros b1 t1 h1 (Hb1 & Hc & Hm & Hn).
    destruct (b_class b1) as [c|] eqn:Hc1; [|by apply safe_ret].
    destruct Hb1 as [Hd Hbd (leaks & Hh & Hl)]. apply safe_bind. destruct b1 as [cl m data f]. cbn [b_class b_dev b_data b_failed] in *. subst cl data m. cbn in Hh. unfold skel_exit.
    eapply safe_put; [done..|exact Hh|]. intros _ t2 h2 H2.
    eapply safe_put; [done..|exact H2|]. intros _ t3 h3 H3. do 2 apply safe_ret.
    split; [|done]. split; [done|done|]. by exists leaks.
  - case_bool_decide as E; [by apply safe_ret|]. destruct m; [|done]. destruct Hb as [Hd Hbd (leaks & Hh & Hl)].
    cbn [dev_init]. unfold skel_dev_init. kcbn.
    apply safe_call. intros r _. kred. destruct (r =? 0); kcbn; [|by apply safe_ret; split; [split; [..|exists leaks]|]].
    destruct b as [cl m data f]. cbn [b_class b_dev b_data b_failed] in *. destruct m as [[]|]; [done|done|].
    assert (data = None) as -> by (destruct data as [d|]; [by destruct (Hbd d eq_refl) as (_ & _ & ?)|done]).
    eapply safe_mono; [apply (safe_bind_if_both base)|by intros b2 t2 h2 H2]; [|done].
    split; [done|done|]. exists leaks. split; [|done]. unfold device_res, driver_res, bound_res in *. cbn in *.
    rewrite Hh. solve_Permutation.
  - case_bool_decide as E.
    2:{ apply safe_ret. split; [done|]. split; [done|]. intros [= ->]. split; [done|].
        pose proof (bo_dev _ _ _ Hb). by destruct (b_dev b) as [[]|]. }
    apply safe_bind. eapply safe_mono; [by apply safe_unbind|].
    intros b1 t1 h1 ([Hd Hbd (leaks & Hh & Hl)] & Hc & Hm & Hn). apply safe_bind. rewrite E in Hm.
    destruct b1 as [cl m1 data f]. cbn [b_class b_dev b_data b_failed] in *. subst data m1. cbn in Hh. destruct m; [|done].
    unfold dev_exit, skel_dev_exit.
    apply (safe_put _ _ (RPdev "nolan" 1) _ _ _ (driver_res (Bus cl None None f) ++ map RClass leaks ++ base));
      [done..|rewrite Hh; solve_Permutation|]. intros _ t2 h2 H2. do 2 apply safe_ret.
    split; [|by split]. split; [done|done|]. exists leaks. split; [exact H2|done].
Qed.

Lemma safe_bus_ops base ops b t h :
  LoadDev PlatDev ∉ ops -> bus_ok base b h ->
  safe answers (bus_ops ops b) t h (fun b' _ h' => bus_ok base b' h').
Proof.
  intros Hops Hb. revert b t h Hb. induction ops as [|op ops IH]; intros b t h Hb; [by apply safe_ret|].
  apply not_elem_of_cons in Hops as [Hop Hops]. cbn [bus_ops]. apply safe_bind.
  eapply safe_mono; [by apply safe_bus_do|]. intros b1 t1 h1 [Hb1 _]. by apply IH.
Qed.

Lemma safe_unload_all base b t h :
  bus_ok base b h ->
  safe answers (bus_ops unload_all b) t h (fun b' _ h' => bus_ok base b' h' /\ b_class b' = None /\ b_dev b' = None).
Proof.
  intros Hb. cbn [bus_ops unload_all]. apply safe_bind.
  eapply safe_mono; [by apply safe_bus_do|]. intros b1 t1 h1 (Hb1 & H1 & _). destruct (H1 eq_refl) as [Hc1 Hd1].
  cbn beta. apply safe_bind. eapply safe_mono; [by apply safe_bus_do|]. intros b2 t2 h2 (Hb2 & _ & H2).
  destruct (H2 eq_refl) as [Hc2 Hd2]. apply safe_bind. unfold bus_do. rewrite bool_decide_eq_false_2 by congruence.
  do 2 apply safe_ret. split; [done|]. split; congruence.
Qed.

Lemma bus_ok_unloaded base b h :
  bus_ok base b h -> b_class b = None -> b_dev b = None ->
  exists leaks, h ≡ₚ map RClass leaks ++ base /\ (length leaks <= b_failed b)%nat.
Proof.
  intros [_ Hbd (leaks & Hh & Hl)] Hc Hm. exists leaks. split; [|done]. rewrite Hh.
  unfold bound_res, driver_res, device_res. destruct (b_data b) as [dev|]; [by destruct (Hbd dev eq_refl) as (_ & _ & ?); congruence|].
  by rewrite Hc, Hm.
Qed.

(** ** Properties *)

(** C32: Load and unload the driver skel_drv.c and the device skel_dev.c in any
    order and any number of times, whatever kernel call fails, then unload
    both: nothing crashes or is given back twice, and all that can be left is
    a class for each failed load of the driver.  While skel_dev.c is loaded,
    plat_dev.c, whose device has the same name and number, is refused and
    changes nothing. *)
Theorem platform_sessions_tidy ops o t base :
  conforming o -> LoadDev PlatDev ∉ ops ->
  (exists b tr h leaks, run o t base (bus_session ops) = Fin b tr h /\
     h ≡ₚ map RClass leaks ++ base /\ (length leaks <= b_failed b)%nat) /\
  (exists b tr h, run o t base (bus_ops ops empty_bus) = Fin b tr h /\
     (forall dev, b_data b = Some dev -> is_Some (b_class b) /\ b_dev b = Some SkelDev) /\
     (b_dev b = Some SkelDev -> exists tr', run o tr h (bus_do (LoadDev PlatDev) b) = Fin b tr' h)).
Proof.
  intros Ho Hops.
  assert (bus_ok base empty_bus base) as H0 by (split; [done|done|by exists []]).
  split.
  - destruct (safe_run answers o (bus_session ops) t base
      (fun b _ h => bus_ok base b h /\ b_class b = None /\ b_dev b = None) Ho) as (b & tr & h & Hr & Hb & Hcl & Hd).
    { apply safe_bind. eapply safe_mono; [by apply safe_bus_ops|]. intros b1 t1 h1 Hb1. by apply safe_unload_all. }
    destruct (bus_ok_unloaded _ _ _ Hb Hcl Hd) as (leaks & Hh & Hl). by exists b, tr, h, leaks.
  - destruct (safe_run answers o _ t base _ Ho (safe_bus_ops base ops empty_bus t base Hops H0)) as (b & tr & h & Hr & Hb).
    exists b, tr, h. split; [done|]. split; [by intros dev Hdev; destruct (bo_bound _ _ _ Hb dev Hdev) as (_ & H1 & H2)|]. intros Hd.
    unfold bus_do. rewrite bool_decide_eq_false_2 by congruence. cbn [dev_init]. unfold plat_dev_init. cbn [bind run].
    destruct (bo_held _ _ _ Hb) as (leaks & Hh & _).
    assert (RPdev "nolan" 1 ∈ h) as Hin by (rewrite Hh; unfold device_res; rewrite Hd; set_solver).
    pose proof (Ho tr h (platform_device_register "nolan" 1)) as Ha. cbn [answers] in Ha.
    destruct Ha as [Ha|[_ Ha]]; [|done]. unfold settle. cbn [releases acquires drops give_back_all drop_all].
    rewrite (proj2 (Z.eqb_neq _ _)) by lia. by eexists.
Qed.

Lemma platform_sessions_tidy_witness :
  exists b tr h leaks, run good_oracle [] [] (bus_session [LoadDev SkelDev; LoadDrv; UnloadDev SkelDev; LoadDev SkelDev]) =
    Fin b tr h /\ h ≡ₚ map RClass leaks ++ [] /\ (length leaks <= b_failed b)%nat.
Proof.
  apply (platform_sessions_tidy [LoadDev SkelDev; LoadDrv; UnloadDev SkelDev; LoadDev SkelDev] good_oracle [] []);
    [apply good_oracle_conforming|set_solver].
Defined.

(** Whichever of the two comes second, skel_drv.c or plat_dev.c, the probe
    meets a device without resources and crashes. *)
Theorem plat_dev_crashes_driver :
  (exists t h, run good_oracle [] [] (bus_session [LoadDrv; LoadDev PlatDev]) = Fault "res->start of NULL res" t h) /\
  (exists t h, run good_oracle [] [] (bus_session [LoadDev PlatDev; LoadDrv]) = Fault "res->start of NULL res" t h) /\
  (exists b t h, run good_oracle [] [] (bus_session [LoadDev SkelDev; LoadDev PlatDev; LoadDrv]) = Fin b t h /\ h = []).
Proof.
  split; [|split].
  - do 2 eexists. vm_compute. reflexivity.
  - do 2 eexists. vm_compute. reflexivity.
  - do 3 eexists. split; [vm_compute; reflexivity|reflexivity].
Qed.
