(* ===== verification/Modules.v ===== *)
(** * The modules loaded side by side

    The drivers share the kernel: its heap, its device numbers, its interrupt
    lines and its name spaces.  Here their load and unload routines run at the
    same time, interleaved call by call in any way, each module being loaded and
    unloaded any number of times; only my_spin.c also serves interrupts and
    reads in between.  [Loaders] has the same modules one after the other. *)
From stdpp Require Import sets strings.
From S2P Require Import Prelude Kernel Frame Loaders ProcText.
From S2P Require MyChar MyWait KeySpin RadixWalk IoPort FsTree ListCache MemExamples Pci.
Local Open Scope Z_scope.

(** A routine that runs a module, with the /proc entries and file system
    types it names. *)
Record life := Life { l_names : list res; l_prog : prog unit }.

Definition runs {St} (names : list string) (n : nat) (init : prog (Z * St)) (exit : St -> prog unit) : life :=
  Life (map RProc names) (load_cycles n init exit).

(** my_spin.c loaded, used by interrupts and reads, and unloaded. *)
Definition spin_life (ops : list KeySpin.op) : life :=
  Life [] (let! _ <- (let! (ret, d) <- KeySpin.my_init ;;
                      if c_true ret then Ret None
                      else let! (d, log) <- KeySpin.session ops d [] ;; let! _ <- KeySpin.my_exit d ;; Ret (Some (d, log))) ;;
           Ret tt).

(** The modules; the [i]-th is loaded and unloaded [n i] times.  Of the file
    systems, which all register the same name, there is one. *)
Definition lives (n : nat -> nat) (ops : list KeySpin.op) : list life :=
  [runs [] (n 0%nat) (MyChar.my_init MyChar.MY_MAJOR) MyChar.my_exit;
   runs [] (n 1%nat) (MyWait.my_init 50) MyWait.my_exit;
   runs [] (n 2%nat) (mutex_init 50) mutex_exit;
   runs ["proc_pipe"] (n 3%nat) (pipe_init 60) pipe_exit;
   runs [] (n 4%nat) atomic_init atomic_exit;
   runs ["proc_key"] (n 5%nat) KeySpin.like_irq_init KeySpin.like_irq_exit;
   runs ["proc_disable"; "proc_enable"] (n 6%nat) irq_disable_init irq_disable_exit;
   runs [] (n 7%nat) tasklet_init_ tasklet_exit;
   runs ["proc_timer"] (n 8%nat) timer_init timer_exit;
   runs ["proc_time"] (n 9%nat) time_init time_exit;
   runs ["proc_sdelay"] (n 10%nat) delay_init delay_exit;
   runs ["list_buffer"] (n 11%nat) RadixWalk.list_buffer_init RadixWalk.list_buffer_exit;
   runs ["list_cache"] (n 12%nat) ListCache.my_init ListCache.my_exit;
   runs [] (n 13%nat) (MemExamples.kmalloc_init 1) MemExamples.kmalloc_exit;
   runs [] (n 14%nat) (MemExamples.page1_init 0) (MemExamples.page1_exit 0);
   runs [] (n 15%nat) IoPort.ioport_init IoPort.ioport_exit;
   runs ["proc_slab"] (n 16%nat) (slab_init ITEM_LEN) slab_exit;
   runs [] (n 17%nat) Pci.my_init Pci.my_exit;
   Life [RFs "example_fs"] (load_cycles (n 18%nat) FsTree.init_example_fs FsTree.exit_example_fs);
   spin_life ops].

Definition start (base : list res) (ls : list life) : pool := Pool base (map l_prog ls).

(** ** Each module alone *)

(** The names a routine uses, by running through its calls. *)
Ltac confine :=
  repeat match goal with
  | |- confined _ (bind _ _) => apply confined_bind; [|intros]
  | |- confined _ (if ?b then _ else _) => destruct b
  | |- confined _ (match ?x with _ => _ end) => destruct x
  | |- confined _ (Call _ _) => split; [reflexivity|split; [set_solver|intros ?]]
  | |- confined _ (Ret _) => exact I
  | |- confined _ (Oops _) => exact I
  end.

Lemma confined_slab_free cache items : confined [RProc "proc_slab"] (slab_free_all cache items).
Proof. induction items as [|p items IH]; cbn [slab_free_all]; confine. exact IH. Qed.

Lemma confined_slab_fill n cache items : confined [RProc "proc_slab"] (slab_fill n cache items).
Proof. revert items. induction n as [|n IH]; intros items; cbn [slab_fill]; confine. apply IH. Qed.

(** Also through the definitions of the routines. *)
Ltac head t := lazymatch t with ?f _ => head f | _ => t end.
Ltac confine_all :=
  repeat (confine; cbv beta zeta; match goal with
  | |- confined _ (slab_fill _ _ _) => apply confined_slab_fill
  | |- confined _ (slab_free_all _ _) => apply confined_slab_free
  | |- confined _ ?p => let f := head p in unfold f
  end); confine.

Lemma owned_runs {St} names n (init : prog (Z * St)) exit `{!Balanced init exit} :
  confined names init -> (forall st, confined names (exit st)) -> owned names (load_cycles n init exit) [].
Proof.
  intros Hi He. split; [by apply confined_cycles| |by intros x ?%elem_of_nil].
  intros t. apply load_cycles_safe; [done|constructor].
Qed.

Lemma confined_take_keys n l : confined [] (KeySpin.take_keys n l).
Proof.
  revert l. induction n as [|n IH]; intros l; cbn [KeySpin.take_keys]; confine. apply IH.
Qed.

Lemma confined_free_keys l : confined [] (KeySpin.free_keys l).
Proof. induction l as [|[p v] l IH]; cbn [KeySpin.free_keys]; confine. exact IH. Qed.

Lemma confined_key_session ops d log : confined [] (KeySpin.session ops d log).
Proof.
  revert d log. induction ops as [|[|count] ops IH]; intros d log; cbn [KeySpin.session]; [exact I| |];
    (apply confined_bind; [|intros [[? ?] ?]; apply IH]).
  - unfold KeySpin.key_func. confine.
  - unfold KeySpin.my_read. cbn zeta. confine. apply confined_take_keys.
Qed.

Lemma owned_spin ops :
  zlen ops < 2 ^ 62 -> Forall (fun o => match o with KeySpin.Read count => 0 <= count | KeySpin.Key => True end) ops ->
  owned [] (l_prog (spin_life ops)) [].
Proof.
  intros Hlen Hops. split; [| |by intros x ?%elem_of_nil].
  - unfold spin_life. cbn [l_prog]. unfold KeySpin.my_init, KeySpin.my_exit. confine;
      try apply confined_key_session. apply confined_free_keys.
  - intros t. unfold spin_life. cbn [l_prog]. apply safe_bind. eapply safe_mono; [apply KeySpin.spin_session_safe; [done|done|constructor]|].
    intros out t' h [-> _]. by apply safe_ret.
Qed.

Lemma lives_owned n ops :
  zlen ops < 2 ^ 62 -> Forall (fun o => match o with KeySpin.Read count => 0 <= count | KeySpin.Key => True end) ops ->
  Forall2 (fun ns p => owned ns p []) (map l_names (lives n ops)) (map l_prog (lives n ops)).
Proof.
  intros Hlen Hops. unfold lives, runs. cbn [map l_names l_prog].
  repeat (apply Forall2_cons; split; [try (apply owned_runs; [apply _|confine_all|intros; confine_all])|]); [|constructor].
  by apply owned_spin.
Qed.

Lemma lives_names n ops : map l_names (lives n ops) =
  [[]; []; []; [RProc "proc_pipe"]; []; [RProc "proc_key"]; [RProc "proc_disable"; RProc "proc_enable"]; [];
   [RProc "proc_timer"]; [RProc "proc_time"]; [RProc "proc_sdelay"]; [RProc "list_buffer"]; [RProc "list_cache"];
   []; []; []; [RProc "proc_slab"]; []; [RFs "example_fs"]; []].
Proof. reflexivity. Qed.

Lemma lives_apart n ops base : clean base -> apart (map l_names (lives n ops)) base.
Proof.
  intros Hc. rewrite lives_names. apply apart_nodup; [|by repeat constructor|done].
  cbn [concat app]. apply (bool_decide_eq_true_1 _). vm_compute. reflexivity.
Qed.

(** ** Properties *)

(** C5: The load and unload routines of twenty modules run side by side, as
    often as one likes, and the interrupts and reads of my_spin.c between its
    load and unload; they are interleaved call by call in any way, with any
    kernel call failing.  In these routines nobody crashes or gives back what
    is not his, every module can
    always go on, every interleaving comes to an end, a module that has ended
    holds nothing, and when all have ended what is held is what was held
    before. *)
Theorem modules_coexist n ops base s :
  zlen ops < 2 ^ 62 -> Forall (fun o => match o with KeySpin.Read count => 0 <= count | KeySpin.Key => True end) ops ->
  clean base -> star pool_step (start base (lives n ops)) s ->
  (forall i p, progs s !! i = Some p -> can_go (held s) p) /\
  Acc (fun s2 s1 => pool_step s1 s2) s /\
  (exists Xs, held s ≡ₚ concat Xs ++ base /\ forall i, progs s !! i = Some (Ret tt) -> Xs !! i = Some []) /\
  (Forall finished (progs s) -> held s ≡ₚ base).
Proof.
  intros Hlen Hops Hc Hstar. pose proof (lives_apart n ops base Hc) as Hap.
  assert (pool_inv (map l_names (lives n ops)) base s) as Hinv.
  { eapply star_invariant; [intros s1 s2; by apply pool_inv_step| |exact Hstar]. by apply pool_inv_start, lives_owned. }
  split; [intros i p; by apply (pool_inv_can_go _ _ Hap)|]. split; [apply pool_ends|].
  split; [|by apply (pool_inv_finished _ _ _ Hinv)].
  destruct Hinv as (Xs & Hh & _ & Hall). exists Xs. split; [done|]. intros i Hi.
  destruct (Hall i _ Hi) as (ns & X & _ & HX & Ho). rewrite HX. f_equal. apply (ow_safe _ _ _ Ho []).
Qed.

(** mychar.c and my_wait.c, which want the same major number, and a keyboard
    interrupt of my_spin.c, call by call in turn. *)
Definition two_modules : nat -> nat := fun i => match i with 0%nat | 1%nat => 1%nat | _ => 0%nat end.
Definition in_turn : list nat := [0; 1; 19; 0; 1; 19; 0; 1; 19; 0; 1; 19; 19]%nat.

Lemma modules_coexist_witness :
  exists s, pool_exec good_oracle in_turn (start [] (lives two_modules [KeySpin.Key])) = Some s /\
    length (held s) = 12%nat /\ forall i p, progs s !! i = Some p -> can_go (held s) p.
Proof.
  destruct (pool_exec good_oracle in_turn (start [] (lives two_modules [KeySpin.Key]))) as [s|] eqn:E;
    [|vm_compute in E; discriminate].
  exists s. split; [reflexivity|]. split.
  - assert (option_map (fun s => length (held s)) (pool_exec good_oracle in_turn (start [] (lives two_modules [KeySpin.Key]))) = Some 12%nat)
      as H by (vm_compute; reflexivity). rewrite E in H. by injection H.
  - apply (modules_coexist two_modules [KeySpin.Key] [] s);
      [reflexivity|by repeat constructor|constructor|].
    by apply (pool_exec_star good_oracle in_turn); [apply good_oracle_conforming|].
Defined.
