(* ===== verification/ModSyms.v ===== *)
(** * module/, 0_variable .. 3_Parameter and debug/my_print.c: symbols of modules

    Modules of a few lines: mymod1.c has parameters and exports a function,
    mymod2.c calls it; 2_func/func.c and 1_Exported_variable/variable.c export
    a function and a variable, 3_Parameter/parameter.c has parameters only.
    What they do is print; the module loader (the kernel's) loads a module
    only when its symbols are there and keeps a module that is in use. *)
From stdpp Require Import sets strings.
From S2P Require Import Prelude Kernel.
Local Open Scope Z_scope.

(** A line as it is given to [printk], without its end. *)
Definition line : Type := list Z.

(** ** The modules *)

(** module/mymod1.c: the parameters are [order], [many] and [num]; the loop
    runs over the array, whatever [num] says. *)
Definition order_default : Z := 5.
Definition many_default : list Z := [1; 2; 3; 4; 5].
Definition num_default : Z := 20.

Definition my_print : list line := [str "print from mymod1.c"].

Fixpoint print_many (i : Z) (many : list Z) : list line :=
  match many with
  | [] => []
  | v :: rest => (str "many[" ++ dec i ++ str "] = " ++ dec (s32 v)) :: print_many (i + 1) rest
  end.

Definition mymod1_init (order : Z) (many : list Z) (num : Z) : Z * list line :=
  (0, (str "Enter my_init, order=" ++ dec (s32 order)) :: print_many 0 many ++ [str "num = " ++ dec (s32 num)]).
Definition mymod1_exit : list line := [str "Exit my module"].

(** module/mymod2.c: [None] is a call of a symbol that is not there. *)
Definition mymod2_init (my_print : option (list line)) : option (Z * list line) :=
  printed ← my_print; Some (0, str "call from mymod2.c" :: printed).
Definition mymod2_exit : list line := [str "Exit mymod2.c"].

(** 2_func/func.c *)
Definition no_exported_example : Z * list line :=
  (0, [str "it's no_exported_example no body will call it directly."]).
Definition exported_example : Z * list line :=
  (0, str "it's exported_example . every body can call it" :: snd no_exported_example).

(** 3_Parameter/parameter.c and 1_Exported_variable/variable.c *)
Definition value_default : Z := 5.
Definition s_default : string := "hello dog".
Definition module_variable : Z := 0.

(** debug/my_print.c, compiled as the file [name]. *)
Definition debug_init (name : string) : Z * list line :=
  (0, map (fun i => str "<" ++ dec i ++ str "> Debug level " ++ dec i ++ str ", in " ++ str name) (seqZ 0 8)).
Definition debug_exit (name : string) : list line :=
  [str "Exit from " ++ str name ++ str "-my_exit"; []].

(** ** Loading and unloading *)
Inductive kmod := Mymod1 | Mymod2 | Func | Exported_variable | Parameter_example | My_print.
#[global] Instance kmod_eq_dec : EqDecision kmod.
Proof. solve_decision. Defined.

Definition exports (m : kmod) : list string :=
  match m with
  | Mymod1 => ["my_print"]
  | Func => ["exported_example"]
  | Exported_variable => ["module_variable"]
  | _ => []
  end.
Definition imports (m : kmod) : list string := match m with Mymod2 => ["my_print"] | _ => [] end.

(** The functions behind a symbol while [loaded] are loaded. *)
Definition my_print_of (loaded : list kmod) : option (list line) :=
  if bool_decide (Mymod1 ∈ loaded) then Some my_print else None.

Definition init (m : kmod) (loaded : list kmod) : option (Z * list line) :=
  match m with
  | Mymod1 => Some (mymod1_init order_default many_default num_default)
  | Mymod2 => mymod2_init (my_print_of loaded)
  | My_print => Some (debug_init "my_print.c")
  | Func | Exported_variable | Parameter_example => Some (0, [])
  end.

Definition exit (m : kmod) : list line :=
  match m with
  | Mymod1 => mymod1_exit
  | Mymod2 => mymod2_exit
  | My_print => debug_exit "my_print.c"
  | _ => []
  end.

Definition provided (loaded : list kmod) : list string := flat_map exports loaded.
Definition uses (u m : kmod) : bool := existsb (fun s => bool_decide (s ∈ exports m)) (imports u).

Inductive modop := Insmod (m : kmod) | Rmmod (m : kmod).

(** A request and what is printed; refused requests print nothing. *)
Definition mod_do (op : modop) (loaded : list kmod) : option (list kmod * list line) :=
  match op with
  | Insmod m =>
      if bool_decide (m ∈ loaded) then Some (loaded, [])
      else if forallb (fun s => bool_decide (s ∈ provided loaded)) (imports m) then
        '(ret, lines) ← init m loaded;
        Some (if ret =? 0 then m :: loaded else loaded, lines)
      else Some (loaded, [])
  | Rmmod m =>
      if bool_decide (m ∈ loaded) && negb (existsb (fun u => uses u m) loaded) then
        Some (filter (fun u => u <> m) loaded, exit m)
      else Some (loaded, [])
  end.

Fixpoint mod_run (ops : list modop) (loaded : list kmod) : option (list kmod * list line) :=
  match ops with
  | [] => Some (loaded, [])
  | op :: rest =>
      '(loaded1, lines1) ← mod_do op loaded;
      '(loaded2, lines2) ← mod_run rest loaded1;
      Some (loaded2, lines1 ++ lines2)
  end.

(** ** Properties *)
Definition resolved (loaded : list kmod) : Prop := Mymod2 ∈ loaded -> Mymod1 ∈ loaded.

Lemma provided_my_print loaded : "my_print"%string ∈ provided loaded -> Mymod1 ∈ loaded.
Proof.
  induction loaded as [|m loaded IH]; cbn; [by intros ?%elem_of_nil|]. unfold provided in IH.
  intros [H|H]%elem_of_app; [|right; by apply IH].
  destruct m; cbn in H; try (by apply elem_of_nil in H); [left|..];
    apply list_elem_of_singleton in H; discriminate H.
Qed.

Lemma mod_do_resolved op loaded :
  resolved loaded -> exists loaded' lines, mod_do op loaded = Some (loaded', lines) /\ resolved loaded'.
Proof.
  intros Hr. destruct op as [m|m]; cbn [mod_do].
  - case_bool_decide as Hm; [by exists loaded, []|].
    destruct (forallb _ (imports m)) eqn:E; [|by exists loaded, []].
    destruct m; cbn [init mbind option_bind];
      try (by do 2 eexists; split; [reflexivity|intros Hin; right; apply Hr; by apply elem_of_cons in Hin as [|]]).
    cbn in E. rewrite andb_true_r in E. apply bool_decide_eq_true_1, provided_my_print in E.
    unfold my_print_of. rewrite bool_decide_eq_true_2 by done. cbn. do 2 eexists. split; [reflexivity|].
    intros _. by right.
  - destruct (bool_decide (m ∈ loaded) && negb (existsb (fun u => uses u m) loaded)) eqn:E; [|by exists loaded, []].
    do 2 eexists. split; [reflexivity|]. intros Hin. apply list_elem_of_filter in Hin as [Hne Hin].
    apply list_elem_of_filter. split; [|by apply Hr]. intros <-.
    apply andb_true_iff in E as [_ E]. apply negb_true_iff in E.
    assert (existsb (fun u => uses u Mymod1) loaded = true) as Ht; [|congruence].
    apply existsb_exists. exists Mymod2. split; [by apply list_elem_of_In|reflexivity].
Qed.

(** Load and unload the modules in any order: no module calls a function that
    is not there, and mymod2.c, while it is loaded, has mymod1.c beside it. *)
Theorem symbols_resolved ops :
  exists loaded lines, mod_run ops [] = Some (loaded, lines) /\ (Mymod2 ∈ loaded -> Mymod1 ∈ loaded).
Proof.
  assert (resolved []) as H by (by intros ?%elem_of_nil). revert H. generalize (@nil kmod) as l.
  induction ops as [|op ops IH]; intros l Hl; cbn [mod_run]; [by exists l, []|].
  destruct (mod_do_resolved op l Hl) as (l1 & t1 & -> & H1). cbn [mbind option_bind].
  destruct (IH l1 H1) as (l2 & t2 & -> & H2). by exists l2, (t1 ++ t2).
Qed.

(** mymod2.c before mymod1.c is refused; after it, it prints mymod1.c's line. *)
Theorem symbols_order :
  option_map snd (mod_run [Insmod Mymod2; Insmod Mymod1; Insmod Mymod2; Rmmod Mymod1; Rmmod Mymod2; Rmmod Mymod1] []) =
  Some (snd (mymod1_init 5 [1; 2; 3; 4; 5] 20) ++ str "call from mymod2.c" :: my_print ++ mymod2_exit ++ mymod1_exit).
Proof. vm_compute. reflexivity. Qed.
