(* ===== verification/Copies.v ===== *)
(** * Files that repeat another file of the repository

    time/my_wait2.c repeats time/my_wait.c, debug/my_proc2.c repeats
    debug/my_proc.c, and so does debug/my_list.c, fs/super_orig.c the reference counting of
    fs/inode_orig.c, fs/write_page and fs/buffer_read take their address
    space operations from fs/get_block and fs/submit_bh_readpage, and
    fs/jbd2 its reads and writes from fs/get_block but for the size it maps;
    platform/fake_pata_driver.c has the set-up of pata_platform.c.  Where the
    text is the same the definition is the same, and the theorems about it are
    theorems about both. *)
From S2P Require Import Prelude Kernel.
From S2P Require MyWait ProcBuf FsPage Journal PataPlatform Devpts DevptsLife FsTree.
Local Open Scope Z_scope.

(** ** time/my_wait2.c *)
Module MyWait2.
Definition mydev := MyWait.mydev.
Definition init_dev := MyWait.init_dev.
Definition my_open := MyWait.my_open.
Definition my_release := MyWait.my_release.
Definition my_read_step := MyWait.my_read_step.
Definition my_write_step := MyWait.my_write_step.
Definition thread_step := MyWait.thread_step.
Definition my_init := MyWait.my_init.
Definition my_exit := MyWait.my_exit.
End MyWait2.

(** ** debug/my_proc2.c *)
Module MyProc2.
Definition procbuf := ProcBuf.procbuf.
Definition info := ProcBuf.info.
Definition proc_read := ProcBuf.proc_read.
Definition proc_write := ProcBuf.proc_write.
Definition my_init := ProcBuf.my_init.
Definition my_exit := ProcBuf.my_exit.
End MyProc2.

(** ** debug/my_list.c: the text of my_proc.c without the declaration of
    [ker_buf], and with comments that say what to write *)
Module MyList.
Definition info := ProcBuf.info.
Definition proc_read := ProcBuf.proc_read.
Definition proc_write := ProcBuf.proc_write.
Definition my_init := ProcBuf.my_init.
Definition my_exit := ProcBuf.my_exit.
End MyList.

(** ** fs/write_page/address_mapping.c and fs/buffer_read/address_mapping.c *)
Module WritePage.
Definition example_get_block := FsPage.GetBlock.example_get_block.
Definition example_write_begin := FsPage.GetBlock.example_write_begin.
Definition example_write_end := FsPage.GetBlock.example_write_end.
End WritePage.

Module BufferRead.
Definition example_readpage := FsPage.SubmitBh.example_readpage.
End BufferRead.

(** ** fs/inode_orig.c: the registration of the teaching file systems *)
Module DevptsModule.
Definition init_example_fs := FsTree.init_example_fs.
Definition exit_example_fs := FsTree.exit_example_fs.
End DevptsModule.

(** ** fs/super_orig.c: the references of fs/inode_orig.c *)
Module SuperOrig.
Definition pts_sb_from_inode := Devpts.pts_sb_from_inode.
Definition devpts_get_ref := DevptsLife.devpts_get_ref.
Definition devpts_put_ref := DevptsLife.devpts_put_ref.
End SuperOrig.

(** ** platform/fake_pata_driver.c: the part it shares *)
Module FakePataDriver.
Definition pata_platform_set_mode := PataPlatform.pata_platform_set_mode.
Definition pata_platform_setup_port := PataPlatform.pata_platform_setup_port.
End FakePataDriver.

(** ** fs/jbd2/address_mapping.c: reads and writes *)
Module Jbd2.
Import FsPage.GetBlock.

(** It prints the UUID of [example_journal], whose NULL it does not expect
    ([None]), and maps the size it is asked for. *)
Definition example_get_block (example_journal iblock : Z) (bh_result : buffer_head) : option (Z * buffer_head) :=
  if example_journal =? 0 then None else Some (0, Bh 0 true (u64 (1 * b_size bh_result))).

Definition walk_page_buffers := @Journal.walk_page_buffers.
Definition example_journalled_write_begin := example_write_begin.
Definition example_journalled_write_end := example_write_end.
Definition example_journalled_set_page_dirty := Journal.example_journalled_set_page_dirty.

(** fs/jbd2 maps exactly the size of the buffer for every size a buffer can
    have, where fs/get_block claims twice the size; both map every block of a
    file to block 0 of the device.  Without a journal, as after a failed
    mount, fs/jbd2 crashes at the first read or write. *)
Theorem jbd2_maps_buffer j iblock iblock' bh :
  0 <= b_size bh < 2 ^ 63 ->
  (j <> 0 -> exists bh', example_get_block j iblock bh = Some (0, bh') /\ b_size bh' = b_size bh /\
     b_blocknr bh' = 0 /\ example_get_block j iblock' bh = Some (0, bh') /\
     b_size (snd (FsPage.GetBlock.example_get_block iblock bh)) = 2 * b_size bh) /\
  example_get_block 0 iblock bh = None.
Proof.
  intros Hb. split; [|done]. intros Hj. unfold example_get_block. rewrite (proj2 (Z.eqb_neq j 0)) by done.
  eexists. split; [reflexivity|]. unfold FsPage.GetBlock.example_get_block. cbn [b_size b_blocknr snd].
  rewrite !u64_small by lia. split; [lia|done].
Qed.

Lemma jbd2_maps_buffer_witness :
  exists bh', example_get_block 8192 5 (Bh 7 false 4096) = Some (0, bh') /\ b_size bh' = 4096.
Proof.
  destruct (proj1 (jbd2_maps_buffer 8192 5 6 (Bh 7 false 4096) ltac:(cbn; lia))) as (bh' & H1 & H2 & _); [lia|].
  by exists bh'.
Defined.
End Jbd2.
